(* ===== verification/_CoqProject ===== *)
-Q . S2P
Prelude.v
RustStd.v
Config.v
Client.v
Accept.v
Constants.v
Reader.v
Host.v
Display.v
SocketText.v
SocketV6.v
ConfigToml.v
TomlText.v
Request.v
Handshake.v
Auth.v
Reply.v
F64.v
Model.v
Health.v
Bandwidth.v
Limiter.v
Acquire.v
Routing.v
Registry.v
Service.v
Session.v
Gateway.v
NodeHandler.v
NodeAgent.v
SameSession.v
Chain.v
Timed.v
Loadgen.v
Api.v
Http.v
Concurrent.v
Telemetry.v
GatewayRun.v
Main.v
Routes.v
Cluster.v
Startup.v
NodeRun.v
