(* ===== verification/Prelude.v ===== *)
(** * RustProxy: a verification of the proxy, the node agent and the control plane

    RustProxy is a distributed SOCKS5 proxy. Clients speak SOCKS5 to a gateway;
    for each session the gateway asks the control plane for a node, connects to
    it, speaks SOCKS5 to it in turn and relays bytes; the node connects to the
    target. Nodes register with the control plane and send it heartbeats; the
    control plane keeps them in an SQLite table, classifies their health,
    accounts their bandwidth and selects the best one. This library models that
    code as Rocq functions and step relations and proves it correct. Paths below
    are under [src/crates/].

    ** The files, in dependency order

    - [Prelude]: results with errors and panics ([outcome]), stateful code
      ([SM]) with its notations [let?] and [let!], machine integers with their
      wrap-around, bytes, the tactics [inv_ok], [inv_run], [split_tests] and the
      hint databases [rust], [wf] and [safe].
    - [RustStd]: strings and UTF-8, slices with their bounds checks.
    - [Config]: [common/src/config.rs], [common/src/logging.rs]: configuration
      records with their defaults, log levels.
    - [Client]: the HTTP client that [gateway/src/proxy_client.rs] and
      [node/src/cp_client.rs] share (base URL, bearer token, status test).
    - [Accept]: the accept loops of [Gateway::run] ([gateway/src/gateway.rs])
      and [NodeServer::run] ([node/src/server.rs]) as a step relation: the loop,
      one task per connection, the semaphore, the shutdown token; and the final
      drain loop.
    - [Constants], [Reader], [Host], [Display], [Request], [Handshake], [Auth],
      [Reply]: the crate [protocol], a file per source file ([Display] holds the
      text form of addresses of [host.rs]).
    - [SocketText]: the standard library's parser of socket addresses and
      [to_socket_addrs], by which the node agent dials the text of a target;
      [SocketV6]: the text of socket addresses and its round trip, IPv6 included,
      and what is dialed for the text of any target.
    - [ConfigToml]: the deserializers that [serde] derives for the structs of
      [common/src/config.rs], field by field; the TOML parser and [humantime] are
      the class [Toml]. [TomlText] is an instance of it for concrete files, with
      the texts of the files under [src/configs/].
    - [F64]: binary64 arithmetic (the Standard Library's [SpecFloat]) with a
      theory of correct rounding, for the scores and the rate limiter.
    - [Model], [Health], [Bandwidth], [Limiter], [Acquire], [Routing], [Registry],
      [Service], [Api]: the crate [control-plane]. [Bandwidth] is the allocator
      of [bandwidth.rs], both as functions and as a relation of atomic steps of
      concurrent tasks; [Limiter] is its [RateLimiter] and
      [Acquire] the analysis of its waiting loop. [Registry] has the
      trait as the class [NodeRepository] with its laws [RepositoryLaws], and
      the SQLite implementation as statements on a table. [Service] is proved
      against the laws only. [Api] has the handlers, the route table and the
      sweep task of [server.rs], one request at a time.
    - [Http]: what happens to a request between the clients and the router: the
      URL parser of [reqwest], which removes dot segments and cuts off queries,
      and the transport of header values; the class [Http] with its laws.
    - [Concurrent]: [run] of [control-plane/src/server.rs]: handlers interleaved
      at their awaits on the repository, the sweep task, clients that go away,
      the graceful shutdown, as a step relation ([cp_step]) whose tasks, run
      alone, are the handlers of [Api].
    - [Telemetry]: the [metrics.rs] of the three services,
      [gateway/src/metrics_server.rs], the metrics handler and the error
      responses of [api.rs]; the [metrics] crate is the class [Facade]. A handler
      registered with [axum]'s [get] serves [HEAD] too.
    - [Session]: the stream steps that the two connection handlers share, word
      for word up to the error type, which is the class [SessionError].
    - [Gateway]: [gateway/src/handler.rs], [relay.rs], [proxy_client.rs],
      [metrics.rs] and the context of [gateway.rs].
    - [GatewayRun]: [Gateway::new] and [Gateway::run] from the bind to the return:
      the accept loop of [Accept] with the sessions of [Gateway] in its tasks, each
      call of a metrics macro as a step on the recorder of [Telemetry], the
      metrics server that installs it, the final wait and abort.
    - [NodeHandler], [NodeAgent]: [node/src/handler.rs], [server.rs],
      [cp_client.rs], [metrics.rs]; [NodeHandler] has the node's copies of the
      stream steps, [SameSession] compares the two handlers.
    - [Chain]: client, gateway, node and target, end to end.
    - [Timed]: the two connection handlers with the deadline of each of their
      waits: a session as a tree of waits, whose erasure is the handler of
      [Gateway] or [NodeAgent].
    - [Loadgen]: the client of [rustproxy-bin/examples/loadgen.rs].
    - [Main]: [common/src/cli.rs], [common/src/error.rs] and
      [rustproxy-bin/src/main.rs]: what each command loads and starts.
    - [Routes]: the routes of [api.rs] as a table, matched by [axum] (the class
      [Router] with its laws), and the URLs the clients build.
    - [Cluster]: node agent, control plane and gateway over HTTP ([Http] and
      [Routes]), end to end.
    - [Startup]: [main] with its configuration files read by [ConfigToml],
      [open_sqlite], [logging::init], and what follows for a gateway started from
      a file.
    - [NodeRun]: [NodeServer::run] and [heartbeat_loop] from the registration to
      the return, with the trace of the requests they send.

    ** How code is modelled

    A function that returns [Result] and may panic returns [outcome E A]; code
    that updates a state is in [SM E S]. A TCP stream ([Session.stream]) is the
    bytes its peer will send, whether the peer then closes or is silent, the
    bytes written to it and the fate of each write to come; a read with a
    deadline that gets too little ends in an I/O error or in a timeout. Dialing,
    [copy_bidirectional] and the answer of the control plane are parameters
    ([GatewayEnv], [NodeEnv]), with what is documented of them as laws
    ([GatewayNetwork], [NodeNetwork]); so are the recorder of the [metrics]
    crate ([Facade]), [reqwest]'s URLs and headers ([Http]), [axum]'s matching
    of paths ([Router]) and the TOML parser ([Toml]); each class has an instance
    for which its laws are proved. SQLite's storage can fail at any statement;
    chrono's conversions are a parameter with its laws ([Chrono]). Time is an
    argument: [RateLimiter::acquire], the drain loop and the load generator's
    [pump] are given the list of readings of the clock that their iterations
    make, which is also what bounds their recursion; theorems say how many
    readings are enough, or that none are. In [Timed] a wait takes any time up
    to its deadline and computation takes none. A task of [Concurrent] makes at
    most four repository calls, which is the fuel of [alone]; the loop over the
    load generator's arguments has a turn per argument, which is enough. [usize]
    that index buffers are [nat], other integers are [Z] with their width
    written out.

    ** What is shown

    - End to end ([Chain], [Cluster], [Loadgen]): a session through gateway and
      node reaches the requested target and relays both directions unchanged; a
      node with a plain id that is new to the control plane registers, is heard,
      and is selected or outscored by a registered one; the load generator's
      session through a gateway counts what it sent.
    - Sessions ([Gateway], [NodeAgent], [Session]): no session panics whatever
      the peers do, each is counted once; a session that dials has presented
      the configured credentials; the accepted inputs are characterised
      exactly; the streaming request reader is the whole-buffer parser; gateway
      and node treat a client alike.
    - Servers ([Accept], [GatewayRun], [NodeAgent], [NodeRun]): permits are
      never lost or exceeded, no connection passes the shutdown check after the
      shutdown, shutdown terminates (for [max_connections = 0] only by the
      deadline of its wait), heartbeats report the connections being served,
      under every interleaving of tasks; an agent registers once and then only
      sends heartbeats; the gauge of the gateway is the change since the first
      scrape in the number of sessions in their handlers, and [run] returns only
      when it has been shut down.
    - Time ([Timed], [Startup]): whatever the peers do, every session of the
      gateway and of the node agent ends, within a bound given by its timeouts
      that is reached by some session; a gateway with the default timeouts serves
      no client for longer than 510 seconds.
    - Configuration ([ConfigToml], [Startup]): a file is accepted exactly when
      it says what the structs need, fields have the value of their key or their
      documented default, and a file that is not is reported with its path and
      the first key whose value its decoder refuses, or a missing one; the
      shipped files load, and their node can join.
    - Control plane ([Registry], [Service], [Api]): the SQLite repository
      refines a finite map of nodes and always decodes; every service operation
      has its functional specification on success and on failure; the life
      cycle of a node is respected; requests without the token change nothing;
      registered nodes stay admissible and responses describe the registry.
    - Control plane under concurrency ([Concurrent]): the registry stays sound
      and loses no node however requests, disconnections and sweeps interleave,
      responses are true when they are given, the sweep can mark a node whose
      heartbeat came after its listing, a drain holds unless an operation
      that read the node before overtakes it, and shutdown completes.
    - Interfaces ([Routes], [Telemetry]): the requests of the clients reach
      their handlers when the node id is a plain URL segment; the metrics count
      from the first scrape, by [GET] or [HEAD].
    - Arithmetic ([F64], [Health], [Routing], [Limiter], [Acquire]): degradation, score
      bounds and monotonicity, selection, the rate limiter as an integer token
      bucket, and its waiting loop, which ends within five attempts from any state
      of the bucket; all about
      binary64 as the code computes it.
    - Concurrency of the allocator ([Bandwidth]): no overcommitment and a
      refinement of a ledger, for every interleaving of compare-and-swap loops.
    - Wire formats ([Request], [Reply], [Auth], [Handshake], [Host],
      [Display], [SocketText], [SocketV6]): round trips, exact acceptance, incremental
      parsing, bounds; what is dialed for the text of a target, and that the
      registered text of a node's address is dialed as the address it listens on.

    Some theorems state what the code does where its documentation says
    otherwise, e.g. [Gateway.domain_reply_times_out],
    [Service.reregistered_node_stays_offline],
    [Service.heartbeat_can_undo_drain], [Concurrent.sweep_overtakes_heartbeat],
    [NodeRun.lost_registration_is_final], [Limiter.oversized_acquire_never_returns].

    ** Not modelled

    The text of [/metrics], which is a third-party crate's; JSON, TOML, clap,
    axum, reqwest, sqlx, tracing and tokio themselves, which are parameters or
    are represented by their effect; the SQL of the migrations; the [Debug]
    instance and the one-line accessors of [ControlPlaneService]; the test
    modules. In [Concurrent] a repository call is one step: SQLite serialises
    statements. *)

From Stdlib Require Import ZArith Lia Strings.Byte.
From stdpp Require Import base tactics decidable numbers list strings gmap.

#[global] Open Scope Z_scope.

(** ** Fallible computations

    A Rust function that returns [Result<A, E>] and may also panic is modelled
    by [outcome E A]. *)
Inductive outcome (E A : Type) : Type :=
| Ok (a : A)
| Err (e : E)
| Panic.
Arguments Ok {E A} a.
Arguments Err {E A} e.
Arguments Panic {E A}.

#[export] Instance outcome_eq_dec `{EqDecision E, EqDecision A} : EqDecision (outcome E A).
Proof. solve_decision. Defined.

Definition obind {E A B} (c : outcome E A) (k : A → outcome E B) : outcome E B :=
  match c with
  | Ok a => k a
  | Err e => Err e
  | Panic => Panic
  end.

Definition map_err {E F A} (f : E → F) (c : outcome E A) : outcome F A :=
  match c with
  | Ok a => Ok a
  | Err e => Err (f e)
  | Panic => Panic
  end.

Definition omap_ok {E A B} (f : A → B) (c : outcome E A) : outcome E B :=
  match c with
  | Ok a => Ok (f a)
  | Err e => Err e
  | Panic => Panic
  end.

(** [Option::ok_or]. *)
Definition ok_or {E A} (o : option A) (e : E) : outcome E A :=
  match o with
  | Some a => Ok a
  | None => Err e
  end.

Declare Scope rust_scope.
Delimit Scope rust_scope with rust.
#[global] Open Scope rust_scope.

(** [let? x := c in k] is Rust's [let x = c?; k]. *)
Notation "'let?' x ':=' c 'in' k" := (obind c (λ x, k))
  (at level 10, x name, c at level 200, k at level 200) : rust_scope.
Notation "'let?' ' p ':=' c 'in' k" := (obind c (λ x, match x with p => k end))
  (at level 10, p strict pattern, c at level 200, k at level 200) : rust_scope.

Definition is_panic {E A} (c : outcome E A) : bool :=
  match c with Panic => true | _ => false end.

(** ** Stateful fallible operations

    [SM E S A] is the type of code that updates a state [S] and returns
    [Result<A, E>]. *)
Definition SM (E S A : Type) : Type := S → outcome E A * S.

Definition m_ret {E S A} (a : A) : SM E S A := λ s, (Ok a, s).
Definition m_err {E S A} (e : E) : SM E S A := λ s, (Err e, s).
Definition m_bind {E S A B} (c : SM E S A) (k : A → SM E S B) : SM E S B :=
  λ s, match c s with
       | (Ok a, s') => k a s'
       | (Err e, s') => (Err e, s')
       | (Panic, s') => (Panic, s')
       end.
Definition m_lift {E S A} (o : outcome E A) : SM E S A := λ s, (o, s).

(** [let! x := c in k] is [let x = c.await?; k]. *)
Notation "'let!' x ':=' c 'in' k" := (m_bind c (λ x, k))
  (at level 10, x name, c at level 200, k at level 200) : rust_scope.

(** ** Machine integers

    A [w]-bit integer is a [Z]; the casts write out the wrap-around. *)
Definition U8_MOD : Z := 2 ^ 8.
Definition U16_MOD : Z := 2 ^ 16.
Definition U32_MOD : Z := 2 ^ 32.
Definition U64_MOD : Z := 2 ^ 64.
Definition USIZE_MAX : Z := 2 ^ 64 - 1.

Definition is_u16 (z : Z) : bool := (0 <=? z) && (z <? U16_MOD).
Definition is_u32 (z : Z) : bool := (0 <=? z) && (z <? U32_MOD).
Definition is_u64 (z : Z) : bool := (0 <=? z) && (z <? U64_MOD).
Definition is_i64 (z : Z) : bool := (- 2 ^ 63 <=? z) && (z <? 2 ^ 63).

(** Rust's [as u32] and [as u64] casts: reduction modulo the width. *)
Definition as_u32 (z : Z) : Z := z mod U32_MOD.
Definition as_u64 (z : Z) : Z := z mod U64_MOD.
(** Rust's [as i64] cast from a wider or unsigned value: two's complement. *)
Definition as_i64 (z : Z) : Z := (z + 2 ^ 63) mod U64_MOD - 2 ^ 63.

Definition checked_add_u64 (a b : Z) : option Z :=
  if a + b <? U64_MOD then Some (a + b) else None.
Definition saturating_sub (a b : Z) : Z := Z.max 0 (a - b).
(** [AtomicU64::fetch_sub] and [AtomicU32::fetch_add]/[fetch_sub] wrap. *)
Definition wrapping_sub_u64 (a b : Z) : Z := (a - b) mod U64_MOD.

(** [usize::checked_add] on 64-bit targets. A [usize] that indexes a buffer is
    a [nat]; only the overflow test needs the width. *)
Definition checked_add_usize (a b : nat) : option nat :=
  if Z.of_nat a + Z.of_nat b <=? USIZE_MAX then Some (a + b)%nat else None.

(** ** Bytes *)
Abbreviation u8 := Byte.byte.

#[export] Instance byte_eq_decision : EqDecision u8 := Byte.byte_eq_dec.

Definition u8_val (b : u8) : Z := Z.of_N (Byte.to_N b).
Definition u8_nat (b : u8) : nat := N.to_nat (Byte.to_N b).
(** Rust's [as u8] cast. *)
Definition as_u8 (z : Z) : u8 :=
  default Byte.x00 (Byte.of_N (Z.to_N (z mod U8_MOD))).

(** Byte comparison as the code's [==] on [u8]. *)
Definition u8_eqb (a b : u8) : bool := bool_decide (a = b).

Lemma u8_val_range b : 0 <= u8_val b < 256.
Proof. unfold u8_val. pose proof (Byte.to_N_bounded b). lia. Qed.

Lemma u8_nat_val b : Z.of_nat (u8_nat b) = u8_val b.
Proof. unfold u8_nat, u8_val. lia. Qed.

Lemma u8_nat_range b : (u8_nat b < 256)%nat.
Proof. pose proof (u8_val_range b). pose proof (u8_nat_val b). lia. Qed.

Lemma as_u8_val z : u8_val (as_u8 z) = z mod 256.
Proof.
  unfold as_u8, u8_val, U8_MOD. change (2 ^ 8) with 256.
  pose proof (Z.mod_pos_bound z 256 ltac:(lia)) as Hr.
  destruct (Byte.of_N (Z.to_N (z mod 256))) as [b|] eqn:E; simpl.
  - apply Byte.to_of_N in E. rewrite E. lia.
  - apply Byte.of_N_None_iff in E. lia.
Qed.

Lemma u8_val_inj a b : u8_val a = u8_val b → a = b.
Proof.
  unfold u8_val. intros H%N2Z.inj.
  pose proof (Byte.of_to_N a) as Ha. pose proof (Byte.of_to_N b) as Hb.
  rewrite H in Ha. congruence.
Qed.

Lemma as_u8_of_val b : as_u8 (u8_val b) = b.
Proof.
  apply u8_val_inj. rewrite as_u8_val. pose proof (u8_val_range b).
  by rewrite Z.mod_small.
Qed.

Lemma as_u8_of_nat n : (n < 256)%nat → u8_nat (as_u8 (Z.of_nat n)) = n.
Proof.
  intros H. apply Nat2Z.inj. rewrite u8_nat_val, as_u8_val, Z.mod_small; lia.
Qed.

Lemma u8_eqb_refl b : u8_eqb b b = true.
Proof. unfold u8_eqb. by rewrite bool_decide_eq_true_2. Qed.

Lemma u8_eqb_eq a b : u8_eqb a b = true ↔ a = b.
Proof. unfold u8_eqb. apply bool_decide_eq_true. Qed.

(** ** Automation

    [rust] collects the equations that evaluate bytes and fallible steps;
    [inv_ok] unfolds a successful chain of fallible steps into its pieces. *)
Create Rewrite HintDb rust.
#[export] Hint Rewrite u8_eqb_refl as_u8_of_val as_u8_val u8_nat_val : rust.

Create HintDb wf.
#[export] Hint Resolve u8_val_range u8_nat_range : wf.

Lemma obind_ok {E A B} (c : outcome E A) (k : A → outcome E B) b :
  obind c k = Ok b ↔ ∃ a, c = Ok a ∧ k a = Ok b.
Proof. split; [destruct c; cbn; [eauto|done..] | by intros (a & -> & ?)]. Qed.

Lemma obind_ret {E A} (c : outcome E A) : obind c Ok = c.
Proof. by destruct c. Qed.

Lemma obind_assoc {E A B C} (c : outcome E A) (f : A → outcome E B) (g : B → outcome E C) :
  obind (obind c f) g = obind c (λ a, obind (f a) g).
Proof. by destruct c. Qed.

Lemma map_err_ok {E F A} (f : E → F) (c : outcome E A) a :
  map_err f c = Ok a ↔ c = Ok a.
Proof. destruct c; split; cbn; congruence. Qed.

Ltac inv_ok :=
  repeat match goal with
  | H : obind _ _ = Ok _ |- _ =>
      let x := fresh "v" in let E := fresh "E" in
      apply obind_ok in H; destruct H as (x & E & H)
  | H : map_err _ _ = Ok _ |- _ => apply map_err_ok in H
  | x : _ * _ |- _ => destruct x
  | H : Ok _ = Ok _ |- _ => injection H as H; try subst
  | H : Err _ = Ok _ |- _ => discriminate H
  | H : Panic = Ok _ |- _ => discriminate H
  | H : (_, _) = (_, _) |- _ => injection H as ?; subst
  end.

Lemma m_bind_ok {E S A B} (c : SM E S A) (k : A → SM E S B) s b s'' :
  m_bind c k s = (Ok b, s'') ↔ ∃ a s', c s = (Ok a, s') ∧ k a s' = (Ok b, s'').
Proof.
  unfold m_bind. split; [|by intros (a & s' & -> & ?)].
  destruct (c s) as [[a|e|] s']; [eauto|done..].
Qed.

Lemma m_bind_run {E S A B} (c : SM E S A) (k : A → SM E S B) s a s' :
  c s = (Ok a, s') → m_bind c k s = k a s'.
Proof. unfold m_bind. by intros ->. Qed.

Lemma m_bind_err {E S A B} (c : SM E S A) (k : A → SM E S B) s e s' :
  c s = (Err e, s') → m_bind c k s = (Err e, s').
Proof. unfold m_bind. by intros ->. Qed.

Lemma m_lift_ok {E S A} (o : outcome E A) s a (s' : S) :
  m_lift o s = (Ok a, s') ↔ o = Ok a ∧ s' = s.
Proof. unfold m_lift. split; [intros [= -> ->]; done|intros [-> ->]; done]. Qed.

(** A computation that never panics; [safe] collects the ways to see it. *)
Definition m_safe {E S A} (c : SM E S A) : Prop := ∀ s, (c s).1 ≠ Panic.

Lemma m_safe_ret {E S A} (a : A) : m_safe (E := E) (S := S) (m_ret a).
Proof. done. Qed.

Lemma m_safe_err {E S A} (e : E) : m_safe (S := S) (A := A) (m_err e).
Proof. done. Qed.

Lemma m_safe_lift {E S A} (o : outcome E A) : o ≠ Panic → m_safe (S := S) (m_lift o).
Proof. by intros Ho s. Qed.

Lemma m_safe_bind {E S A B} (c : SM E S A) (k : A → SM E S B) :
  m_safe c → (∀ a, m_safe (k a)) → m_safe (m_bind c k).
Proof.
  intros Hc Hk s. specialize (Hc s). unfold m_bind. destruct (c s) as [[a|e|] s']; [apply Hk|done|done].
Qed.

Create HintDb safe.
#[export] Hint Resolve m_safe_ret m_safe_err m_safe_lift m_safe_bind : safe.

Lemma ok_or_not_panic {E A} (o : option A) (e : E) : ok_or o e ≠ Panic.
Proof. by destruct o. Qed.

Lemma map_err_not_panic {E F A} (f : E → F) (c : outcome E A) : c ≠ Panic → map_err f c ≠ Panic.
Proof. by destruct c. Qed.
#[export] Hint Resolve ok_or_not_panic map_err_not_panic : safe.

(** Take a successful run apart. *)
Ltac inv_run :=
  repeat match goal with
  | H : m_bind _ _ _ = (Ok _, _) |- _ =>
      let a := fresh "v" in let s := fresh "s" in let E := fresh "R" in
      apply m_bind_ok in H; destruct H as (a & s & E & H)
  | H : m_lift _ _ = (Ok _, _) |- _ =>
      apply m_lift_ok in H; let Hx := fresh in destruct H as [H Hx]; try subst
  | H : m_ret _ _ = (Ok _, _) |- _ => unfold m_ret in H; injection H as H ?; try subst
  | H : m_err _ _ = (Ok _, _) |- _ => discriminate H
  end.

(** Split every [if] and [match] on a boolean test in the goal or hypotheses. *)
Ltac split_tests :=
  repeat match goal with
  | |- context [if ?b then _ else _] => destruct b eqn:?
  | H : context [if ?b then _ else _] |- _ => destruct b eqn:?
  end.

(** ** List facts used by several components *)
Lemma take_app_exact {A} (l k : list A) n : n = length l → take n (l ++ k) = l.
Proof. intros ->. apply take_app_length. Qed.

Lemma drop_app_exact {A} (l k : list A) n : n = length l → drop n (l ++ k) = k.
Proof. intros ->. apply drop_app_length. Qed.

Lemma list_split_at {A} (l : list A) n :
  (n ≤ length l)%nat → ∃ l1 l2, l = l1 ++ l2 ∧ length l1 = n.
Proof.
  intros H. exists (take n l), (drop n l). rewrite take_drop.
  split; [done | rewrite length_take; lia].
Qed.
