(* ===== verification/RustStd.v ===== *)
(** * The parts of Rust's core library the program uses

    Byte slices with their bounds checks and panics ([[i]], [get], ranges,
    [copy_from_slice]) and [String] as a byte string that passed the UTF-8
    check of [String::from_utf8]. *)

From stdpp Require Import base tactics decidable numbers list strings.
From Stdlib Require Import ZArith Lia Strings.Byte.
From S2P Require Import Prelude.

(** ** Slices *)

(** [b[i]]: panics out of bounds. *)
Definition slice_index {E} (b : list u8) (i : nat) : outcome E u8 :=
  match b !! i with
  | Some x => Ok x
  | None => Panic
  end.

(** [b.get(lo..hi)]. *)
Definition slice_get_range (b : list u8) (lo hi : nat) : option (list u8) :=
  if (lo <=? hi)%nat && (hi <=? length b)%nat
  then Some (take (hi - lo) (drop lo b))
  else None.

(** [out[i] = v]. *)
Definition slice_set {E} (out : list u8) (i : nat) (v : u8) : outcome E (list u8) :=
  if (i <? length out)%nat then Ok (<[i := v]> out) else Panic.

(** [out[lo..hi].copy_from_slice(src)]: panics on a bad range or on a length
    mismatch. *)
Definition slice_copy {E} (out : list u8) (lo hi : nat) (src : list u8) :
  outcome E (list u8) :=
  if (lo <=? hi)%nat && (hi <=? length out)%nat && (length src =? hi - lo)%nat
  then Ok (take lo out ++ src ++ drop hi out)
  else Panic.

Lemma slice_copy_ok {E} pre mid post src lo hi :
  lo = length pre → hi = (lo + length mid)%nat → length src = length mid →
  slice_copy (E := E) (pre ++ mid ++ post) lo hi src = Ok (pre ++ src ++ post).
Proof.
  intros -> -> Hlen. unfold slice_copy.
  rewrite !length_app, take_app_length, (app_assoc pre mid post).
  rewrite (drop_app_exact (pre ++ mid)) by (rewrite length_app; lia).
  rewrite !(proj2 (Nat.leb_le _ _)), (proj2 (Nat.eqb_eq _ _)) by lia. done.
Qed.

Lemma slice_set_ok {E} pre x post v i :
  i = length pre → slice_set (E := E) (pre ++ x :: post) i v = Ok (pre ++ v :: post).
Proof.
  intros ->. unfold slice_set. rewrite length_app. cbn [length].
  rewrite (proj2 (Nat.ltb_lt _ _)) by lia.
  f_equal. rewrite <- (Nat.add_0_r (length pre)) at 1. by rewrite insert_app_r.
Qed.

Lemma slice_copy_front {E} mid post src hi :
  hi = length mid → length src = length mid →
  slice_copy (E := E) (mid ++ post) 0 hi src = Ok (src ++ post).
Proof. intros ??. by apply (slice_copy_ok [] mid post src 0 hi). Qed.

Lemma slice_set_front {E} x post v :
  slice_set (E := E) (x :: post) 0 v = Ok (v :: post).
Proof. by apply (slice_set_ok [] x post v 0). Qed.

(** ** UTF-8 strings

    A Rust [String] is a [string] (a sequence of bytes) whose bytes satisfy
    [utf8_valid]; [String::len] counts bytes. *)
Definition as_bytes (s : string) : list u8 := String.list_byte_of_string s.
Definition str_len (s : string) : nat := length (as_bytes s).

Arguments as_bytes : simpl never.
Arguments str_len : simpl never.

Definition u8_in (lo hi : Z) (b : u8) : bool := (lo <=? u8_val b) && (u8_val b <=? hi).
Definition utf8_cont (b : u8) : bool := u8_in 0x80 0xBF b.

(** The well-formed byte sequences of the Unicode standard (table 3-7), which
    [core::str::from_utf8] accepts: no overlong forms, no surrogates, nothing
    above U+10FFFF. *)
Fixpoint utf8_valid (l : list u8) : bool :=
  match l with
  | [] => true
  | b0 :: l1 =>
      if u8_in 0x00 0x7F b0 then utf8_valid l1
      else if u8_in 0xC2 0xDF b0 then
        match l1 with
        | b1 :: l2 => utf8_cont b1 && utf8_valid l2
        | [] => false
        end
      else if u8_in 0xE0 0xEF b0 then
        match l1 with
        | b1 :: b2 :: l3 =>
            u8_in (if u8_in 0xE0 0xE0 b0 then 0xA0 else 0x80)
                  (if u8_in 0xED 0xED b0 then 0x9F else 0xBF) b1
            && utf8_cont b2 && utf8_valid l3
        | _ => false
        end
      else if u8_in 0xF0 0xF4 b0 then
        match l1 with
        | b1 :: b2 :: b3 :: l4 =>
            u8_in (if u8_in 0xF0 0xF0 b0 then 0x90 else 0x80)
                  (if u8_in 0xF4 0xF4 b0 then 0x8F else 0xBF) b1
            && utf8_cont b2 && utf8_cont b3 && utf8_valid l4
        | _ => false
        end
      else false
  end.

(** [String::from_utf8]. *)
Definition from_utf8 (l : list u8) : option string :=
  if utf8_valid l then Some (String.string_of_list_byte l) else None.

(** The invariant of the [String] type. *)
Definition is_utf8 (s : string) : bool := utf8_valid (as_bytes s).

Arguments from_utf8 : simpl never.
Arguments is_utf8 : simpl never.

Lemma from_utf8_as_bytes s : is_utf8 s = true → from_utf8 (as_bytes s) = Some s.
Proof.
  unfold from_utf8, is_utf8. intros ->. unfold as_bytes.
  by rewrite String.string_of_list_byte_of_string.
Qed.

Lemma from_utf8_inv l s : from_utf8 l = Some s → l = as_bytes s ∧ is_utf8 s = true.
Proof.
  unfold from_utf8, is_utf8, as_bytes. destruct (utf8_valid l) eqn:E; [|done].
  intros [= <-]. by rewrite String.list_byte_of_string_of_list_byte.
Qed.

Lemma as_bytes_inj s t : as_bytes s = as_bytes t → s = t.
Proof.
  unfold as_bytes. intros H%(f_equal String.string_of_list_byte).
  by rewrite !String.string_of_list_byte_of_string in H.
Qed.

(** ASCII text is valid UTF-8. *)
Lemma utf8_ascii l : Forall (λ b, u8_val b < 128) l → utf8_valid l = true.
Proof.
  induction 1 as [|b l Hb _ IH]; [done|]. cbn [utf8_valid].
  replace (u8_in 0 127 b) with true; [done|]. unfold u8_in. symmetry.
  pose proof (u8_val_range b). apply andb_true_intro. split; apply Z.leb_le; lia.
Qed.
