(* ===== verification/Config.v ===== *)
(** * Configuration

    [crates/common/src/config.rs] and the levels of [logging.rs]: the records
    each service is started with and the values their missing fields get.
    Durations are in nanoseconds; a [SocketAddr] and a path are kept as their
    text; [ConfigToml] has how they are read from TOML. *)

From stdpp Require Import base tactics decidable numbers list strings.
From Stdlib Require Import ZArith Lia Strings.Ascii.
From S2P Require Import Prelude.

(** ** Log levels *)
Inductive LogLevel : Type := Trace | Debug | Info | Warn | Error.

#[export] Instance LogLevel_eq_dec : EqDecision LogLevel.
Proof. solve_decision. Defined.

Definition LogLevel_default : LogLevel := Info.

(** [str::to_ascii_lowercase] *)
Definition ascii_lowercase (c : ascii) : ascii :=
  let n := Ascii.nat_of_ascii c in
  if (65 <=? n)%nat && (n <=? 90)%nat then Ascii.ascii_of_nat (n + 32) else c.
Fixpoint to_ascii_lowercase (s : string) : string :=
  match s with
  | EmptyString => EmptyString
  | String c s' => String (ascii_lowercase c) (to_ascii_lowercase s')
  end.

Definition LogLevel_from_str (s : string) : outcome string LogLevel :=
  let lower := to_ascii_lowercase s in
  if String.eqb lower "trace" then Ok Trace
  else if String.eqb lower "debug" then Ok Debug
  else if String.eqb lower "info" then Ok Info
  else if String.eqb lower "warn" then Ok Warn
  else if String.eqb lower "error" then Ok Error
  else Err ("unknown log level: " +:+ lower).

Definition LogLevel_as_str (l : LogLevel) : string :=
  match l with
  | Trace => "trace"
  | Debug => "debug"
  | Info => "info"
  | Warn => "warn"
  | Error => "error"
  end.

Lemma ascii_lowercase_idem c : ascii_lowercase (ascii_lowercase c) = ascii_lowercase c.
Proof. destruct c as [[] [] [] [] [] [] [] []]; reflexivity. Qed.

Lemma to_ascii_lowercase_idem s : to_ascii_lowercase (to_ascii_lowercase s) = to_ascii_lowercase s.
Proof. induction s as [|c s IH]; cbn; [done|]. by rewrite ascii_lowercase_idem, IH. Qed.

(** Levels are read back whatever the case they are written in. *)
Lemma LogLevel_roundtrip l s :
  to_ascii_lowercase s = LogLevel_as_str l ↔ LogLevel_from_str s = Ok l.
Proof.
  unfold LogLevel_from_str. split.
  - intros ->. by destruct l.
  - repeat (case_match; [intros [= <-]; by apply String.eqb_eq|]). discriminate.
Qed.

(** ** Services *)
Record LoggingConfig : Type := mkLoggingConfig { level : LogLevel; json : bool }.
Definition LoggingConfig_default : LoggingConfig := {| level := LogLevel_default; json := false |}.

Definition from_secs (s : Z) : Z := s * 1000000000.

Definition default_offline_timeout : Z := from_secs 30.
Definition default_sweep_interval : Z := from_secs 5.
Definition default_max_connections : nat := 1024.
Definition default_connect_timeout : Z := from_secs 10.
Definition default_idle_timeout : Z := from_secs 300.
Definition default_bandwidth_limit : Z := 10 * 1024 * 1024.
Definition default_node_max_connections : nat := 128.
Definition default_heartbeat_interval : Z := from_secs 5.
Definition default_upstream_timeout : Z := from_secs 10.

Record ControlPlaneConfig : Type := mkControlPlaneConfig {
  cp_bind_addr : string;
  cp_sqlite_path : string;
  cp_offline_timeout : Z;
  cp_sweep_interval : Z;
  cp_api_token : option string;
  cp_logging : LoggingConfig
}.

Record GatewayConfig : Type := mkGatewayConfig {
  gw_bind_addr : string;
  gw_control_plane_url : string;
  gw_api_token : option string;
  socks_username : option string;
  socks_password : option string;
  gw_max_connections : nat;
  gw_connect_timeout : Z;
  gw_idle_timeout : Z;
  gw_metrics_bind_addr : option string;
  gw_logging : LoggingConfig
}.

Record NodeConfig : Type := mkNodeConfig {
  cfg_node_id : string;
  cfg_control_plane_url : string;
  cfg_api_token : option string;
  cfg_bind_addr : string;
  cfg_advertised_address : option string;
  cfg_bandwidth_limit : Z;
  cfg_max_connections : nat;
  cfg_heartbeat_interval : Z;
  cfg_upstream_timeout : Z;
  cfg_logging : LoggingConfig
}.
