(* ===== verification/Client.v ===== *)
(** * The clients of the control plane

    [ControlPlaneClient] of [crates/gateway/src/proxy_client.rs] and of
    [crates/node/src/cp_client.rs], the same in both: the base URL without its
    trailing slashes, the bearer token, and how an HTTP answer is judged. *)

From stdpp Require Import base tactics decidable numbers list strings.
From Stdlib Require Import ZArith Lia Strings.Ascii.
From S2P Require Import Prelude.

(** [s.trim_end_matches('/')] *)
Fixpoint trim_end_slashes (s : string) : string :=
  match s with
  | EmptyString => EmptyString
  | String c s' =>
      match trim_end_slashes s' with
      | EmptyString => if Ascii.eqb c "/"%char then EmptyString else String c EmptyString
      | t => String c t
      end
  end.

Record ControlPlaneClient : Type := mkClient { base_url : string; token : option string }.

Definition ControlPlaneClient_new (url : string) (token : option string) : ControlPlaneClient :=
  {| base_url := trim_end_slashes url; token := token |}.

(** The [Authorization] header of [authed]. *)
Definition authed (c : ControlPlaneClient) : option string :=
  match token c with
  | Some t => Some ("Bearer " +:+ t)
  | None => None
  end.

(** [StatusCode::is_success] *)
Definition is_success (status : Z) : bool := (200 <=? status) && (status <? 300).

(** The trimmed URL does not end in a slash, and only slashes were removed. *)
Lemma trim_end_slashes_spec s :
  (∃ n, s = trim_end_slashes s +:+ String.concat "" (replicate n "/"%string)) ∧
  ∀ t, trim_end_slashes s ≠ (t +:+ "/")%string.
Proof.
  induction s as [|c s [[n IH1] IH2]]; [split; [by exists 0%nat|by intros []]|].
  cbn [trim_end_slashes]. destruct (trim_end_slashes s) as [|d u] eqn:E.
  - destruct (Ascii.eqb_spec c "/") as [->|Hc].
    + split; [|by intros []]. exists (S n). rewrite IH1. by destruct n.
    + split; [exists n; by rewrite IH1|]. intros [|d [|]] [=]; by subst.
  - split; [exists n; rewrite IH1 at 1; done|]. intros [|d' t] [=]; subst. by apply (IH2 t).
Qed.
