(* ===== verification/Accept.v ===== *)
(** * Accept loops

    The loop of [Gateway::run] ([crates/gateway/src/gateway.rs]) and the one of
    [NodeServer::run] ([crates/node/src/server.rs]): accept until the shutdown
    token is cancelled, one task per connection, a semaphore that bounds how
    many are served, and a final loop that waits for the tasks with a deadline.
    The two differ in what a task does to a shared state around its handler:
    nothing in the gateway, a connection counter in the node. That state and the
    two updates are parameters here. Tasks interleave: a step is one action of
    the loop or of one task. *)

From stdpp Require Import base tactics decidable numbers list relations.
From Stdlib Require Import ZArith Lia.
From S2P Require Import Prelude Config.

(** A connection task: waiting for a permit, holding one, past the shutdown
    check, in the handler, done with it, or gone. *)
Inductive conn : Type := CWaiting | CPermit | CChecked | CActive | CFinished | CDone.

#[export] Instance conn_eq_dec : EqDecision conn.
Proof. solve_decision. Defined.

Record server (T : Type) : Type := mkServer {
  sv_permits : nat;
  sv_shared : T;
  sv_conns : list conn;
  sv_cancelled : bool;
  sv_accepting : bool
}.
Arguments mkServer {T}.
Arguments sv_permits {T}.
Arguments sv_shared {T}.
Arguments sv_conns {T}.
Arguments sv_cancelled {T}.
Arguments sv_accepting {T}.

Section accept.
Context {T : Type} (opened closed : T → T).

Definition server_init (max_connections : nat) (t : T) : server T :=
  {| sv_permits := max_connections; sv_shared := t; sv_conns := [];
     sv_cancelled := false; sv_accepting := true |}.

(** Task [i] moves to [c]. *)
Definition move (s : server T) (permits : nat) (t : T) (i : nat) (c : conn) : server T :=
  {| sv_permits := permits; sv_shared := t; sv_conns := <[i := c]> (sv_conns s);
     sv_cancelled := sv_cancelled s; sv_accepting := sv_accepting s |}.

Inductive accept_step : server T → server T → Prop :=
| as_accept s :
    sv_accepting s = true →
    accept_step s
      {| sv_permits := sv_permits s; sv_shared := sv_shared s; sv_conns := sv_conns s ++ [CWaiting];
         sv_cancelled := sv_cancelled s; sv_accepting := true |}
| as_cancel s :
    sv_cancelled s = false →
    accept_step s
      {| sv_permits := sv_permits s; sv_shared := sv_shared s; sv_conns := sv_conns s;
         sv_cancelled := true; sv_accepting := sv_accepting s |}
| as_stop s :
    sv_cancelled s = true → sv_accepting s = true →
    accept_step s
      {| sv_permits := sv_permits s; sv_shared := sv_shared s; sv_conns := sv_conns s;
         sv_cancelled := true; sv_accepting := false |}
| as_acquire s i p :
    sv_conns s !! i = Some CWaiting → sv_permits s = S p →
    accept_step s (move s p (sv_shared s) i CPermit)
| as_refuse s i :
    sv_conns s !! i = Some CPermit → sv_cancelled s = true →
    accept_step s (move s (S (sv_permits s)) (sv_shared s) i CDone)
| as_check s i :
    sv_conns s !! i = Some CPermit → sv_cancelled s = false →
    accept_step s (move s (sv_permits s) (sv_shared s) i CChecked)
| as_open s i :
    sv_conns s !! i = Some CChecked →
    accept_step s (move s (sv_permits s) (opened (sv_shared s)) i CActive)
| as_close s i :
    sv_conns s !! i = Some CActive →
    accept_step s (move s (sv_permits s) (closed (sv_shared s)) i CFinished)
| as_release s i :
    sv_conns s !! i = Some CFinished →
    accept_step s (move s (S (sv_permits s)) (sv_shared s) i CDone).

(** ** The wait at the end

    [loop { if done || start.elapsed() >= deadline { break } sleep(50ms) }]: each
    poll sees whether the server is drained and the time since the loop began;
    the result is the number of polls, if the loop ended. *)
Definition drain_deadline : Z := from_secs 10.
Definition drain_pause : Z := 50 * 1000000.

Fixpoint drain_loop (polls : list (bool * Z)) : option nat :=
  match polls with
  | [] => None
  | (drained, elapsed) :: polls =>
      if drained || (drain_deadline <=? elapsed) then Some 1%nat
      else S <$> drain_loop polls
  end.

(** What [Gateway::run] polls: [Arc::strong_count(&self.sem) <= 1], one clone of
    the semaphore being held by each task that is not gone. *)
Definition live_tasks (s : server T) : nat := length (filter (λ c, c ≠ CDone) (sv_conns s)).
Definition gateway_drained (s : server T) : bool := (1 + live_tasks s <=? 1)%nat.

(** ** Counting tasks *)
Definition holds_permit (c : conn) : nat :=
  match c with CPermit | CChecked | CActive | CFinished => 1 | _ => 0 end.
Definition in_handler (c : conn) : nat := match c with CActive => 1 | _ => 0 end.
(** Steps a task still takes once nothing new is accepted. *)
Definition steps_left (c : conn) : nat :=
  match c with CWaiting => 5 | CPermit => 4 | CChecked => 3 | CActive => 2 | CFinished => 1 | CDone => 0 end.

Fixpoint sum_conns (f : conn → nat) (l : list conn) : nat :=
  match l with
  | [] => 0
  | c :: l => f c + sum_conns f l
  end.

Lemma sum_conns_app f l k : sum_conns f (l ++ k) = (sum_conns f l + sum_conns f k)%nat.
Proof. induction l; cbn; lia. Qed.

Lemma sum_conns_insert f (l : list conn) (i : nat) c c' :
  l !! i = Some c → (sum_conns f (<[i := c']> l) + f c = sum_conns f l + f c')%nat.
Proof.
  revert i. induction l as [|x l IH]; intros [|i] Hi; try done.
  - injection Hi as ->. cbn. lia.
  - change (sum_conns f (<[S i := c']> (x :: l))) with (f x + sum_conns f (<[i := c']> l))%nat.
    specialize (IH i Hi). cbn [sum_conns]. lia.
Qed.

Lemma sum_conns_mono l : (sum_conns in_handler l <= sum_conns holds_permit l)%nat.
Proof. induction l as [|[] l IH]; cbn; lia. Qed.

Lemma sum_conns_bound f k l : (∀ c, f c <= k)%nat → (sum_conns f l <= k * length l)%nat.
Proof. intros Hf. induction l as [|c l IH]; cbn; [lia|]. specialize (Hf c). lia. Qed.

Definition permits_inv (max : nat) (s : server T) : Prop :=
  (sv_permits s + sum_conns holds_permit (sv_conns s) = max)%nat.

(** A task moves, keeping permits and holders balanced. *)
Lemma permits_move max s p t (i : nat) c c' :
  permits_inv max s → sv_conns s !! i = Some c →
  (p + holds_permit c' = sv_permits s + holds_permit c)%nat → permits_inv max (move s p t i c').
Proof.
  unfold permits_inv. intros Hinv Hi Hp. pose proof (sum_conns_insert holds_permit _ _ _ c' Hi).
  cbn [move sv_permits sv_conns]. lia.
Qed.

Lemma permits_step max s s' : permits_inv max s → accept_step s s' → permits_inv max s'.
Proof.
  intros Hinv Hs. destruct Hs as [s _|s _|s _ _|s i p Hi Hp|s i Hi _|s i Hi _|s i Hi|s i Hi|s i Hi];
    try (eapply permits_move; [done|done|cbn; lia]); try done.
  unfold permits_inv in *. cbn [sv_permits sv_conns]. rewrite sum_conns_app. cbn. lia.
Qed.

Lemma permits_steps max s s' : permits_inv max s → rtc accept_step s s' → permits_inv max s'.
Proof. intros Hinv. induction 1; eauto using permits_step. Qed.

(** ** Shutdown *)

(** Not served yet: the task has not passed the shutdown check. *)
Definition unserved (c : conn) : Prop := c = CWaiting ∨ c = CPermit ∨ c = CDone.

Lemma cancelled_step s s' :
  accept_step s s' → sv_cancelled s = true →
  sv_cancelled s' = true ∧ (sv_accepting s = false → sv_accepting s' = false) ∧
  ∀ i, (∀ c, sv_conns s !! i = Some c → unserved c) → ∀ c, sv_conns s' !! i = Some c → unserved c.
Proof.
  intros Hs Hc. unfold unserved.
  destruct Hs as [s Ha|s Hn|s _ Ha|s i p Hi Hp|s i Hi _|s i Hi Hn|s i Hi|s i Hi|s i Hi];
    (split_and!; [cbn; congruence|cbn; congruence|]); intros j Hj c; cbn [move sv_conns]; try by apply Hj.
  - rewrite lookup_app_Some. intros [Hl|[_ Hl]]; [by apply Hj|]. left.
    apply list_elem_of_lookup_2 in Hl. by apply list_elem_of_singleton in Hl.
  - rewrite list_lookup_insert_Some. intros [(-> & <- & _)|[_ Hl]]; [auto|by apply Hj].
  - rewrite list_lookup_insert_Some. intros [(-> & <- & _)|[_ Hl]]; [auto|by apply Hj].
  - congruence.
  - destruct (decide (i = j)) as [->|Hne]; [|rewrite list_lookup_insert_ne by done; apply Hj].
    destruct (Hj _ Hi) as [?|[?|?]]; done.
  - destruct (decide (i = j)) as [->|Hne]; [|rewrite list_lookup_insert_ne by done; apply Hj].
    destruct (Hj _ Hi) as [?|[?|?]]; done.
  - destruct (decide (i = j)) as [->|Hne]; [|rewrite list_lookup_insert_ne by done; apply Hj].
    destruct (Hj _ Hi) as [?|[?|?]]; done.
Qed.

Lemma cancelled_steps s s' :
  rtc accept_step s s' → sv_cancelled s = true →
  sv_cancelled s' = true ∧ (sv_accepting s = false → sv_accepting s' = false) ∧
  ∀ i, (∀ c, sv_conns s !! i = Some c → unserved c) → ∀ c, sv_conns s' !! i = Some c → unserved c.
Proof.
  induction 1 as [s|s s1 s' Hs _ IH]; intros Hc; [done|].
  destruct (cancelled_step _ _ Hs Hc) as (H1 & H2 & H3). destruct (IH H1) as (H4 & H5 & H6).
  split_and!; [done|by auto|]. intros i Hi. by apply H6, H3.
Qed.

(** A stopped server: cancelled and not accepting. *)
Definition stopped (s : server T) : Prop := sv_cancelled s = true ∧ sv_accepting s = false.

Lemma stopped_step s s' : stopped s → accept_step s s' → stopped s'.
Proof. intros [Hc Ha] Hs. destruct (cancelled_step _ _ Hs Hc) as (? & ? & _). by split; auto. Qed.

(** Every step of a stopped server is a step of a task and uses up one. *)
Lemma stopped_decreases s s' :
  stopped s → accept_step s s' →
  (sum_conns steps_left (sv_conns s') < sum_conns steps_left (sv_conns s))%nat.
Proof.
  intros [Hc Ha] Hs.
  destruct Hs as [s Ha'|s Hc'|s _ Ha'|s i p Hi Hp|s i Hi _|s i Hi Hc'|s i Hi|s i Hi|s i Hi]; try congruence;
    cbn [move sv_conns];
    match goal with |- context [<[i := ?c]> _] => pose proof (sum_conns_insert steps_left _ _ _ c Hi) as Hx end;
    cbn in Hx; lia.
Qed.

(** A stopped server with a task left can move, if it has any permits at all. *)
Lemma stopped_progress max s :
  (0 < max)%nat → permits_inv max s → stopped s → ¬ Forall (λ c, c = CDone) (sv_conns s) →
  ∃ s', accept_step s s'.
Proof.
  intros Hmax Hinv [Hc Ha] Hnot.
  assert (Hcases : (∃ i, sv_conns s !! i = Some CWaiting ∧ sum_conns holds_permit (sv_conns s) = 0%nat) ∨
                   ∃ i c, sv_conns s !! i = Some c ∧ holds_permit c = 1%nat).
  { clear -Hnot. induction (sv_conns s) as [|c l IH]; [by destruct Hnot|].
    destruct (decide (holds_permit c = 1%nat)) as [Hh|Hh]; [right; by exists 0%nat, c|].
    destruct (decide (Forall (λ c, c = CDone) l)) as [Hl|Hl].
    - destruct c; try done; [left|by destruct Hnot; constructor]. exists 0%nat. split; [done|]. cbn.
      clear -Hl. by induction Hl as [|? ? -> _ IH].
    - destruct (IH Hl) as [(i & Hi & Hs)|(i & c' & Hi & Hh')]; [left|right; by exists (S i), c'].
      exists (S i). split; [done|]. cbn. destruct c; done. }
  destruct Hcases as [(i & Hi & Hs)|(i & c & Hi & Hh)].
  - unfold permits_inv in Hinv. destruct (sv_permits s) as [|p] eqn:Hp; [lia|].
    eexists. by eapply as_acquire.
  - destruct c; try done; eexists;
      [by eapply as_refuse|by eapply as_open|by eapply as_close|by eapply as_release].
Qed.

Lemma stopped_finishes max s :
  (0 < max)%nat → permits_inv max s → stopped s →
  ∃ s', rtc accept_step s s' ∧ Forall (λ c, c = CDone) (sv_conns s') ∧ permits_inv max s'.
Proof.
  intros Hmax. remember (sum_conns steps_left (sv_conns s)) as n eqn:Hn.
  revert s Hn. induction (lt_wf n) as [n _ IH]. intros s -> Hinv Hst.
  destruct (decide (Forall (λ c, c = CDone) (sv_conns s))) as [Hd|Hd]; [by exists s|].
  destruct (stopped_progress max s Hmax Hinv Hst Hd) as [s1 Hs1].
  destruct (IH _ (stopped_decreases s s1 Hst Hs1) s1 eq_refl) as (s' & Hr & Hd' & Hi').
  - by eapply permits_step.
  - by eapply stopped_step.
  - exists s'. split_and!; [by eapply rtc_l|done|done].
Qed.

Lemma stopped_bounded k s s' :
  stopped s → nsteps accept_step k s s' →
  (k + sum_conns steps_left (sv_conns s') <= sum_conns steps_left (sv_conns s))%nat.
Proof.
  intros Hst Hn. revert Hst. induction Hn as [s|k s s1 s' Hs _ IH]; intros Hst; [lia|].
  pose proof (stopped_decreases s s1 Hst Hs). specialize (IH (stopped_step _ _ Hst Hs)). lia.
Qed.

Lemma done_permits max s :
  permits_inv max s → Forall (λ c, c = CDone) (sv_conns s) → sv_permits s = max ∧ gateway_drained s = true.
Proof.
  unfold permits_inv, gateway_drained, live_tasks. intros Hinv Hd.
  assert (sum_conns holds_permit (sv_conns s) = 0%nat ∧ filter (λ c, c ≠ CDone) (sv_conns s) = []) as [Hz ->].
  { clear Hinv. induction Hd as [|c l -> _ [IH1 IH2]]; [done|]. by rewrite filter_cons_False by auto. }
  split; [lia|done].
Qed.

(** A cancelled server can break its loop. *)
Lemma cancelled_stops s :
  sv_cancelled s = true → ∃ s1, rtc accept_step s s1 ∧ sv_accepting s1 = false.
Proof.
  intros Hc. destruct (sv_accepting s) eqn:Ha; [|by exists s].
  eexists. split; [by apply rtc_once, as_stop|done].
Qed.

Lemma stopped_runs_bounded s :
  stopped s → ∀ k s', nsteps accept_step k s s' → (k <= 5 * length (sv_conns s))%nat.
Proof.
  intros Hst k s' Hk. pose proof (stopped_bounded k s s' Hst Hk).
  pose proof (sum_conns_bound steps_left 5 (sv_conns s)) as Hb.
  assert (∀ c, steps_left c <= 5)%nat by (intros []; cbn; lia). specialize (Hb ltac:(done)). lia.
Qed.

Lemma stopped_ends max s :
  (0 < max)%nat → permits_inv max s → stopped s →
  ∀ s', rtc accept_step s s' → (∀ s'', ¬ accept_step s' s'') →
    Forall (λ c, c = CDone) (sv_conns s') ∧ sv_permits s' = max ∧ gateway_drained s' = true.
Proof.
  intros Hmax Hinv [Hc Ha] s' Hr' Hnf. pose proof (permits_steps _ _ _ Hinv Hr') as Hinv'.
  assert (Hst' : stopped s') by (destruct (cancelled_steps _ _ Hr' Hc) as (? & ? & _); by split; auto).
  destruct (decide (Forall (λ c, c = CDone) (sv_conns s'))) as [Hd|Hd].
  - split; [done|by apply done_permits].
  - destruct (stopped_progress _ _ Hmax Hinv' Hst' Hd) as [s'' Hs'']. by destruct (Hnf s'').
Qed.

(** Without permits every task waits. *)
Definition all_wait (s : server T) : Prop := sv_permits s = 0%nat ∧ Forall (λ c, c = CWaiting) (sv_conns s).

Lemma all_wait_step s s' :
  all_wait s → accept_step s s' → all_wait s' ∧ (sv_cancelled s = true → sv_accepting s = true).
Proof.
  intros [Hp Hw] Hs. unfold all_wait.
  destruct Hs as [s Ha|s Hn|s _ Ha|s i p Hi Hp'|s i Hi _|s i Hi Hn|s i Hi|s i Hi|s i Hi]; try congruence;
    try (by apply (Forall_lookup_1 _ _ _ _ Hw) in Hi); (split; [split; [done|]|congruence || done]); [|done..].
  cbn. apply Forall_app. split; [done|by constructor].
Qed.

Lemma no_permits_stuck t s :
  rtc accept_step (server_init 0 t) s → stopped s →
  Forall (λ c, c = CWaiting) (sv_conns s) ∧ ∀ s', ¬ accept_step s s'.
Proof.
  intros Hr [Hc Ha]. assert (Hw : all_wait s).
  { assert (Hi : all_wait (server_init 0 t)) by by split. revert Hi.
    clear Hc Ha. induction Hr as [|s0 s1 s Hs _ IH]; [done|]. intros Hw. by apply IH, (all_wait_step _ _ Hw Hs). }
  split; [apply Hw|]. intros s' Hs. destruct (all_wait_step _ _ Hw Hs) as [_ Hx]. specialize (Hx Hc). congruence.
Qed.
End accept.

Lemma drain_loop_spec polls :
  (∃ i b e, polls !! i = Some (b, e) ∧ (b = true ∨ drain_deadline <= e)) →
  ∃ k b e, drain_loop polls = Some (S k) ∧ polls !! k = Some (b, e) ∧ (b = true ∨ drain_deadline <= e) ∧
    ∀ i b' e', polls !! i = Some (b', e') → b' = true ∨ drain_deadline <= e' → (k <= i)%nat.
Proof.
  induction polls as [|[b0 e0] polls IH]; intros (i & b & e & Hi & Hend); [done|]. cbn [drain_loop].
  destruct (b0 || (drain_deadline <=? e0)) eqn:Hb.
  - apply orb_prop in Hb as [Hb|Hb]; [|apply Z.leb_le in Hb]; exists 0%nat, b0, e0;
      (split_and!; [done|done|auto|]); intros; lia.
  - apply orb_false_elim in Hb as [Hb1 Hb2%Z.leb_gt]. destruct i as [|i].
    { injection Hi as <- <-. destruct Hend as [?|?]; [congruence|lia]. }
    destruct IH as (k & b1 & e1 & -> & Hk & Hd & Hmin); [by exists i, b, e|].
    exists (S k), b1, e1. split_and!; [done|done|done|]. intros [|j] b' e' Hj Hend'.
    + injection Hj as <- <-. destruct Hend' as [?|?]; [congruence|lia].
    + apply le_n_S. by eapply Hmin.
Qed.

(** The final wait ends: with polls at least 50 ms apart, the loop breaks
    at the latest at poll 201, ten seconds after it began; it breaks at the
    first poll that finds the server drained or the deadline passed. *)
Theorem drain_wait_bounded (polls : list (bool * Z)) :
  (201 <= length polls)%nat →
  (∀ i b e, polls !! i = Some (b, e) → Z.of_nat i * drain_pause <= e) →
  ∃ k b e, drain_loop polls = Some (S k) ∧ (k <= 200)%nat ∧ polls !! k = Some (b, e) ∧
    (b = true ∨ drain_deadline <= e) ∧
    ∀ i b' e', (i < k)%nat → polls !! i = Some (b', e') → b' = false ∧ e' < drain_deadline.
Proof.
  intros Hlen Helapsed.
  destruct (polls !! 200%nat) as [[b e]|] eqn:Hp; [|apply lookup_ge_None_1 in Hp; lia].
  assert (He : drain_deadline <= e) by (specialize (Helapsed _ _ _ Hp); unfold drain_deadline, drain_pause, from_secs in *; lia).
  destruct (drain_loop_spec polls) as (k & b1 & e1 & -> & Hk & Hend & Hmin); [by exists 200%nat, b, e; auto|].
  exists k, b1, e1. split_and!; [done|by eapply Hmin; [|right]|done|done|].
  intros i b' e' Hi Hp'. destruct (b' || (drain_deadline <=? e')) eqn:Hb.
  - assert (b' = true ∨ drain_deadline <= e') as Hx by (apply orb_prop in Hb as [?|?%Z.leb_le]; auto).
    specialize (Hmin _ _ _ Hp' Hx). lia.
  - by apply orb_false_elim in Hb as [-> ?%Z.leb_gt].
Qed.

(** ** Properties *)
Section properties.
Context {T : Type} (opened closed : T → T).

(** (C9) Backpressure: however accepts, permits, handlers and a shutdown
    interleave, permits held plus permits free is always the configured ceiling,
    so never more than [max_connections] connections are served at once. *)
Theorem connections_bounded (max_connections : nat) (t : T) (s : server T) :
  rtc (accept_step opened closed) (server_init max_connections t) s →
  (sv_permits s + sum_conns holds_permit (sv_conns s) = max_connections)%nat ∧
  (sum_conns in_handler (sv_conns s) <= max_connections)%nat.
Proof.
  intros Hr. assert (Hinv : permits_inv max_connections s)
    by (eapply permits_steps; [|done]; unfold permits_inv; cbn; lia).
  split; [exact Hinv|]. unfold permits_inv in Hinv. pose proof (sum_conns_mono (sv_conns s)). lia.
Qed.

(** (C8) Graceful shutdown: once the token is cancelled, a connection that has
    not passed the shutdown check is never served, also one that is accepted
    between the cancellation and the end of the loop. *)
Theorem no_service_after_shutdown (s s' : server T) (i : nat) :
  sv_cancelled s = true → rtc (accept_step opened closed) s s' →
  (∀ c, sv_conns s !! i = Some c → c = CWaiting ∨ c = CPermit) →
  ∀ c, sv_conns s' !! i = Some c → in_handler c = 0%nat ∧ c ≠ CChecked.
Proof.
  intros Hc Hr Hi c Hs'. destruct (cancelled_steps opened closed s s' Hr Hc) as (_ & _ & Hu).
  destruct (Hu i) with c as [-> |[-> | ->]]; try done.
  intros c0 Hc0. unfold unserved. destruct (Hi c0 Hc0); auto.
Qed.

(** (C7) Shutdown. After the signal, connections are still accepted until the
    loop takes the branch that breaks it, which it always can. From there on
    every run, whatever the interleaving, takes at most five steps per task. With
    [max_connections > 0] it never deadlocks: a state without a successor has no
    task left and all permits back, and passes the poll of the gateway; such a
    state can be reached. With [max_connections = 0], which the configuration
    allows, every task waits for its permit for ever. In both cases the final
    wait ends: with polls at least 50 ms apart, at the latest at poll 201. *)
Theorem shutdown_terminates (max_connections : nat) (t : T) (s : server T) :
  rtc (accept_step opened closed) (server_init max_connections t) s → sv_cancelled s = true →
  (∃ s1, rtc (accept_step opened closed) s s1 ∧ sv_accepting s1 = false) ∧
  (∀ s1, rtc (accept_step opened closed) s s1 → sv_accepting s1 = false →
     (∀ k s', nsteps (accept_step opened closed) k s1 s' → (k <= 5 * length (sv_conns s1))%nat) ∧
     ((0 < max_connections)%nat →
        (∀ s', rtc (accept_step opened closed) s1 s' → (∀ s'', ¬ accept_step opened closed s' s'') →
           Forall (λ c, c = CDone) (sv_conns s') ∧ sv_permits s' = max_connections ∧ gateway_drained s' = true) ∧
        ∃ s', rtc (accept_step opened closed) s1 s' ∧ gateway_drained s' = true) ∧
     (max_connections = 0%nat →
        Forall (λ c, c = CWaiting) (sv_conns s1) ∧ ∀ s', ¬ accept_step opened closed s1 s')) ∧
  (∀ polls, (201 <= length polls)%nat → (∀ i b e, polls !! i = Some (b, e) → Z.of_nat i * drain_pause <= e) →
     ∃ k, drain_loop polls = Some (S k) ∧ (k <= 200)%nat).
Proof.
  intros Hr Hc. split_and!.
  - by apply cancelled_stops.
  - intros s1 Hr1 Ha. destruct (cancelled_steps _ _ _ _ Hr1 Hc) as (Hc1 & _ & _).
    assert (Hst : stopped s1) by done. assert (Hr' : rtc (accept_step opened closed) (server_init max_connections t) s1) by (by etrans).
    assert (Hinv : permits_inv max_connections s1)
      by (eapply permits_steps; [|exact Hr']; unfold permits_inv; cbn; lia).
    split_and!; [by apply stopped_runs_bounded| |].
    + intros Hmax. split; [by apply stopped_ends|].
      destruct (stopped_finishes opened closed _ _ Hmax Hinv Hst) as (s' & Hs' & Hd & Hinv').
      exists s'. split; [done|]. by eapply done_permits.
    + intros ->. by eapply no_permits_stuck.
  - intros polls Hl He. destruct (drain_wait_bounded polls Hl He) as (k & b & e & ? & ? & _). by exists k.
Qed.
End properties.

(** ** Witnesses *)
Definition sample_gateway : server unit :=
  {| sv_permits := 0; sv_shared := (); sv_conns := [CPermit; CWaiting]; sv_cancelled := true;
     sv_accepting := false |}.

Lemma sample_gateway_reachable : rtc (accept_step id id) (server_init 1 ()) sample_gateway.
Proof.
  eapply rtc_l; [by apply as_accept|]. eapply rtc_l; [by apply as_accept|].
  eapply rtc_l; [by apply (as_acquire _ _ _ 0 0)|]. eapply rtc_l; [by apply as_cancel|].
  eapply rtc_l; [by apply as_stop|]. apply rtc_refl.
Qed.

Lemma connections_bounded_witness : (sum_conns in_handler (sv_conns sample_gateway) <= 1)%nat.
Proof. apply (connections_bounded id id 1 () sample_gateway), sample_gateway_reachable. Defined.

Lemma no_service_after_shutdown_witness :
  in_handler CDone = 0%nat ∧ CDone ≠ CChecked.
Proof.
  apply (no_service_after_shutdown id id sample_gateway
    (move sample_gateway 1 () 0 CDone) 0); [reflexivity| | |reflexivity].
  - apply rtc_once. exact (as_refuse id id sample_gateway 0 eq_refl eq_refl).
  - intros c Hc. right. injection Hc as <-. reflexivity.
Defined.

(** Two tasks and one permit, shut down: the loop has stopped, and both tasks
    can go. *)
Lemma shutdown_terminates_witness : ∃ s', rtc (accept_step id id) sample_gateway s' ∧ gateway_drained s' = true.
Proof.
  destruct (shutdown_terminates id id 1 () sample_gateway) as (_ & Hrun & _);
    [exact sample_gateway_reachable|reflexivity|].
  destruct (Hrun sample_gateway (rtc_refl _ _) eq_refl) as (_ & H1 & _). apply H1. lia.
Defined.

Lemma drain_wait_bounded_witness :
  ∃ k, drain_loop ((λ i, (false, Z.of_nat i * drain_pause)) <$> seq 0 300) = Some (S k) ∧ (k <= 200)%nat.
Proof.
  destruct (drain_wait_bounded ((λ i, (false, Z.of_nat i * drain_pause)) <$> seq 0 300)) as (k & b & e & H1 & H2 & _).
  - rewrite length_fmap, length_seq. lia.
  - intros i b e Hi. apply list_lookup_fmap_Some in Hi as (j & Hj & Hs).
    apply lookup_seq in Hs as [-> _]. injection Hj as -> ->. cbn. lia.
  - exists k. split; [exact H1|exact H2].
Defined.
