(* ===== verification/Constants.v ===== *)
(** * SOCKS5 wire constants and protocol errors

    [crates/protocol/src/constants.rs] and [crates/protocol/src/error.rs]. The
    constants of the Rust modules [method], [command], [atyp] and [reply] carry
    the module name as a prefix. *)

From stdpp Require Import base decidable.
From Stdlib Require Import Strings.Byte.
From S2P Require Import Prelude.

Definition VERSION : u8 := Byte.x05.
Definition AUTH_VERSION : u8 := Byte.x01.

Definition GREETING_HEADER_LEN : nat := 2.
Definition REQUEST_HEADER_LEN : nat := 4.
Definition REPLY_HEADER_LEN : nat := 4.

Definition METHOD_NO_AUTH : u8 := Byte.x00.
Definition METHOD_USER_PASS : u8 := Byte.x02.
Definition METHOD_NO_ACCEPTABLE : u8 := Byte.xff.

Definition COMMAND_CONNECT : u8 := Byte.x01.
Definition COMMAND_BIND : u8 := Byte.x02.
Definition COMMAND_UDP_ASSOCIATE : u8 := Byte.x03.

Definition ATYP_IPV4 : u8 := Byte.x01.
Definition ATYP_DOMAIN : u8 := Byte.x03.
Definition ATYP_IPV6 : u8 := Byte.x04.

Definition REPLY_SUCCESS : u8 := Byte.x00.
Definition REPLY_GENERAL_FAILURE : u8 := Byte.x01.
Definition REPLY_NOT_ALLOWED : u8 := Byte.x02.
Definition REPLY_NETWORK_UNREACHABLE : u8 := Byte.x03.
Definition REPLY_HOST_UNREACHABLE : u8 := Byte.x04.
Definition REPLY_CONNECTION_REFUSED : u8 := Byte.x05.
Definition REPLY_TTL_EXPIRED : u8 := Byte.x06.
Definition REPLY_COMMAND_NOT_SUPPORTED : u8 := Byte.x07.
Definition REPLY_ADDRESS_TYPE_NOT_SUPPORTED : u8 := Byte.x08.

(** [enum ProtocolError]. *)
Inductive ProtocolError : Type :=
| BadVersion (v : u8)
| Unsupported (code : u8)
| Truncated
| InvalidCredentialLength
| NoAcceptableMethod.

#[export] Instance ProtocolError_eq_dec : EqDecision ProtocolError.
Proof. solve_decision. Defined.

Definition is_truncated (e : ProtocolError) : bool :=
  match e with
  | Truncated => true
  | _ => false
  end.

(** The tests on address types, evaluated. *)
Lemma atyp_v6_v4 : u8_eqb ATYP_IPV6 ATYP_IPV4 = false.
Proof. reflexivity. Qed.
Lemma atyp_dom_v4 : u8_eqb ATYP_DOMAIN ATYP_IPV4 = false.
Proof. reflexivity. Qed.
Lemma atyp_dom_v6 : u8_eqb ATYP_DOMAIN ATYP_IPV6 = false.
Proof. reflexivity. Qed.
#[export] Hint Rewrite atyp_v6_v4 atyp_dom_v4 atyp_dom_v6 : rust.
