(* ===== verification/Reader.v ===== *)
(** * The bounds-checked byte reader

    [crates/protocol/src/reader.rs]. A parsing function of the crate owns one
    [Reader] in a mutable local and leaves with [?]; it is a computation of the
    state-and-error monad [RD]. The second half of the file holds the rules
    that evaluate a parser on a known prefix ([rd]) and the two properties
    every parser built from the reader inherits: stability under more input
    ([stable]) and freedom from panics ([no_panic]). *)

From stdpp Require Import base tactics decidable numbers list strings.
From Stdlib Require Import ZArith Lia Strings.Byte.
From S2P Require Import Prelude RustStd Constants.

Record Reader : Type := mkReader { r_buf : list u8; r_pos : nat }.

Definition Reader_new (buf : list u8) : Reader :=
  {| r_buf := buf; r_pos := 0 |}.

(** Parsers: [&mut Reader] threaded, [Result] and panics as [outcome]. *)
Definition RD (A : Type) : Type := Reader → outcome ProtocolError (A * Reader).

Definition rret {A} (a : A) : RD A := λ r, Ok (a, r).
Definition rfail {A} (e : ProtocolError) : RD A := λ _, Err e.
Definition rbind {A B} (m : RD A) (k : A → RD B) : RD B :=
  λ r, obind (m r) (λ '(a, r'), k a r').
(** A fallible computation that does not touch the reader, under [?]. *)
Definition rlift {A} (c : outcome ProtocolError A) : RD A :=
  λ r, obind c (λ a, Ok (a, r)).

Notation "'do!' x '<-' c ';' k" := (rbind c (λ x, k))
  (at level 10, x name, c at level 200, k at level 200) : rust_scope.

Definition position : RD nat := λ r, Ok (r_pos r, r).

Definition read_u8 : RD u8 := λ r,
  let? byte := ok_or (r_buf r !! r_pos r) Truncated in
  Ok (byte, {| r_buf := r_buf r; r_pos := r_pos r + 1 |}).

(** [(hi << 8) | lo] on [u16] values widened from bytes. *)
Definition read_u16 : RD Z :=
  do! hi <- read_u8;
  do! lo <- read_u8;
  rret (Z.lor (Z.shiftl (u8_val hi) 8) (u8_val lo)).

Definition read_bytes (n : nat) : RD (list u8) := λ r,
  let? stop := ok_or (checked_add_usize (r_pos r) n) Truncated in
  let? slice := ok_or (slice_get_range (r_buf r) (r_pos r) stop) Truncated in
  Ok (slice, {| r_buf := r_buf r; r_pos := stop |}).

(** Run a parser on a fresh reader and keep its value. *)
Definition run_reader {A} (m : RD A) (buf : list u8) : outcome ProtocolError A :=
  omap_ok fst (m (Reader_new buf)).

(** ** Evaluation on a known prefix *)

(** The reader that consumed [pre] and still has [rest] to read. *)
Definition rd (pre rest : list u8) : Reader :=
  {| r_buf := pre ++ rest; r_pos := length pre |}.

Lemma Reader_new_rd buf : Reader_new buf = rd [] buf.
Proof. done. Qed.

Lemma rd_snoc pre b rest :
  {| r_buf := pre ++ b :: rest; r_pos := length pre + 1 |} = rd (pre ++ [b]) rest.
Proof. unfold rd. by rewrite length_app, <- app_assoc. Qed.

Lemma read_u8_rd pre rest :
  read_u8 (rd pre rest) =
  match rest with
  | [] => Err Truncated
  | b :: rest' => Ok (b, rd (pre ++ [b]) rest')
  end.
Proof.
  unfold read_u8, rd. cbn [r_buf r_pos]. destruct rest as [|b rest'].
  - rewrite app_nil_r, lookup_ge_None_2 by lia. done.
  - rewrite list_lookup_middle by done. cbn. by rewrite rd_snoc.
Qed.

Lemma slice_get_range_rd pre rest n :
  slice_get_range (pre ++ rest) (length pre) (length pre + n) =
  if (n <=? length rest)%nat then Some (take n rest) else None.
Proof.
  unfold slice_get_range. rewrite length_app, drop_app_length.
  rewrite (proj2 (Nat.leb_le (length pre) _)) by lia. cbn [andb].
  replace (length pre + n - length pre)%nat with n by lia.
  destruct (Nat.leb_spec n (length rest)).
  - by rewrite (proj2 (Nat.leb_le _ _)) by lia.
  - by rewrite (proj2 (Nat.leb_gt _ _)) by lia.
Qed.

(** The overflow test of [read_bytes] never fires on a position and a length
    that fit a frame. *)
Lemma read_bytes_rd pre rest n :
  Z.of_nat (length pre) + Z.of_nat n <= USIZE_MAX →
  read_bytes n (rd pre rest) =
  if (n <=? length rest)%nat
  then Ok (take n rest, rd (pre ++ take n rest) (drop n rest))
  else Err Truncated.
Proof.
  intros Hov. unfold read_bytes, rd, checked_add_usize. cbn [r_buf r_pos].
  rewrite (proj2 (Z.leb_le _ _)) by lia. cbn [ok_or obind].
  rewrite slice_get_range_rd. destruct (Nat.leb_spec n (length rest)); [|done].
  cbn [ok_or obind]. rewrite <- app_assoc, take_drop, length_app, length_take.
  by rewrite Nat.min_l by lia.
Qed.

Lemma rbind_read_u8 {A} (k : u8 → RD A) pre b rest :
  rbind read_u8 k (rd pre (b :: rest)) = k b (rd (pre ++ [b]) rest).
Proof. unfold rbind. by rewrite read_u8_rd. Qed.

Lemma rbind_read_bytes {A} (k : list u8 → RD A) pre l rest n :
  n = length l → Z.of_nat (length pre) + Z.of_nat n <= USIZE_MAX →
  rbind (read_bytes n) k (rd pre (l ++ rest)) = k l (rd (pre ++ l) rest).
Proof.
  intros -> Hov. unfold rbind. rewrite read_bytes_rd by done.
  rewrite (proj2 (Nat.leb_le _ _)) by (rewrite length_app; lia).
  by rewrite take_app_length, drop_app_length.
Qed.

(** Reading two bytes recombines the high and low half of a [u16]. *)
Lemma shiftl_lor_add a b :
  0 <= b < 256 → Z.lor (Z.shiftl a 8) b = a * 256 + b.
Proof.
  intros Hb. assert (Hd : Z.land (Z.shiftl a 8) b = 0).
  { apply Z.bits_inj'. intros n Hn. rewrite Z.land_spec, Z.bits_0.
    destruct (Z.lt_ge_cases n 8).
    - by rewrite Z.shiftl_spec_low.
    - replace b with (b mod 2 ^ 8) by (apply Z.mod_small; lia).
      by rewrite Z.mod_pow2_bits_high, andb_false_r by lia. }
  rewrite <- Z.lxor_lor, <- Z.add_nocarry_lxor by done.
  by rewrite Z.shiftl_mul_pow2.
Qed.

Lemma u8_pair_range a b : 0 <= u8_val a * 256 + u8_val b < U16_MOD.
Proof.
  unfold U16_MOD. pose proof (u8_val_range a). pose proof (u8_val_range b). lia.
Qed.

(** The two bytes the serializers emit for a port. *)
Definition u16_hi (p : Z) : u8 := as_u8 (Z.shiftr p 8).
Definition u16_lo (p : Z) : u8 := as_u8 (Z.land p 0xff).

Lemma u16_combine p :
  0 <= p < U16_MOD → u8_val (u16_hi p) * 256 + u8_val (u16_lo p) = p.
Proof.
  unfold U16_MOD, u16_hi, u16_lo. intros Hp. rewrite !as_u8_val.
  change 255 with (Z.ones 8). rewrite Z.land_ones, Z.shiftr_div_pow2 by lia.
  change (2 ^ 8) with 256. change (2 ^ 16) with 65536 in Hp.
  rewrite (Z.mod_small (p / 256)), (Z.mod_small (p mod 256)).
  - pose proof (Z.div_mod p 256). lia.
  - apply Z.mod_pos_bound. lia.
  - split; [apply Z.div_pos | apply Z.div_lt_upper_bound]; lia.
Qed.

Lemma u16_split a b :
  u16_hi (u8_val a * 256 + u8_val b) = a ∧ u16_lo (u8_val a * 256 + u8_val b) = b.
Proof.
  pose proof (u8_val_range a). pose proof (u8_val_range b).
  split; apply u8_val_inj; unfold u16_hi, u16_lo; rewrite as_u8_val.
  - rewrite Z.shiftr_div_pow2 by lia. change (2 ^ 8) with 256.
    rewrite Z.div_add_l, (Z.div_small (u8_val b)), Z.add_0_r by lia.
    by apply Z.mod_small.
  - change 255 with (Z.ones 8). rewrite Z.land_ones by lia.
    change (2 ^ 8) with 256. rewrite Z.add_comm, Z.mod_add by lia.
    by rewrite !(Z.mod_small (u8_val b)).
Qed.

Lemma rbind_read_u16 {A} (k : Z → RD A) pre hi lo rest :
  rbind read_u16 k (rd pre (hi :: lo :: rest)) =
  k (u8_val hi * 256 + u8_val lo) (rd (pre ++ [hi; lo]) rest).
Proof.
  unfold read_u16. unfold rbind at 1 2 3. rewrite read_u8_rd. cbn [obind].
  rewrite read_u8_rd. cbn [obind rret]. rewrite <- app_assoc.
  by rewrite shiftl_lor_add by apply u8_val_range.
Qed.

(** ** Inversion of a successful parser *)
Lemma read_u8_inv pre rest b r :
  read_u8 (rd pre rest) = Ok (b, r) →
  ∃ rest', rest = b :: rest' ∧ r = rd (pre ++ [b]) rest'.
Proof. rewrite read_u8_rd. destruct rest; [done|]. intros [= -> <-]. eauto. Qed.

Lemma read_bytes_inv pre rest n l r :
  Z.of_nat (length pre) + Z.of_nat n <= USIZE_MAX →
  read_bytes n (rd pre rest) = Ok (l, r) →
  ∃ rest', rest = l ++ rest' ∧ length l = n ∧ r = rd (pre ++ l) rest'.
Proof.
  intros Hov. rewrite read_bytes_rd by done.
  destruct (Nat.leb_spec n (length rest)); [|done]. intros [= <- <-].
  exists (drop n rest). rewrite take_drop, length_take. split_and!; [done|lia|done].
Qed.

Lemma read_u16_inv pre rest p r :
  read_u16 (rd pre rest) = Ok (p, r) →
  ∃ hi lo rest', rest = hi :: lo :: rest' ∧ p = u8_val hi * 256 + u8_val lo ∧
    r = rd (pre ++ [hi; lo]) rest'.
Proof.
  unfold read_u16, rbind, rret. intros H. inv_ok.
  apply read_u8_inv in E as (? & -> & ->). apply read_u8_inv in E0 as (? & -> & ->).
  eexists _, _, _. rewrite <- app_assoc, shiftl_lor_add by apply u8_val_range. done.
Qed.

(** Invert every read of known position, left to right. *)
Ltac inv_read :=
  match goal with
  | E : read_u8 (rd _ _) = Ok _ |- _ => apply read_u8_inv in E as (? & -> & ->)
  | E : read_u16 (rd _ _) = Ok _ |- _ =>
      apply read_u16_inv in E as (? & ? & ? & -> & -> & ->)
  | E : read_bytes (u8_nat ?b) (rd _ _) = Ok _ |- _ =>
      let Hlen := fresh "Hlen" in
      pose proof (u8_nat_range b);
      apply read_bytes_inv in E as (? & -> & Hlen & ->);
      [|rewrite ?length_app; cbn [length]; unfold USIZE_MAX; lia]
  | E : read_bytes ?n (rd _ _) = Ok _ |- _ =>
      let Hlen := fresh "Hlen" in
      apply read_bytes_inv in E as (? & -> & Hlen & ->);
      [|rewrite ?length_app; cbn [length]; unfold USIZE_MAX; lia]
  end.

(** ** Stability under more input

    A parser is stable when extending the buffer never changes a result that
    was not "truncated": a transport may therefore wait for more bytes only on
    [Truncated] and act on every other result at once. *)
Definition stable {A} (m : RD A) : Prop :=
  ∀ buf pos s,
    match m {| r_buf := buf; r_pos := pos |} with
    | Ok (a, r') =>
        r_buf r' = buf ∧
        m {| r_buf := buf ++ s; r_pos := pos |}
        = Ok (a, {| r_buf := buf ++ s; r_pos := r_pos r' |})
    | Err Truncated => True
    | Err e => m {| r_buf := buf ++ s; r_pos := pos |} = Err e
    | Panic => m {| r_buf := buf ++ s; r_pos := pos |} = Panic
    end.

Lemma stable_ret {A} (a : A) : stable (rret a).
Proof. done. Qed.

Lemma stable_fail {A} e : stable (rfail (A := A) e).
Proof. intros ???. by destruct e. Qed.

Lemma stable_lift {A} (c : outcome ProtocolError A) : stable (rlift c).
Proof. intros ???. by destruct c as [|[]|]. Qed.

Lemma stable_bind {A B} (m : RD A) (k : A → RD B) :
  stable m → (∀ a, stable (k a)) → stable (rbind m k).
Proof.
  intros Hm Hk buf pos s. unfold rbind. specialize (Hm buf pos s).
  destruct (m _) as [[a [buf' pos']]|e|] eqn:E; cbn [obind].
  - cbn in Hm. destruct Hm as [-> ->]. apply Hk.
  - destruct e; try done; by rewrite Hm.
  - by rewrite Hm.
Qed.

Lemma stable_position : stable position.
Proof. done. Qed.

Lemma stable_read_u8 : stable read_u8.
Proof.
  intros buf pos s. unfold read_u8. cbn [r_buf r_pos].
  destruct (buf !! pos) as [b|] eqn:E; [|done].
  cbn. by rewrite (lookup_app_l_Some _ _ _ _ E).
Qed.

Lemma stable_read_bytes n : stable (read_bytes n).
Proof.
  intros buf pos s. unfold read_bytes. cbn [r_buf r_pos].
  destruct (checked_add_usize pos n) as [stop|]; cbn [ok_or obind]; [|done].
  unfold slice_get_range. rewrite length_app.
  destruct (Nat.leb_spec pos stop), (Nat.leb_spec stop (length buf)); cbn; try done.
  rewrite (proj2 (Nat.leb_le _ _)) by lia. cbn. split; [done|]. do 2 f_equal.
  rewrite drop_app_le, take_app_le; rewrite ?length_drop; try lia. done.
Qed.

Lemma stable_read_u16 : stable read_u16.
Proof.
  apply stable_bind; [apply stable_read_u8|intros hi].
  apply stable_bind; [apply stable_read_u8|intros lo]. apply stable_ret.
Qed.

Lemma stable_if {A} (b : bool) (m1 m2 : RD A) :
  stable m1 → stable m2 → stable (if b then m1 else m2).
Proof. by destruct b. Qed.

Create HintDb parser.
#[export] Hint Resolve stable_ret stable_fail stable_lift stable_position
  stable_read_u8 stable_read_bytes stable_read_u16 stable_if stable_bind : parser.

(** What stability says of a whole parse. *)
Lemma stable_run {A} (m : RD A) buf s res :
  stable m → run_reader m buf = res → res ≠ Err Truncated →
  run_reader m (buf ++ s) = res.
Proof.
  intros Hm Hrun Hne. specialize (Hm buf 0%nat s). revert Hrun Hm.
  unfold run_reader, Reader_new.
  destruct (m {| r_buf := buf; r_pos := 0 |}) as [[a r']|e|]; cbn; intros <-.
  - by intros [_ ->].
  - destruct e; try by intros ->. done.
  - by intros ->.
Qed.

(** ** Absence of panics *)
Definition no_panic {A} (m : RD A) : Prop := ∀ r, m r ≠ Panic.

Lemma no_panic_bind {A B} (m : RD A) (k : A → RD B) :
  no_panic m → (∀ a, no_panic (k a)) → no_panic (rbind m k).
Proof.
  intros Hm Hk r. unfold rbind. specialize (Hm r).
  destruct (m r) as [[a r']| |]; cbn; [apply Hk|done|done].
Qed.

(** A bind whose first parser is known to return only values in [P]. *)
Lemma no_panic_bind_post {A B} (P : A → Prop) (m : RD A) (k : A → RD B) :
  no_panic m → (∀ r a r', m r = Ok (a, r') → P a) → (∀ a, P a → no_panic (k a)) →
  no_panic (rbind m k).
Proof.
  intros Hm HP Hk r. unfold rbind. specialize (Hm r).
  destruct (m r) as [[a r']| |] eqn:E; cbn; [apply Hk; eauto|done|done].
Qed.

Lemma no_panic_ret {A} (a : A) : no_panic (rret a).
Proof. done. Qed.
Lemma no_panic_fail {A} e : no_panic (rfail (A := A) e).
Proof. done. Qed.
Lemma no_panic_position : no_panic position.
Proof. done. Qed.
Lemma no_panic_read_u8 : no_panic read_u8.
Proof. intros r. unfold read_u8. by destruct (r_buf r !! r_pos r). Qed.
Lemma no_panic_read_bytes n : no_panic (read_bytes n).
Proof.
  intros r. unfold read_bytes. destruct (checked_add_usize _ _); [|done].
  cbn. by destruct (slice_get_range _ _ _).
Qed.
Lemma no_panic_read_u16 : no_panic read_u16.
Proof. repeat (apply no_panic_bind; [apply no_panic_read_u8|intros]). done. Qed.
Lemma no_panic_lift {A} (c : outcome ProtocolError A) : c ≠ Panic → no_panic (rlift c).
Proof. intros Hc r. by destruct c. Qed.
Lemma no_panic_if {A} (b : bool) (m1 m2 : RD A) :
  no_panic m1 → no_panic m2 → no_panic (if b then m1 else m2).
Proof. by destruct b. Qed.

#[export] Hint Resolve no_panic_bind no_panic_ret no_panic_fail no_panic_position
  no_panic_read_u8 no_panic_read_bytes no_panic_read_u16 no_panic_lift no_panic_if : parser.

Ltac no_panic_step :=
  match goal with
  | |- no_panic (rbind _ _) => apply no_panic_bind; [|intros ?]
  | |- no_panic (if _ then _ else _) => apply no_panic_if
  | |- no_panic (let _ := _ in _) => cbv zeta
  | |- no_panic _ => solve [auto with parser]
  end.

Lemma no_panic_run {A} (m : RD A) buf : no_panic m → run_reader m buf ≠ Panic.
Proof.
  intros Hm. unfold run_reader. specialize (Hm (Reader_new buf)).
  by destruct (m _).
Qed.

(** A slice returned by [read_bytes n] has length [n]. *)
Lemma read_bytes_length n r l r' : read_bytes n r = Ok (l, r') → length l = n.
Proof.
  unfold read_bytes, checked_add_usize, slice_get_range. intros H. inv_ok.
  destruct (Z.leb _ _); [|done]. injection E as <-.
  destruct (Nat.leb_spec (r_pos r) (r_pos r + n)); [|done].
  destruct (Nat.leb_spec (r_pos r + n) (length (r_buf r))); [|done].
  injection E0 as <-. rewrite length_take, length_drop. lia.
Qed.
