(* ===== verification/Host.v ===== *)
(** * Destination addresses

    [crates/protocol/src/host.rs]: the address types, their wire length, the
    in-place serializer [write] with its bounds check, and [to_vec]. The
    reference encoding [addr_wire] is the byte layout of RFC 1928 section 5;
    [write] is proved to implement it. *)

From stdpp Require Import base tactics decidable numbers list strings.
From Stdlib Require Import ZArith Lia Strings.Byte.
From S2P Require Import Prelude RustStd Constants Reader.

(** [std::net::Ipv4Addr], [Ipv6Addr] and [IpAddr] by their octets. *)
Record Ipv4Addr : Type := mkIpv4 { v4_a : u8; v4_b : u8; v4_c : u8; v4_d : u8 }.
Record Ipv6Addr : Type := mkIpv6 { v6_octets : list u8 }.
Inductive IpAddr : Type := V4 (ip : Ipv4Addr) | V6 (ip : Ipv6Addr).

Inductive Host : Type :=
| HostIp (ip : IpAddr)
| HostDomain (name : string).

Record SocksAddr : Type := mkSocksAddr { host : Host; port : Z }.

#[export] Instance Ipv4Addr_eq_dec : EqDecision Ipv4Addr.
Proof. solve_decision. Defined.
#[export] Instance Ipv6Addr_eq_dec : EqDecision Ipv6Addr.
Proof. solve_decision. Defined.
#[export] Instance IpAddr_eq_dec : EqDecision IpAddr.
Proof. solve_decision. Defined.
#[export] Instance Host_eq_dec : EqDecision Host.
Proof. solve_decision. Defined.
#[export] Instance SocksAddr_eq_dec : EqDecision SocksAddr.
Proof. solve_decision. Defined.

Definition v4_octets (ip : Ipv4Addr) : list u8 :=
  [v4_a ip; v4_b ip; v4_c ip; v4_d ip].

Definition SocksAddr_atyp (a : SocksAddr) : u8 :=
  match host a with
  | HostIp (V4 _) => ATYP_IPV4
  | HostIp (V6 _) => ATYP_IPV6
  | HostDomain _ => ATYP_DOMAIN
  end.

Definition SocksAddr_wire_len (a : SocksAddr) : nat :=
  match host a with
  | HostIp (V4 _) => 4 + 2
  | HostIp (V6 _) => 16 + 2
  | HostDomain name => 1 + str_len name + 2
  end.

(** [write] fills the front of [out] and returns the bytes written; the
    [assert!] and every slice access can panic. *)
Definition SocksAddr_write {E} (a : SocksAddr) (out : list u8) :
  outcome E (list u8 * nat) :=
  let n := SocksAddr_wire_len a in
  if (length out <? n)%nat then Panic else
  let pos := 0%nat in
  let? '(out, pos) :=
    match host a with
    | HostIp (V4 ip) =>
        let? out := slice_copy out pos (pos + 4) (v4_octets ip) in
        Ok (out, (pos + 4)%nat)
    | HostIp (V6 ip) =>
        let? out := slice_copy out pos (pos + 16) (v6_octets ip) in
        Ok (out, (pos + 16)%nat)
    | HostDomain name =>
        let? out := slice_set out pos (as_u8 (Z.of_nat (str_len name))) in
        let? out := slice_copy out (pos + 1) (pos + 1 + str_len name) (as_bytes name) in
        Ok (out, (pos + (1 + str_len name))%nat)
    end in
  let? out := slice_set out pos (as_u8 (Z.shiftr (port a) 8)) in
  let? out := slice_set out (pos + 1) (as_u8 (Z.land (port a) 0xff)) in
  Ok (out, n).

Definition SocksAddr_to_vec {E} (a : SocksAddr) : outcome E (list u8) :=
  let buf := replicate (SocksAddr_wire_len a) Byte.x00 in
  let? '(buf, _) := SocksAddr_write a buf in
  Ok buf.

(** ** Type invariant

    What the Rust types guarantee of a value (16 octets, a [u16] port, a UTF-8
    [String]), and what a request on the wire adds (a name of 1 to 255 bytes). *)
Definition Host_ok (h : Host) : bool :=
  match h with
  | HostIp (V4 _) => true
  | HostIp (V6 ip) => (length (v6_octets ip) =? 16)%nat
  | HostDomain name => is_utf8 name
  end.

Definition SocksAddr_ok (a : SocksAddr) : bool := Host_ok (host a) && is_u16 (port a).

Definition Host_encodable (h : Host) : bool :=
  match h with
  | HostDomain name => (str_len name <? 256)%nat
  | HostIp _ => true
  end.

Definition Host_nonempty (h : Host) : bool :=
  match h with
  | HostDomain name => (0 <? str_len name)%nat
  | HostIp _ => true
  end.

(** ** Reference encoding *)
Definition host_wire (h : Host) : list u8 :=
  match h with
  | HostIp (V4 ip) => v4_octets ip
  | HostIp (V6 ip) => v6_octets ip
  | HostDomain name => as_u8 (Z.of_nat (str_len name)) :: as_bytes name
  end.

Definition addr_wire (a : SocksAddr) : list u8 :=
  host_wire (host a) ++ [u16_hi (port a); u16_lo (port a)].

Lemma SocksAddr_ok_host a : SocksAddr_ok a = true → Host_ok (host a) = true.
Proof. unfold SocksAddr_ok. by intros [? _]%andb_prop. Qed.

Lemma SocksAddr_ok_port a : SocksAddr_ok a = true → 0 <= port a < U16_MOD.
Proof. unfold SocksAddr_ok, is_u16. intros [_ [??]%andb_prop]%andb_prop. lia. Qed.

Lemma addr_wire_length a :
  SocksAddr_ok a = true → length (addr_wire a) = SocksAddr_wire_len a.
Proof.
  intros Hok%SocksAddr_ok_host. unfold addr_wire, SocksAddr_wire_len.
  rewrite length_app. destruct (host a) as [[ip|ip]|name]; cbn in *.
  - done.
  - apply Nat.eqb_eq in Hok. by rewrite Hok.
  - unfold str_len. lia.
Qed.

#[export] Hint Rewrite addr_wire_length using done : rust.

(** The last two stores of [write]. *)
Lemma write_port {E} pre x y post p (k : list u8 → outcome E (list u8 * nat)) pos :
  pos = length pre →
  (let? out := slice_set (pre ++ x :: y :: post) pos (as_u8 (Z.shiftr p 8)) in
   let? out := slice_set out (pos + 1) (as_u8 (Z.land p 0xff)) in
   k out) = k (pre ++ u16_hi p :: u16_lo p :: post).
Proof.
  intros ->. rewrite (slice_set_ok pre) by done. cbn [obind].
  change (pre ++ ?a :: ?b :: ?c) with (pre ++ [a] ++ b :: c). rewrite app_assoc.
  rewrite (slice_set_ok (pre ++ [_])) by (rewrite length_app; cbn; lia).
  cbn [obind]. by rewrite <- app_assoc.
Qed.

(** The shape of a buffer that passed the length check. *)
Lemma buffer_front (out : list u8) n :
  (n + 2 ≤ length out)%nat →
  ∃ mid x y post, out = mid ++ x :: y :: post ∧ length mid = n ∧ post = drop (n + 2) out.
Proof.
  intros H. destruct (list_split_at out n) as (mid & rest & -> & <-); [lia|].
  rewrite length_app in H. destruct rest as [|x [|y post]]; cbn in H; try lia.
  exists mid, x, y, post. split_and!; [done..|].
  by rewrite drop_app_add.
Qed.

(** [write] overwrites exactly the first [wire_len] bytes with the reference
    encoding and keeps the rest of the buffer. *)
Lemma SocksAddr_write_ok {E} a out :
  SocksAddr_ok a = true → (SocksAddr_wire_len a ≤ length out)%nat →
  SocksAddr_write (E := E) a out =
  Ok (addr_wire a ++ drop (SocksAddr_wire_len a) out, SocksAddr_wire_len a).
Proof.
  intros Hok Hlen. unfold SocksAddr_write.
  rewrite (proj2 (Nat.ltb_ge _ _)) by lia.
  apply SocksAddr_ok_host in Hok. unfold addr_wire, SocksAddr_wire_len in *.
  destruct (host a) as [[ip|ip]|name]; cbn [Host_ok] in Hok.
  - destruct (buffer_front out 4) as (mid & x & y & post & -> & Hm & <-); [lia|].
    rewrite slice_copy_front by (cbn; lia). cbn [obind].
    by rewrite write_port, <- app_assoc.
  - apply Nat.eqb_eq in Hok.
    destruct (buffer_front out 16) as (mid & x & y & post & -> & Hm & <-); [lia|].
    rewrite slice_copy_front by (cbn; lia). cbn [obind].
    by rewrite write_port, <- app_assoc.
  - destruct (buffer_front out (1 + str_len name)) as (mid & x & y & post & -> & Hm & <-);
      [lia|].
    destruct mid as [|z mid]; [done|]. cbn in Hm.
    cbn [app]. rewrite slice_set_front. cbn [obind].
    change (?a :: mid ++ ?l) with ([a] ++ mid ++ l).
    rewrite (slice_copy_ok [_] mid) by (cbn; unfold str_len in *; lia). cbn [obind app].
    change (?a :: as_bytes name ++ ?l) with ((a :: as_bytes name) ++ l).
    by rewrite write_port, <- app_assoc by (cbn; unfold str_len; lia).
Qed.

Lemma SocksAddr_to_vec_ok {E} a :
  SocksAddr_ok a = true → SocksAddr_to_vec (E := E) a = Ok (addr_wire a).
Proof.
  intros Hok. unfold SocksAddr_to_vec.
  rewrite SocksAddr_write_ok by (rewrite ?length_replicate; done).
  cbn [obind]. by rewrite drop_ge, app_nil_r by (rewrite length_replicate; lia).
Qed.

(** A concrete address, used by the witnesses. *)
Definition example_addr : SocksAddr :=
  {| host := HostIp (V4 (mkIpv4 Byte.xc0 Byte.xa8 Byte.x01 Byte.x0a)); port := 8080 |}.

(** [write] is exact: on a buffer of at least [wire_len] bytes it stores
    the RFC 1928 encoding in front, leaves every later byte untouched and
    returns [wire_len]; on a shorter buffer it panics instead of truncating;
    and [to_vec] never panics. *)
Theorem socksaddr_write_exact (a : SocksAddr) (out : list u8) :
  SocksAddr_ok a = true →
  SocksAddr_write (E := ProtocolError) a out =
    (if (SocksAddr_wire_len a <=? length out)%nat
     then Ok (addr_wire a ++ drop (SocksAddr_wire_len a) out, SocksAddr_wire_len a)
     else Panic) ∧
  SocksAddr_to_vec (E := ProtocolError) a = Ok (addr_wire a).
Proof.
  intros Hok. split; [|by apply SocksAddr_to_vec_ok].
  destruct (Nat.leb_spec (SocksAddr_wire_len a) (length out)).
  - by apply SocksAddr_write_ok.
  - unfold SocksAddr_write. by rewrite (proj2 (Nat.ltb_lt _ _)).
Qed.

Lemma socksaddr_write_exact_witness :
  SocksAddr_write (E := ProtocolError) example_addr (replicate 7 Byte.xff) =
  Ok ([Byte.xc0; Byte.xa8; Byte.x01; Byte.x0a; Byte.x1f; Byte.x90; Byte.xff], 6%nat) ∧
  SocksAddr_write (E := ProtocolError) example_addr (replicate 5 Byte.xff) = Panic.
Proof.
  split.
  - apply (socksaddr_write_exact example_addr (replicate 7 Byte.xff)). vm_compute. reflexivity.
  - apply (socksaddr_write_exact example_addr (replicate 5 Byte.xff)). vm_compute. reflexivity.
Defined.
