(* ===== verification/Display.v ===== *)
(** * The text of an address

    [Display] of [Host] and [SocksAddr] ([crates/protocol/src/host.rs]), with
    the standard library's texts of IP addresses. The node agent dials this
    text: [TcpStream::connect] splits it at its last colon into a host and a
    decimal port ([rsplit_once]), which gives back what was printed. *)

From stdpp Require Import base tactics decidable numbers list strings.
From Stdlib Require Import ZArith Lia Strings.Ascii Strings.Byte.
From Stdlib Require Import DecimalString DecimalN HexadecimalString.
From S2P Require Import Prelude RustStd Constants Reader Host.

(** Formatting of unsigned integers, [{}] and [{:x}]. *)
Definition dec (z : Z) : string := DecimalString.NilZero.string_of_uint (N.to_uint (Z.to_N z)).
Definition hex (z : Z) : string := HexadecimalString.NilZero.string_of_uint (N.to_hex_uint (Z.to_N z)).

Definition Ipv4Addr_to_string (ip : Ipv4Addr) : string :=
  dec (u8_val (v4_a ip)) +:+ "." +:+ dec (u8_val (v4_b ip)) +:+ "." +:+
  dec (u8_val (v4_c ip)) +:+ "." +:+ dec (u8_val (v4_d ip)).

(** [Ipv6Addr::segments] *)
Fixpoint segments (l : list u8) : list Z :=
  match l with
  | a :: b :: l => (u8_val a * 256 + u8_val b) :: segments l
  | _ => []
  end.

(** The longest run of zero segments, the first one of that length. *)
Record Span : Type := mkSpan { sp_start : nat; sp_len : nat }.

Fixpoint longest_zeroes (i : nat) (current longest : Span) (l : list Z) : Span :=
  match l with
  | [] => longest
  | segment :: l =>
      if segment =? 0 then
        let current := {| sp_start := if (sp_len current =? 0)%nat then i else sp_start current;
                          sp_len := S (sp_len current) |} in
        let longest := if (sp_len longest <? sp_len current)%nat then current else longest in
        longest_zeroes (S i) current longest l
      else longest_zeroes (S i) (mkSpan 0 0) longest l
  end.

Definition fmt_subslice (chunk : list Z) : string :=
  match chunk with
  | [] => ""
  | first :: tail => foldl (λ s segment, s +:+ ":" +:+ hex segment) (hex first) tail
  end.

(** [Ipv6Addr::to_ipv4_mapped] *)
Definition to_ipv4_mapped (ip : Ipv6Addr) : option Ipv4Addr :=
  match v6_octets ip with
  | [z0; z1; z2; z3; z4; z5; z6; z7; z8; z9; f0; f1; a; b; c; d] =>
      if forallb (λ z, u8_eqb z Byte.x00) [z0; z1; z2; z3; z4; z5; z6; z7; z8; z9] &&
         u8_eqb f0 Byte.xff && u8_eqb f1 Byte.xff
      then Some {| v4_a := a; v4_b := b; v4_c := c; v4_d := d |} else None
  | _ => None
  end.

Definition Ipv6Addr_to_string (ip : Ipv6Addr) : string :=
  match to_ipv4_mapped ip with
  | Some ipv4 => "::ffff:" +:+ Ipv4Addr_to_string ipv4
  | None =>
      let segs := segments (v6_octets ip) in
      let zeroes := longest_zeroes 0 (mkSpan 0 0) (mkSpan 0 0) segs in
      if (1 <? sp_len zeroes)%nat then
        fmt_subslice (take (sp_start zeroes) segs) +:+ "::" +:+
        fmt_subslice (drop (sp_start zeroes + sp_len zeroes) segs)
      else fmt_subslice segs
  end.

Definition Host_to_string (h : Host) : string :=
  match h with
  | HostIp (V4 ip) => Ipv4Addr_to_string ip
  | HostIp (V6 ip) => Ipv6Addr_to_string ip
  | HostDomain d => d
  end.

Definition SocksAddr_to_string (a : SocksAddr) : string := Host_to_string (host a) +:+ ":" +:+ dec (port a).

Example loopback_text : Ipv6Addr_to_string (mkIpv6 (replicate 15 Byte.x00 ++ [Byte.x01])) = "::1"%string.
Proof. reflexivity. Qed.
Example documentation_text :
  Ipv6Addr_to_string (mkIpv6 [Byte.x20; Byte.x01; Byte.x0d; Byte.xb8; Byte.x00; Byte.x00; Byte.x00; Byte.x01;
    Byte.x00; Byte.x00; Byte.x00; Byte.x00; Byte.x00; Byte.x00; Byte.xab; Byte.xcd]) = "2001:db8:0:1::abcd"%string.
Proof. reflexivity. Qed.

(** ** Reading the text back *)

(** [str::rsplit_once(c)] *)
Fixpoint rsplit_once (c : ascii) (s : string) : option (string * string) :=
  match s with
  | EmptyString => None
  | String a s' =>
      match rsplit_once c s' with
      | Some (h, t) => Some (String a h, t)
      | None => if Ascii.eqb a c then Some (EmptyString, s') else None
      end
  end.

(** [str::parse::<u16>] on decimal digits. *)
Definition parse_u16 (s : string) : option Z :=
  match DecimalString.NilZero.uint_of_string s with
  | Some d => let z := Z.of_N (N.of_uint d) in if is_u16 z then Some z else None
  | None => None
  end.

Lemma rsplit_once_app c h t : rsplit_once c t = None → rsplit_once c (h +:+ String c t) = Some (h, t).
Proof.
  intros Ht. induction h as [|a h IH].
  - change ("" +:+ String c t) with (String c t). cbn. by rewrite Ht, Ascii.eqb_refl.
  - change (String a h +:+ String c t) with (String a (h +:+ String c t)). cbn [rsplit_once]. by rewrite IH.
Qed.

Lemma digits_no_colon d : rsplit_once ":" (DecimalString.NilEmpty.string_of_uint d) = None.
Proof. by induction d as [|d IH|d IH|d IH|d IH|d IH|d IH|d IH|d IH|d IH|d IH]; cbn; [|rewrite IH..]. Qed.

Lemma dec_no_colon z : rsplit_once ":" (dec z) = None.
Proof.
  unfold dec, DecimalString.NilZero.string_of_uint. by destruct (N.to_uint _); [|apply digits_no_colon..].
Qed.

Lemma to_uint_nonnil n : N.to_uint n ≠ Decimal.Nil.
Proof.
  rewrite <- (DecimalN.Unsigned.of_to n), DecimalN.Unsigned.to_of. apply DecimalFacts.unorm_nonnil.
Qed.

Lemma parse_u16_dec z : is_u16 z = true → parse_u16 (dec z) = Some z.
Proof.
  intros Hz. unfold parse_u16, dec. rewrite DecimalString.NilZero.usu by apply to_uint_nonnil.
  rewrite DecimalN.Unsigned.of_to, Z2N.id by (unfold is_u16 in Hz; lia). cbn zeta. by rewrite Hz.
Qed.

(** ** Properties *)

(** The text of an address determines host and port: splitting it at the
    last colon, as the dialing code does, gives back the text of the host (IPv6
    texts and their colons included) and the port. *)
Theorem address_text_splits (a : SocksAddr) :
  SocksAddr_ok a = true →
  ∃ digits, rsplit_once ":" (SocksAddr_to_string a) = Some (Host_to_string (host a), digits) ∧
    parse_u16 digits = Some (port a).
Proof.
  unfold SocksAddr_ok. intros [_ Hp]%andb_prop. exists (dec (port a)).
  split; [apply rsplit_once_app, dec_no_colon|by apply parse_u16_dec].
Qed.

Lemma address_text_splits_witness :
  ∃ digits, rsplit_once ":" (SocksAddr_to_string {| host := HostIp (V6 (mkIpv6 (replicate 15 Byte.x00 ++ [Byte.x01]))); port := 8080 |})
    = Some ("::1"%string, digits) ∧ parse_u16 digits = Some 8080.
Proof.
  apply (address_text_splits {| host := HostIp (V6 (mkIpv6 (replicate 15 Byte.x00 ++ [Byte.x01]))); port := 8080 |}).
  reflexivity.
Defined.
