(* ===== verification/SocketText.v ===== *)
(** * Parsing socket addresses

    What the standard library does with the text of an address:
    [str::parse::<SocketAddr>] (the parser of [core::net]), [str::parse] of
    unsigned integers, and [to_socket_addrs], by which [TcpStream::connect]
    dials a text. The node agent dials the text of the target
    ([crates/node/src/handler.rs], step 4); the load generator parses its
    arguments ([crates/rustproxy-bin/examples/loadgen.rs]). *)

From stdpp Require Import base tactics decidable numbers list strings.
From Stdlib Require Import ZArith Lia Strings.Ascii Strings.Byte.
From Stdlib Require Import DecimalString DecimalN DecimalFacts HexadecimalString.
From S2P Require Import Prelude RustStd Constants Reader Host Display.

(** [SocketAddr]; an IPv6 one has a scope id (zero by default). *)
Record SocketAddr : Type := mkSocketAddr { sa_ip : IpAddr; sa_port : Z; sa_scope : Z }.

Definition socket_addr (ip : IpAddr) (port : Z) : SocketAddr := {| sa_ip := ip; sa_port := port; sa_scope := 0 |}.

(** ** The parser: a value and the text that is left *)
Abbreviation parser A := (string → option (A * string)).

(** [char::to_digit] *)
Definition to_digit (radix : Z) (c : ascii) : option Z :=
  let n := Z.of_nat (nat_of_ascii c) in
  let d := if (48 <=? n) && (n <=? 57) then Some (n - 48)
           else if (97 <=? n) && (n <=? 122) then Some (n - 87)
           else if (65 <=? n) && (n <=? 90) then Some (n - 55) else None in
  match d with Some d => if d <? radix then Some d else None | None => None end.

Fixpoint read_digits (radix : Z) (s : string) : list Z * string :=
  match s with
  | EmptyString => ([], s)
  | String c s' =>
      match to_digit radix c with
      | Some d => let '(ds, rest) := read_digits radix s' in (d :: ds, rest)
      | None => ([], s)
      end
  end.

Definition digits_value (radix : Z) (ds : list Z) : Z := fold_left (λ v d, v * radix + d) ds 0.

(** [read_number]: at most [max_digits] digits, a value below [modulus], and a
    leading zero only if allowed or alone. *)
Definition read_number (radix : Z) (max_digits : option nat) (allow_zero_prefix : bool) (modulus : Z) : parser Z := λ s,
  let '(ds, rest) := read_digits radix s in
  let too_long := match max_digits with Some m => (m <? length ds)%nat | None => false end in
  let has_leading_zero := match ds with 0 :: _ => true | _ => false end in
  if too_long then None
  else if (length ds =? 0)%nat then None
  else if negb allow_zero_prefix && has_leading_zero && (1 <? length ds)%nat then None
  else if digits_value radix ds <? modulus then Some (digits_value radix ds, rest) else None.

Definition read_given_char (c : ascii) : parser unit := λ s,
  match s with String a s' => if Ascii.eqb a c then Some (tt, s') else None | EmptyString => None end.

(** [read_separator]: the separator is read before all but the first. *)
Definition read_separated {A} (sep : ascii) (first : bool) (inner : parser A) : parser A := λ s,
  if first then inner s
  else match read_given_char sep s with Some (_, s') => inner s' | None => None end.

Definition read_ipv4_addr : parser Ipv4Addr := λ s,
  let octet := read_number 10 (Some 3%nat) false 256 in
  match octet s with
  | None => None
  | Some (a, s) =>
  match read_separated "." false octet s with
  | None => None
  | Some (b, s) =>
  match read_separated "." false octet s with
  | None => None
  | Some (c, s) =>
  match read_separated "." false octet s with
  | None => None
  | Some (d, s) => Some ({| v4_a := as_u8 a; v4_b := as_u8 b; v4_c := as_u8 c; v4_d := as_u8 d |}, s)
  end end end end.

(** [read_groups]: up to [limit] groups, an IPv4 address counting for the last
    two. *)
Fixpoint read_groups (limit : nat) (first : bool) (s : string) : list Z * bool * string :=
  match limit with
  | O => ([], false, s)
  | S limit' =>
      let v4 := match limit' with O => None | _ => read_separated ":" first read_ipv4_addr s end in
      match v4 with
      | Some (ip, s') =>
          ([u8_val (v4_a ip) * 256 + u8_val (v4_b ip); u8_val (v4_c ip) * 256 + u8_val (v4_d ip)], true, s')
      | None =>
          match read_separated ":" first (read_number 16 (Some 4%nat) true 65536) s with
          | Some (g, s') =>
              let '(gs, is_v4, s'') := read_groups limit' false s' in (g :: gs, is_v4, s'')
          | None => ([], false, s)
          end
      end
  end.

Definition ipv6_of_groups (gs : list Z) : Ipv6Addr :=
  mkIpv6 (concat ((λ g, [as_u8 (g / 256); as_u8 (g mod 256)]) <$> gs)).

Definition read_ipv6_addr : parser Ipv6Addr := λ s,
  let '(head, head_ipv4, s) := read_groups 8 true s in
  if (length head =? 8)%nat then Some (ipv6_of_groups head, s)
  else if head_ipv4 then None
  else
    match read_given_char ":" s with
    | None => None
    | Some (_, s) =>
    match read_given_char ":" s with
    | None => None
    | Some (_, s) =>
        let '(tail, _, s) := read_groups (8 - (length head + 1)) true s in
        Some (ipv6_of_groups (head ++ replicate (8 - length head - length tail) 0 ++ tail), s)
    end end.

Definition read_port : parser Z := λ s,
  match read_given_char ":" s with Some (_, s) => read_number 10 None true 65536 s | None => None end.

(** An optional [%scope]. *)
Definition read_scope_id (s : string) : Z * string :=
  match read_given_char "%" s with
  | Some (_, s') =>
      match read_number 10 None true U32_MOD s' with Some (n, s'') => (n, s'') | None => (0, s) end
  | None => (0, s)
  end.

Definition read_socket_addr_v4 : parser SocketAddr := λ s,
  match read_ipv4_addr s with
  | None => None
  | Some (ip, s) => match read_port s with Some (p, s) => Some (socket_addr (V4 ip) p, s) | None => None end
  end.

Definition read_socket_addr_v6 : parser SocketAddr := λ s,
  match read_given_char "[" s with
  | None => None
  | Some (_, s) =>
  match read_ipv6_addr s with
  | None => None
  | Some (ip, s) =>
      let '(scope, s) := read_scope_id s in
      match read_given_char "]" s with
      | None => None
      | Some (_, s) =>
          match read_port s with
          | Some (p, s) => Some ({| sa_ip := V6 ip; sa_port := p; sa_scope := scope |}, s)
          | None => None
          end
      end
  end end.

Definition parse_socket_addr (s : string) : option SocketAddr :=
  let r := match read_socket_addr_v4 s with Some r => Some r | None => read_socket_addr_v6 s end in
  match r with Some (a, EmptyString) => Some a | _ => None end.

(** [str::parse] of an unsigned integer: an optional plus sign, digits, no
    overflow. *)
Definition parse_unsigned (modulus : Z) (s : string) : option Z :=
  let s := match s with
           | String c (String d s') => if Ascii.eqb c "+" then String d s' else s
           | _ => s
           end in
  match read_number 10 None true modulus s with Some (n, EmptyString) => Some n | _ => None end.

Example parse_v4 : parse_socket_addr "127.0.0.1:1080" = Some (socket_addr (V4 (mkIpv4 Byte.x7f Byte.x00 Byte.x00 Byte.x01)) 1080).
Proof. vm_compute. reflexivity. Qed.
Example parse_v6 : parse_socket_addr "[::1]:80" = Some (socket_addr (V6 (mkIpv6 (replicate 15 Byte.x00 ++ [Byte.x01]))) 80).
Proof. vm_compute. reflexivity. Qed.
Example parse_v6_full : parse_socket_addr "[2001:db8::1:2%3]:65535"
  = Some {| sa_ip := V6 (mkIpv6 [Byte.x20; Byte.x01; Byte.x0d; Byte.xb8; Byte.x00; Byte.x00; Byte.x00; Byte.x00; Byte.x00;
                                 Byte.x00; Byte.x00; Byte.x00; Byte.x00; Byte.x01; Byte.x00; Byte.x02]);
            sa_port := 65535; sa_scope := 3 |}.
Proof. vm_compute. reflexivity. Qed.
Example parse_mapped : parse_socket_addr "[::ffff:10.0.0.1]:1"
  = Some (socket_addr (V6 (mkIpv6 (replicate 10 Byte.x00 ++ [Byte.xff; Byte.xff; Byte.x0a; Byte.x00; Byte.x00; Byte.x01]))) 1).
Proof. vm_compute. reflexivity. Qed.
Example parse_rejects : parse_socket_addr "127.0.0.01:1" = None ∧ parse_socket_addr "1.2.3.4:65536" = None ∧
  parse_socket_addr "::1:80" = None ∧ parse_socket_addr "localhost:80" = None ∧ parse_socket_addr "[1:2:3]:4" = None.
Proof. vm_compute. done. Qed.

(** ** Dialing a text *)

(** [to_socket_addrs] of a text: an address, or a name for the resolver. *)
Definition to_socket_addrs (resolve : string → Z → option (list SocketAddr)) (s : string) : option (list SocketAddr) :=
  match parse_socket_addr s with
  | Some a => Some [a]
  | None =>
      match rsplit_once ":" s with
      | None => None
      | Some (h, port_str) =>
          match parse_unsigned 65536 port_str with Some p => resolve h p | None => None end
      end
  end.

(** ** Reading printed numbers *)
Fixpoint uint_digits (d : Decimal.uint) : list Z :=
  match d with
  | Decimal.Nil => []
  | Decimal.D0 d => 0 :: uint_digits d
  | Decimal.D1 d => 1 :: uint_digits d
  | Decimal.D2 d => 2 :: uint_digits d
  | Decimal.D3 d => 3 :: uint_digits d
  | Decimal.D4 d => 4 :: uint_digits d
  | Decimal.D5 d => 5 :: uint_digits d
  | Decimal.D6 d => 6 :: uint_digits d
  | Decimal.D7 d => 7 :: uint_digits d
  | Decimal.D8 d => 8 :: uint_digits d
  | Decimal.D9 d => 9 :: uint_digits d
  end.

(** The text does not go on with a digit. *)
Definition no_digit (s : string) : Prop :=
  match s with String c _ => to_digit 10 c = None | EmptyString => True end.

Lemma read_digits_uint d rest :
  no_digit rest → read_digits 10 (DecimalString.NilEmpty.string_of_uint d +:+ rest) = (uint_digits d, rest).
Proof.
  intros Hr. induction d as [|d IH|d IH|d IH|d IH|d IH|d IH|d IH|d IH|d IH|d IH].
  1:{ change (DecimalString.NilEmpty.string_of_uint Decimal.Nil +:+ rest) with rest.
      destruct rest as [|c rest]; [done|]. cbn in Hr |- *. by rewrite Hr. }
  all: cbn [DecimalString.NilEmpty.string_of_uint];
    match goal with |- read_digits 10 (String ?c ?t +:+ ?r) = _ =>
      change (String c t +:+ r) with (String c (t +:+ r)) end;
    cbn -[String.append]; by rewrite IH.
Qed.

Lemma digits_value_acc d acc :
  fold_left (λ v d, v * 10 + d) (uint_digits d) (Z.pos acc) = Z.pos (Pos.of_uint_acc d acc).
Proof.
  revert acc. induction d as [|d IH|d IH|d IH|d IH|d IH|d IH|d IH|d IH|d IH|d IH]; intros acc; [done|..];
    cbn [uint_digits fold_left Pos.of_uint_acc]; rewrite <- IH; f_equal; lia.
Qed.

Lemma digits_value_uint d : digits_value 10 (uint_digits d) = Z.of_N (N.of_uint d).
Proof.
  unfold digits_value, N.of_uint.
  induction d as [|d IH|d IH|d IH|d IH|d IH|d IH|d IH|d IH|d IH|d IH]; [done|exact IH|..];
    cbn -[Z.mul Z.add]; rewrite <- digits_value_acc; done.
Qed.

Abbreviation dec_digits z := (uint_digits (N.to_uint (Z.to_N z))).

Lemma dec_digits_spec z rest :
  0 <= z → no_digit rest →
  read_digits 10 (dec z +:+ rest) = (dec_digits z, rest) ∧ digits_value 10 (dec_digits z) = z ∧ dec_digits z ≠ [].
Proof.
  intros Hz Hr. pose proof (to_uint_nonnil (Z.to_N z)) as Hn. split_and!.
  - rewrite <- read_digits_uint by done. unfold dec. f_equal. f_equal.
    destruct (N.to_uint (Z.to_N z)); done.
  - rewrite digits_value_uint, DecimalN.Unsigned.of_to, Z2N.id; done.
  - by destruct (N.to_uint (Z.to_N z)).
Qed.

Lemma read_number_dec z modulus rest :
  0 <= z < modulus → no_digit rest → read_number 10 None true modulus (dec z +:+ rest) = Some (z, rest).
Proof.
  intros Hz Hr. destruct (dec_digits_spec z rest) as (Hd & Hv & Hn); [lia|done|].
  unfold read_number. rewrite Hd, Hv. destruct (dec_digits z) as [|d ds]; [done|]. cbn [length Nat.eqb negb andb].
  by rewrite (proj2 (Z.ltb_lt _ _)) by lia.
Qed.

(** The three digits of a byte, without leading zeros. *)
Lemma octet_digits b :
  (3 <? length (dec_digits (u8_val b)))%nat = false ∧
  (match dec_digits (u8_val b) with 0 :: _ => true | _ => false end && (1 <? length (dec_digits (u8_val b)))%nat) = false ∧
  (u8_val b <? 256) = true.
Proof. by destruct b. Qed.

Lemma read_octet_dec b rest :
  no_digit rest → read_number 10 (Some 3%nat) false 256 (dec (u8_val b) +:+ rest) = Some (u8_val b, rest).
Proof.
  intros Hr. destruct (dec_digits_spec (u8_val b) rest) as (Hd & Hv & Hn); [by destruct b|done|].
  destruct (octet_digits b) as (H3 & H0 & H256).
  unfold read_number. rewrite Hd, Hv, H3, H256. cbn [negb andb]. rewrite H0.
  by destruct (dec_digits (u8_val b)).
Qed.

Lemma append_assoc s t u : (s +:+ t) +:+ u = s +:+ (t +:+ u).
Proof.
  induction s as [|c s IH]; [done|].
  change ((String c s +:+ t) +:+ u) with (String c ((s +:+ t) +:+ u)). by rewrite IH.
Qed.
Lemma append_nil_r s : s +:+ EmptyString = s.
Proof. induction s as [|c s IH]; [done|]. change (String c s +:+ "") with (String c (s +:+ "")). by rewrite IH. Qed.

Lemma read_given_text c t : read_given_char c (String c EmptyString +:+ t) = Some (tt, t).
Proof. change (String c "" +:+ t) with (String c t). cbn. by rewrite Ascii.eqb_refl. Qed.

Lemma read_ipv4_text ip rest :
  no_digit rest → read_ipv4_addr (Ipv4Addr_to_string ip +:+ rest) = Some (ip, rest).
Proof.
  intros Hr. destruct ip as [a b c d]. unfold Ipv4Addr_to_string. cbn [v4_a v4_b v4_c v4_d]. rewrite !append_assoc.
  unfold read_ipv4_addr, read_separated. rewrite read_octet_dec by done.
  do 3 (rewrite read_given_text, read_octet_dec by done).
  by rewrite !as_u8_of_val.
Qed.

Lemma parse_v4_text ip p :
  0 <= p < 65536 → parse_socket_addr (Ipv4Addr_to_string ip +:+ ":" +:+ dec p) = Some (socket_addr (V4 ip) p).
Proof.
  intros Hp. unfold parse_socket_addr, read_socket_addr_v4. rewrite read_ipv4_text by done.
  unfold read_port. rewrite read_given_text.
  rewrite <- (append_nil_r (dec p)). by rewrite read_number_dec.
Qed.

Lemma parse_unsigned_dec p modulus : 0 <= p < modulus → parse_unsigned modulus (dec p) = Some p.
Proof.
  intros Hp. unfold parse_unsigned.
  assert (Hs : ∀ c s, dec p = String c s → Ascii.eqb c "+" = false).
  { intros c s Hd. destruct (Ascii.eqb_spec c "+") as [->|]; [|done]. exfalso.
    destruct (dec_digits_spec p "") as (Hr & _ & Hn); [lia|done|]. rewrite append_nil_r, Hd in Hr. by injection Hr. }
  destruct (dec p) as [|c [|d s]] eqn:Ed; rewrite ?(Hs _ _ eq_refl);
    rewrite <- Ed, <- (append_nil_r (dec p)); by rewrite read_number_dec.
Qed.

(** ** Texts that are no socket address *)
Fixpoint has_char (c : ascii) (s : string) : bool :=
  match s with EmptyString => false | String a s' => Ascii.eqb a c || has_char c s' end.

Lemma has_char_app c s t : has_char c (s +:+ t) = has_char c s || has_char c t.
Proof.
  induction s as [|a s IH]; [done|]. change (String a s +:+ t) with (String a (s +:+ t)). cbn. by rewrite IH, orb_assoc.
Qed.

Lemma read_digits_rest c radix s : has_char c (read_digits radix s).2 = true → has_char c s = true.
Proof.
  induction s as [|a s IH]; [done|]. cbn. destruct (to_digit radix a); [|done].
  destruct (read_digits radix s). cbn in *. intros Hc. rewrite (IH Hc). by rewrite orb_true_r.
Qed.

Lemma read_number_rest c r m z k s n rest :
  read_number r m z k s = Some (n, rest) → has_char c rest = true → has_char c s = true.
Proof.
  unfold read_number. pose proof (read_digits_rest c r s) as Hd. destruct (read_digits r s) as [ds t].
  cbn [snd] in Hd. repeat (case_match; try done). all: by intros [= <- <-].
Qed.

(** An IPv4 address has a dot. *)
Lemma no_dot_no_v4 s : has_char "." s = false → read_socket_addr_v4 s = None.
Proof.
  intros Hs. unfold read_socket_addr_v4, read_ipv4_addr.
  destruct (read_number 10 (Some 3%nat) false 256 s) as [[a t]|] eqn:E; [|done].
  pose proof (read_number_rest "." _ _ _ _ _ _ _ E) as Hr.
  destruct t as [|c t]; [done|]. unfold read_separated at 1. cbn [read_given_char].
  destruct (Ascii.eqb_spec c "."); [|done]. subst c. cbn in Hr. by rewrite Hr in Hs.
Qed.

Lemma no_digit_no_v4 s : no_digit s → read_socket_addr_v4 s = None.
Proof.
  intros Hs. unfold read_socket_addr_v4, read_ipv4_addr, read_number.
  destruct s as [|c s]; [done|]. cbn in Hs |- *. by rewrite Hs.
Qed.

Lemma no_bracket_no_v6 s :
  match s with String c _ => Ascii.eqb c "[" = false | EmptyString => True end → read_socket_addr_v6 s = None.
Proof. unfold read_socket_addr_v6. destruct s as [|c s]; [done|]. cbn. by intros ->. Qed.

(** Printed numbers are digits. *)
Lemma dec_has_no c z : to_digit 16 c = None → has_char c (dec z) = false.
Proof.
  intros Hc. unfold dec, DecimalString.NilZero.string_of_uint.
  assert (Hd : ∀ d, has_char c (DecimalString.NilEmpty.string_of_uint d) = false).
  { induction d as [|d IH|d IH|d IH|d IH|d IH|d IH|d IH|d IH|d IH|d IH]; [done|..];
      cbn [DecimalString.NilEmpty.string_of_uint has_char]; rewrite IH, orb_false_r;
      by (match goal with |- Ascii.eqb ?a c = false => destruct (Ascii.eqb_spec a c) as [<-|]; [discriminate Hc|done] end). }
  destruct (N.to_uint (Z.to_N z)); try apply Hd. cbn [has_char]. rewrite orb_false_r. destruct (Ascii.eqb_spec "0" c) as [<-|]; [discriminate Hc|done].
Qed.

Lemma hex_has_no c z : to_digit 16 c = None → has_char c (hex z) = false.
Proof.
  intros Hc. unfold hex, HexadecimalString.NilZero.string_of_uint.
  assert (Hd : ∀ d, has_char c (HexadecimalString.NilEmpty.string_of_uint d) = false).
  { induction d as [|d IH|d IH|d IH|d IH|d IH|d IH|d IH|d IH|d IH|d IH|d IH|d IH|d IH|d IH|d IH|d IH]; [done|..];
      cbn [HexadecimalString.NilEmpty.string_of_uint has_char]; rewrite IH, orb_false_r;
      by (match goal with |- Ascii.eqb ?a c = false => destruct (Ascii.eqb_spec a c) as [<-|]; [discriminate Hc|done] end). }
  destruct (N.to_hex_uint (Z.to_N z)); try apply Hd. cbn [has_char]. rewrite orb_false_r. destruct (Ascii.eqb_spec "0" c) as [<-|]; [discriminate Hc|done].
Qed.

Lemma fmt_subslice_has_no c l :
  to_digit 16 c = None → Ascii.eqb ":" c = false → has_char c (fmt_subslice l) = false.
Proof.
  intros Hc Hcolon. destruct l as [|x l]; [done|]. cbn [fmt_subslice].
  assert (Hx : has_char c (hex x) = false) by (by apply hex_has_no).
  revert Hx. generalize (hex x). induction l as [|y l IH]; intros acc Hacc; [done|]. cbn [foldl].
  apply IH. rewrite !has_char_app, Hacc, hex_has_no by done. cbn [has_char]. by rewrite Hcolon.
Qed.

(** The text of an IPv6 address, without the brackets, is none. *)
Lemma v6_text_no_socket_addr ip p : parse_socket_addr (Ipv6Addr_to_string ip +:+ ":" +:+ dec p) = None.
Proof.
  unfold Ipv6Addr_to_string. destruct (to_ipv4_mapped ip) as [v4|]; [done|].
  set (segs := segments (v6_octets ip)). set (z := longest_zeroes 0 _ _ segs).
  set (text := if (1 <? sp_len z)%nat then _ else _).
  assert (Hno : ∀ c, to_digit 16 c = None → Ascii.eqb ":" c = false → has_char c (text +:+ ":" +:+ dec p) = false).
  { intros c Hc Hcolon. rewrite !has_char_app, dec_has_no by done. unfold text.
    destruct (1 <? sp_len z)%nat; rewrite ?has_char_app, !fmt_subslice_has_no by done; cbn [has_char]; by rewrite Hcolon. }
  unfold parse_socket_addr. rewrite no_dot_no_v4 by (by apply Hno).
  rewrite no_bracket_no_v6; [done|].
  pose proof (Hno "["%char eq_refl eq_refl) as Hb. destruct (text +:+ ":" +:+ dec p) as [|c s]; [done|].
  cbn in Hb. by apply orb_false_elim in Hb as [-> _].
Qed.
