(* ===== verification/SocketV6.v ===== *)
(** * Socket addresses and their text

    [Display] of [SocketAddr] and the round trip through the parser of
    [SocketText], IPv6 with its compressed runs of zeroes and its scope
    included. Configurations keep their addresses as this text, and a node
    without [advertised_address] registers it as the address gateways dial. At
    the end: what the node agent dials for the text of a target. *)

From stdpp Require Import base tactics decidable numbers list strings.
From Stdlib Require Import ZArith Lia Strings.Ascii Strings.Byte.
From Stdlib Require Import DecimalString HexadecimalString.
From S2P Require Import Prelude RustStd Constants Reader Host Display SocketText.

(** [SocketAddr]'s [Display]. *)
Definition SocketAddr_to_string (a : SocketAddr) : string :=
  match sa_ip a with
  | V4 ip => Ipv4Addr_to_string ip +:+ ":" +:+ dec (sa_port a)
  | V6 ip =>
      let scope := if sa_scope a =? 0 then EmptyString else "%" +:+ dec (sa_scope a) in
      "[" +:+ Ipv6Addr_to_string ip +:+ scope +:+ "]:" +:+ dec (sa_port a)
  end.

Definition SocketAddr_ok (a : SocketAddr) : bool :=
  is_u16 (sa_port a) &&
  match sa_ip a with
  | V4 _ => sa_scope a =? 0
  | V6 ip => (length (v6_octets ip) =? 16)%nat && is_u32 (sa_scope a)
  end.

(** ** Groups *)

(** The text does not go on with a hexadecimal digit. *)
Definition no_hex (s : string) : Prop :=
  match s with String c _ => to_digit 16 c = None | EmptyString => True end.

Fixpoint hex_digits (d : Hexadecimal.uint) : list Z :=
  match d with
  | Hexadecimal.Nil => []
  | Hexadecimal.D0 d => 0 :: hex_digits d
  | Hexadecimal.D1 d => 1 :: hex_digits d
  | Hexadecimal.D2 d => 2 :: hex_digits d
  | Hexadecimal.D3 d => 3 :: hex_digits d
  | Hexadecimal.D4 d => 4 :: hex_digits d
  | Hexadecimal.D5 d => 5 :: hex_digits d
  | Hexadecimal.D6 d => 6 :: hex_digits d
  | Hexadecimal.D7 d => 7 :: hex_digits d
  | Hexadecimal.D8 d => 8 :: hex_digits d
  | Hexadecimal.D9 d => 9 :: hex_digits d
  | Hexadecimal.Da d => 10 :: hex_digits d
  | Hexadecimal.Db d => 11 :: hex_digits d
  | Hexadecimal.Dc d => 12 :: hex_digits d
  | Hexadecimal.Dd d => 13 :: hex_digits d
  | Hexadecimal.De d => 14 :: hex_digits d
  | Hexadecimal.Df d => 15 :: hex_digits d
  end.

Lemma read_hex_digits d rest :
  no_hex rest → read_digits 16 (HexadecimalString.NilEmpty.string_of_uint d +:+ rest) = (hex_digits d, rest).
Proof.
  intros Hr. induction d as [|d IH|d IH|d IH|d IH|d IH|d IH|d IH|d IH|d IH|d IH|d IH|d IH|d IH|d IH|d IH|d IH].
  1:{ change (HexadecimalString.NilEmpty.string_of_uint Hexadecimal.Nil +:+ rest) with rest.
      destruct rest as [|c rest]; [done|]. cbn in Hr |- *. by rewrite Hr. }
  all: cbn [HexadecimalString.NilEmpty.string_of_uint];
    match goal with |- read_digits 16 (String ?c ?t +:+ ?r) = _ =>
      change (String c t +:+ r) with (String c (t +:+ r)) end;
    cbn -[String.append]; by rewrite IH.
Qed.

(** A group has one to four digits, and they are its value. *)
Definition group_ok (g : Z) : bool :=
  match N.to_hex_uint (Z.to_N g) with
  | Hexadecimal.Nil => false
  | d => (0 <? length (hex_digits d))%nat && (length (hex_digits d) <=? 4)%nat && (digits_value 16 (hex_digits d) =? g)
  end.

Lemma groups_ok g : 0 <= g < 65536 → group_ok g = true.
Proof.
  intros Hg.
  assert (Hall : forallb (λ h, forallb (λ l, group_ok (h * 256 + l)) (seqZ 0 256)) (seqZ 0 256) = true)
    by (vm_compute; reflexivity).
  rewrite (Z.div_mod g 256), Z.mul_comm by lia. pose proof (Z.mod_pos_bound g 256). pose proof (Z.div_lt_upper_bound g 256 256).
  rewrite forallb_forall in Hall. specialize (Hall (g / 256)). rewrite forallb_forall in Hall.
  apply Hall; apply list_elem_of_In, elem_of_seqZ; [split; [apply Z.div_pos|]|]; lia.
Qed.

Abbreviation read_group := (read_number 16 (Some 4%nat) true 65536).

Lemma read_group_hex g rest : 0 <= g < 65536 → no_hex rest → read_group (hex g +:+ rest) = Some (g, rest).
Proof.
  intros Hg Hr. pose proof (groups_ok g Hg) as Hok. unfold group_ok in Hok.
  unfold read_number, hex, HexadecimalString.NilZero.string_of_uint.
  destruct (N.to_hex_uint (Z.to_N g)) eqn:Hd; [done|..]; rewrite <- Hd in *; rewrite read_hex_digits by done;
    apply andb_prop in Hok as [[Hl Hl4]%andb_prop Hv%Z.eqb_eq]; rewrite Hv;
    apply Nat.ltb_lt in Hl; apply Nat.leb_le in Hl4;
    rewrite (proj2 (Nat.ltb_ge 4 _)) by lia; rewrite (proj2 (Nat.eqb_neq _ 0)) by lia; cbn [negb andb];
    by rewrite (proj2 (Z.ltb_lt _ _)) by lia.
Qed.

Lemma read_group_none s : no_hex s → read_group s = None.
Proof. intros Hs. unfold read_number. destruct s as [|c s]; [done|]. cbn in Hs |- *. by rewrite Hs. Qed.

(** An IPv4 address has a dot. *)
Lemma no_dot_no_ipv4 s : has_char "." s = false → read_ipv4_addr s = None.
Proof.
  intros Hs. unfold read_ipv4_addr.
  destruct (read_number 10 (Some 3%nat) false 256 s) as [[a t]|] eqn:E; [|done].
  pose proof (read_number_rest "." _ _ _ _ _ _ _ E) as Hr.
  destruct t as [|c t]; [done|]. unfold read_separated at 1. cbn [read_given_char].
  destruct (Ascii.eqb_spec c "."); [|done]. subst c. cbn in Hr. by rewrite Hr in Hs.
Qed.

Lemma no_dot_no_separated first s : has_char "." s = false → read_separated ":" first read_ipv4_addr s = None.
Proof.
  intros Hs. unfold read_separated. destruct first; [by apply no_dot_no_ipv4|].
  destruct s as [|c s]; [done|]. cbn in Hs |- *. apply orb_false_elim in Hs as [_ Hs].
  destruct (Ascii.eqb c ":"); [by apply no_dot_no_ipv4|done].
Qed.

(** The groups after the first of a run. *)
Fixpoint more_groups (gs : list Z) : string :=
  match gs with
  | [] => ""
  | g :: gs => ":" +:+ (hex g +:+ more_groups gs)
  end.

Lemma fmt_more g gs : fmt_subslice (g :: gs) = hex g +:+ more_groups gs.
Proof.
  cbn [fmt_subslice]. generalize (hex g). induction gs as [|h gs IH]; intros acc; cbn [foldl more_groups].
  - by rewrite append_nil_r.
  - by rewrite IH, !append_assoc.
Qed.

Lemma more_has_no gs : has_char "." (more_groups gs) = false.
Proof.
  induction gs as [|g gs IH]; [done|]. cbn [more_groups]. by rewrite !has_char_app, hex_has_no, IH.
Qed.

Lemma more_no_hex gs rest : no_hex rest → no_hex (more_groups gs +:+ rest).
Proof. by destruct gs. Qed.

Abbreviation is_group := (λ g : Z, 0 <= g < 65536).

(** The run ends: it is long enough, or no group follows. *)
Definition run_ends (limit : nat) (gs : list Z) (rest : string) : Prop :=
  length gs = limit ∨ read_separated ":" false read_group rest = None.

Lemma read_more_groups gs : ∀ limit rest,
  (length gs <= limit)%nat → Forall is_group gs → no_hex rest → has_char "." rest = false →
  run_ends limit gs rest → read_groups limit false (more_groups gs +:+ rest) = (gs, false, rest).
Proof.
  induction gs as [|g gs IH]; intros limit rest Hl Hg Hr Hd He; cbn [length] in Hl.
  - destruct limit as [|limit]; [done|]. change (more_groups [] +:+ rest) with rest. destruct He as [He|He]; [done|]. cbn [read_groups].
    rewrite no_dot_no_separated by done. rewrite He. by destruct limit.
  - destruct limit as [|limit]; [lia|]. apply Forall_cons in Hg as [Hg Hgs]. cbn [read_groups more_groups].
    rewrite no_dot_no_separated by (by rewrite !has_char_app, more_has_no, Hd, hex_has_no).
    rewrite append_assoc. unfold read_separated. rewrite read_given_text, append_assoc.
    rewrite read_group_hex by (done || by apply more_no_hex). rewrite IH; [by destruct limit|cbn in Hl; lia|done..|].
    destruct He as [He|He]; [left; cbn in He; lia|by right].
Qed.

Lemma read_run gs limit rest :
  (length gs <= limit)%nat → Forall is_group gs → no_hex rest → has_char "." rest = false →
  run_ends limit gs rest → read_groups limit true (fmt_subslice gs +:+ rest) = (gs, false, rest).
Proof.
  intros Hl Hg Hr Hd He. destruct limit as [|limit]; [by destruct gs; [|cbn in Hl; lia]|]. destruct gs as [|g gs].
  - change (fmt_subslice [] +:+ rest) with rest. cbn [read_groups]. rewrite no_dot_no_separated by done.
    unfold read_separated. rewrite read_group_none by done. by destruct limit.
  - apply Forall_cons in Hg as [Hg Hgs]. rewrite fmt_more. cbn [read_groups].
    rewrite no_dot_no_separated by (by rewrite !has_char_app, more_has_no, Hd, hex_has_no).
    unfold read_separated. rewrite append_assoc.
    rewrite read_group_hex by (done || by apply more_no_hex).
    rewrite read_more_groups; [by destruct limit|cbn in Hl; lia|done..|].
    destruct He as [He|He]; [left; cbn in He; lia|by right].
Qed.

(** ** Segments *)
(** The span [z] of [l] is zero, and ends at the end of [l]. *)
Definition span_of (l : list Z) (z : Span) : Prop :=
  ∃ p q, l = p ++ replicate (sp_len z) 0 ++ q ∧ length p = sp_start z.
Definition span_at_end (l : list Z) (z : Span) : Prop :=
  sp_len z = 0%nat ∨ ∃ p, l = p ++ replicate (sp_len z) 0 ∧ length p = sp_start z.

Lemma span_snoc l z x : span_of l z → span_of (l ++ [x]) z.
Proof. intros (p & q & -> & Hp). exists p, (q ++ [x]). by rewrite <- !app_assoc. Qed.

Lemma longest_zeroes_span l : ∀ pre cur lon,
  span_of pre lon → span_at_end pre cur → span_of (pre ++ l) (longest_zeroes (length pre) cur lon l).
Proof.
  induction l as [|x l IH]; intros pre cur lon Hlon Hcur; cbn [longest_zeroes]; [by rewrite app_nil_r|].
  replace (S (length pre)) with (length (pre ++ [x])) by (rewrite length_app; cbn; lia).
  replace (pre ++ x :: l) with ((pre ++ [x]) ++ l) by (by rewrite <- app_assoc).
  destruct (Z.eqb_spec x 0) as [->|_]; [|apply IH; [by apply span_snoc|by left]].
  set (cur' := {| sp_start := _; sp_len := S (sp_len cur) |}).
  assert (Hc : ∃ p, pre ++ [0] = p ++ replicate (sp_len cur') 0 ∧ length p = sp_start cur').
  { unfold cur'. cbn [sp_start sp_len]. destruct Hcur as [Hz|(p & -> & Hp)].
    - rewrite Hz. by exists pre.
    - destruct (sp_len cur) as [|n] eqn:Hn; cbn [Nat.eqb].
      + exists (p ++ replicate 0 0). cbn. by rewrite app_nil_r.
      + exists p. split; [|done]. rewrite <- app_assoc, (replicate_S_end (S n)). done. }
  apply IH; [|by right]. destruct (sp_len lon <? sp_len cur')%nat; [|by apply span_snoc].
  destruct Hc as (p & -> & Hp). exists p, []. by rewrite app_nil_r.
Qed.

Lemma compressed segs :
  let z := longest_zeroes 0 (mkSpan 0 0) (mkSpan 0 0) segs in
  take (sp_start z) segs ++ replicate (sp_len z) 0 ++ drop (sp_start z + sp_len z) segs = segs ∧
  (sp_start z + sp_len z <= length segs)%nat.
Proof.
  intros z. assert (Hz : span_of ([] ++ segs) z) by (apply (longest_zeroes_span segs []); [by exists [], []|by left]).
  destruct Hz as (p & q & Hs & Hp). cbn [app] in Hs. clearbody z. subst segs. rewrite <- Hp. split.
  - rewrite take_app_length, <- drop_drop, drop_app_length, (drop_app_length' _ q); [done|by rewrite length_replicate].
  - rewrite !length_app, length_replicate. lia.
Qed.

(** A segment and its two octets. *)
Lemma segment_ok a b :
  is_group (u8_val a * 256 + u8_val b) ∧
  as_u8 ((u8_val a * 256 + u8_val b) / 256) = a ∧ as_u8 ((u8_val a * 256 + u8_val b) mod 256) = b.
Proof.
  pose proof (u8_val_range a). pose proof (u8_val_range b). split; [lia|].
  rewrite Z.div_add_l, Z.div_small, Z.add_0_r by lia. rewrite Z.add_comm, Z.mod_add, Z.mod_small by lia.
  by rewrite !as_u8_of_val.
Qed.

Lemma segments_groups n l : length l = (2 * n)%nat →
  Forall is_group (segments l) ∧ length (segments l) = n ∧ ipv6_of_groups (segments l) = mkIpv6 l.
Proof.
  revert l. induction n as [|n IH]; intros l Hl; [by destruct l|]. destruct l as [|a [|b l]]; cbn in Hl; [lia..|].
  destruct (IH l) as (Hg & Hn & Hi); [lia|]. destruct (segment_ok a b) as (Hab & Ha & Hb). cbn [segments].
  split_and!; [by constructor|cbn; by rewrite Hn|].
  unfold ipv6_of_groups in *. injection Hi as Hi. cbn. by rewrite Hi, Ha, Hb.
Qed.

(** ** Addresses *)
Lemma fmt_no_dot gs : has_char "." (fmt_subslice gs) = false.
Proof. by apply fmt_subslice_has_no. Qed.

Lemma read_char_text c t : read_given_char c (String c t) = Some (tt, t).
Proof. cbn. by rewrite Ascii.eqb_refl. Qed.

(** What may follow an address. *)
Definition ends_address (rest : string) : Prop :=
  no_hex rest ∧ has_char "." rest = false ∧ read_given_char ":" rest = None.

Lemma ends_run rest limit gs : ends_address rest → run_ends limit gs rest.
Proof. intros (_ & _ & Hc). right. unfold read_separated. by rewrite Hc. Qed.

Lemma read_plain segs rest :
  length segs = 8%nat → Forall is_group segs → ends_address rest →
  read_ipv6_addr (fmt_subslice segs +:+ rest) = Some (ipv6_of_groups segs, rest).
Proof.
  intros Hl Hg Hr. pose proof (ends_run rest 8 segs Hr) as He. destruct Hr as (Hx & Hd & _).
  unfold read_ipv6_addr. rewrite read_run by (done || lia). by rewrite Hl.
Qed.

Lemma read_compressed head tail rest :
  (length head + length tail < 8)%nat → Forall is_group head → Forall is_group tail → ends_address rest →
  read_ipv6_addr (fmt_subslice head +:+ "::" +:+ fmt_subslice tail +:+ rest) =
  Some (ipv6_of_groups (head ++ replicate (8 - length head - length tail) 0 ++ tail), rest).
Proof.
  intros Hl Hh Ht Hr. pose proof (ends_run rest (8 - (length head + 1)) tail Hr) as He. destruct Hr as (Hx & Hd & _).
  unfold read_ipv6_addr. rewrite read_run.
  - rewrite (proj2 (Nat.eqb_neq _ _)) by lia.
    change ("::" +:+ fmt_subslice tail +:+ rest) with (String ":" (String ":" (fmt_subslice tail +:+ rest))).
    rewrite !read_char_text. by rewrite read_run by (done || lia).
  - lia.
  - done.
  - done.
  - by rewrite !has_char_app, fmt_no_dot, Hd.
  - right. unfold read_separated.
    change ("::" +:+ fmt_subslice tail +:+ rest) with (String ":" (String ":" (fmt_subslice tail +:+ rest))).
    rewrite read_char_text. by rewrite read_group_none.
Qed.

(** An address that carries an IPv4 one. *)
Lemma read_mapped v4 rest :
  ends_address rest →
  read_ipv6_addr ("::ffff:" +:+ Ipv4Addr_to_string v4 +:+ rest) =
  Some (ipv6_of_groups (replicate 5 0 ++
    [65535; u8_val (v4_a v4) * 256 + u8_val (v4_b v4); u8_val (v4_c v4) * 256 + u8_val (v4_d v4)]), rest).
Proof.
  intros (Hx & _ & _). assert (Hn : no_digit rest).
  { destruct rest as [|c rest]; [done|]. cbn in Hx |- *. unfold to_digit in *. repeat (case_match; try done). all: lia. }
  set (text := Ipv4Addr_to_string v4 +:+ rest).
  change ("::ffff:" +:+ text) with (String ":" (String ":" (String "f" (String "f" (String "f" (String "f" (String ":" text))))))).
  assert (Hgroups : read_groups 7 true (String "f" (String "f" (String "f" (String "f" (String ":" text))))) =
    ([65535; u8_val (v4_a v4) * 256 + u8_val (v4_b v4); u8_val (v4_c v4) * 256 + u8_val (v4_d v4)], true, rest)).
  { change (read_groups 7 true _) with
      (let '(gs, is_v4, s'') := read_groups 6 false (String ":" text) in (65535 :: gs, is_v4, s'')).
    cbn [read_groups]. unfold read_separated at 1. rewrite read_char_text.
    unfold text. by rewrite read_ipv4_text. }
  unfold read_ipv6_addr.
  change (read_groups 8 true _) with (@nil Z, false, String ":" (String ":" (String "f" (String "f" (String "f" (String "f" (String ":" text))))))).
  cbn [length Nat.eqb]. rewrite !read_char_text.
  change (8 - (0 + 1))%nat with 7%nat. by rewrite Hgroups.
Qed.

Lemma mapped_octets ip v4 :
  to_ipv4_mapped ip = Some v4 →
  ip = mkIpv6 (replicate 10 Byte.x00 ++ [Byte.xff; Byte.xff; v4_a v4; v4_b v4; v4_c v4; v4_d v4]).
Proof.
  destruct ip as [l]. unfold to_ipv4_mapped. cbn [v6_octets].
  do 16 (destruct l as [|? l]; [done|]). destruct l; [|done]. destruct (_ && _) eqn:Hb; [|done]. intros [= <-].
  cbn [forallb] in Hb. repeat (apply andb_prop in Hb as [Hb ?]).
  repeat match goal with H : u8_eqb _ _ = true |- _ => apply u8_eqb_eq in H; subst end.
  repeat match goal with H : _ && _ = true |- _ => apply andb_prop in H as [? ?] end.
  repeat match goal with H : u8_eqb _ _ = true |- _ => apply u8_eqb_eq in H; subst end. done.
Qed.

Lemma read_ipv6_text ip rest :
  length (v6_octets ip) = 16%nat → ends_address rest → read_ipv6_addr (Ipv6Addr_to_string ip +:+ rest) = Some (ip, rest).
Proof.
  intros Hl Hr. unfold Ipv6Addr_to_string. destruct (to_ipv4_mapped ip) as [v4|] eqn:Hm.
  - rewrite append_assoc, read_mapped by done. apply mapped_octets in Hm as ->. do 2 f_equal. unfold ipv6_of_groups. f_equal.
    destruct (segment_ok (v4_a v4) (v4_b v4)) as (_ & H1 & H2), (segment_ok (v4_c v4) (v4_d v4)) as (_ & H3 & H4).
    cbn -[Z.mul Z.div Z.modulo]. by rewrite H1, H2, H3, H4.
  - destruct ip as [l]. cbn [v6_octets] in *. destruct (segments_groups 8 l Hl) as (Hg & Hn & <-).
    set (segs := segments l) in *. destruct (compressed segs) as [Hz Hle].
    set (z := longest_zeroes 0 _ _ segs) in *. destruct (Nat.ltb_spec 1 (sp_len z)); [|by apply read_plain].
    rewrite !append_assoc, read_compressed.
    + rewrite length_take, length_drop, Hn.
      replace (8 - sp_start z `min` 8 - (8 - (sp_start z + sp_len z)))%nat with (sp_len z) by lia. by rewrite Hz.
    + rewrite length_take, length_drop. lia.
    + by apply Forall_take.
    + by apply Forall_drop.
    + done.
Qed.

(** Where an address ends. *)
Lemma scope_text scope rest :
  0 <= scope < U32_MOD → no_digit rest → read_given_char "%" rest = None →
  read_scope_id ((if scope =? 0 then EmptyString else "%" +:+ dec scope) +:+ rest) = (scope, rest).
Proof.
  intros Hs Hn Hp. unfold read_scope_id. destruct (Z.eqb_spec scope 0) as [->|_].
  - change (EmptyString +:+ rest) with rest. by rewrite Hp.
  - rewrite append_assoc, read_given_text. by rewrite read_number_dec.
Qed.

Lemma ends_scope scope p :
  ends_address ((if scope =? 0 then EmptyString else "%" +:+ dec scope) +:+ "]:" +:+ dec p).
Proof.
  unfold ends_address. destruct (scope =? 0); (split; [done|split; [|done]]);
    rewrite ?has_char_app, ?dec_has_no by done; done.
Qed.

(** The text of an address is read back as that address. *)
Lemma SocketAddr_roundtrip a : SocketAddr_ok a = true → parse_socket_addr (SocketAddr_to_string a) = Some a.
Proof.
  destruct a as [[ip|ip] p scope]; unfold SocketAddr_ok, SocketAddr_to_string; cbn [sa_ip sa_port sa_scope];
    intros [Hp Hs]%andb_prop; unfold is_u16, U16_MOD in Hp.
  - apply Z.eqb_eq in Hs as ->. apply parse_v4_text. lia.
  - apply andb_prop in Hs as [Hl%Nat.eqb_eq Hs]. unfold is_u32 in Hs.
    set (tail := (if scope =? 0 then EmptyString else "%" +:+ dec scope) +:+ "]:" +:+ dec p).
    unfold parse_socket_addr. rewrite no_digit_no_v4 by done.
    unfold read_socket_addr_v6. rewrite read_given_text, read_ipv6_text by (done || apply ends_scope).
    unfold tail. rewrite scope_text by (done || lia).
    change ("]:" +:+ dec p) with (String "]" (String ":" (dec p))). rewrite read_char_text. unfold read_port.
    rewrite read_char_text, <- (append_nil_r (dec p)), read_number_dec by (done || lia). done.
Qed.

(** ** What is parsed is well formed *)
Lemma read_number_bound r m z k s n rest : read_number r m z k s = Some (n, rest) → n < k.
Proof.
  unfold read_number. destruct (read_digits r s) as [ds t]. destruct (digits_value r ds <? k) eqn:Hk.
  - apply Z.ltb_lt in Hk. repeat (case_match; try done); by intros [= <- <-].
  - repeat (case_match; try done).
Qed.

Lemma read_groups_length limit : ∀ first s, (length (read_groups limit first s).1.1 <= limit)%nat.
Proof.
  induction limit as [|limit IH]; intros first s; cbn [read_groups]; [done|].
  destruct (match limit with O => None | _ => _ end) as [[ip s']|] eqn:Hv; [destruct limit; [done|cbn; lia]|].
  destruct (read_separated ":" first read_group s) as [[g s']|]; [|cbn; lia].
  specialize (IH false s'). destruct (read_groups limit false s') as [[gs b] s'']. cbn in *. lia.
Qed.

Lemma ipv6_of_groups_length gs : length (v6_octets (ipv6_of_groups gs)) = (2 * length gs)%nat.
Proof. unfold ipv6_of_groups. cbn [v6_octets]. induction gs as [|g gs IH]; [done|]. cbn in *. rewrite IH. lia. Qed.

Lemma read_ipv6_length s ip rest : read_ipv6_addr s = Some (ip, rest) → length (v6_octets ip) = 16%nat.
Proof.
  unfold read_ipv6_addr. pose proof (read_groups_length 8 true s) as Hh.
  destruct (read_groups 8 true s) as [[head b] s1]. cbn [fst] in Hh.
  destruct (Nat.eqb_spec (length head) 8) as [Hl|Hl]; [intros [= <- <-]; by rewrite ipv6_of_groups_length, Hl|].
  destruct b; [done|]. destruct (read_given_char ":" s1) as [[? s2]|]; [|done].
  destruct (read_given_char ":" s2) as [[? s3]|]; [|done].
  pose proof (read_groups_length (8 - (length head + 1)) true s3) as Ht.
  destruct (read_groups _ true s3) as [[tail b'] s4]. cbn [fst] in Ht. intros [= <- <-].
  rewrite ipv6_of_groups_length, !length_app, length_replicate. lia.
Qed.

Lemma to_digit_nonneg r c d : to_digit r c = Some d → 0 <= d.
Proof. unfold to_digit. cbv zeta. repeat case_match; intros ?; simplify_eq; lia. Qed.

Lemma read_digits_nonneg r s : Forall (λ d, 0 <= d) (read_digits r s).1.
Proof.
  induction s as [|c s IH]; cbn; [done|]. destruct (to_digit r c) as [d|] eqn:Hd; [|done].
  destruct (read_digits r s) as [ds rest]. constructor; [by eapply to_digit_nonneg|done].
Qed.

Lemma read_number_range m z k s n rest : read_number 10 m z k s = Some (n, rest) → 0 <= n < k.
Proof.
  intros Hn. split; [|by eapply read_number_bound]. revert Hn. unfold read_number.
  pose proof (read_digits_nonneg 10 s) as Hd. destruct (read_digits 10 s) as [ds t]. cbn [fst] in Hd.
  assert (Hv : 0 <= digits_value 10 ds).
  { unfold digits_value. enough (Hv : ∀ v, 0 <= v → 0 <= fold_left (λ v d, v * 10 + d) ds v) by by apply Hv.
    induction Hd as [|d ds Hd0 _ IH]; intros v Hv; cbn; [done|]. apply IH. lia. }
  repeat (case_match; try done); by intros [= <- <-].
Qed.

Lemma read_port_range s p rest : read_port s = Some (p, rest) → is_u16 p = true.
Proof.
  unfold read_port. destruct (read_given_char ":" s) as [[? s']|]; [|done]. intros Hp%read_number_range.
  unfold is_u16, U16_MOD. lia.
Qed.

Lemma read_scope_range s : is_u32 (read_scope_id s).1 = true.
Proof.
  unfold read_scope_id. destruct (read_given_char "%" s) as [[? s']|]; [|done].
  destruct (read_number _ _ _ _ s') as [[n s'']|] eqn:Hn; [|done]. apply read_number_range in Hn.
  unfold is_u32. cbn. lia.
Qed.

Lemma parse_socket_addr_ok s a : parse_socket_addr s = Some a → SocketAddr_ok a = true.
Proof.
  unfold parse_socket_addr, SocketAddr_ok. intros Ha.
  destruct (read_socket_addr_v4 s) as [[a4 t]|] eqn:H4.
  - destruct t; [|done]. injection Ha as ->. unfold read_socket_addr_v4 in H4.
    destruct (read_ipv4_addr s) as [[ip s1]|]; [|done]. destruct (read_port s1) as [[p s2]|] eqn:Hp; [|done].
    injection H4 as <- ->. cbn. by rewrite (read_port_range _ _ _ Hp).
  - clear H4. destruct (read_socket_addr_v6 s) as [[a6 t]|] eqn:H6; [|done]. destruct t; [|done]. injection Ha as ->.
    unfold read_socket_addr_v6 in H6. destruct (read_given_char "[" s) as [[? s1]|]; [|done].
    destruct (read_ipv6_addr s1) as [[ip s2]|] eqn:Hip; [|done]. apply read_ipv6_length in Hip.
    pose proof (read_scope_range s2) as Hsc. destruct (read_scope_id s2) as [scope s3].
    destruct (read_given_char "]" s3) as [[? s4]|]; [|done]. destruct (read_port s4) as [[p s5]|] eqn:Hp; [|done].
    injection H6 as <- ->. cbn in *. by rewrite (read_port_range _ _ _ Hp), Hip, Hsc.
Qed.

(** The text of an address that was parsed is dialed as that address. *)
Lemma canonical_text_dialed resolve s a :
  parse_socket_addr s = Some a → to_socket_addrs resolve (SocketAddr_to_string a) = Some [a].
Proof. intros Ha%parse_socket_addr_ok. unfold to_socket_addrs. by rewrite SocketAddr_roundtrip. Qed.

(** ** Names that look like addresses *)

(** The character of a digit. *)
Definition digit_char (d : Z) : ascii := ascii_of_nat (Z.to_nat (d + 48)).

Lemma to_digit_inv c d : to_digit 10 c = Some d → 0 <= d < 10 ∧ c = digit_char d.
Proof. destruct c as [[] [] [] [] [] [] [] []]; vm_compute; intros Hd; simplify_eq; done. Qed.

Fixpoint digits_text (ds : list Z) : string :=
  match ds with [] => EmptyString | d :: ds => String (digit_char d) (digits_text ds) end.

Lemma read_digits_inv s ds rest :
  read_digits 10 s = (ds, rest) → s = digits_text ds +:+ rest ∧ Forall (λ d, 0 <= d < 10) ds.
Proof.
  revert ds. induction s as [|c s IH]; intros ds; cbn; [by intros [= <- <-]|].
  destruct (to_digit 10 c) as [d|] eqn:Hd; [|by intros [= <- <-]].
  destruct (read_digits 10 s) as [ds' rest'] eqn:Hs. intros [= <- <-]. apply to_digit_inv in Hd as [Hd ->].
  destruct (IH _ eq_refl) as [-> Hds]. split; [done|by constructor].
Qed.

(** Up to three digits without a leading zero are a printed number. *)
Definition canonical (ds : list Z) : bool :=
  match ds with 0 :: _ :: _ => true | _ => bool_decide (digits_text ds = dec (digits_value 10 ds)) end.

Lemma canonical_digits ds :
  ds ≠ [] → (length ds <= 3)%nat → Forall (λ d, 0 <= d < 10) ds → canonical ds = true.
Proof.
  assert (H10 : ∀ (P : Z → bool), forallb P [0; 1; 2; 3; 4; 5; 6; 7; 8; 9] = true → ∀ d, 0 <= d < 10 → P d = true).
  { intros P HP d Hd. rewrite forallb_forall in HP. apply HP. cbn. lia. }
  intros Hne Hl Hds. destruct Hds as [|a ds Ha Hds]; [done|]. clear Hne.
  destruct Hds as [|b ds Hb Hds].
  { apply (H10 (λ a, canonical [a])); [vm_compute; reflexivity|done]. }
  destruct Hds as [|c ds Hc Hds].
  { clear Hl. revert b Hb. apply (H10 (λ b, canonical [a; b])). revert a Ha.
    apply (H10 (λ a, forallb (λ b, canonical [a; b]) _)). vm_compute. reflexivity. }
  destruct ds as [|? ds]; [|cbn in Hl; lia]. clear Hl Hds. revert c Hc. apply (H10 (λ c, canonical [a; b; c])). revert b Hb.
  apply (H10 (λ b, forallb (λ c, canonical [a; b; c]) _)). revert a Ha.
  apply (H10 (λ a, forallb (λ b, forallb (λ c, canonical [a; b; c]) _) _)). vm_compute. reflexivity.
Qed.

(** What is read as an octet is the printed octet. *)
Lemma read_octet_inv s n rest :
  read_number 10 (Some 3%nat) false 256 s = Some (n, rest) → s = dec (u8_val (as_u8 n)) +:+ rest.
Proof.
  intros Hn. pose proof (read_number_range _ _ _ _ _ _ Hn) as Hr. rewrite as_u8_val, Z.mod_small by lia.
  revert Hn. unfold read_number. destruct (read_digits 10 s) as [ds t] eqn:Hs. apply read_digits_inv in Hs as [-> Hds].
  destruct (Nat.ltb_spec 3 (length ds)) as [|Hl]; [done|].
  destruct (Nat.eqb_spec (length ds) 0) as [|Hl0]; [done|]. cbn [negb andb].
  pose proof (canonical_digits ds ltac:(by intros ->) Hl Hds) as Hc. unfold canonical in Hc.
  destruct ds as [|[|p|p] [|d ds]]; try done; cbn [length andb Nat.ltb Nat.leb];
    destruct (_ <? 256); try done; intros [= <- <-]; by apply bool_decide_eq_true in Hc as ->.
Qed.

Lemma read_given_inv c s r rest : read_given_char c s = Some (r, rest) → s = String c rest.
Proof. destruct s as [|a s]; [done|]. cbn. destruct (Ascii.eqb_spec a c) as [->|]; [|done]. by intros [= <- <-]. Qed.

Lemma read_dot_octet_inv s n rest :
  read_separated "." false (read_number 10 (Some 3%nat) false 256) s = Some (n, rest) →
  s = "." +:+ (dec (u8_val (as_u8 n)) +:+ rest).
Proof.
  unfold read_separated. destruct (read_given_char "." s) as [[r t]|] eqn:Hs; [|done].
  apply read_given_inv in Hs as ->. by intros ->%read_octet_inv.
Qed.

(** What is read as an IPv4 address is its printed text. *)
Lemma read_ipv4_inv s ip rest : read_ipv4_addr s = Some (ip, rest) → s = Ipv4Addr_to_string ip +:+ rest.
Proof.
  unfold read_ipv4_addr. destruct (read_number 10 _ _ _ s) as [[a s1]|] eqn:Ha; [|done].
  destruct (read_separated _ _ _ s1) as [[b s2]|] eqn:Hb; [|done].
  destruct (read_separated _ _ _ s2) as [[c s3]|] eqn:Hc; [|done].
  destruct (read_separated _ _ _ s3) as [[d s4]|] eqn:Hd; [|done]. intros [= <- <-].
  apply read_octet_inv in Ha as ->. apply read_dot_octet_inv in Hb as ->, Hc as ->, Hd as ->.
  unfold Ipv4Addr_to_string. cbn [v4_a v4_b v4_c v4_d]. by rewrite !append_assoc.
Qed.

Lemma digits_text_no_colon ds : Forall (λ d, 0 <= d < 10) ds → rsplit_once ":" (digits_text ds) = None.
Proof.
  induction 1 as [|d ds Hd _ IH]; [done|]. cbn [digits_text rsplit_once]. rewrite IH.
  assert (Hc : ∀ d, 0 <= d < 10 → Ascii.eqb (digit_char d) ":" = false).
  { intros x Hx. assert (x = 0 ∨ x = 1 ∨ x = 2 ∨ x = 3 ∨ x = 4 ∨ x = 5 ∨ x = 6 ∨ x = 7 ∨ x = 8 ∨ x = 9) as Hxs by lia.
    by destruct_or! Hxs; subst x. }
  by rewrite Hc.
Qed.

(** A port that ends the text starts at its last colon. *)
Lemma read_port_inv s p : read_port s = Some (p, EmptyString) → ∃ t, s = String ":" t ∧ rsplit_once ":" t = None.
Proof.
  unfold read_port. destruct (read_given_char ":" s) as [[r t]|] eqn:Hs; [|done]. apply read_given_inv in Hs as ->.
  unfold read_number. destruct (read_digits 10 t) as [ds rest] eqn:Hd. apply read_digits_inv in Hd as [-> Hds].
  intros Hp. assert (rest = EmptyString) as -> by (repeat (case_match; try done); by simplify_eq).
  eexists. split; [done|]. rewrite append_nil_r. by apply digits_text_no_colon.
Qed.

(** A name and a port that read as an IPv4 socket address: the name is one. *)
Lemma name_v4_inv d p a :
  read_socket_addr_v4 (d +:+ ":" +:+ dec p) = Some (a, EmptyString) → ∃ ip, d = Ipv4Addr_to_string ip.
Proof.
  unfold read_socket_addr_v4. destruct (read_ipv4_addr _) as [[ip s]|] eqn:Hip; [|done].
  destruct (read_port s) as [[q t]|] eqn:Hq; [|done]. intros [= <- ->].
  apply read_ipv4_inv in Hip. apply read_port_inv in Hq as (t & -> & Ht). exists ip.
  change (d +:+ ":" +:+ dec p) with (d +:+ String ":" (dec p)) in Hip.
  pose proof (rsplit_once_app ":" d _ (dec_no_colon p)) as H1. rewrite Hip, rsplit_once_app in H1 by done.
  by injection H1 as -> ->.
Qed.

(** ** Properties *)

(** (C33) What the node agent dials is what the client asked for: the text of an
    address, handed to [TcpStream::connect]. An IPv4 address is read back as
    exactly that address and port without the resolver; an IPv6 address, which is
    printed without brackets, is handed to the resolver as its text, with the
    port. A domain name whose text with the port is that of a socket address (an
    IPv4 address, or an IPv6 address in brackets, with a scope or without) is
    dialed as that address. Any other domain name is resolved under exactly that
    name and port; of names with a leading bracket this is said of those that do
    not parse. *)
Theorem target_text_dialed (resolve : string → Z → option (list SocketAddr)) (a : SocksAddr) :
  SocksAddr_ok a = true →
  let dialed := to_socket_addrs resolve (SocksAddr_to_string a) in
  match host a with
  | HostIp (V4 ip) => dialed = Some [socket_addr (V4 ip) (port a)]
  | HostIp (V6 ip) => dialed = resolve (Ipv6Addr_to_string ip) (port a)
  | HostDomain d =>
      (∀ x, SocketAddr_ok x = true → SocketAddr_to_string x = SocksAddr_to_string a → dialed = Some [x]) ∧
      ((∀ ip, d ≠ Ipv4Addr_to_string ip) → (∀ d', d ≠ String "[" d') → dialed = resolve d (port a)) ∧
      (parse_socket_addr (SocksAddr_to_string a) = None → dialed = resolve d (port a))
  end.
Proof.
  intros Hok. pose proof (SocksAddr_ok_port a Hok) as Hp. cbv zeta. unfold to_socket_addrs.
  assert (Hname : parse_socket_addr (SocksAddr_to_string a) = None →
    match parse_socket_addr (SocksAddr_to_string a) with
    | Some x => Some [x]
    | None => match rsplit_once ":" (SocksAddr_to_string a) with
        | Some (h, port_str) => match parse_unsigned 65536 port_str with Some p => resolve h p | None => None end
        | None => None
        end
    end = resolve (Host_to_string (host a)) (port a)).
  { intros ->. unfold SocksAddr_to_string. change (":" +:+ dec (port a)) with (String ":" (dec (port a))).
    rewrite rsplit_once_app by apply dec_no_colon. by rewrite parse_unsigned_dec. }
  unfold SocksAddr_to_string in *. destruct (host a) as [[ip|ip]|d]; cbn [Host_to_string] in *.
  - by rewrite parse_v4_text.
  - apply Hname, v6_text_no_socket_addr.
  - split_and!; [intros x Hx <-; by rewrite SocketAddr_roundtrip| |done]. intros H4 Hb. apply Hname. unfold parse_socket_addr.
    destruct (read_socket_addr_v4 _) as [[x [|? ?]]|] eqn:Hv4; [|done|].
    + destruct (name_v4_inv _ _ _ Hv4) as [ip ->]. by destruct (H4 ip).
    + rewrite no_bracket_no_v6; [done|]. destruct d as [|c d]; [done|].
      change (String c d +:+ ":" +:+ dec (port a)) with (String c (d +:+ ":" +:+ dec (port a))).
      apply Ascii.eqb_neq. intros ->. by apply (Hb d).
Qed.

(** An IPv4 address; the name [9gag.com]; and the name [[::1]]. *)
Lemma target_text_dialed_witness :
  let resolve h p := if String.eqb h "9gag.com" then Some [socket_addr (V4 (mkIpv4 Byte.x01 Byte.x01 Byte.x01 Byte.x01)) p] else None in
  to_socket_addrs resolve (SocksAddr_to_string
    {| host := HostIp (V4 (mkIpv4 Byte.x0a Byte.x00 Byte.x00 Byte.xff)); port := 443 |})
  = Some [socket_addr (V4 (mkIpv4 Byte.x0a Byte.x00 Byte.x00 Byte.xff)) 443] ∧
  to_socket_addrs resolve (SocksAddr_to_string {| host := HostDomain "9gag.com"; port := 443 |})
  = Some [socket_addr (V4 (mkIpv4 Byte.x01 Byte.x01 Byte.x01 Byte.x01)) 443] ∧
  to_socket_addrs resolve (SocksAddr_to_string {| host := HostDomain "[::1]"; port := 443 |})
  = Some [socket_addr (V6 (mkIpv6 (replicate 15 Byte.x00 ++ [Byte.x01]))) 443].
Proof.
  intros resolve. split_and!.
  - apply (target_text_dialed resolve
      {| host := HostIp (V4 (mkIpv4 Byte.x0a Byte.x00 Byte.x00 Byte.xff)); port := 443 |}). reflexivity.
  - destruct (target_text_dialed resolve {| host := HostDomain "9gag.com"; port := 443 |} eq_refl) as (_ & _ & Hd).
    rewrite Hd; [reflexivity|vm_compute; reflexivity].
  - destruct (target_text_dialed resolve {| host := HostDomain "[::1]"; port := 443 |} eq_refl) as (Hd & _).
    apply Hd; vm_compute; reflexivity.
Defined.
