(* ===== verification/ConfigToml.v ===== *)
(** * Reading configuration files

    How [crates/common/src/config.rs] gets its structs from a TOML table: the
    [Deserialize] that [serde] derives from the fields and their attributes. The
    parser of TOML and the scalars it knows, the durations of [humantime] and the
    errors of both are the class [Toml]; [TomlLaws] is what their documentation
    promises.

    The derived code of a struct goes through the entries of the table in their
    order, decodes those that are fields and skips the others; then it takes the
    fields in the order of the struct, where one that did not occur has its
    default or is missing. A struct is written field by field, with [required],
    [defaulted] and [optional] for the attributes, as an applicative [fields]. *)

From stdpp Require Import base tactics decidable numbers list strings gmap.
From Stdlib Require Import ZArith Lia Strings.Ascii.
From S2P Require Import Prelude RustStd Config SocketText SocketV6.

(** ** TOML *)
Class Toml (E V : Type) : Type := {
  (** the table of a document *)
  document : string → outcome E (list (string * V));
  as_table : V → outcome E (list (string * V));
  as_string : V → outcome E string;
  as_bool : V → outcome E bool;
  as_u64 : V → outcome E Z;
  (** the variant an enum value names *)
  as_variant : V → outcome E string;
  (** [humantime::parse_duration], in nanoseconds *)
  parse_duration : string → option Z;
  (** [serde::de::Error] *)
  custom : string → E;
  missing_field : string → E;
  unknown_variant : string → list string → E;
  (** the key at which a value was refused *)
  at_key : string → E → E;
  display : E → string
}.

Class TomlLaws (E V : Type) `{Toml E V} : Prop := {
  law_document s t : document s = Ok t → NoDup t.*1;
  law_table v t : as_table v = Ok t → NoDup t.*1;
  law_u64 v n : as_u64 v = Ok n → is_u64 n = true;
  law_duration s d : parse_duration s = Some d → 0 <= d
}.

(** ** Derived deserializers *)

Section derive.
Context {E V : Type} `{Toml E V}.

Abbreviation table := (list (string * V)).
Abbreviation de A := (V → outcome E A).

(** The value of a key. *)
Fixpoint entry (k : string) (t : table) : option V :=
  match t with
  | [] => None
  | (k', v) :: t => if decide (k' = k) then Some v else entry k t
  end.

(** The fields of a struct: the decoder of each, and the struct from the
    table. *)
Record fields (A : Type) : Type := mkFields {
  f_known : list (string * de unit);
  f_build : table → outcome E A
}.
Arguments mkFields {A}.
Arguments f_known {A}.
Arguments f_build {A}.

Definition decode_at {A} (k : string) (d : de A) (v : V) : outcome E A := map_err (at_key k) (d v).

Definition pure {A} (a : A) : fields A := mkFields [] (λ _, Ok a).

Definition ap {A B} (f : fields (A → B)) (x : fields A) : fields B :=
  mkFields (f_known f ++ f_known x) (λ t, let? g := f_build f t in let? a := f_build x t in Ok (g a)).

(** A field with what it is when it does not occur. *)
Definition field {A} (k : string) (d : de A) (absent : outcome E A) : fields A :=
  mkFields [(k, λ v, omap_ok (λ _, tt) (decode_at k d v))]
    (λ t, match entry k t with Some v => decode_at k d v | None => absent end).

(** No attribute, [default = ..], and [default] at an [Option]. *)
Definition required {A} (k : string) (d : de A) : fields A := field k d (Err (missing_field k)).
Definition defaulted {A} (k : string) (d : de A) (a : A) : fields A := field k d (Ok a).
Definition optional {A} (k : string) (d : de A) : fields (option A) :=
  field k (λ v, omap_ok Some (d v)) (Ok None).

(** Decode the entries in order, skipping unknown keys. *)
Fixpoint visit (known : list (string * de unit)) (t : table) : outcome E unit :=
  match t with
  | [] => Ok tt
  | (k, v) :: t =>
      match list_find (λ p, p.1 = k) known with
      | None => visit known t
      | Some (_, (_, d)) => let? _ := d v in visit known t
      end
  end.

Definition deserialize {A} (f : fields A) (t : table) : outcome E A :=
  let? _ := visit (f_known f) t in f_build f t.
End derive.

Arguments fields E V A : clear implicits.
Arguments f_known {E V A}.
Arguments f_build {E V A}.
Infix "<*>" := ap (at level 61, left associativity) : rust_scope.

(** ** The structs of [config.rs] *)
Section configs.
Context {E V : Type} `{Toml E V}.

Abbreviation de A := (V → outcome E A).

Definition de_socket_addr : de string := λ v,
  let? s := as_string v in
  let? a := ok_or (parse_socket_addr s) (custom "invalid socket address syntax") in
  Ok (SocketAddr_to_string a).

(** [humantime_serde] *)
Definition de_duration : de Z := λ v,
  let? s := as_string v in ok_or (parse_duration s) (custom "invalid duration").

Definition de_usize : de nat := λ v, omap_ok Z.to_nat (as_u64 v).

(** [#[serde(rename_all = "lowercase")]] *)
Definition level_variants : list string := ["trace"; "debug"; "info"; "warn"; "error"].
Definition de_log_level : de LogLevel := λ v,
  let? name := as_variant v in
  if String.eqb name "trace" then Ok Trace
  else if String.eqb name "debug" then Ok Debug
  else if String.eqb name "info" then Ok Info
  else if String.eqb name "warn" then Ok Warn
  else if String.eqb name "error" then Ok Error
  else Err (unknown_variant name level_variants).

Definition LoggingConfig_fields : fields E V LoggingConfig :=
  pure mkLoggingConfig
  <*> defaulted "level" de_log_level LogLevel_default
  <*> defaulted "json" as_bool false.

Definition de_logging : de LoggingConfig := λ v,
  let? t := as_table v in deserialize LoggingConfig_fields t.

Definition ControlPlaneConfig_fields : fields E V ControlPlaneConfig :=
  pure mkControlPlaneConfig
  <*> required "bind_addr" de_socket_addr
  <*> required "sqlite_path" as_string
  <*> defaulted "offline_timeout" de_duration default_offline_timeout
  <*> defaulted "sweep_interval" de_duration default_sweep_interval
  <*> optional "api_token" as_string
  <*> defaulted "logging" de_logging LoggingConfig_default.

Definition GatewayConfig_fields : fields E V GatewayConfig :=
  pure mkGatewayConfig
  <*> required "bind_addr" de_socket_addr
  <*> required "control_plane_url" as_string
  <*> optional "api_token" as_string
  <*> optional "socks_username" as_string
  <*> optional "socks_password" as_string
  <*> defaulted "max_connections" de_usize default_max_connections
  <*> defaulted "connect_timeout" de_duration default_connect_timeout
  <*> defaulted "idle_timeout" de_duration default_idle_timeout
  <*> optional "metrics_bind_addr" de_socket_addr
  <*> defaulted "logging" de_logging LoggingConfig_default.

Definition NodeConfig_fields : fields E V NodeConfig :=
  pure mkNodeConfig
  <*> required "node_id" as_string
  <*> required "control_plane_url" as_string
  <*> optional "api_token" as_string
  <*> required "bind_addr" de_socket_addr
  <*> optional "advertised_address" as_string
  <*> defaulted "bandwidth_limit" as_u64 default_bandwidth_limit
  <*> defaulted "max_connections" de_usize default_node_max_connections
  <*> defaulted "heartbeat_interval" de_duration default_heartbeat_interval
  <*> defaulted "upstream_timeout" de_duration default_upstream_timeout
  <*> defaulted "logging" de_logging LoggingConfig_default.

(** [toml::from_str] at a struct, with the text of its error. *)
Definition from_str {A} (f : fields E V A) (s : string) : outcome string A :=
  map_err display (let? t := document s in deserialize f t).
End configs.

(** ** What a table says of a struct *)
Section lemmas.
Context {E V : Type} `{Toml E V}.

Abbreviation de A := (V → outcome E A).
Abbreviation table := (list (string * V)).

(** Key [k] of the table says that a field is [x]. *)
Definition says {A} (t : table) (k : string) (d : de A) (absent : outcome E A) (x : A) : Prop :=
  match entry k t with
  | Some v => d v = Ok x
  | None => absent = Ok x
  end.

Lemma entry_elem (t : table) k v : NoDup t.*1 → (k, v) ∈ t → entry k t = Some v.
Proof.
  induction t as [|[k' v'] t IH]; cbn; intros Hd Hin; [by apply not_elem_of_nil in Hin|].
  apply NoDup_cons in Hd as [Hk Hd]. apply elem_of_cons in Hin as [[= -> ->]|Hin]; [by rewrite decide_True|].
  rewrite decide_False; [by apply IH|]. intros ->. apply Hk. apply (list_elem_of_fmap_2 fst) in Hin. done.
Qed.

Lemma elem_entry (t : table) k v : entry k t = Some v → (k, v) ∈ t.
Proof.
  induction t as [|[k' v'] t IH]; cbn; [done|]. destruct (decide (k' = k)) as [<-|_].
  - intros [= ->]. apply elem_of_cons. by left.
  - intros He. apply elem_of_cons. right. by apply IH.
Qed.

Lemma omap_ok_inv {A B} (f : A → B) (c : outcome E A) b : omap_ok f c = Ok b ↔ ∃ a, c = Ok a ∧ f a = b.
Proof. destruct c; cbn; split; naive_solver. Qed.

Lemma NoDup_keys_inj {B} (l : list (string * B)) k x y : NoDup l.*1 → (k, x) ∈ l → (k, y) ∈ l → x = y.
Proof.
  induction l as [|[k' z] l IH]; cbn; intros Hn; [by intros ?%not_elem_of_nil|].
  apply NoDup_cons in Hn as [Hk Hn].
  assert (Hk' : ∀ w, (k', w) ∈ l → False) by (intros w Hw; apply Hk; by apply (list_elem_of_fmap_2 fst) in Hw).
  intros [Hx|Hx]%elem_of_cons [Hy|Hy]%elem_of_cons; simplify_eq; [done|by destruct (Hk' y)|by destruct (Hk' x)|auto].
Qed.

(** What is built has decoded every known entry of the table. *)
Definition coherent {A} (f : fields E V A) : Prop :=
  ∀ t a k d v, f_build f t = Ok a → (k, d) ∈ f_known f → entry k t = Some v → d v = Ok tt.

Lemma pure_coherent {A} (a : A) : coherent (pure a).
Proof. intros t a' k d v _ Hin. by apply not_elem_of_nil in Hin. Qed.

Lemma field_coherent {A} k (d : de A) absent : coherent (field k d absent).
Proof.
  intros t a k' d' v Hb Hin He. apply list_elem_of_singleton in Hin as [= -> ->]. cbn in Hb. rewrite He in Hb.
  by rewrite Hb.
Qed.

Lemma ap_build {A B} (f : fields E V (A → B)) (x : fields E V A) t b :
  f_build (f <*> x) t = Ok b ↔ ∃ g a, f_build f t = Ok g ∧ f_build x t = Ok a ∧ b = g a.
Proof.
  cbn. split.
  - intros Hb. destruct (f_build f t) as [g| |], (f_build x t) as [a| |]; cbn in Hb; simplify_eq. by exists g, a.
  - by intros (g & a & -> & -> & ->).
Qed.

Lemma ap_coherent {A B} (f : fields E V (A → B)) (x : fields E V A) : coherent f → coherent x → coherent (f <*> x).
Proof.
  intros Hf Hx t b k d v (g & a & Hg & Ha & _)%ap_build Hin He.
  cbn in Hin. apply elem_of_app in Hin as [Hin|Hin]; [by eapply Hf|by eapply Hx].
Qed.

Lemma visit_ok (known : list (string * de unit)) (t : table) :
  (∀ k (d : de unit) v, (k, d) ∈ known → (k, v) ∈ t → d v = Ok tt) → visit known t = Ok tt.
Proof.
  induction t as [|[k v] t IH]; intros Hd; cbn; [done|].
  assert (Ht : visit known t = Ok tt).
  { apply IH. intros k' d v' Hk Hin. apply (Hd k'); [done|]. apply elem_of_cons. by right. }
  destruct (list_find _ known) as [[i [k' d]]|] eqn:Hf; [|done].
  apply list_find_Some in Hf as (Hi & Hk & _). cbn in Hk. subst k'.
  rewrite (Hd k d v); [done|by eapply list_elem_of_lookup_2|apply elem_of_cons; by left].
Qed.

(** The order of the entries and the keys the struct does not know are of no
    account. *)
Lemma deserialize_ok {A} (f : fields E V A) t a :
  coherent f → NoDup t.*1 → deserialize f t = Ok a ↔ f_build f t = Ok a.
Proof.
  intros Hf Hd. unfold deserialize. split.
  - intros Hb. destruct (visit (f_known f) t); [done|discriminate Hb..].
  - intros Hb. rewrite visit_ok; [done|]. intros k d v Hk Hin. eapply Hf; [done..|]. by apply entry_elem.
Qed.

Lemma field_build {A} k (d : de A) absent t a :
  f_build (field k d absent) t = Ok a ↔ says t k d absent a.
Proof. cbn. unfold says, decode_at. destruct (entry k t); [apply map_err_ok|done]. Qed.

(** Once every known entry is decoded, the only fault left is that a field of
    [req] is missing. *)
Definition faults {A} (f : fields E V A) (req : list string) : Prop :=
  ∀ t, (∀ k d v, (k, d) ∈ f_known f → entry k t = Some v → d v = Ok tt) →
  match f_build f t with
  | Ok _ => True
  | Err e => ∃ k, k ∈ req ∧ entry k t = None ∧ e = missing_field k
  | Panic => False
  end.

Lemma pure_faults {A} (a : A) : faults (pure a) [].
Proof. done. Qed.

Lemma field_faults {A} k (d : de A) absent req :
  match absent with Ok _ => True | Err e => e = missing_field k ∧ k ∈ req | Panic => False end →
  faults (field k d absent) req.
Proof.
  intros Ha t Hk. cbn. destruct (entry k t) as [v|] eqn:He.
  - specialize (Hk k _ v (list_elem_of_here _ _) He). cbn in Hk. by destruct (decode_at k d v).
  - destruct absent; [done| |done]. destruct Ha as [-> Hin]. by exists k.
Qed.

Lemma ap_faults {A B} (f : fields E V (A → B)) (x : fields E V A) r r' :
  faults f r → faults x r' → faults (f <*> x) (r ++ r').
Proof.
  intros Hf Hx t Hk. cbn.
  specialize (Hf t (λ k d v Hin, Hk k d v (proj2 (elem_of_app _ _ _) (or_introl Hin)))).
  specialize (Hx t (λ k d v Hin, Hk k d v (proj2 (elem_of_app _ _ _) (or_intror Hin)))).
  destruct (f_build f t) as [g|e|]; cbn; [|destruct Hf as (k & Hin & ?)|done].
  - destruct (f_build x t) as [a|e|]; cbn; [done|destruct Hx as (k & Hin & ?)|done].
    exists k. split; [|done]. apply elem_of_app. by right.
  - exists k. split; [|done]. apply elem_of_app. by left.
Qed.

(** The entries of a table that a list of decoders knows are decoded. *)
Definition decoded (known : list (string * de unit)) (t : table) : Prop :=
  ∀ k d v, (k, d) ∈ known → (k, v) ∈ t → d v = Ok tt.

Lemma decoded_cons known k d v t :
  NoDup known.*1 → (k, d) ∈ known → d v = Ok tt → decoded known t → decoded known ((k, v) :: t).
Proof.
  intros Hn Hk Hd Ht k' d' v' Hk' [[= -> ->]|Hin]%elem_of_cons; [|by eapply Ht].
  assert (d' = d) as ->; [by apply (NoDup_keys_inj known k)|done].
Qed.

Lemma decoded_unknown known k v t : (∀ d, (k, d) ∉ known) → decoded known t → decoded known ((k, v) :: t).
Proof. intros Hn Ht k' d' v' Hk' [[= -> ->]|Hin]%elem_of_cons; [by destruct (Hn d')|by eapply Ht]. Qed.

(** Entries are refused at the first of them that is. *)
Lemma visit_inv (known : list (string * de unit)) (t : table) :
  NoDup known.*1 →
  match visit known t with
  | Ok _ => decoded known t
  | Err e => ∃ pre k v post d, t = pre ++ (k, v) :: post ∧ (k, d) ∈ known ∧ d v = Err e ∧ decoded known pre
  | Panic => True
  end.
Proof.
  intros Hn. induction t as [|[k v] t IH]; cbn; [intros k d v _ Hin; by apply not_elem_of_nil in Hin|].
  destruct (list_find _ known) as [[i [k' d]]|] eqn:Hf.
  - apply list_find_Some in Hf as (Hi & Hk & _). cbn in Hk. subst k'. apply list_elem_of_lookup_2 in Hi.
    destruct (d v) as [[]|e|] eqn:Hdv; cbn [obind]; [| |done].
    + destruct (visit known t) as [[]|e|]; [by eapply decoded_cons| |done].
      destruct IH as (pre & k' & v' & post & d' & -> & Hk' & Hd' & Hpre). exists ((k, v) :: pre), k', v', post, d'.
      split_and!; [done..|by eapply decoded_cons].
    + exists [], k, v, t, d. split_and!; [done..|]. intros ? ? ? _ ?%not_elem_of_nil. done.
  - apply list_find_None in Hf. rewrite Forall_forall in Hf.
    assert (Hk : ∀ d, (k, d) ∉ known) by (intros d Hd; by apply (Hf _ Hd)).
    destruct (visit known t) as [[]|e|]; [by apply decoded_unknown| |done].
    destruct IH as (pre & k' & v' & post & d' & -> & Hk' & Hd' & Hpre). exists ((k, v) :: pre), k', v', post, d'.
    split_and!; [done..|by apply decoded_unknown].
Qed.

(** Whether a value fits a field. *)
Definition checks {A} (d : de A) : de unit := λ v, omap_ok (λ _, tt) (d v).

(** The fields are the keys of [spec] with its decoders; a value that one of these
    refuses is refused with the key. *)
Definition keyed {A} (f : fields E V A) (spec : list (string * de unit)) : Prop :=
  Forall2 (λ p q, p.1 = q.1 ∧ ∀ v, p.2 v = map_err (at_key q.1) (q.2 v)) (f_known f) spec.

Lemma pure_keyed {A} (a : A) : keyed (pure a) [].
Proof. constructor. Qed.
Lemma field_keyed {A} k (d : de A) absent : keyed (field k d absent) [(k, checks d)].
Proof.
  repeat constructor. cbn. intros v. unfold decode_at, checks. by destruct (d v).
Qed.
Lemma optional_keyed {A} k (d : de A) : keyed (optional k d) [(k, checks d)].
Proof. repeat constructor. cbn. intros v. unfold decode_at, checks. by destruct (d v). Qed.
Lemma ap_keyed {A B} (f : fields E V (A → B)) (x : fields E V A) s s' :
  keyed f s → keyed x s' → keyed (f <*> x) (s ++ s').
Proof. apply Forall2_app. Qed.

Lemma keyed_fst {A} (f : fields E V A) spec : keyed f spec → (f_known f).*1 = spec.*1.
Proof. induction 1 as [|p q l l' [Hk _] _ IH]; [done|]. cbn. by rewrite Hk, IH. Qed.

Lemma keyed_decoded {A} (f : fields E V A) spec t : keyed f spec → decoded (f_known f) t → decoded spec t.
Proof.
  intros Hf Hd k d v Hin Ht. apply list_elem_of_lookup in Hin as [i Hi].
  destruct (Forall2_lookup_r _ _ _ _ _ Hf Hi) as ([k' d'] & Hi' & Hk & Hv). cbn in Hk, Hv. subst k'.
  specialize (Hd k d' v (list_elem_of_lookup_2 _ _ _ Hi') Ht). rewrite Hv in Hd. by destruct (d v) as [[]| |].
Qed.

(** Why a table is refused: the first value that its field refuses, with the key
    and the reason, or a field that must occur and does not, the values being
    all right. *)
Definition refusal (spec : list (string * de unit)) (req : list string) (t : table) (e : E) : Prop :=
  (∃ pre k v post d e', t = pre ++ (k, v) :: post ∧ (k, d) ∈ spec ∧ d v = Err e' ∧ e = at_key k e' ∧ decoded spec pre) ∨
  (∃ k, k ∈ req ∧ k ∉ t.*1 ∧ e = missing_field k ∧ decoded spec t).

Lemma entry_absent k (t : table) : entry k t = None → k ∉ t.*1.
Proof.
  induction t as [|[k' v] t IH]; cbn; [by intros _ ?%not_elem_of_nil|]. case_decide as Hk; [done|].
  intros He [->|Hin]%elem_of_cons; [done|by apply IH].
Qed.

Lemma deserialize_err {A} (f : fields E V A) spec req t e :
  NoDup spec.*1 → faults f req → keyed f spec →
  deserialize f t = Err e → refusal spec req t e.
Proof.
  intros Hn Hf Hk. unfold deserialize. pose proof (visit_inv (f_known f) t) as Hv. rewrite (keyed_fst f spec Hk) in Hv.
  specialize (Hv Hn). destruct (visit (f_known f) t) as [[]|e'|]; cbn [obind]; [|intros [= <-]|done].
  - intros Hb. specialize (Hf t). rewrite Hb in Hf. right.
    destruct Hf as (k & Hin & Ha & ->); [intros k d v Hin He; eapply Hv; [done|by apply elem_entry]|].
    exists k. split_and!; [done|by apply entry_absent|done|by eapply keyed_decoded].
  - destruct Hv as (pre & k & v & post & d & -> & Hin & He & Hpre). left.
    apply list_elem_of_lookup in Hin as [i Hi].
    destruct (Forall2_lookup_l _ _ _ _ _ Hk Hi) as ([k' d'] & Hi' & Hkk & Hd). cbn in Hkk, Hd. subst k'.
    rewrite Hd in He. destruct (d' v) as [|e''|] eqn:Hd'; cbn in He; [done| |done]. injection He as <-.
    exists pre, k, v, post, d', e''. split_and!; [done|by eapply list_elem_of_lookup_2|done|done|by eapply keyed_decoded].
Qed.

Lemma required_build {A} k (d : de A) t a :
  f_build (required k d) t = Ok a ↔ says t k d (Err (missing_field k)) a.
Proof. apply field_build. Qed.
Lemma defaulted_build {A} k (d : de A) a0 t a : f_build (defaulted k d a0) t = Ok a ↔ says t k d (Ok a0) a.
Proof. apply field_build. Qed.
Lemma optional_build {A} k (d : de A) t a :
  f_build (optional k d) t = Ok a ↔ says t k (λ v, omap_ok Some (d v)) (Ok None) a.
Proof. apply field_build. Qed.
Lemma pure_build {A} (a a' : A) t : f_build (E := E) (V := V) (pure a) t = Ok a' ↔ a = a'.
Proof. cbn. split; congruence. Qed.
End lemmas.

Create HintDb coherent discriminated.
#[export] Hint Resolve pure_coherent ap_coherent : coherent.
#[export] Hint Extern 1 (coherent _) => apply field_coherent : coherent.

(** ** The structs, key by key *)
Section specs.
Context {E V : Type} `{TL : TomlLaws E V}.

Abbreviation table := (list (string * V)).

Definition needs {A} (t : table) (k : string) (d : V → outcome E A) (x : A) : Prop :=
  says t k d (Err (missing_field k)) x.
Definition has {A} (t : table) (k : string) (d : V → outcome E A) (x0 x : A) : Prop := says t k d (Ok x0) x.
Definition may {A} (t : table) (k : string) (d : V → outcome E A) (x : option A) : Prop :=
  says t k (λ v, omap_ok Some (d v)) (Ok None) x.

Definition logging_says (t : table) (cfg : LoggingConfig) : Prop :=
  has t "level" de_log_level Info (level cfg) ∧ has t "json" as_bool false (json cfg).

Definition control_plane_says (t : table) (cfg : ControlPlaneConfig) : Prop :=
  needs t "bind_addr" de_socket_addr (cp_bind_addr cfg) ∧
  needs t "sqlite_path" as_string (cp_sqlite_path cfg) ∧
  has t "offline_timeout" de_duration (from_secs 30) (cp_offline_timeout cfg) ∧
  has t "sweep_interval" de_duration (from_secs 5) (cp_sweep_interval cfg) ∧
  may t "api_token" as_string (cp_api_token cfg) ∧
  has t "logging" de_logging LoggingConfig_default (cp_logging cfg).

Definition gateway_says (t : table) (cfg : GatewayConfig) : Prop :=
  needs t "bind_addr" de_socket_addr (gw_bind_addr cfg) ∧
  needs t "control_plane_url" as_string (gw_control_plane_url cfg) ∧
  may t "api_token" as_string (gw_api_token cfg) ∧
  may t "socks_username" as_string (socks_username cfg) ∧
  may t "socks_password" as_string (socks_password cfg) ∧
  has t "max_connections" de_usize 1024%nat (gw_max_connections cfg) ∧
  has t "connect_timeout" de_duration (from_secs 10) (gw_connect_timeout cfg) ∧
  has t "idle_timeout" de_duration (from_secs 300) (gw_idle_timeout cfg) ∧
  may t "metrics_bind_addr" de_socket_addr (gw_metrics_bind_addr cfg) ∧
  has t "logging" de_logging LoggingConfig_default (gw_logging cfg).

Definition node_says (t : table) (cfg : NodeConfig) : Prop :=
  needs t "node_id" as_string (cfg_node_id cfg) ∧
  needs t "control_plane_url" as_string (cfg_control_plane_url cfg) ∧
  may t "api_token" as_string (cfg_api_token cfg) ∧
  needs t "bind_addr" de_socket_addr (cfg_bind_addr cfg) ∧
  may t "advertised_address" as_string (cfg_advertised_address cfg) ∧
  has t "bandwidth_limit" as_u64 10485760 (cfg_bandwidth_limit cfg) ∧
  has t "max_connections" de_usize 128%nat (cfg_max_connections cfg) ∧
  has t "heartbeat_interval" de_duration (from_secs 5) (cfg_heartbeat_interval cfg) ∧
  has t "upstream_timeout" de_duration (from_secs 10) (cfg_upstream_timeout cfg) ∧
  has t "logging" de_logging LoggingConfig_default (cfg_logging cfg).

Lemma ap_built {A B} (f : fields E V (A → B)) (x : fields E V A) t g a :
  f_build f t = Ok g → f_build x t = Ok a → f_build (f <*> x) t = Ok (g a).
Proof. intros Hf Hx. apply ap_build. by exists g, a. Qed.
End specs.

(** [build_iff] relates what the fields build to the keys of the table. *)
Ltac built :=
  repeat match goal with
  | H : f_build (_ <*> _) _ = Ok _ |- _ => apply ap_build in H as (? & ? & H & ? & ->)
  | H : f_build (pure _) _ = Ok _ |- _ => apply pure_build in H as <-
  | H : f_build (required _ _) _ = Ok _ |- _ => apply required_build in H
  | H : f_build (defaulted _ _ _) _ = Ok _ |- _ => apply defaulted_build in H
  | H : f_build (optional _ _) _ = Ok _ |- _ => apply optional_build in H
  end.
Ltac build :=
  repeat first
    [ apply ap_built | apply (proj2 (pure_build _ _ _)); reflexivity
    | apply required_build; assumption | apply defaulted_build; assumption | apply optional_build; assumption ].
Ltac build_iff :=
  intros Hd; rewrite deserialize_ok by (done || auto 20 with coherent); split;
  [intros Hb; built; split_and!; assumption | intros Hs; destruct_and! Hs; build].

Section tables.
Context {E V : Type} `{TL : TomlLaws E V}.

Lemma logging_exact (t : list (string * V)) (cfg : LoggingConfig) :
  NoDup t.*1 → deserialize (E := E) LoggingConfig_fields t = Ok cfg ↔ logging_says (E := E) t cfg.
Proof. destruct cfg. unfold LoggingConfig_fields. build_iff. Qed.

Lemma control_plane_exact (t : list (string * V)) (cfg : ControlPlaneConfig) :
  NoDup t.*1 → deserialize (E := E) ControlPlaneConfig_fields t = Ok cfg ↔ control_plane_says (E := E) t cfg.
Proof. destruct cfg. unfold ControlPlaneConfig_fields. build_iff. Qed.

Lemma gateway_exact (t : list (string * V)) (cfg : GatewayConfig) :
  NoDup t.*1 → deserialize (E := E) GatewayConfig_fields t = Ok cfg ↔ gateway_says (E := E) t cfg.
Proof. destruct cfg. unfold GatewayConfig_fields. build_iff. Qed.

Lemma node_exact (t : list (string * V)) (cfg : NodeConfig) :
  NoDup t.*1 → deserialize (E := E) NodeConfig_fields t = Ok cfg ↔ node_says (E := E) t cfg.
Proof. destruct cfg. unfold NodeConfig_fields. build_iff. Qed.
End tables.

(** ** Refused tables *)
Section refused.
Context {E V : Type} `{Toml E V}.

Lemma required_faults {A} k (d : V → outcome E A) : faults (required k d) [k].
Proof. apply field_faults. split; [done|by apply list_elem_of_singleton]. Qed.
Lemma defaulted_faults {A} k (d : V → outcome E A) a : faults (defaulted k d a) [].
Proof. by apply field_faults. Qed.
Lemma optional_faults {A} k (d : V → outcome E A) : faults (optional k d) [].
Proof. by apply field_faults. Qed.

Lemma required_keyed {A} k (d : V → outcome E A) : keyed (required k d) [(k, checks d)].
Proof. apply field_keyed. Qed.
Lemma defaulted_keyed {A} k (d : V → outcome E A) a : keyed (defaulted k d a) [(k, checks d)].
Proof. apply field_keyed. Qed.

(** The keys of the files, and what a value must be to fit. *)
Definition control_plane_keys : list (string * (V → outcome E unit)) :=
  [("bind_addr", checks de_socket_addr); ("sqlite_path", checks as_string);
   ("offline_timeout", checks de_duration); ("sweep_interval", checks de_duration);
   ("api_token", checks as_string); ("logging", checks de_logging)].
Definition gateway_keys : list (string * (V → outcome E unit)) :=
  [("bind_addr", checks de_socket_addr); ("control_plane_url", checks as_string); ("api_token", checks as_string);
   ("socks_username", checks as_string); ("socks_password", checks as_string); ("max_connections", checks de_usize);
   ("connect_timeout", checks de_duration); ("idle_timeout", checks de_duration);
   ("metrics_bind_addr", checks de_socket_addr); ("logging", checks de_logging)].
Definition node_keys : list (string * (V → outcome E unit)) :=
  [("node_id", checks as_string); ("control_plane_url", checks as_string); ("api_token", checks as_string);
   ("bind_addr", checks de_socket_addr); ("advertised_address", checks as_string);
   ("bandwidth_limit", checks as_u64); ("max_connections", checks de_usize);
   ("heartbeat_interval", checks de_duration); ("upstream_timeout", checks de_duration); ("logging", checks de_logging)].
End refused.

Create HintDb faults discriminated.
#[export] Hint Resolve pure_faults ap_faults required_faults defaulted_faults optional_faults : faults.
#[export] Hint Resolve pure_keyed ap_keyed required_keyed defaulted_keyed optional_keyed : faults.

Ltac refused_tac :=
  intros He; eapply deserialize_err in He;
  [| |solve [eauto 20 with faults]|solve [eauto 20 with faults]]; [exact He|by apply (bool_decide_unpack _)].

Section refused_tables.
Context {E V : Type} `{Toml E V}.

Lemma control_plane_refused (t : list (string * V)) (e : E) :
  deserialize ControlPlaneConfig_fields t = Err e →
  refusal control_plane_keys ["bind_addr"; "sqlite_path"] t e.
Proof. unfold ControlPlaneConfig_fields. refused_tac. Qed.

Lemma gateway_refused (t : list (string * V)) (e : E) :
  deserialize GatewayConfig_fields t = Err e →
  refusal gateway_keys ["bind_addr"; "control_plane_url"] t e.
Proof. unfold GatewayConfig_fields. refused_tac. Qed.

Lemma node_refused (t : list (string * V)) (e : E) :
  deserialize NodeConfig_fields t = Err e →
  refusal node_keys ["node_id"; "control_plane_url"; "bind_addr"] t e.
Proof. unfold NodeConfig_fields. refused_tac. Qed.
End refused_tables.
