(* ===== verification/TomlText.v ===== *)
(** * A TOML reader for concrete files

    An instance of [Toml] for a part of TOML that covers the files under
    [configs/]: comments, one level of tables, and strings without escapes,
    integers and booleans as values; durations are a number and a unit. With it
    the reading of configuration files is evaluated on their texts. *)

From stdpp Require Import base tactics decidable numbers list strings.
From Stdlib Require Import ZArith Lia Strings.Ascii.
From S2P Require Import Prelude RustStd Config SocketText SocketV6 ConfigToml.

Inductive tvalue : Type :=
| TStr (s : string)
| TInt (z : Z)
| TBool (b : bool)
| TTab (t : list (string * tvalue)).

Inductive terror : Type :=
| TCustom (s : string)
| TMissing (k : string)
| TVariant (s : string)
| TAt (k : string) (e : terror).

Fixpoint terror_text (e : terror) : string :=
  match e with
  | TCustom s => s
  | TMissing k => "missing field `" +:+ k +:+ "`"
  | TVariant s => "unknown variant `" +:+ s +:+ "`"
  | TAt k e => k +:+ ": " +:+ terror_text e
  end.

(** ** Lines *)
Definition newline : ascii := "010".
Definition quote : ascii := "034".

(** The texts below have their double quotes written as single ones. *)
Fixpoint quoted (s : string) : string :=
  match s with
  | EmptyString => EmptyString
  | String c s => String (if Ascii.eqb c "'" then quote else c) (quoted s)
  end.

(** Up to the first [c], and what follows it. *)
Fixpoint cut (c : ascii) (s : string) : option (string * string) :=
  match s with
  | EmptyString => None
  | String a s' =>
      if Ascii.eqb a c then Some (EmptyString, s')
      else match cut c s' with Some (l, r) => Some (String a l, r) | None => None end
  end.

Fixpoint lines (fuel : nat) (s : string) : list string :=
  match fuel with
  | O => []
  | S fuel => match cut newline s with Some (l, r) => l :: lines fuel r | None => [s] end
  end.

Fixpoint trim_start (s : string) : string :=
  match s with String c s' => if Ascii.eqb c " " then trim_start s' else s | EmptyString => s end.
Fixpoint trim_end (s : string) : string :=
  match s with
  | EmptyString => EmptyString
  | String c s' =>
      match trim_end s' with
      | EmptyString => if Ascii.eqb c " " then EmptyString else String c EmptyString
      | s'' => String c s''
      end
  end.
Definition trim (s : string) : string := trim_end (trim_start s).

(** Without a comment, if nothing of the line is quoted before it. *)
Definition uncomment (s : string) : string := match cut "#" s with Some (l, _) => l | None => s end.

(** ** Values *)
Definition read_value (s : string) : option tvalue :=
  match trim_start s with
  | String c s' =>
      if Ascii.eqb c quote then
        match cut quote s' with
        | Some (v, rest) => if String.eqb (trim (uncomment rest)) "" then Some (TStr v) else None
        | None => None
        end
      else
        let s := trim (uncomment s) in
        if String.eqb s "true" then Some (TBool true)
        else if String.eqb s "false" then Some (TBool false)
        else TInt <$> parse_unsigned (2 ^ 63) s
  | EmptyString => None
  end.

(** A line: nothing, the header of a table, or a key and its value. *)
Inductive tline : Type := LNone | LTable (name : string) | LEntry (k : string) (v : tvalue).

Definition read_line (s : string) : option tline :=
  match trim s with
  | EmptyString => Some LNone
  | String "#" _ => Some LNone
  | String "[" s' => match cut "]" s' with Some (name, _) => Some (LTable name) | None => None end
  | s => match cut "=" s with
         | Some (k, v) => LEntry (trim k) <$> read_value v
         | None => None
         end
  end.

(** Entries before the first header, then each table. *)
Fixpoint read_lines (ls : list string) : option (list (string * tvalue) * list (string * tvalue)) :=
  match ls with
  | [] => Some ([], [])
  | l :: ls =>
      match read_line l, read_lines ls with
      | Some LNone, r => r
      | Some (LEntry k v), Some (es, ts) => Some ((k, v) :: es, ts)
      | Some (LTable name), Some (es, ts) => Some ([], (name, TTab es) :: ts)
      | _, _ => None
      end
  end.

Definition distinct (t : list (string * tvalue)) : outcome terror (list (string * tvalue)) :=
  if decide (NoDup t.*1) then Ok t else Err (TCustom "duplicate key").

Definition read_document (s : string) : outcome terror (list (string * tvalue)) :=
  match read_lines (lines (S (String.length s)) s) with
  | Some (es, ts) => distinct (es ++ ts)
  | None => Err (TCustom "invalid document")
  end.

(** ** Durations *)
Definition read_duration (s : string) : option Z :=
  match read_number 10 None true (2 ^ 64) s with
  | Some (n, unit) =>
      if String.eqb unit "s" then Some (from_secs n)
      else if String.eqb unit "ms" then Some (n * 1000000)
      else if String.eqb unit "m" then Some (from_secs (60 * n))
      else if String.eqb unit "h" then Some (from_secs (3600 * n))
      else None
  | None => None
  end.

#[export] Instance text_toml : Toml terror tvalue := {|
  document := read_document;
  as_table v := match v with TTab t => distinct t | _ => Err (TCustom "expected a table") end;
  as_string v := match v with TStr s => Ok s | _ => Err (TCustom "expected a string") end;
  as_bool v := match v with TBool b => Ok b | _ => Err (TCustom "expected a boolean") end;
  as_u64 v := match v with
              | TInt z => if is_u64 z then Ok z else Err (TCustom "expected u64")
              | _ => Err (TCustom "expected an integer")
              end;
  as_variant v := match v with TStr s => Ok s | _ => Err (TCustom "expected a variant") end;
  parse_duration := read_duration;
  custom := TCustom;
  missing_field := TMissing;
  unknown_variant name _ := TVariant name;
  at_key := TAt;
  display := terror_text
|}.

Lemma distinct_ok t t' : distinct t = Ok t' → NoDup t'.*1.
Proof. unfold distinct. case_decide; [by intros [= <-]|done]. Qed.

#[export] Instance text_toml_laws : TomlLaws terror tvalue.
Proof.
  split; cbn.
  - intros s t. unfold read_document. destruct (read_lines _) as [[es ts]|]; [apply distinct_ok|done].
  - intros [s|z|b|t] t'; try done. apply distinct_ok.
  - intros [] n; try done. destruct (is_u64 z) eqn:Hz; [by intros [= <-]|done].
  - intros s d. unfold read_duration. destruct (read_number _ _ _ _ s) as [[n u]|] eqn:Hr; [|done].
    apply read_number_range in Hr. unfold from_secs. repeat case_match; intros ?; simplify_eq; lia.
Qed.

(** ** The files under [configs/] *)
Definition control_plane_toml : string := quoted "# Control plane configuration.
bind_addr = '0.0.0.0:8080'
sqlite_path = './rustproxy.db'
offline_timeout = '30s'
sweep_interval = '5s'
# api_token = 'changeme'

[logging]
level = 'info'
json = false
".

Definition gateway_toml : string := quoted "# SOCKS5 gateway configuration.
bind_addr = '0.0.0.0:1080'
control_plane_url = 'http://127.0.0.1:8080'
# api_token = 'changeme'
max_connections = 1024
connect_timeout = '10s'
idle_timeout = '300s'

[logging]
level = 'info'
json = false
".

Definition node_toml : string := quoted "# Proxy node agent configuration.
node_id = 'node-1'
control_plane_url = 'http://127.0.0.1:8080'
# api_token = 'changeme'
bind_addr = '127.0.0.1:20001'
# advertised_address = 'node-1:20001'
bandwidth_limit = 10485760   # 10 MiB/s
max_connections = 128
heartbeat_interval = '5s'
upstream_timeout = '10s'

[logging]
level = 'info'
json = false
".

