(* ===== verification/Request.v ===== *)
(** * SOCKS5 requests

    [crates/protocol/src/request.rs]: the command codes, the request parser and
    serializer, and the length function the transports use to frame a request.
    The theorems relate the three: parsing inverts serializing, a parsed frame
    is the serialization of its value up to the reserved byte, and [addr_len]
    announces exactly the bytes the parser consumes. *)

From stdpp Require Import base tactics decidable numbers list strings.
From Stdlib Require Import ZArith Lia Strings.Byte.
From S2P Require Import Prelude RustStd Constants Reader Host.

Inductive Command : Type := Connect | Bind | UdpAssociate.

#[export] Instance Command_eq_dec : EqDecision Command.
Proof. solve_decision. Defined.

Definition Command_from_u8 (v : u8) : outcome ProtocolError Command :=
  if u8_eqb v COMMAND_CONNECT then Ok Connect
  else if u8_eqb v COMMAND_BIND then Ok Bind
  else if u8_eqb v COMMAND_UDP_ASSOCIATE then Ok UdpAssociate
  else Err (Unsupported v).

Definition Command_to_u8 (c : Command) : u8 :=
  match c with
  | Connect => COMMAND_CONNECT
  | Bind => COMMAND_BIND
  | UdpAssociate => COMMAND_UDP_ASSOCIATE
  end.

Record Request : Type := mkRequest { command : Command; addr : SocksAddr }.

#[export] Instance Request_eq_dec : EqDecision Request.
Proof. solve_decision. Defined.

(** [Ipv4Addr::new(b[0], b[1], b[2], b[3])]: the indexing may panic. *)
Definition ipv4_of_slice (b : list u8) : outcome ProtocolError Ipv4Addr :=
  let? b0 := slice_index b 0 in
  let? b1 := slice_index b 1 in
  let? b2 := slice_index b 2 in
  let? b3 := slice_index b 3 in
  Ok (mkIpv4 b0 b1 b2 b3).

(** [let mut octets = [0u8; 16]; octets.copy_from_slice(b); Ipv6Addr::from(octets)]. *)
Definition ipv6_of_slice (b : list u8) : outcome ProtocolError Ipv6Addr :=
  let? octets := slice_copy (replicate 16 Byte.x00) 0 16 b in
  Ok (mkIpv6 octets).

(** The [match atyp] of [Request::parse]. *)
Definition Request_parse_host (atyp : u8) : RD Host :=
  if u8_eqb atyp ATYP_IPV4 then
    do! b <- read_bytes 4;
    do! ip <- rlift (ipv4_of_slice b);
    rret (HostIp (V4 ip))
  else if u8_eqb atyp ATYP_IPV6 then
    do! b <- read_bytes 16;
    do! ip <- rlift (ipv6_of_slice b);
    rret (HostIp (V6 ip))
  else if u8_eqb atyp ATYP_DOMAIN then
    do! len_byte <- read_u8;
    let len := u8_nat len_byte in
    if (len =? 0)%nat || (255 <? len)%nat then rfail (Unsupported ATYP_DOMAIN) else
    do! name <- read_bytes len;
    do! name <- rlift (ok_or (from_utf8 name) (Unsupported ATYP_DOMAIN));
    rret (HostDomain name)
  else rfail (Unsupported atyp).

Definition Request_parse_rd : RD (Request * nat) :=
  do! ver <- read_u8;
  if negb (u8_eqb ver VERSION) then rfail (BadVersion ver) else
  do! cmd <- read_u8;
  do! command <- rlift (Command_from_u8 cmd);
  do! _rsv <- read_u8;
  do! atyp <- read_u8;
  do! host <- Request_parse_host atyp;
  do! port <- read_u16;
  let addr := {| host := host; port := port |} in
  do! pos <- position;
  rret ({| command := command; addr := addr |}, pos).

Definition Request_parse (buf : list u8) : outcome ProtocolError (Request * nat) :=
  run_reader Request_parse_rd buf.

Definition Request_addr_bytes {E} (r : Request) : outcome E (list u8) :=
  SocksAddr_to_vec (addr r).

Definition Request_to_bytes {E} (r : Request) : outcome E (list u8) :=
  let? addr_vec := SocksAddr_to_vec (addr r) in
  Ok ([VERSION] ++ [Command_to_u8 (command r)] ++ [Byte.x00] ++ [SocksAddr_atyp (addr r)]
      ++ addr_vec).

Definition addr_len (atyp : u8) (domain_len : option u8) : outcome ProtocolError nat :=
  if u8_eqb atyp ATYP_IPV4 then Ok (4 + 2)%nat
  else if u8_eqb atyp ATYP_IPV6 then Ok (16 + 2)%nat
  else if u8_eqb atyp ATYP_DOMAIN then
    let len := default 0%nat (u8_nat <$> domain_len) in
    if (len =? 0)%nat || (255 <? len)%nat then Err (Unsupported ATYP_DOMAIN)
    else Ok (1 + len + 2)%nat
  else Err (Unsupported atyp).

Definition request_header_len : nat := REQUEST_HEADER_LEN.

(** ** Supporting lemmas *)

Lemma Command_from_to c : Command_from_u8 (Command_to_u8 c) = Ok c.
Proof. by destruct c. Qed.

Lemma Command_from_inv v c : Command_from_u8 v = Ok c → v = Command_to_u8 c.
Proof.
  unfold Command_from_u8. intros H.
  destruct (u8_eqb v COMMAND_CONNECT) eqn:E1; [by apply u8_eqb_eq in E1; injection H as <-|].
  destruct (u8_eqb v COMMAND_BIND) eqn:E2; [by apply u8_eqb_eq in E2; injection H as <-|].
  destruct (u8_eqb v COMMAND_UDP_ASSOCIATE) eqn:E3; [by apply u8_eqb_eq in E3; injection H as <-|done].
Qed.

Lemma ipv4_of_slice_ok b :
  length b = 4%nat → ∃ ip, ipv4_of_slice b = Ok ip ∧ v4_octets ip = b.
Proof.
  destruct b as [|b0 [|b1 [|b2 [|b3 [|]]]]]; try done. intros _.
  by exists (mkIpv4 b0 b1 b2 b3).
Qed.

Lemma ipv4_of_slice_octets ip : ipv4_of_slice (v4_octets ip) = Ok ip.
Proof. by destruct ip. Qed.

Lemma ipv6_of_slice_ok b : length b = 16%nat → ipv6_of_slice b = Ok (mkIpv6 b).
Proof.
  intros H. unfold ipv6_of_slice.
  rewrite <- (app_nil_r (replicate 16 _)), slice_copy_front by done.
  cbn [obind]. by rewrite app_nil_r.
Qed.

Lemma rbind_rlift_ok {A B} (c : outcome ProtocolError A) a (k : A → RD B) r :
  c = Ok a → rbind (rlift c) k r = k a r.
Proof. by intros ->. Qed.

(** The host parser inverts [host_wire]. *)
Lemma Request_parse_host_wire h p pre rest :
  Host_ok h = true → Host_encodable h = true → Host_nonempty h = true →
  (length pre <= 300)%nat →
  Request_parse_host (SocksAddr_atyp {| host := h; port := p |}) (rd pre (host_wire h ++ rest))
  = Ok (h, rd (pre ++ host_wire h) rest).
Proof.
  intros Hok He Hn Hpre. unfold SocksAddr_atyp. cbn [host].
  destruct h as [[ip|[oct]]|name]; unfold Request_parse_host; cbn [u8_eqb].
  - autorewrite with rust.
    rewrite rbind_read_bytes by (cbn; unfold USIZE_MAX; lia).
    by rewrite (rbind_rlift_ok _ ip) by apply ipv4_of_slice_octets.
  - autorewrite with rust.
    cbn in Hok. apply Nat.eqb_eq in Hok.
    cbn [host_wire v6_octets]. rewrite rbind_read_bytes by (unfold USIZE_MAX; lia).
    by rewrite (rbind_rlift_ok _ (mkIpv6 oct)) by by apply ipv6_of_slice_ok.
  - autorewrite with rust.
    cbn [Host_ok Host_encodable Host_nonempty] in *. apply Nat.ltb_lt in He, Hn.
    cbn [host_wire app]. rewrite rbind_read_u8. cbv zeta.
    rewrite as_u8_of_nat by done.
    rewrite (proj2 (Nat.eqb_neq _ _)), (proj2 (Nat.ltb_ge _ _)) by lia. cbn [orb].
    rewrite rbind_read_bytes by (rewrite ?length_app; cbn; unfold USIZE_MAX; unfold str_len in *; lia).
    rewrite (rbind_rlift_ok _ name) by by rewrite from_utf8_as_bytes.
    unfold rret. by rewrite <- app_assoc.
Qed.

(** Conversely, a parsed host consumed exactly its encoding. *)
Lemma Request_parse_host_inv atyp h pre rest r :
  (length pre <= 300)%nat →
  Request_parse_host atyp (rd pre rest) = Ok (h, r) →
  ∃ rest', rest = host_wire h ++ rest' ∧ r = rd (pre ++ host_wire h) rest' ∧
    (∀ p, atyp = SocksAddr_atyp {| host := h; port := p |}) ∧
    Host_ok h = true ∧ Host_encodable h = true ∧ Host_nonempty h = true.
Proof.
  intros Hpre. unfold Request_parse_host, rbind, rret, rlift, rfail.
  destruct (u8_eqb atyp ATYP_IPV4) eqn:E4; [apply u8_eqb_eq in E4 as ->; intros H; inv_ok|].
  { apply read_bytes_inv in E as (rest' & -> & Hlen & ->); [|unfold USIZE_MAX; lia].
    destruct (ipv4_of_slice_ok _ Hlen) as (ip & Hip & Hoct).
    rewrite Hip in E1. injection E1 as <-. exists rest'.
    cbn [host_wire Host_ok Host_encodable Host_nonempty]. by rewrite Hoct. }
  destruct (u8_eqb atyp ATYP_IPV6) eqn:E6; [apply u8_eqb_eq in E6 as ->; intros H; inv_ok|].
  { apply read_bytes_inv in E as (rest' & -> & Hlen & ->); [|unfold USIZE_MAX; lia].
    rewrite ipv6_of_slice_ok in E1 by done. injection E1 as <-. exists rest'.
    cbn [host_wire Host_ok Host_encodable Host_nonempty v6_octets]. by rewrite Hlen. }
  destruct (u8_eqb atyp ATYP_DOMAIN) eqn:E3; [apply u8_eqb_eq in E3 as ->; intros H; inv_ok|done].
  apply read_u8_inv in E as (rest1 & -> & ->). cbv zeta in H.
  destruct (Nat.eqb_spec (u8_nat b) 0); [done|].
  destruct (Nat.ltb_spec 255 (u8_nat b)); [done|]. cbn [orb] in H. inv_ok.
  apply read_bytes_inv in E as (rest' & -> & Hlen & ->);
    [|rewrite length_app; cbn; unfold USIZE_MAX; lia].
  destruct (from_utf8 _) as [name|] eqn:Hu; [|done]. injection E1 as <-.
  apply from_utf8_inv in Hu as [-> Hutf].
  exists rest'. cbn [host_wire Host_ok Host_encodable Host_nonempty]. unfold str_len.
  rewrite Hlen, u8_nat_val, as_u8_of_val, <- app_assoc. split_and!; try done.
  - by apply Nat.ltb_lt, u8_nat_range.
  - apply Nat.ltb_lt. lia.
Qed.

(** ** The reference frame *)
Definition request_wire (rsv : u8) (r : Request) : list u8 :=
  [VERSION; Command_to_u8 (command r); rsv; SocksAddr_atyp (addr r)] ++ addr_wire (addr r).

(** The requests a client can put on the wire. *)
Definition Request_ok (r : Request) : bool :=
  SocksAddr_ok (addr r) && Host_encodable (host (addr r)) && Host_nonempty (host (addr r)).

Lemma Request_ok_inv r :
  Request_ok r = true →
  SocksAddr_ok (addr r) = true ∧ Host_encodable (host (addr r)) = true ∧
  Host_nonempty (host (addr r)) = true.
Proof. unfold Request_ok. by intros [[??]%andb_prop ?]%andb_prop. Qed.

Lemma request_wire_length rsv r :
  SocksAddr_ok (addr r) = true →
  length (request_wire rsv r) = (4 + SocksAddr_wire_len (addr r))%nat.
Proof. intros H. unfold request_wire. rewrite length_app, addr_wire_length by done. done. Qed.

Lemma Request_to_bytes_ok {E} r :
  SocksAddr_ok (addr r) = true → Request_to_bytes (E := E) r = Ok (request_wire Byte.x00 r).
Proof. intros H. unfold Request_to_bytes. by rewrite SocksAddr_to_vec_ok. Qed.

Lemma Request_parse_wire rsv r rest :
  Request_ok r = true →
  Request_parse_rd (rd [] (request_wire rsv r ++ rest)) =
  Ok ((r, length (request_wire rsv r)), rd (request_wire rsv r) rest).
Proof.
  intros (Hok & He & Hn)%Request_ok_inv. destruct r as [cmd [h p]]. cbn [addr host] in *.
  unfold Request_parse_rd, request_wire, addr_wire. cbn [addr command host port app].
  rewrite rbind_read_u8. cbn [app]. change (negb (u8_eqb VERSION VERSION)) with false. cbv iota.
  rewrite rbind_read_u8, (rbind_rlift_ok _ _ _ _ (Command_from_to cmd)).
  rewrite !rbind_read_u8. cbn [app]. unfold rbind at 1.
  rewrite <- app_assoc, Request_parse_host_wire by (try apply SocksAddr_ok_host in Hok; cbn; done || lia).
  cbn [obind app]. rewrite rbind_read_u16.
  rewrite u16_combine by (by apply SocksAddr_ok_port in Hok).
  reflexivity.
Qed.

Lemma Request_parse_of_wire rsv r rest :
  Request_ok r = true →
  Request_parse (request_wire rsv r ++ rest) = Ok (r, length (request_wire rsv r)).
Proof.
  intros Hok. unfold Request_parse, run_reader.
  by rewrite Reader_new_rd, Request_parse_wire.
Qed.

Lemma Request_parse_rd_inv buf res r' :
  Request_parse_rd (rd [] buf) = Ok (res, r') →
  ∃ rsv rest, buf = request_wire rsv res.1 ++ rest ∧ Request_ok res.1 = true ∧
    res.2 = length (request_wire rsv res.1).
Proof.
  unfold Request_parse_rd, rbind at 1. intros H. inv_ok.
  apply read_u8_inv in E as (rest & -> & ->).
  destruct (u8_eqb _ VERSION) eqn:EV; [|done]. apply u8_eqb_eq in EV as ->.
  cbn [negb] in H. unfold rbind, rlift, rret, position in H. inv_ok.
  repeat match goal with
  | E : read_u8 (rd _ _) = Ok _ |- _ => apply read_u8_inv in E as (? & -> & ->)
  end.
  apply Command_from_inv in E1 as ->.
  apply Request_parse_host_inv in E4 as (rest' & -> & -> & Hat & Hok & He & Hn); [|cbn; lia].
  apply read_u16_inv in E5 as (hi & lo & rest2 & -> & -> & ->).
  destruct (u16_split hi lo) as [Hhi Hlo].
  eexists _, rest2. unfold request_wire, addr_wire, Request_ok, SocksAddr_ok.
  cbn [fst snd addr command host port r_pos rd].
  rewrite Hhi, Hlo, <- Hat, Hok, He, Hn. cbn [app]. rewrite <- !app_assoc.
  split_and!; [done| |done]. unfold is_u16. pose proof (u8_pair_range hi lo).
  rewrite (proj2 (Z.leb_le _ _)), (proj2 (Z.ltb_lt _ _)) by lia. done.
Qed.

(** Stability and panic freedom of the request parser. *)
Lemma stable_Request_parse : stable Request_parse_rd.
Proof. unfold Request_parse_rd, Request_parse_host. eauto 30 with parser. Qed.

Lemma no_panic_Request_parse_host atyp : no_panic (Request_parse_host atyp).
Proof.
  unfold Request_parse_host. repeat apply no_panic_if; [| | |apply no_panic_fail].
  - apply (no_panic_bind_post (λ b, length b = 4%nat));
      [apply no_panic_read_bytes | apply read_bytes_length | intros b Hb].
    destruct (ipv4_of_slice_ok b Hb) as (ip & Hip & _).
    apply no_panic_bind; [|intros; apply no_panic_ret].
    apply no_panic_lift. by rewrite Hip.
  - apply (no_panic_bind_post (λ b, length b = 16%nat));
      [apply no_panic_read_bytes | apply read_bytes_length | intros b Hb].
    apply no_panic_bind; [|intros; apply no_panic_ret].
    apply no_panic_lift. by rewrite ipv6_of_slice_ok.
  - apply no_panic_bind; [apply no_panic_read_u8|intros len]. cbv zeta.
    apply no_panic_if; [apply no_panic_fail|].
    apply no_panic_bind; [apply no_panic_read_bytes|intros name].
    apply no_panic_bind; [|intros; apply no_panic_ret].
    apply no_panic_lift. by destruct (from_utf8 name).
Qed.

Lemma no_panic_Request_parse : no_panic Request_parse_rd.
Proof.
  unfold Request_parse_rd.
  repeat no_panic_step; [|apply no_panic_Request_parse_host].
  apply no_panic_lift. unfold Command_from_u8. by split_tests.
Qed.

Lemma Request_parse_ok_inv buf r n :
  Request_parse buf = Ok (r, n) →
  ∃ rsv rest, buf = request_wire rsv r ++ rest ∧ Request_ok r = true ∧
    n = length (request_wire rsv r).
Proof.
  unfold Request_parse, run_reader. rewrite Reader_new_rd.
  destruct (Request_parse_rd (rd [] buf)) as [[res r']| |] eqn:E; [|done..].
  cbn. intros [= ->]. apply (Request_parse_rd_inv _ _ _ E).
Qed.

(** The error a rejected request carries names its first offending field. *)
Definition request_error_ok (buf : list u8) (e : ProtocolError) : Prop :=
  match e with
  | BadVersion v => buf !! 0%nat = Some v ∧ v ≠ VERSION
  | Unsupported c => buf !! 0%nat = Some VERSION ∧
      (buf !! 1%nat = Some c ∨ buf !! 3%nat = Some c)
  | Truncated => True
  | InvalidCredentialLength | NoAcceptableMethod => False
  end.

(** Reader primitives fail with [Truncated] only. *)
Lemma read_u8_err r e : read_u8 r = Err e → e = Truncated.
Proof. unfold read_u8. destruct (r_buf r !! r_pos r); [done|]. by intros [= <-]. Qed.

Lemma read_bytes_err n r e : read_bytes n r = Err e → e = Truncated.
Proof.
  unfold read_bytes. destruct (checked_add_usize _ _); cbn; [|by intros [= <-]].
  destruct (slice_get_range _ _ _); cbn; [done|]. by intros [= <-].
Qed.

Lemma read_u16_err r e : read_u16 r = Err e → e = Truncated.
Proof.
  unfold read_u16, rbind, rret.
  destruct (read_u8 r) as [[hi r1]| |] eqn:E1; cbn; [|intros [= <-]; by eapply read_u8_err|done].
  destruct (read_u8 r1) as [[lo r2]| |] eqn:E2; cbn; [done|intros [= <-]; by eapply read_u8_err|done].
Qed.

Lemma Request_parse_host_err atyp r e :
  Request_parse_host atyp r = Err e → e = Truncated ∨ e = Unsupported atyp.
Proof.
  unfold Request_parse_host, rbind, rlift, rret, rfail.
  destruct (u8_eqb atyp ATYP_IPV4); [|destruct (u8_eqb atyp ATYP_IPV6);
    [|destruct (u8_eqb atyp ATYP_DOMAIN) eqn:ED; [apply u8_eqb_eq in ED as ->|naive_solver]]].
  - destruct (read_bytes 4 r) as [[b r']| |] eqn:E; cbn; [|intros [= <-]; left; by eapply read_bytes_err|done].
    apply read_bytes_length in E. by destruct (ipv4_of_slice_ok _ E) as (ip & -> & _).
  - destruct (read_bytes 16 r) as [[b r']| |] eqn:E; cbn; [|intros [= <-]; left; by eapply read_bytes_err|done].
    apply read_bytes_length in E. by rewrite ipv6_of_slice_ok.
  - destruct (read_u8 r) as [[b r']| |] eqn:E; cbn [obind]; [|intros [= <-]; left; by eapply read_u8_err|done].
    cbv zeta. destruct (_ || _); [naive_solver|].
    destruct (read_bytes _ r') as [[b' r2]| |] eqn:E2; cbn [obind];
      [|intros [= <-]; left; by eapply read_bytes_err|done].
    destruct (from_utf8 b'); cbn; naive_solver.
Qed.

Lemma Request_parse_err buf e : Request_parse buf = Err e → request_error_ok buf e.
Proof.
  unfold Request_parse, run_reader. rewrite Reader_new_rd.
  destruct (Request_parse_rd (rd [] buf)) as [|e'|] eqn:E; [done| |done]. cbn. intros [= ->].
  revert E. unfold Request_parse_rd, rbind at 1. rewrite read_u8_rd.
  destruct buf as [|v buf]; [by intros [= <-]|]. cbn [obind].
  destruct (u8_eqb v VERSION) eqn:EV; cbn [negb];
    [apply u8_eqb_eq in EV as ->
    |intros [= <-]; split; [done|]; intros ->; by rewrite u8_eqb_refl in EV].
  unfold rbind at 1. rewrite read_u8_rd. destruct buf as [|c buf]; [by intros [= <-]|].
  cbn [obind]. unfold rbind at 1, rlift.
  destruct (Command_from_u8 c) as [cmd|e'|] eqn:EC; cbn [obind]; [|intros [= ->]|done].
  2:{ unfold Command_from_u8 in EC. split_tests; naive_solver. }
  unfold rbind at 1. rewrite read_u8_rd. destruct buf as [|rsv buf]; [by intros [= <-]|].
  cbn [obind]. unfold rbind at 1. rewrite read_u8_rd.
  destruct buf as [|a buf]; [by intros [= <-]|]. cbn [obind]. unfold rbind at 1.
  destruct (Request_parse_host a _) as [[h r1]|e'|] eqn:EH; cbn [obind]; [|intros [= ->]|done].
  2:{ apply Request_parse_host_err in EH as [->| ->]; [done|]. cbn. naive_solver. }
  unfold rbind, position, rret. destruct (read_u16 r1) as [[p r2]| |] eqn:EP; cbn; [done| |done].
  intros [= <-]. by apply read_u16_err in EP as ->.
Qed.

Lemma addr_len_domain n :
  (0 < n < 256)%nat → addr_len ATYP_DOMAIN (Some (as_u8 (Z.of_nat n))) = Ok (1 + n + 2)%nat.
Proof.
  intros Hn. unfold addr_len. autorewrite with rust.
  cbn [fmap option_fmap option_map default from_option id]. rewrite as_u8_of_nat by lia. cbv zeta.
  by rewrite (proj2 (Nat.eqb_neq _ _)), (proj2 (Nat.ltb_ge _ _)) by lia.
Qed.

Lemma Request_parse_addr_len buf r n :
  Request_parse buf = Ok (r, n) →
  addr_len (SocksAddr_atyp (addr r)) (buf !! 4%nat) = Ok (n - request_header_len)%nat.
Proof.
  intros (rsv & rest & -> & Hok & ->)%Request_parse_ok_inv.
  destruct (Request_ok_inv r Hok) as (Ha & He & Hn). rewrite request_wire_length by done.
  destruct r as [cmd [[[ip|ip]|name] p]]; try done.
  cbn [addr host Host_encodable Host_nonempty] in *. apply Nat.ltb_lt in He, Hn.
  unfold SocksAddr_atyp, SocksAddr_wire_len. cbn [host].
  change ((request_wire _ _ ++ rest) !! 4%nat) with (Some (as_u8 (Z.of_nat (str_len name)))).
  rewrite addr_len_domain by lia. done.
Qed.

(** A concrete request, used by the witnesses. *)
Definition example_request : Request :=
  {| command := Connect; addr := {| host := HostDomain "example.com"; port := 443 |} |}.

(** ** Properties *)

(** (C32) Round trip: serializing a well-formed request never panics, yields a
    frame of [4 + wire_len] bytes, and parsing that frame, whatever bytes
    follow it on the stream, returns the same request and the frame length. *)
Theorem request_roundtrip (r : Request) (rest : list u8) :
  Request_ok r = true →
  ∃ frame, Request_to_bytes (E := ProtocolError) r = Ok frame ∧
    length frame = (request_header_len + SocksAddr_wire_len (addr r))%nat ∧
    Request_parse (frame ++ rest) = Ok (r, length frame).
Proof.
  intros Hok. destruct (Request_ok_inv r Hok) as (Ha & _ & _).
  exists (request_wire Byte.x00 r).
  split_and!; [by apply Request_to_bytes_ok | by apply request_wire_length |].
  by apply Request_parse_of_wire.
Qed.

Lemma request_roundtrip_witness :
  ∃ frame, Request_to_bytes (E := ProtocolError) example_request = Ok frame ∧
    length frame = (request_header_len + SocksAddr_wire_len (addr example_request))%nat ∧
    Request_parse (frame ++ [Byte.x42]) = Ok (example_request, length frame).
Proof. apply (request_roundtrip example_request [Byte.x42]). vm_compute. reflexivity. Defined.

(** Soundness of parsing: an accepted buffer starts with the
    serialization of the parsed request, up to the ignored reserved byte; the
    reported count is the length of that frame, and the request satisfies the
    invariants of its type (a [u16] port, 16 octets, a UTF-8 name of 1 to 255
    bytes). *)
Theorem request_parse_canonical (buf : list u8) (r : Request) (n : nat) :
  Request_parse buf = Ok (r, n) →
  Request_ok r = true ∧ (n ≤ length buf)%nat ∧
  n = (request_header_len + SocksAddr_wire_len (addr r))%nat ∧
  ∃ frame rsv, Request_to_bytes (E := ProtocolError) r = Ok frame ∧
    take n buf = <[2%nat := rsv]> frame.
Proof.
  intros (rsv & rest & -> & Hok & ->)%Request_parse_ok_inv.
  destruct (Request_ok_inv r Hok) as (Ha & _ & _).
  split_and!; [done | rewrite length_app; lia | by rewrite request_wire_length |].
  exists (request_wire Byte.x00 r), rsv. rewrite take_app_length.
  split; [by apply Request_to_bytes_ok | done].
Qed.

Lemma request_parse_canonical_witness :
  take 18 (request_wire Byte.x07 example_request ++ [Byte.x42])
  = <[2%nat := Byte.x07]> (request_wire Byte.x00 example_request) ∧
  Request_ok example_request = true.
Proof.
  split; [reflexivity|].
  apply (request_parse_canonical (request_wire Byte.x07 example_request ++ [Byte.x42])
           example_request 18).
  vm_compute. reflexivity.
Defined.

(** Incremental parsing: every proper prefix of a request frame is
    reported as truncated (never accepted, never rejected for another reason),
    and a result other than "truncated" does not change when more bytes
    arrive. *)
Theorem request_parse_incremental (r : Request) (rsv : u8) (p q : list u8) :
  Request_ok r = true → request_wire rsv r = p ++ q → q ≠ [] →
  Request_parse p = Err Truncated ∧
  ∀ buf s, Request_parse buf ≠ Err Truncated →
    Request_parse (buf ++ s) = Request_parse buf.
Proof.
  intros Hok Hsplit Hq.
  assert (Hst : ∀ buf s, Request_parse buf ≠ Err Truncated →
                  Request_parse (buf ++ s) = Request_parse buf).
  { intros buf s Hne. by apply stable_run; [apply stable_Request_parse| |]. }
  split; [|done]. destruct (decide (Request_parse p = Err Truncated)) as [|Hne]; [done|].
  pose proof (Hst p q Hne) as Hp. rewrite <- Hsplit in Hp.
  rewrite <- (app_nil_r (request_wire rsv r)), Request_parse_of_wire in Hp by done.
  symmetry in Hp. apply Request_parse_ok_inv in Hp as (rsv' & rest & Hp & _ & Hn).
  apply (f_equal length) in Hp, Hsplit. rewrite length_app in Hp, Hsplit.
  destruct q; [done|]. cbn [length] in Hsplit. lia.
Qed.

Lemma request_parse_incremental_witness :
  Request_parse (take 9 (request_wire Byte.x00 example_request)) = Err Truncated.
Proof.
  apply (request_parse_incremental example_request Byte.x00
           (take 9 (request_wire Byte.x00 example_request))
           (drop 9 (request_wire Byte.x00 example_request)));
    [vm_compute; reflexivity | vm_compute; reflexivity | vm_compute; discriminate].
Defined.

(** The parser is total: it never panics on any input (the version, the
    command and the address are checked before any indexing), and the error it
    returns names the first offending field: a bad version is byte 0, an
    unsupported code is the command (byte 1) or the address type (byte 3). *)
Theorem request_parse_total (buf : list u8) :
  match Request_parse buf with
  | Ok (r, n) => (n ≤ length buf)%nat
  | Err e => request_error_ok buf e
  | Panic => False
  end.
Proof.
  destruct (Request_parse buf) as [[r n]|e|] eqn:E.
  - apply Request_parse_ok_inv in E as (rsv & rest & -> & _ & ->). rewrite length_app. lia.
  - by apply Request_parse_err.
  - by apply (no_panic_run _ buf no_panic_Request_parse).
Qed.

(** Framing: for every accepted request, [addr_len] computed by the
    transport from the address type and the byte after the header announces
    exactly the bytes the parser consumed after the 4-byte header. *)
Theorem addr_len_frames_request (buf : list u8) (r : Request) (n : nat) :
  Request_parse buf = Ok (r, n) →
  addr_len (SocksAddr_atyp (addr r)) (buf !! 4%nat) = Ok (n - request_header_len)%nat.
Proof. apply Request_parse_addr_len. Qed.

Lemma addr_len_frames_request_witness :
  addr_len ATYP_DOMAIN (Some Byte.x0b) = Ok 14%nat.
Proof.
  apply (addr_len_frames_request (request_wire Byte.x00 example_request) example_request 18).
  vm_compute. reflexivity.
Defined.
