(* ===== verification/Handshake.v ===== *)
(** * SOCKS5 negotiation

    [crates/protocol/src/handshake.rs]: the client greeting, its frame length,
    the server's method selection and the selection policy. *)

From stdpp Require Import base tactics decidable numbers list strings.
From Stdlib Require Import ZArith Lia Strings.Byte.
From S2P Require Import Prelude RustStd Constants Reader.

Record Greeting : Type := mkGreeting { methods : list u8 }.

#[export] Instance Greeting_eq_dec : EqDecision Greeting.
Proof. solve_decision. Defined.

Definition Greeting_finish (g : Greeting) : outcome ProtocolError Greeting :=
  if (length (methods g) =? 0)%nat || (255 <? length (methods g))%nat
  then Err (Unsupported Byte.x00)
  else Ok g.

Definition Greeting_parse_rd : RD Greeting :=
  do! ver <- read_u8;
  if negb (u8_eqb ver VERSION) then rfail (BadVersion ver) else
  do! n <- read_u8;
  let nmethods := u8_nat n in
  do! methods <- read_bytes nmethods;
  rlift (Greeting_finish {| methods := methods |}).

Definition Greeting_parse (buf : list u8) : outcome ProtocolError Greeting :=
  run_reader Greeting_parse_rd buf.

Definition Greeting_frame_len (buf : list u8) : outcome ProtocolError nat :=
  if (length buf <? GREETING_HEADER_LEN)%nat then Err Truncated else
  let? n := slice_index buf 1 in
  Ok (GREETING_HEADER_LEN + u8_nat n)%nat.

Record MethodSelection : Type := mkMethodSelection { method : u8 }.

Definition MethodSelection_to_bytes (m : MethodSelection) : list u8 :=
  [VERSION; method m].

Definition no_auth : MethodSelection := {| method := METHOD_NO_AUTH |}.
Definition user_pass : MethodSelection := {| method := METHOD_USER_PASS |}.
Definition no_acceptable_method : MethodSelection := {| method := METHOD_NO_ACCEPTABLE |}.

(** [greeting.methods.contains(&m)]. *)
Definition offered (g : Greeting) (m : u8) : bool := bool_decide (m ∈ methods g).

Definition negotiate (g : Greeting) (allow_user_pass allow_no_auth : bool) : MethodSelection :=
  if allow_no_auth && offered g METHOD_NO_AUTH then no_auth
  else if allow_user_pass && offered g METHOD_USER_PASS then user_pass
  else no_acceptable_method.

(** ** The reference frame *)
Definition greeting_wire (g : Greeting) : list u8 :=
  [VERSION; as_u8 (Z.of_nat (length (methods g)))] ++ methods g.

Definition Greeting_ok (g : Greeting) : bool :=
  (0 <? length (methods g))%nat && (length (methods g) <? 256)%nat.

Lemma Greeting_ok_len g : Greeting_ok g = true ↔ (0 < length (methods g) < 256)%nat.
Proof. unfold Greeting_ok. rewrite andb_true_iff, !Nat.ltb_lt. lia. Qed.

Lemma Greeting_finish_ok g : Greeting_ok g = true → Greeting_finish g = Ok g.
Proof.
  intros H%Greeting_ok_len. unfold Greeting_finish.
  by rewrite (proj2 (Nat.eqb_neq _ _)), (proj2 (Nat.ltb_ge _ _)) by lia.
Qed.

Lemma Greeting_finish_inv g g' : Greeting_finish g = Ok g' → g' = g ∧ Greeting_ok g = true.
Proof.
  unfold Greeting_finish. destruct (Nat.eqb_spec (length (methods g)) 0); [done|].
  destruct (Nat.ltb_spec 255 (length (methods g))); [done|]. cbn. intros [= <-].
  split; [done|]. apply Greeting_ok_len. lia.
Qed.

Lemma Greeting_parse_of_wire g rest :
  Greeting_ok g = true → Greeting_parse (greeting_wire g ++ rest) = Ok g.
Proof.
  intros Hok. pose proof (proj1 (Greeting_ok_len g) Hok) as Hlen.
  unfold Greeting_parse, run_reader, greeting_wire. rewrite Reader_new_rd. cbn [app].
  unfold Greeting_parse_rd. rewrite rbind_read_u8. autorewrite with rust. cbn [negb].
  rewrite rbind_read_u8. cbv zeta. rewrite as_u8_of_nat by lia.
  rewrite rbind_read_bytes by (cbn; unfold USIZE_MAX; lia).
  destruct g as [ms]. cbn [methods]. unfold rlift. by rewrite Greeting_finish_ok.
Qed.

Lemma Greeting_parse_ok_inv buf g :
  Greeting_parse buf = Ok g →
  Greeting_ok g = true ∧ ∃ rest, buf = greeting_wire g ++ rest.
Proof.
  unfold Greeting_parse, run_reader. rewrite Reader_new_rd.
  destruct (Greeting_parse_rd (rd [] buf)) as [[g' r']| |] eqn:H; [|done..].
  cbn. intros [= ->]. revert H. unfold Greeting_parse_rd, rbind at 1. intros H. inv_ok.
  apply read_u8_inv in E as (rest & -> & ->).
  destruct (u8_eqb _ VERSION) eqn:EV; [|done]. apply u8_eqb_eq in EV as ->.
  cbn [negb] in H. unfold rbind, rlift in H. cbv zeta in H. inv_ok. repeat inv_read.
  match goal with E : Greeting_finish _ = Ok _ |- _ => apply Greeting_finish_inv in E as [-> Hok] end.
  split; [done|]. eexists. unfold greeting_wire. cbn [methods].
  by rewrite Hlen, u8_nat_val, as_u8_of_val.
Qed.

Lemma stable_Greeting_parse : stable Greeting_parse_rd.
Proof. unfold Greeting_parse_rd. eauto 20 with parser. Qed.

Lemma no_panic_Greeting_parse : no_panic Greeting_parse_rd.
Proof.
  unfold Greeting_parse_rd. repeat no_panic_step. apply no_panic_lift.
  unfold Greeting_finish. by split_tests.
Qed.

Definition example_greeting : Greeting := {| methods := [Byte.x00; Byte.x02] |}.

(** ** Properties *)

(** Greetings: a buffer is accepted exactly when it starts with a version
    5 greeting offering 1 to 255 methods, whatever follows; the methods are the
    ones offered, and [frame_len] computed from the first two bytes is the
    length of that frame. *)
Theorem greeting_parse_iff (buf : list u8) (g : Greeting) :
  Greeting_parse buf = Ok g ↔
  Greeting_ok g = true ∧ (∃ rest, buf = greeting_wire g ++ rest) ∧
  Greeting_frame_len buf = Ok (length (greeting_wire g)).
Proof.
  split.
  - intros (Hok & rest & ->)%Greeting_parse_ok_inv. split_and!; [done|by eexists|].
    apply Greeting_ok_len in Hok. unfold Greeting_frame_len. cbn.
    by rewrite as_u8_of_nat by lia.
  - intros (Hok & (rest & ->) & _). by apply Greeting_parse_of_wire.
Qed.

(** Greeting parsing is total and incremental: no input makes it panic,
    and a result other than "truncated" is final. *)
Theorem greeting_parse_incremental (buf s : list u8) :
  Greeting_parse buf ≠ Panic ∧
  (Greeting_parse buf = Err Truncated ∨ Greeting_parse (buf ++ s) = Greeting_parse buf).
Proof.
  split; [apply no_panic_run, no_panic_Greeting_parse|].
  destruct (decide (Greeting_parse buf = Err Truncated)); [by left|right].
  by apply stable_run; [apply stable_Greeting_parse| |].
Qed.

(** Method selection: the server only ever selects a method that the
    client offered and the policy allows; it refuses exactly when there is
    none; and, since the gateway allows exactly one of the two methods, a
    server that requires credentials never lets a client in without them. *)
Theorem negotiate_sound (g : Greeting) (up na : bool) :
  (method (negotiate g up na) = METHOD_NO_AUTH ↔ na = true ∧ METHOD_NO_AUTH ∈ methods g) ∧
  (method (negotiate g up na) = METHOD_USER_PASS ↔
     up = true ∧ METHOD_USER_PASS ∈ methods g ∧ ¬ (na = true ∧ METHOD_NO_AUTH ∈ methods g)) ∧
  (method (negotiate g up na) = METHOD_NO_ACCEPTABLE ↔
     ¬ (na = true ∧ METHOD_NO_AUTH ∈ methods g) ∧ ¬ (up = true ∧ METHOD_USER_PASS ∈ methods g)).
Proof.
  unfold negotiate, offered.
  destruct (bool_decide_reflect (METHOD_NO_AUTH ∈ methods g)),
    (bool_decide_reflect (METHOD_USER_PASS ∈ methods g)), up, na; cbn;
    split_and!; split; first [discriminate | naive_solver].
Qed.

(** The documentation of [negotiate] says that username/password is
    preferred when enabled; the code prefers anonymous access: whenever both
    are enabled and offered, credentials are not asked for. *)
Theorem negotiate_prefers_anonymous (g : Greeting) :
  METHOD_NO_AUTH ∈ methods g → METHOD_USER_PASS ∈ methods g →
  negotiate g true true = no_auth.
Proof. intros H _. unfold negotiate, offered. by rewrite bool_decide_eq_true_2. Qed.

Lemma negotiate_prefers_anonymous_witness : negotiate example_greeting true true = no_auth.
Proof.
  apply (negotiate_prefers_anonymous example_greeting); cbn; [left | right; left].
Defined.
