(* ===== verification/Auth.v ===== *)
(** * Username/password sub-negotiation

    [crates/protocol/src/auth.rs] (RFC 1929): credential frames and the
    server's verdict. *)

From stdpp Require Import base tactics decidable numbers list strings.
From Stdlib Require Import ZArith Lia Strings.Byte.
From S2P Require Import Prelude RustStd Constants Reader.

Definition AUTH_STATUS_SUCCESS : u8 := Byte.x00.
Definition AUTH_STATUS_FAILURE : u8 := Byte.x01.

Definition MAX_USERNAME_LEN : nat := 255.
Definition MAX_PASSWORD_LEN : nat := 255.

Record UsernamePassword : Type := mkUsernamePassword { username : string; password : string }.

#[export] Instance UsernamePassword_eq_dec : EqDecision UsernamePassword.
Proof. solve_decision. Defined.

Definition UsernamePassword_parse_rd : RD UsernamePassword :=
  do! ver <- read_u8;
  if negb (u8_eqb ver AUTH_VERSION) then rfail (BadVersion ver) else
  do! ulen_byte <- read_u8;
  let ulen := u8_nat ulen_byte in
  if (ulen =? 0)%nat || (MAX_USERNAME_LEN <? ulen)%nat then rfail InvalidCredentialLength else
  do! username_bytes <- read_bytes ulen;
  do! plen_byte <- read_u8;
  let plen := u8_nat plen_byte in
  if (MAX_PASSWORD_LEN <? plen)%nat then rfail InvalidCredentialLength else
  do! password_bytes <- read_bytes plen;
  do! username <- rlift (ok_or (from_utf8 username_bytes) InvalidCredentialLength);
  do! password <- rlift (ok_or (from_utf8 password_bytes) InvalidCredentialLength);
  rret {| username := username; password := password |}.

Definition UsernamePassword_parse (buf : list u8) : outcome ProtocolError UsernamePassword :=
  run_reader UsernamePassword_parse_rd buf.

Definition UsernamePassword_wire_len (c : UsernamePassword) : nat :=
  1 + 1 + str_len (username c) + 1 + str_len (password c).

Definition UsernamePassword_to_vec (c : UsernamePassword) : list u8 :=
  [AUTH_VERSION] ++ [as_u8 (Z.of_nat (str_len (username c)))] ++ as_bytes (username c)
  ++ [as_u8 (Z.of_nat (str_len (password c)))] ++ as_bytes (password c).

Definition auth_reply_bytes (status : u8) : list u8 := [AUTH_VERSION; status].

(** Credentials that RFC 1929 can carry. *)
Definition Credentials_ok (c : UsernamePassword) : bool :=
  is_utf8 (username c) && is_utf8 (password c) &&
  (0 <? str_len (username c))%nat && (str_len (username c) <? 256)%nat &&
  (str_len (password c) <? 256)%nat.

Lemma Credentials_ok_iff c :
  Credentials_ok c = true ↔
  is_utf8 (username c) = true ∧ is_utf8 (password c) = true ∧
  (0 < str_len (username c) < 256)%nat ∧ (str_len (password c) < 256)%nat.
Proof. unfold Credentials_ok. rewrite !andb_true_iff, !Nat.ltb_lt. tauto. Qed.

Lemma rbind_rlift_some {A B} (o : option A) e a (k : A → RD B) r :
  o = Some a → rbind (rlift (ok_or o e)) k r = k a r.
Proof. by intros ->. Qed.

Lemma UsernamePassword_parse_of_vec c rest :
  Credentials_ok c = true → UsernamePassword_parse (UsernamePassword_to_vec c ++ rest) = Ok c.
Proof.
  intros (Hu & Hp & Hul & Hpl)%Credentials_ok_iff. destruct c as [u p]. cbn in *.
  unfold UsernamePassword_parse, run_reader, UsernamePassword_to_vec.
  rewrite Reader_new_rd, <- !app_assoc. cbn [app username password].
  unfold UsernamePassword_parse_rd. rewrite rbind_read_u8. autorewrite with rust. cbn [negb].
  rewrite rbind_read_u8. cbv zeta. rewrite !as_u8_of_nat by lia.
  unfold MAX_USERNAME_LEN, MAX_PASSWORD_LEN.
  rewrite (proj2 (Nat.eqb_neq _ _)), (proj2 (Nat.ltb_ge _ (str_len u))) by lia. cbn [orb].
  rewrite rbind_read_bytes by (cbn; unfold USIZE_MAX, str_len in *; lia).
  rewrite rbind_read_u8. rewrite !as_u8_of_nat by lia.
  rewrite (proj2 (Nat.ltb_ge _ (str_len p))) by lia.
  rewrite rbind_read_bytes by (rewrite ?length_app; cbn; unfold USIZE_MAX, str_len in *; lia).
  rewrite (rbind_rlift_some _ _ u), (rbind_rlift_some _ _ p) by by apply from_utf8_as_bytes.
  done.
Qed.

Lemma UsernamePassword_parse_ok_inv buf c :
  UsernamePassword_parse buf = Ok c →
  Credentials_ok c = true ∧ ∃ rest, buf = UsernamePassword_to_vec c ++ rest.
Proof.
  unfold UsernamePassword_parse, run_reader. rewrite Reader_new_rd.
  destruct (UsernamePassword_parse_rd (rd [] buf)) as [[c' r']| |] eqn:H; [|done..].
  cbn. intros [= ->]. revert H. unfold UsernamePassword_parse_rd, rbind at 1. intros H. inv_ok.
  apply read_u8_inv in E as (rest & -> & ->).
  destruct (u8_eqb _ AUTH_VERSION) eqn:EV; [|done]. apply u8_eqb_eq in EV as ->.
  cbn [negb] in H. unfold rbind at 1 in H. cbv zeta in H. inv_ok. inv_read.
  destruct (Nat.eqb_spec (u8_nat b) 0); [done|].
  destruct (Nat.ltb_spec MAX_USERNAME_LEN (u8_nat b)); [done|]. cbn [orb] in H.
  unfold rbind at 1 2 in H. inv_ok. repeat inv_read.
  destruct (Nat.ltb_spec MAX_PASSWORD_LEN (u8_nat b0)); [done|].
  unfold rbind, rlift, rret in H. inv_ok. repeat inv_read.
  destruct (from_utf8 l) as [u|] eqn:Hu; [|done].
  destruct (from_utf8 l0) as [p|] eqn:Hp; [|done]. cbn in *. inv_ok.
  apply from_utf8_inv in Hu as [-> Hu], Hp as [-> Hp].
  split; [apply Credentials_ok_iff; unfold str_len; cbn [username password];
          split_and!; done || lia|].
  eexists. unfold UsernamePassword_to_vec, str_len. cbn [username password].
  rewrite Hlen, Hlen0, !u8_nat_val, !as_u8_of_val, <- !app_assoc. done.
Qed.

Lemma stable_UsernamePassword_parse : stable UsernamePassword_parse_rd.
Proof. unfold UsernamePassword_parse_rd. eauto 40 with parser. Qed.

Lemma no_panic_UsernamePassword_parse : no_panic UsernamePassword_parse_rd.
Proof.
  unfold UsernamePassword_parse_rd.
  repeat no_panic_step; apply no_panic_lift; by destruct (from_utf8 _).
Qed.

Definition example_credentials : UsernamePassword :=
  {| username := "alice"; password := "s3cret" |}.

(** ** Properties *)

(** Credentials round trip: a buffer parses to [c] exactly when [c] fits
    RFC 1929 (UTF-8, a username of 1 to 255 bytes, a password of at most 255)
    and the buffer starts with the serialization of [c], which has length
    [wire_len]. *)
Theorem credentials_roundtrip (buf : list u8) (c : UsernamePassword) :
  length (UsernamePassword_to_vec c) = UsernamePassword_wire_len c ∧
  (UsernamePassword_parse buf = Ok c ↔
   Credentials_ok c = true ∧ ∃ rest, buf = UsernamePassword_to_vec c ++ rest).
Proof.
  split; [unfold UsernamePassword_to_vec, UsernamePassword_wire_len, str_len;
          rewrite !length_app; cbn; lia|].
  split; [apply UsernamePassword_parse_ok_inv|].
  intros (Hok & rest & ->). by apply UsernamePassword_parse_of_vec.
Qed.

(** Credential parsing is total and incremental. *)
Theorem credentials_parse_incremental (buf s : list u8) :
  UsernamePassword_parse buf ≠ Panic ∧
  (UsernamePassword_parse buf = Err Truncated ∨
   UsernamePassword_parse (buf ++ s) = UsernamePassword_parse buf).
Proof.
  split; [apply no_panic_run, no_panic_UsernamePassword_parse|].
  destruct (decide (UsernamePassword_parse buf = Err Truncated)); [by left|right].
  by apply stable_run; [apply stable_UsernamePassword_parse| |].
Qed.
