(* ===== verification/Reply.v ===== *)
(** * SOCKS5 replies

    [crates/protocol/src/reply.rs]: reply frames, their parser (which, unlike
    the request parser, accepts an empty domain name and any reply code), and
    the conventional replies of the servers. *)

From stdpp Require Import base tactics decidable numbers list strings.
From Stdlib Require Import ZArith Lia Strings.Byte.
From S2P Require Import Prelude RustStd Constants Reader Host Request.

Record Reply : Type := mkReply { code : u8; bind_addr : SocksAddr }.

#[export] Instance Reply_eq_dec : EqDecision Reply.
Proof. solve_decision. Defined.

Definition Reply_to_bytes {E} (r : Reply) : outcome E (list u8) :=
  let? addr_vec := SocksAddr_to_vec (bind_addr r) in
  Ok ([VERSION] ++ [code r] ++ [Byte.x00] ++ [SocksAddr_atyp (bind_addr r)] ++ addr_vec).

(** The [match atyp] of [Reply::parse]. *)
Definition Reply_parse_host (atyp : u8) : RD Host :=
  if u8_eqb atyp ATYP_IPV4 then
    do! b <- read_bytes 4;
    do! ip <- rlift (ipv4_of_slice b);
    rret (HostIp (V4 ip))
  else if u8_eqb atyp ATYP_IPV6 then
    do! b <- read_bytes 16;
    do! ip <- rlift (ipv6_of_slice b);
    rret (HostIp (V6 ip))
  else if u8_eqb atyp ATYP_DOMAIN then
    do! len <- read_u8;
    do! name <- read_bytes (u8_nat len);
    do! name <- rlift (ok_or (from_utf8 name) (Unsupported atyp));
    rret (HostDomain name)
  else rfail (Unsupported atyp).

Definition Reply_parse_rd : RD Reply :=
  do! ver <- read_u8;
  if negb (u8_eqb ver VERSION) then rfail (BadVersion ver) else
  do! code <- read_u8;
  do! _rsv <- read_u8;
  do! atyp <- read_u8;
  do! host <- Reply_parse_host atyp;
  do! port <- read_u16;
  rret {| code := code; bind_addr := {| host := host; port := port |} |}.

Definition Reply_parse (buf : list u8) : outcome ProtocolError Reply :=
  run_reader Reply_parse_rd buf.

Definition simple_reply (c : u8) : Reply :=
  {| code := c;
     bind_addr := {| host := HostIp (V4 (mkIpv4 Byte.x00 Byte.x00 Byte.x00 Byte.x00));
                     port := 0 |} |}.

Definition reply_success : Reply := simple_reply REPLY_SUCCESS.

(** ** The reference frame *)
Definition reply_wire (rsv : u8) (r : Reply) : list u8 :=
  [VERSION; code r; rsv; SocksAddr_atyp (bind_addr r)] ++ addr_wire (bind_addr r).

Definition Reply_ok (r : Reply) : bool :=
  SocksAddr_ok (bind_addr r) && Host_encodable (host (bind_addr r)).

Lemma Reply_to_bytes_ok {E} r :
  SocksAddr_ok (bind_addr r) = true → Reply_to_bytes (E := E) r = Ok (reply_wire Byte.x00 r).
Proof. intros H. unfold Reply_to_bytes. by rewrite SocksAddr_to_vec_ok. Qed.

(** On IP addresses and on nonempty names the two host parsers agree. *)
Lemma Reply_parse_host_wire h p pre rest :
  Host_ok h = true → Host_encodable h = true → (length pre <= 300)%nat →
  Reply_parse_host (SocksAddr_atyp {| host := h; port := p |}) (rd pre (host_wire h ++ rest))
  = Ok (h, rd (pre ++ host_wire h) rest).
Proof.
  intros Hok He Hpre. destruct h as [ip|name].
  - pose proof (Request_parse_host_wire (HostIp ip) p pre rest Hok He eq_refl Hpre) as H.
    revert H. unfold SocksAddr_atyp. cbn [host]. by destruct ip.
  - unfold SocksAddr_atyp, Reply_parse_host. cbn [host]. autorewrite with rust.
    cbn [Host_ok Host_encodable host_wire app] in *. apply Nat.ltb_lt in He.
    rewrite rbind_read_u8, as_u8_of_nat by done.
    rewrite rbind_read_bytes
      by (rewrite ?length_app; cbn; unfold USIZE_MAX, str_len in *; lia).
    rewrite (rbind_rlift_ok _ name) by by rewrite from_utf8_as_bytes.
    unfold rret. by rewrite <- app_assoc.
Qed.

Lemma Reply_parse_host_inv atyp h pre rest r :
  (length pre <= 300)%nat → Reply_parse_host atyp (rd pre rest) = Ok (h, r) →
  ∃ rest', rest = host_wire h ++ rest' ∧ r = rd (pre ++ host_wire h) rest' ∧
    (∀ p, atyp = SocksAddr_atyp {| host := h; port := p |}) ∧
    Host_ok h = true ∧ Host_encodable h = true.
Proof.
  intros Hpre H. destruct (u8_eqb atyp ATYP_DOMAIN) eqn:ED.
  - apply u8_eqb_eq in ED as ->. revert H. unfold Reply_parse_host. autorewrite with rust.
    unfold rbind, rlift, rret. intros H. inv_ok. repeat inv_read.
    destruct (from_utf8 l) as [name|] eqn:Hu; [|done]. cbn in *. inv_ok.
    apply from_utf8_inv in Hu as [-> Hutf].
    eexists. cbn [host_wire Host_ok Host_encodable]. unfold str_len.
    rewrite Hlen, u8_nat_val, as_u8_of_val, <- app_assoc. split_and!; try done.
    apply Nat.leb_le. lia.
  - assert (Request_parse_host atyp (rd pre rest) = Ok (h, r)) as H'.
    { revert H. unfold Reply_parse_host, Request_parse_host. by rewrite ED. }
    apply Request_parse_host_inv in H' as (rest' & ? & ? & ? & ? & ? & _); [|done].
    eauto 10.
Qed.

Lemma Reply_parse_of_wire rsv r rest :
  Reply_ok r = true → Reply_parse (reply_wire rsv r ++ rest) = Ok r.
Proof.
  intros [Hok He]%andb_prop. destruct r as [c [h p]]. cbn [bind_addr host] in *.
  unfold Reply_parse, run_reader, Reply_parse_rd, reply_wire, addr_wire.
  rewrite Reader_new_rd. cbn [bind_addr code host port app].
  rewrite rbind_read_u8. autorewrite with rust. cbn [negb].
  rewrite !rbind_read_u8. cbn [app]. unfold rbind at 1.
  rewrite <- app_assoc, Reply_parse_host_wire
    by (try apply SocksAddr_ok_host in Hok; cbn; done || lia).
  cbn [obind app]. rewrite rbind_read_u16.
  by rewrite u16_combine by (by apply SocksAddr_ok_port in Hok).
Qed.

Lemma Reply_parse_ok_inv buf r :
  Reply_parse buf = Ok r →
  Reply_ok r = true ∧ ∃ rsv rest, buf = reply_wire rsv r ++ rest.
Proof.
  unfold Reply_parse, run_reader. rewrite Reader_new_rd.
  destruct (Reply_parse_rd (rd [] buf)) as [[c' r']| |] eqn:H; [|done..].
  cbn. intros [= ->]. revert H. unfold Reply_parse_rd, rbind at 1. intros H. inv_ok. inv_read.
  destruct (u8_eqb _ VERSION) eqn:EV; [|done]. apply u8_eqb_eq in EV as ->.
  cbn [negb] in H. unfold rbind, rret in H. inv_ok. repeat inv_read.
  match goal with E : Reply_parse_host _ _ = Ok _ |- _ =>
    apply Reply_parse_host_inv in E as (rest' & -> & -> & Hat & Hok & He); [|cbn; lia] end.
  inv_read. match goal with |- context [u8_val ?hi * 256 + u8_val ?lo] =>
    destruct (u16_split hi lo) as [Hhi Hlo]; pose proof (u8_pair_range hi lo) end.
  unfold Reply_ok, SocksAddr_ok, is_u16. cbn [bind_addr host port]. rewrite Hok, He.
  rewrite (proj2 (Z.leb_le _ _)), (proj2 (Z.ltb_lt _ _)) by lia. split; [done|].
  eexists _, _. unfold reply_wire, addr_wire. cbn [bind_addr code host port].
  rewrite Hhi, Hlo, <- Hat. cbn [app]. by rewrite <- !app_assoc.
Qed.

Lemma stable_Reply_parse : stable Reply_parse_rd.
Proof. unfold Reply_parse_rd, Reply_parse_host. eauto 30 with parser. Qed.

Lemma no_panic_Reply_parse : no_panic Reply_parse_rd.
Proof.
  assert (Hh : ∀ a, no_panic (Reply_parse_host a)).
  { intros a. destruct (u8_eqb a ATYP_DOMAIN) eqn:ED.
    - unfold Reply_parse_host. rewrite ED. apply u8_eqb_eq in ED as ->. autorewrite with rust.
      repeat no_panic_step. apply no_panic_lift. by destruct (from_utf8 _).
    - intros r. unfold Reply_parse_host. rewrite ED.
      pose proof (no_panic_Request_parse_host a r) as Hr.
      unfold Request_parse_host in Hr. by rewrite ED in Hr. }
  unfold Reply_parse_rd. repeat no_panic_step.
Qed.

(** ** Properties *)

(** Replies round trip: a buffer parses to [r] exactly when [r] is
    representable (a [u16] port, a UTF-8 name of at most 255 bytes) and the
    buffer starts with the serialization of [r], up to the reserved byte;
    serializing a representable reply never panics. *)
Theorem reply_roundtrip (buf : list u8) (r : Reply) :
  (Reply_parse buf = Ok r ↔
   Reply_ok r = true ∧ ∃ rsv rest frame, Reply_to_bytes (E := ProtocolError) r = Ok frame ∧
     buf = <[2%nat := rsv]> frame ++ rest).
Proof.
  split.
  - intros (Hok & rsv & rest & ->)%Reply_parse_ok_inv. split; [done|].
    apply andb_prop in Hok as [Ha _]. exists rsv, rest, (reply_wire Byte.x00 r).
    split; [by apply Reply_to_bytes_ok | done].
  - intros (Hok & rsv & rest & frame & Hf & ->). pose proof Hok as [Ha _]%andb_prop.
    rewrite Reply_to_bytes_ok in Hf by done. injection Hf as <-.
    by apply (Reply_parse_of_wire rsv).
Qed.

(** Reply parsing is total and incremental. *)
Theorem reply_parse_incremental (buf s : list u8) :
  Reply_parse buf ≠ Panic ∧
  (Reply_parse buf = Err Truncated ∨ Reply_parse (buf ++ s) = Reply_parse buf).
Proof.
  split; [apply no_panic_run, no_panic_Reply_parse|].
  destruct (decide (Reply_parse buf = Err Truncated)); [by left|right].
  by apply stable_run; [apply stable_Reply_parse| |].
Qed.
