(* ===== verification/F64.v ===== *)
(** * IEEE 754 binary64 arithmetic

    Rust's [f64] is modelled by the standard library's executable [spec_float]
    at precision 53: every operation below computes the correctly rounded
    result (round to nearest, ties to even) that the hardware computes. The
    second half is the theory the health and routing components use: on
    positive normal numbers each operation is the rounding [rne] of the exact
    result, and rounding is monotone, exact on representable values and
    commutes with halving. Values are compared through integers, scaled by
    [2 ^ SC], so that no rational or real arithmetic is needed. *)

From stdpp Require Import base tactics decidable numbers.
From Stdlib Require Import ZArith Lia SpecFloat.
From S2P Require Import Prelude.

Abbreviation f64 := spec_float.

Definition f64_add : f64 → f64 → f64 := SFadd 53 1024.
Definition f64_sub : f64 → f64 → f64 := SFsub 53 1024.
Definition f64_mul : f64 → f64 → f64 := SFmul 53 1024.
Definition f64_div : f64 → f64 → f64 := SFdiv 53 1024.
(** [n as f64] for an unsigned integer [n]. *)
Definition f64_of_Z (n : Z) : f64 := binary_normalize 53 1024 n 0 false.

(** [a.partial_cmp(&b)], [a >= b], [a < b], [a > b]. *)
Definition f64_partial_cmp (a b : f64) : option comparison := SFcompare a b.
Definition f64_ge (a b : f64) : bool :=
  match SFcompare a b with Some (Gt | Eq) => true | _ => false end.
Definition f64_lt (a b : f64) : bool :=
  match SFcompare a b with Some Lt => true | _ => false end.
Definition f64_gt (a b : f64) : bool :=
  match SFcompare a b with Some Gt => true | _ => false end.

(** [f64::clamp(lo, hi)] for [lo <= hi], neither NaN. *)
Definition f64_clamp (x lo hi : f64) : f64 :=
  let x := if f64_lt x lo then lo else x in
  if f64_gt x hi then hi else x.

(** [f64::min] and [f64::max]: a NaN argument is ignored. *)
Definition f64_min (a b : f64) : f64 :=
  match SFcompare a b with
  | Some Gt => b
  | Some _ => a
  | None => match a with S754_nan => b | _ => a end
  end.
Definition f64_max (a b : f64) : f64 :=
  match SFcompare a b with
  | Some Lt => b
  | Some _ => a
  | None => match a with S754_nan => b | _ => a end
  end.

(** Literals of the source. *)
Definition f64_0 : f64 := S754_zero false.
Definition f64_1 : f64 := S754_finite false 4503599627370496 (-52).
Definition f64_0_5 : f64 := S754_finite false 4503599627370496 (-53).
Definition f64_0_9 : f64 := S754_finite false 8106479329266893 (-53).
Definition f64_100 : f64 := S754_finite false 7036874417766400 (-46).
Definition f64_0_001 : f64 := S754_finite false 4611686018427388 (-62).

(** The literals are the correctly rounded values of their decimal text. *)
Lemma f64_literals :
  f64_1 = f64_of_Z 1 ∧ f64_100 = f64_of_Z 100 ∧
  f64_0_5 = f64_div (f64_of_Z 1) (f64_of_Z 2) ∧
  f64_0_9 = f64_div (f64_of_Z 9) (f64_of_Z 10) ∧
  f64_0_001 = f64_div (f64_of_Z 1) (f64_of_Z 1000).
Proof. vm_compute. done. Qed.

(** ** Powers of two and digit counts *)
Definition pow2 (e : Z) : Z := 2 ^ e.
Arguments pow2 : simpl never.

Lemma pow2_pos e : 0 <= e → 0 < pow2 e.
Proof. intros. unfold pow2. apply Z.pow_pos_nonneg; lia. Qed.
Lemma pow2_add a b : 0 <= a → 0 <= b → pow2 (a + b) = pow2 a * pow2 b.
Proof. intros. unfold pow2. by apply Z.pow_add_r. Qed.
Lemma pow2_succ a : 0 <= a → pow2 (a + 1) = 2 * pow2 a.
Proof. intros. rewrite pow2_add by lia. change (pow2 1) with 2. lia. Qed.
Lemma pow2_mono a b : 0 <= a <= b → pow2 a <= pow2 b.
Proof. intros. unfold pow2. apply Z.pow_le_mono_r; lia. Qed.
Lemma pow2_double a b : 0 <= a < b → 2 * pow2 a <= pow2 b.
Proof. intros. rewrite <- pow2_succ by lia. apply pow2_mono. lia. Qed.

Abbreviation P52 := 4503599627370496.
Abbreviation P53 := 9007199254740992.

Lemma pow2_52 : pow2 52 = P52. Proof. done. Qed.
Lemma pow2_53 : pow2 53 = P53. Proof. done. Qed.

Lemma digits2_bounds p :
  pow2 (Zpos (digits2_pos p) - 1) <= Zpos p < pow2 (Zpos (digits2_pos p)).
Proof.
  induction p as [p IH|p IH|]; cbn [digits2_pos]; [..|by vm_compute].
  all: rewrite Pos2Z.inj_succ; unfold Z.succ.
  all: replace (Zpos (digits2_pos p) + 1 - 1) with (Zpos (digits2_pos p) - 1 + 1) by lia.
  all: rewrite !pow2_succ by lia; lia.
Qed.

(** The digit count is determined by the bounds. *)
Lemma digits2_unique p d :
  1 <= d → pow2 (d - 1) <= Zpos p < pow2 d → Zpos (digits2_pos p) = d.
Proof.
  intros Hd Hp. pose proof (digits2_bounds p) as Hb.
  destruct (Z.lt_trichotomy (Zpos (digits2_pos p)) d) as [H|[H|H]]; [|done|].
  - pose proof (pow2_mono (Zpos (digits2_pos p)) (d - 1)). lia.
  - pose proof (pow2_mono d (Zpos (digits2_pos p) - 1)). lia.
Qed.

Lemma Zdigits2_unique m d :
  1 <= d → pow2 (d - 1) <= m < pow2 d → Zdigits2 m = d.
Proof.
  intros Hd Hm. pose proof (pow2_pos (d - 1)).
  destruct m as [|p|p]; try lia. by apply digits2_unique.
Qed.

(** ** Locating a rational between two integers

    [inrec N D mrs]: the shift record [mrs] describes the position of [N / D]
    with respect to its integer part and the next half. *)
Definition inrec (N D : Z) (mrs : shr_record) : Prop :=
  let m := shr_m mrs in
  0 <= m ∧
  match shr_r mrs, shr_s mrs with
  | false, false => N = m * D
  | false, true => m * D < N ∧ 2 * N < (2 * m + 1) * D
  | true, false => 2 * N = (2 * m + 1) * D
  | true, true => (2 * m + 1) * D < 2 * N ∧ N < (m + 1) * D
  end.

Lemma shr_1_ok N D mrs : 0 < D → inrec N D mrs → inrec N (2 * D) (shr_1 mrs).
Proof.
  intros HD. destruct mrs as [m r s]. unfold inrec. cbn [shr_m shr_r shr_s].
  intros [Hm Hp]. destruct m as [|[p|p|]|p]; [| | | |lia]; cbn [shr_1 shr_m shr_r shr_s];
    destruct r, s; cbn [orb shr_m shr_r shr_s]; split; try lia.
Qed.

Lemma iter_pos_shr_ok p : ∀ N D mrs,
  0 < D → inrec N D mrs → inrec N (pow2 (Zpos p) * D) (iter_pos shr_1 p mrs).
Proof.
  induction p as [p IH|p IH|]; intros N D mrs HD Hin; cbn [iter_pos].
  - apply (shr_1_ok _ _ _ HD), IH, IH in Hin; [|pose proof (pow2_pos (Zpos p)); nia|lia].
    replace (pow2 (Zpos p~1)) with (pow2 (Zpos p) * (pow2 (Zpos p) * 2)).
    + by rewrite <- !Z.mul_assoc.
    + change 2 with (pow2 1). rewrite <- !pow2_add by lia. f_equal. lia.
  - apply (IH _ _ _ HD), IH in Hin; [|pose proof (pow2_pos (Zpos p)); nia].
    replace (pow2 (Zpos p~0)) with (pow2 (Zpos p) * pow2 (Zpos p)).
    + by rewrite <- !Z.mul_assoc.
    + rewrite <- !pow2_add by lia. f_equal. lia.
  - change (pow2 1) with 2. by apply shr_1_ok.
Qed.

Lemma inrec_bounds N D mrs :
  0 < D → inrec N D mrs → shr_m mrs * D <= N < (shr_m mrs + 1) * D.
Proof.
  intros HD [Hm Hp]. destruct (shr_r mrs), (shr_s mrs); split; nia.
Qed.

(** ** Rounding to the nearest integer, ties to even *)
Definition near (N D k : Z) : Prop :=
  - D <= 2 * N - 2 * k * D <= D ∧
  (2 * N - 2 * k * D = D ∨ 2 * N - 2 * k * D = - D → Z.even k = true).

Lemma round_nearest_even_ok N D mrs :
  0 < D → inrec N D mrs →
  near N D (round_nearest_even (shr_m mrs) (loc_of_shr_record mrs)).
Proof.
  intros HD [Hm Hp]. destruct mrs as [m r s]. cbn [shr_m shr_r shr_s] in *.
  unfold near. destruct r, s; cbn [loc_of_shr_record round_nearest_even].
  - split; [lia|]. lia.
  - destruct (Z.even m) eqn:Em; split; try lia; intros _; [done|].
    rewrite Z.add_1_r, Z.even_succ, <- Z.negb_even, Em. done.
  - split; lia.
  - split; lia.
Qed.

(** A rounded value, renormalized when it reached the next power of two. *)
Definition mkf (k e : Z) : f64 :=
  if k =? P53 then S754_finite false 4503599627370496 (e + 1) else S754_finite false (Z.to_pos k) e.

Lemma near_range N D k :
  0 < D → near N D k → P52 * D <= N < P53 * D → P52 <= k <= P53.
Proof. intros HD [[H1 H2] _] HN. split; nia. Qed.

(** The renormalization step of [binary_round_aux]. *)
Lemma renormalize_ok k e :
  P52 <= k <= P53 → -1000 <= e <= 900 →
  (let '(mrs'', e'') := shr_fexp 53 1024 k e loc_Exact in
   match shr_m mrs'' with
   | Z0 => S754_zero false
   | Zpos m => if e'' <=? 1024 - 53 then S754_finite false m e'' else S754_infinity false
   | _ => S754_nan
   end) = mkf k e.
Proof.
  intros Hk He. unfold mkf, shr_fexp, fexp, emin.
  destruct (Z.eqb_spec k P53) as [->|Hne].
  - rewrite (Zdigits2_unique P53 54) by (vm_compute; done || lia).
    replace (Z.max (54 + e - 53) (3 - 1024 - 53) - e) with 1 by lia. cbn.
    destruct (Z.leb_spec (e + 1) (1024 - 53)); [done|lia].
  - rewrite (Zdigits2_unique k 53) by (rewrite ?pow2_53; change (pow2 (53 - 1)) with P52; lia).
    replace (Z.max (53 + e - 53) (3 - 1024 - 53) - e) with 0 by lia. cbn.
    destruct k as [|p|p]; try lia. cbn. destruct (Z.leb_spec e (1024 - 53)); [done|lia].
Qed.

(** [binary_round_aux] rounds to nearest even on the normal range. *)
Lemma binary_round_aux_ok mx ex lx N D d :
  0 < D → inrec N D (shr_record_of_loc mx lx) → Zdigits2 mx = d → 53 <= d →
  pow2 (d - 1) <= mx < pow2 d → -900 <= d + ex <= 900 →
  ∃ k, near N (pow2 (d - 53) * D) k ∧
    P52 * (pow2 (d - 53) * D) <= N < P53 * (pow2 (d - 53) * D) ∧
    binary_round_aux 53 1024 false mx ex lx = mkf k (d + ex - 53).
Proof.
  intros HD Hin Hd Hd53 Hmx Hrange. unfold binary_round_aux.
  unfold shr_fexp at 1, fexp at 1, emin at 1. rewrite Hd.
  replace (Z.max (d + ex - 53) (3 - 1024 - 53) - ex) with (d - 53) by lia.
  assert (Hs : inrec N (pow2 (d - 53) * D) (shr (shr_record_of_loc mx lx) ex (d - 53)).1
             ∧ (shr (shr_record_of_loc mx lx) ex (d - 53)).2 = d + ex - 53).
  { unfold shr. destruct (d - 53) as [|p|p] eqn:E; cbn [fst snd].
    - change (pow2 0) with 1. rewrite Z.mul_1_l. split; [done|lia].
    - split; [by apply iter_pos_shr_ok|lia].
    - lia. }
  destruct (shr _ _ _) as [mrs' e']. cbn [fst snd] in Hs. destruct Hs as [Hs ->].
  pose proof (pow2_pos (d - 53) ltac:(lia)) as Hpd.
  assert (HD' : 0 < pow2 (d - 53) * D) by nia.
  pose proof (inrec_bounds _ _ _ HD Hin) as Hb.
  replace (shr_m (shr_record_of_loc mx lx)) with mx in Hb by (by destruct lx as [|[]]).
  assert (HN : P52 * (pow2 (d - 53) * D) <= N < P53 * (pow2 (d - 53) * D)).
  { rewrite !Z.mul_assoc, <- pow2_52, <- pow2_53, <- !pow2_add by lia.
    replace (52 + (d - 53)) with (d - 1) by lia. replace (53 + (d - 53)) with d by lia. nia. }
  exists (round_nearest_even (shr_m mrs') (loc_of_shr_record mrs')).
  pose proof (round_nearest_even_ok _ _ _ HD' Hs) as Hk.
  split_and!; [done|lia|lia|]. apply renormalize_ok; [by eapply near_range|lia].
Qed.

(** ** Scaled values

    [fz f] is the value of a nonnegative finite [f] times [2 ^ SC]; [SC] is
    larger than twice any exponent in use, so scaled values are integers. *)
Lemma SC_sealed : {z : Z | z = 4000}.
Proof. by exists 4000. Qed.
Definition SC : Z := proj1_sig SC_sealed.
Lemma SC_val : SC = 4000. Proof. exact (proj2_sig SC_sealed). Qed.

Definition fz (f : f64) : Z :=
  match f with
  | S754_finite false m e => Zpos m * pow2 (e + SC)
  | _ => 0
  end.

(** Positive normal numbers, with their mantissa and exponent. *)
Definition nf (f : f64) (m : positive) (e : Z) : Prop :=
  f = S754_finite false m e ∧ P52 <= Zpos m < P53.

(** Positive normal numbers of value between [2 ^ a] and [2 ^ b]. *)
Definition rng (a b : Z) (f : f64) : Prop :=
  ∃ m e, nf f m e ∧ - SC <= e ∧ pow2 (a + SC) <= fz f <= pow2 (b + SC).

(** [rne X D f]: [f] is [X / D] (scaled) rounded to nearest even. *)
Definition rne (X D : Z) (f : f64) : Prop :=
  ∃ E k, 0 <= E ∧ 0 < D ∧ near X (pow2 E * D) k ∧
    P52 * (pow2 E * D) <= X < P53 * (pow2 E * D) ∧ f = mkf k (E - SC).

Lemma near_scale N D k c : 0 < c → near N D k → near (N * c) (D * c) k.
Proof.
  intros Hc [[H1 H2] H3].
  assert (Hd : 2 * (N * c) - 2 * k * (D * c) = (2 * N - 2 * k * D) * c) by ring.
  unfold near. rewrite Hd. split; [nia|]. intros Ht. apply H3. nia.
Qed.

(** Every rounding performed by [binary_round_aux] is an [rne]. *)
Lemma rne_intro N D k d ex X DD c :
  0 < D → 0 < DD → 0 < c → 0 <= d + ex - 53 + SC → near N (pow2 (d - 53) * D) k →
  P52 * (pow2 (d - 53) * D) <= N < P53 * (pow2 (d - 53) * D) →
  X = N * c → pow2 (d + ex - 53 + SC) * DD = pow2 (d - 53) * D * c →
  rne X DD (mkf k (d + ex - 53)).
Proof.
  intros HD HDD Hc HE Hk HN -> HDc. exists (d + ex - 53 + SC), k. rewrite HDc.
  split_and!; [lia|done| | nia | nia | f_equal; lia].
  by apply near_scale.
Qed.

Lemma rne_of_aux mx ex lx N D X DD c d :
  0 < D → 0 < DD → 0 < c → inrec N D (shr_record_of_loc mx lx) →
  53 <= d → pow2 (d - 1) <= mx < pow2 d → -900 <= d + ex <= 900 →
  X = N * c → pow2 (d + ex - 53 + SC) * DD = pow2 (d - 53) * D * c →
  rne X DD (binary_round_aux 53 1024 false mx ex lx).
Proof.
  intros HD HDD Hc Hin Hd53 Hmx Hr HX HDc.
  destruct (binary_round_aux_ok mx ex lx N D d) as (k & Hk & HN & ->);
    [done|done|by apply Zdigits2_unique; [lia|]|done|done|done|].
  apply (rne_intro N D k d ex X DD c); try done. rewrite SC_val. lia.
Qed.

(** ** Facts about rounded values *)
Lemma fz_mkf k E : P52 <= k <= P53 → 0 <= E → fz (mkf k (E - SC)) = k * pow2 E.
Proof.
  intros Hk HE. unfold mkf. destruct (Z.eqb_spec k P53) as [->|Hne]; cbn [fz].
  - replace (E - SC + 1 + SC) with (E + 1) by lia. rewrite pow2_succ by lia. lia.
  - replace (E - SC + SC) with E by lia. by rewrite Z2Pos.id by lia.
Qed.

Lemma rne_fz X D f :
  rne X D f → ∃ E k, 0 <= E ∧ 0 < D ∧ near X (pow2 E * D) k ∧ P52 <= k <= P53 ∧
    P52 * (pow2 E * D) <= X < P53 * (pow2 E * D) ∧ fz f = k * pow2 E ∧
    f = mkf k (E - SC).
Proof.
  intros (E & k & HE & HD & Hk & HX & ->). exists E, k. pose proof (pow2_pos E HE).
  assert (P52 <= k <= P53) by (apply (near_range X (pow2 E * D)); [nia|done|lia]).
  rewrite fz_mkf by done. done.
Qed.

Lemma nf_mkf k e : P52 <= k <= P53 → ∃ m e', nf (mkf k e) m e' ∧ e <= e'.
Proof.
  intros Hk. unfold mkf, nf. destruct (Z.eqb_spec k P53) as [->|Hne].
  - eexists _, _. split; [split; [done|lia]|lia].
  - eexists _, _. split; [split; [done|]|lia]. rewrite Z2Pos.id by lia. lia.
Qed.

Lemma rne_nf X D f : rne X D f → ∃ m e, nf f m e ∧ - SC <= e.
Proof.
  intros (E & k & HE & HD & Hk & Hr & HX & _ & ->)%rne_fz.
  destruct (nf_mkf k (E - SC) Hr) as (m & e & Hn & He). exists m, e. split; [done|lia].
Qed.

(** Two consecutive candidates cannot both be ties to even. *)
Lemma near_tie_absurd X1 X2 U D1 D2 k :
  0 < U → 0 < D1 → 0 < D2 → X1 * D2 <= X2 * D1 →
  near X1 (U * D1) (k + 1) → near X2 (U * D2) k → False.
Proof.
  intros HU H1 H2 Hle [[Ha _] Ht1] [[_ Hb] Ht2].
  assert (Hs1 : (2 * X1 - 2 * (k + 1) * (U * D1) + U * D1) * D2 >= 0) by nia.
  assert (Hs2 : (U * D2 - (2 * X2 - 2 * k * (U * D2))) * D1 >= 0) by nia.
  assert (Hz : (2 * X1 - 2 * (k + 1) * (U * D1) + U * D1) * D2
             + (U * D2 - (2 * X2 - 2 * k * (U * D2))) * D1
             = 2 * (X1 * D2 - X2 * D1)) by ring.
  assert (He1 : Z.even (k + 1) = true) by (apply Ht1; right; nia).
  assert (He2 : Z.even k = true) by (apply Ht2; left; nia).
  rewrite Z.add_1_r, Z.even_succ, <- Z.negb_even, He2 in He1. done.
Qed.

(** Rounding is monotone. *)
Lemma rne_mono X1 D1 f1 X2 D2 f2 :
  rne X1 D1 f1 → rne X2 D2 f2 → X1 * D2 <= X2 * D1 → fz f1 <= fz f2.
Proof.
  intros (E1 & k1 & HE1 & HD1 & Hk1 & Hr1 & HX1 & -> & _)%rne_fz
         (E2 & k2 & HE2 & HD2 & Hk2 & Hr2 & HX2 & -> & _)%rne_fz Hle.
  pose proof (pow2_pos E1 HE1). pose proof (pow2_pos E2 HE2).
  destruct (Z.lt_trichotomy E1 E2) as [HE|[<-|HE]].
  - pose proof (pow2_double E1 E2 ltac:(lia)). nia.
  - apply Z.mul_le_mono_nonneg_r; [lia|].
    destruct (Z.le_gt_cases k1 k2) as [|Hgt]; [done|exfalso].
    destruct (decide (k1 = k2 + 1)) as [->|Hne];
      [by eapply (near_tie_absurd X1 X2 (pow2 E1) D1 D2 k2)|].
    destruct Hk1 as [[Ha _] _], Hk2 as [[_ Hb] _].
    assert (2 * X1 * D2 >= (2 * k1 - 1) * (pow2 E1 * D1) * D2) by nia.
    assert (2 * X2 * D1 <= (2 * k2 + 1) * (pow2 E1 * D2) * D1) by nia.
    assert ((2 * k1 - 1 - (2 * k2 + 1)) * (pow2 E1 * D1 * D2) <= 0) by nia.
    assert (0 < pow2 E1 * D1 * D2) by (repeat apply Z.mul_pos_pos; lia). nia.
  - exfalso. pose proof (pow2_double E2 E1 ltac:(lia)).
    assert (X1 * D2 >= P53 * pow2 E2 * D1 * D2) by nia.
    assert (X2 * D1 < P53 * pow2 E2 * D1 * D2) by nia. lia.
Qed.

(** A representable value is its own rounding. *)
Lemma rne_repr f m e : nf f m e → - SC <= e → rne (fz f) 1 f.
Proof.
  intros [-> Hm] He. cbn [fz]. exists (e + SC), (Zpos m).
  pose proof (pow2_pos (e + SC) ltac:(lia)).
  split_and!; [lia|lia| |nia|nia|].
  - unfold near. split; [nia|]. intros [?|?]; nia.
  - unfold mkf. rewrite (proj2 (Z.eqb_neq _ _)) by lia. cbn. f_equal. lia.
Qed.

(** ** The operations on positive normal numbers *)
Lemma iter_xO_val m d : Zpos (Pos.iter xO m d) = Zpos m * pow2 (Zpos d).
Proof.
  induction d as [|d IH] using Pos.peano_ind; [by rewrite Z.mul_comm|].
  rewrite Pos.iter_succ, Pos2Z.inj_succ. unfold Z.succ. rewrite pow2_succ by lia.
  rewrite Pos2Z.inj_xO, IH. ring.
Qed.

Lemma binary_round_rne mx ex d :
  Zpos (digits2_pos mx) = d → -900 <= d + ex <= 900 → -1500 <= ex →
  rne (Zpos mx * pow2 (ex + SC)) 1 (binary_round 53 1024 false mx ex).
Proof.
  intros Hd Hr Hex. pose proof (digits2_bounds mx) as Hb. rewrite Hd in Hb.
  pose proof (pow2_pos (ex + SC)) as Hps. rewrite SC_val in *.
  unfold binary_round, shl_align, fexp, emin. rewrite Hd.
  replace (Z.max (d + ex - 53) (3 - 1024 - 53) - ex) with (d - 53) by lia.
  replace (Z.max (d + ex - 53) (3 - 1024 - 53)) with (d + ex - 53) by lia.
  destruct (Z.le_gt_cases 53 d) as [Hge|Hlt].
  - assert (rne (Zpos mx * pow2 (ex + 4000)) 1
              (binary_round_aux 53 1024 false (Zpos mx) ex loc_Exact)) as Hres.
    { apply (rne_of_aux _ _ _ (Zpos mx) 1 _ _ (pow2 (ex + 4000)) d);
        [lia..|split; cbn; lia|lia|lia|lia|done|].
      rewrite SC_val, !Z.mul_1_r, <- pow2_add by lia. f_equal. lia. }
    destruct (d - 53) eqn:E; [done|done|lia].
  - destruct (d - 53) as [|p|p] eqn:E; [lia|lia|].
    assert (Hmz : Zpos (Pos.iter xO mx p) = Zpos mx * pow2 (53 - d)).
    { rewrite iter_xO_val. do 2 f_equal. lia. }
    apply (rne_of_aux _ _ _ (Zpos (Pos.iter xO mx p)) 1 _ _ (pow2 (ex + d - 53 + 4000)) 53);
      [lia|lia|apply pow2_pos; lia|split; cbn; lia|lia| |lia| |].
    + rewrite Hmz. replace (pow2 (53 - 1)) with (pow2 (d - 1) * pow2 (53 - d))
        by (rewrite <- pow2_add by lia; f_equal; lia).
      replace (pow2 53) with (pow2 d * pow2 (53 - d))
        by (rewrite <- pow2_add by lia; f_equal; lia).
      pose proof (pow2_pos (53 - d)). nia.
    + rewrite Hmz, <- Z.mul_assoc, <- pow2_add by lia. do 2 f_equal. lia.
    + rewrite SC_val. change (pow2 (53 - 53)) with 1. rewrite Z.mul_1_r, !Z.mul_1_l.
      f_equal. lia.
Qed.

Lemma f64_of_Z_rne n : 0 < n < U64_MOD → rne (n * pow2 SC) 1 (f64_of_Z n).
Proof.
  intros Hn. destruct n as [|p|p]; try lia. unfold f64_of_Z. cbn [binary_normalize].
  replace SC with (0 + SC) at 1 by lia. pose proof (digits2_bounds p) as Hb.
  apply (binary_round_rne p 0 (Zpos (digits2_pos p))); [done| |lia].
  destruct (Z.le_gt_cases (Zpos (digits2_pos p)) 64); [lia|].
  pose proof (pow2_mono 64 (Zpos (digits2_pos p) - 1) ltac:(lia)) as Hm.
  change (pow2 64) with U64_MOD in Hm. lia.
Qed.

Lemma f64_mul_rne x y m1 e1 m2 e2 :
  nf x m1 e1 → nf y m2 e2 → -400 <= e1 <= 300 → -400 <= e2 <= 300 →
  rne (fz x * fz y) (pow2 SC) (f64_mul x y).
Proof.
  intros [-> Hm1] [-> Hm2] He1 He2. cbn [fz]. unfold f64_mul, SFmul. cbn [xorb].
  pose proof (digits2_bounds (m1 * m2)) as Hb.
  set (d := Zpos (digits2_pos (m1 * m2))) in *.
  assert (Hd : 105 <= d <= 106).
  { split; apply Z.nlt_ge; intros Hlt.
    - pose proof (pow2_mono d 104 ltac:(lia)) as Hm. change (pow2 104) with (P52 * P52) in Hm. nia.
    - pose proof (pow2_mono 106 (d - 1) ltac:(lia)) as Hm. change (pow2 106) with (P53 * P53) in Hm.
      nia. }
  apply (rne_of_aux _ _ _ (Zpos (m1 * m2)) 1 _ _ (pow2 (e1 + SC) * pow2 (e2 + SC)) d);
    [lia| | |split; cbn; lia|lia|done|lia|rewrite Pos2Z.inj_mul; ring|];
    rewrite SC_val; [apply pow2_pos; lia|apply Z.mul_pos_pos; apply pow2_pos; lia|].
  rewrite Z.mul_1_r, <- !pow2_add by lia. f_equal. lia.
Qed.

Lemma new_location_ok q m r :
  0 < m → 0 <= q → 0 <= r < m →
  inrec (q * m + r) m (shr_record_of_loc q (new_location m r)).
Proof.
  intros Hm Hq Hr. unfold new_location, new_location_even, new_location_odd, inrec.
  assert (He : Z.even m = false → m ≠ 2 * r) by (intros Em ->; by rewrite Z.even_mul in Em).
  change (IntDef.Z.even m) with (Z.even m).
  destruct (Z.even m); [|specialize (He eq_refl)];
    (destruct (Z.eqb_spec r 0); [cbn [shr_record_of_loc shr_m shr_r shr_s]; lia|]).
  - destruct (Z.compare_spec (2 * r) m); cbn [shr_record_of_loc shr_m shr_r shr_s]; lia.
  - destruct (Z.compare_spec (2 * r + 1) m); cbn [shr_record_of_loc shr_m shr_r shr_s]; lia.
Qed.

Lemma f64_div_rne x y m1 e1 m2 e2 :
  nf x m1 e1 → nf y m2 e2 → -300 <= e1 <= 300 → -300 <= e2 <= 300 →
  rne (fz x * pow2 SC) (fz y) (f64_div x y).
Proof.
  intros [-> Hm1] [-> Hm2] He1 He2. cbn [fz]. unfold f64_div, SFdiv, SFdiv_core_binary.
  cbn [xorb].
  rewrite (Zdigits2_unique (Zpos m1) 53), (Zdigits2_unique (Zpos m2) 53)
    by (rewrite ?pow2_53; change (pow2 (53 - 1)) with P52; lia).
  unfold fexp, emin.
  replace (Z.min (Z.max (53 + e1 - (53 + e2) - 53) (3 - 1024 - 53)) (e1 - e2))
    with (e1 - e2 - 53) by lia.
  replace (e1 - e2 - (e1 - e2 - 53)) with 53 by lia. cbv iota zeta.
  rewrite Z.shiftl_mul_pow2 by lia. change (2 ^ 53) with P53.
  pose proof (Z_div_mod (Zpos m1 * P53) (Zpos m2) ltac:(lia)) as Hdiv.
  destruct (Z.div_eucl _ _) as [q r]. destruct Hdiv as [Hq Hr].
  assert (Hqb : P52 <= q < 2 * P53).
  { split; [apply Z.nlt_ge|apply Z.nle_gt]; intros Hc.
    - assert (Zpos m2 * (q + 1) <= Zpos m2 * P52) by (apply Z.mul_le_mono_nonneg_l; lia). lia.
    - assert (Zpos m2 * (2 * P53) <= Zpos m2 * q) by (apply Z.mul_le_mono_nonneg_l; lia). lia. }
  assert (HN : inrec (Zpos m1 * P53) (Zpos m2) (shr_record_of_loc q (new_location (Zpos m2) r))).
  { rewrite Hq, (Z.mul_comm (Zpos m2)). apply new_location_ok; lia. }
  assert (Hd : ∃ d, 53 <= d <= 54 ∧ pow2 (d - 1) <= q < pow2 d).
  { destruct (Z.lt_ge_cases q P53); [exists 53|exists 54]; (split; [lia|]);
      [change (pow2 (53 - 1)) with P52; change (pow2 53) with P53
      |change (pow2 (54 - 1)) with P53; change (pow2 54) with (2 * P53)]; lia. }
  destruct Hd as (d & Hd & Hqd).
  apply (rne_of_aux _ _ _ (Zpos m1 * P53) (Zpos m2) _ _
           (pow2 (e1 - 53 + 2 * SC)) d); try done; try lia; rewrite ?SC_val.
  - pose proof (pow2_pos (e2 + 4000) ltac:(lia)). nia.
  - apply pow2_pos. lia.
  - rewrite <- pow2_53, <- !Z.mul_assoc, <- !pow2_add by lia. do 2 f_equal. lia.
  - rewrite (Z.mul_comm (Zpos m2)), Z.mul_assoc, <- (Z.mul_assoc _ (Zpos m2)),
      (Z.mul_comm (Zpos m2)), Z.mul_assoc, <- !pow2_add by lia. do 2 f_equal. lia.
Qed.

Lemma normalize_rne n ex :
  0 < n <= pow2 500 → -200 <= ex <= 200 →
  rne (n * pow2 (ex + SC)) 1 (binary_normalize 53 1024 n ex false).
Proof.
  intros Hn Hex. destruct n as [|p|p]; try lia. cbn [binary_normalize].
  pose proof (digits2_bounds p) as Hb.
  apply (binary_round_rne p ex (Zpos (digits2_pos p))); [done| |lia].
  destruct (Z.le_gt_cases (Zpos (digits2_pos p)) 501); [lia|].
  pose proof (pow2_double 500 (Zpos (digits2_pos p) - 1) ltac:(lia)). lia.
Qed.

Lemma shl_align_val m e ez :
  ez <= e → Zpos (fst (shl_align m e ez)) = Zpos m * pow2 (e - ez).
Proof.
  intros H. unfold shl_align. destruct (ez - e) as [|p|p] eqn:E; [|lia|].
  - replace (e - ez) with 0 by lia. cbn. change (pow2 0) with 1. lia.
  - cbn [fst]. rewrite iter_xO_val. do 2 f_equal. lia.
Qed.

(** Bound of an aligned mantissa. *)
Lemma aligned_bound m e ez :
  Zpos m < P53 → 0 <= e - ez <= 400 → 0 < Zpos m * pow2 (e - ez) <= pow2 453.
Proof.
  intros Hm He. pose proof (pow2_pos (e - ez) ltac:(lia)).
  pose proof (pow2_mono (e - ez) 400 ltac:(lia)).
  change (pow2 453) with (P53 * pow2 400). nia.
Qed.

Lemma f64_add_rne x y m1 e1 m2 e2 :
  nf x m1 e1 → nf y m2 e2 → -200 <= e1 <= 200 → -200 <= e2 <= 200 →
  rne (fz x + fz y) 1 (f64_add x y).
Proof.
  intros [-> Hm1] [-> Hm2] He1 He2. cbn [fz]. unfold f64_add, SFadd, cond_Zopp.
  set (ez := Z.min e1 e2). change (IntDef.Z.min e1 e2) with ez.
  rewrite !shl_align_val by lia.
  pose proof (aligned_bound m1 e1 ez ltac:(lia) ltac:(lia)).
  pose proof (aligned_bound m2 e2 ez ltac:(lia) ltac:(lia)).
  replace (Zpos m1 * pow2 (e1 + SC) + Zpos m2 * pow2 (e2 + SC))
    with ((Zpos m1 * pow2 (e1 - ez) + Zpos m2 * pow2 (e2 - ez)) * pow2 (ez + SC)).
  - apply normalize_rne; [|lia]. pose proof (pow2_double 453 500). lia.
  - rewrite Z.mul_add_distr_r, <- !Z.mul_assoc, <- !pow2_add by (rewrite ?SC_val; lia).
    do 2 f_equal; f_equal; lia.
Qed.

(** Subtraction of two positive normals, the result being zero or positive. *)
Lemma f64_sub_rne x y m1 e1 m2 e2 :
  nf x m1 e1 → nf y m2 e2 → -200 <= e1 <= 200 → -200 <= e2 <= 200 → fz y <= fz x →
  if fz y =? fz x then f64_sub x y = f64_0 else rne (fz x - fz y) 1 (f64_sub x y).
Proof.
  intros [-> Hm1] [-> Hm2] He1 He2. cbn [fz]. unfold f64_sub, SFsub, cond_Zopp.
  set (ez := Z.min e1 e2). change (IntDef.Z.min e1 e2) with ez.
  rewrite !shl_align_val by lia.
  pose proof (aligned_bound m1 e1 ez ltac:(lia) ltac:(lia)).
  pose proof (aligned_bound m2 e2 ez ltac:(lia) ltac:(lia)).
  assert (Hs : ∀ m e, ez <= e → Zpos m * pow2 (e + SC) = Zpos m * pow2 (e - ez) * pow2 (ez + SC)).
  { intros m e He. rewrite <- Z.mul_assoc, <- pow2_add by (rewrite ?SC_val; lia).
    do 2 f_equal. lia. }
  rewrite (Hs m1 e1), (Hs m2 e2) by lia. clear Hs.
  pose proof (pow2_pos (ez + SC) ltac:(rewrite SC_val; lia)). intros Hle.
  set (a := Zpos m1 * pow2 (e1 - ez)) in *. set (b := Zpos m2 * pow2 (e2 - ez)) in *.
  assert (b <= a) by nia.
  destruct (Z.eqb_spec (b * pow2 (ez + SC)) (a * pow2 (ez + SC))) as [Heq|Hne].
  - assert (a = b) as -> by nia. by rewrite Z.sub_diag.
  - rewrite <- Z.mul_sub_distr_r. apply normalize_rne; [|lia].
    pose proof (pow2_double 453 500). assert (a ≠ b) by (intros ->; lia). lia.
Qed.

(** ** Ranges and exactness *)
Lemma nf_pow2 a :
  0 <= a + SC - 52 → nf (S754_finite false 4503599627370496 (a - 52)) 4503599627370496 (a - 52) ∧
  fz (S754_finite false 4503599627370496 (a - 52)) = pow2 (a + SC).
Proof.
  intros Ha. split; [by split|]. cbn [fz].
  change 4503599627370496 with (pow2 52) at 1. rewrite <- pow2_add by lia. f_equal. lia.
Qed.

(** The rounding of a value between two powers of two stays between them. *)
Lemma rne_rng X D f a b :
  rne X D f → -3000 <= a → -3000 <= b → pow2 (a + SC) * D <= X <= pow2 (b + SC) * D →
  rng a b f.
Proof.
  intros Hr Ha Hb HX. pose proof (rne_nf _ _ _ Hr) as (m & e & Hn & He).
  exists m, e. split_and!; [done|done|..].
  - destruct (nf_pow2 a) as [Hna Hfa]; [rewrite SC_val; lia|]. rewrite <- Hfa.
    eapply rne_mono; [eapply rne_repr; [done|rewrite SC_val; lia]|done|]. lia.
  - destruct (nf_pow2 b) as [Hnb Hfb]; [rewrite SC_val; lia|]. rewrite <- Hfb.
    eapply rne_mono; [done|eapply rne_repr; [done|rewrite SC_val; lia]|]. lia.
Qed.

(** The exponent of a number of known range. *)
Lemma rng_exp a b f m e :
  rng a b f → nf f m e → -2000 <= a → b <= 2000 → a - 53 <= e <= b - 52.
Proof.
  intros (m' & e' & [-> _] & He' & Hz) [[= <- <-] Hm] Ha Hb. cbn [fz] in Hz.
  pose proof (pow2_pos (e' + SC) ltac:(lia)). split; apply Z.nlt_ge; intros Hlt.
  - assert (He : e' + 53 + SC <= a + SC - 1) by lia.
    pose proof (pow2_double (e' + 53 + SC) (a + SC)) as Hm2.
    rewrite SC_val in *. replace (e' + 53 + 4000) with (53 + (e' + 4000)) in Hm2 by lia.
    rewrite pow2_add, pow2_53 in Hm2 by lia. nia.
  - pose proof (pow2_double (b + SC) (e' + 52 + SC)) as Hm2. rewrite SC_val in *.
    replace (e' + 52 + 4000) with (52 + (e' + 4000)) in Hm2 by lia.
    assert (pow2 (b + 4000) = 0 ∨ 0 <= b + 4000) as [Hz0|Hb0].
    { destruct (Z.lt_ge_cases (b + 4000) 0); [left|by right]. unfold pow2. by apply Z.pow_neg_r. }
    + nia.
    + rewrite (pow2_add 52), pow2_52 in Hm2 by lia. nia.
Qed.

Lemma rng_weaken a b a' b' f : -3000 <= a' <= a → b <= b' → rng a b f → rng a' b' f.
Proof.
  intros Ha Hb (m & e & Hn & He & Hz). exists m, e. split_and!; [done|done|..].
  - pose proof (pow2_mono (a' + SC) (a + SC)). rewrite SC_val in *. lia.
  - destruct (Z.lt_ge_cases (b + SC) 0).
    + unfold pow2 in Hz at 2. rewrite Z.pow_neg_r in Hz by done.
      pose proof (pow2_pos (a + SC)). rewrite SC_val in *. lia.
    + pose proof (pow2_mono (b + SC) (b' + SC)). lia.
Qed.

(** Small integers convert exactly. *)
Lemma rne_exact X f m e : nf f m e → - SC <= e → X = fz f → ∀ g, rne X 1 g → fz g = fz f.
Proof.
  intros Hn He -> g Hg. pose proof (rne_repr f m e Hn He) as Hf.
  pose proof (rne_mono _ _ _ _ _ _ Hf Hg). pose proof (rne_mono _ _ _ _ _ _ Hg Hf). lia.
Qed.

Lemma f64_of_Z_exact n : 0 < n < P53 → fz (f64_of_Z n) = n * pow2 SC.
Proof.
  intros Hn. assert (Hr : rne (n * pow2 SC) 1 (f64_of_Z n))
    by (apply f64_of_Z_rne; unfold U64_MOD; lia).
  apply rne_fz in Hr as (E & k & HE & _ & [[H1 H2] _] & Hk & HX & -> & _).
  rewrite !Z.mul_1_r in *. pose proof (pow2_pos E HE) as HU.
  pose proof (pow2_pos SC ltac:(rewrite SC_val; lia)).
  assert (HES : E <= SC).
  { apply Z.nlt_ge. intros Hlt. pose proof (pow2_double SC E ltac:(rewrite SC_val in *; lia)). nia. }
  assert (Hs : pow2 SC = pow2 (SC - E) * pow2 E) by (rewrite <- pow2_add by lia; f_equal; lia).
  rewrite Hs in *. set (q := pow2 (SC - E)) in *.
  assert (n * q = k) by nia. subst k. lia.
Qed.

Lemma f64_of_Z_nf n : 0 < n < U64_MOD → ∃ m e, nf (f64_of_Z n) m e ∧ -60 <= e <= 12.
Proof.
  intros Hn. pose proof (f64_of_Z_rne n Hn) as Hr.
  assert (Hg : rng 0 64 (f64_of_Z n)).
  { apply (rne_rng _ _ _ _ _ Hr); [lia|lia|]. rewrite Z.mul_1_r.
    rewrite Z.add_0_l, pow2_add by (rewrite ?SC_val; lia).
    pose proof (pow2_pos SC ltac:(rewrite SC_val; lia)).
    change (pow2 64) with U64_MOD. nia. }
  destruct Hg as (m & e & Hn' & He & Hz). exists m, e. split; [done|].
  pose proof (rng_exp 0 64 (f64_of_Z n) m e) as Hx.
  assert (rng 0 64 (f64_of_Z n)) by (by exists m, e). specialize (Hx H Hn'). lia.
Qed.

(** ** Comparison *)

(** Zero and positive normal numbers. *)
Definition nonneg (f : f64) : Prop := f = f64_0 ∨ ∃ m e, nf f m e ∧ - SC <= e.

Lemma fz_nf_pos f m e : nf f m e → - SC <= e → 0 < fz f.
Proof. intros [-> Hm] He. cbn [fz]. pose proof (pow2_pos (e + SC)). lia. Qed.

Lemma cmp_normal f1 m1 e1 f2 m2 e2 :
  nf f1 m1 e1 → nf f2 m2 e2 → - SC <= e1 → - SC <= e2 →
  SFcompare f1 f2 = Some (fz f1 ?= fz f2).
Proof.
  intros [-> Hm1] [-> Hm2] He1 He2. cbn [SFcompare fz]. f_equal.
  pose proof (pow2_pos (e1 + SC) ltac:(lia)). pose proof (pow2_pos (e2 + SC) ltac:(lia)).
  change (Pos.compare_cont Eq m1 m2) with (Zpos m1 ?= Zpos m2).
  destruct (Z.compare_spec e1 e2) as [->|Hlt|Hlt].
  - symmetry. destruct (Z.compare_spec (Zpos m1) (Zpos m2)) as [->|?|?].
    + apply Z.compare_refl.
    + apply Z.compare_lt_iff. nia.
    + apply Z.compare_gt_iff. nia.
  - symmetry. apply Z.compare_lt_iff. pose proof (pow2_double (e1 + SC) (e2 + SC)). nia.
  - symmetry. apply Z.compare_gt_iff. pose proof (pow2_double (e2 + SC) (e1 + SC)). nia.
Qed.

(** On zero and positive normals, comparison is comparison of values. *)
Lemma f64_cmp_value f g : nonneg f → nonneg g → f64_partial_cmp f g = Some (fz f ?= fz g).
Proof.
  unfold f64_partial_cmp. intros [->|(m1 & e1 & Hn1 & He1)] [->|(m2 & e2 & Hn2 & He2)].
  - done.
  - pose proof (fz_nf_pos _ _ _ Hn2 He2) as Hp. cbn [fz f64_0].
    rewrite (proj2 (Z.compare_lt_iff _ _)) by done. by destruct Hn2 as [-> _].
  - pose proof (fz_nf_pos _ _ _ Hn1 He1) as Hp. cbn [fz f64_0].
    rewrite (proj2 (Z.compare_gt_iff _ _)) by done. by destruct Hn1 as [-> _].
  - by eapply cmp_normal.
Qed.

Lemma rne_nonneg X D f : rne X D f → nonneg f.
Proof. intros H%rne_nf. by right. Qed.

Lemma rng_nonneg a b f : rng a b f → nonneg f.
Proof. intros (m & e & Hn & He & _). right. eauto. Qed.

#[export] Hint Resolve rne_nonneg rng_nonneg : wf.

(** ** Uniqueness and halving *)
Lemma rne_unique X D f g : rne X D f → rne X D g → fz f = fz g.
Proof.
  intros Hf Hg. pose proof (rne_mono _ _ _ _ _ _ Hf Hg). pose proof (rne_mono _ _ _ _ _ _ Hg Hf).
  lia.
Qed.

Lemma rne_half X D f g : rne X D f → P53 * D <= X → rne X (2 * D) g → fz f = 2 * fz g.
Proof.
  intros (E & k & HE & HD & Hk & Hr & HX & Hz & Hf)%rne_fz HXD Hg.
  assert (E ≠ 0) by (intros ->; change (pow2 0) with 1 in HX; lia).
  assert (Hp : pow2 E = 2 * pow2 (E - 1)).
  { rewrite <- pow2_succ by lia. f_equal. lia. }
  assert (rne X (2 * D) (mkf k (E - 1 - SC))) as Hg'.
  { exists (E - 1), k. replace (pow2 (E - 1) * (2 * D)) with (pow2 E * D) by (rewrite Hp; ring).
    split_and!; [lia|lia|done|lia|lia|done]. }
  rewrite (rne_unique _ _ _ _ Hg Hg'), Hz, fz_mkf by (done || lia). rewrite Hp. ring.
Qed.

(** A common factor of numerator and denominator does not matter. *)
Lemma rne_cancel X D f c : 0 < c → rne (X * c) (D * c) f → rne X D f.
Proof.
  intros Hc (E & k & HE & HD & [Hn Ht] & HX & ->). exists E, k.
  replace (pow2 E * (D * c)) with (pow2 E * D * c) in * by ring.
  assert (0 < D) by nia. split_and!; [done|done| |nia|nia|done].
  assert (Hd : 2 * (X * c) - 2 * k * (pow2 E * D * c) = (2 * X - 2 * k * (pow2 E * D)) * c) by ring.
  rewrite Hd in *. unfold near. split; [nia|]. intros Hq. apply Ht. nia.
Qed.

Lemma rne_scale X D f c : 0 < c → rne X D f → rne (X * c) (D * c) f.
Proof.
  intros Hc (E & k & HE & HD & Hn & HX & ->). exists E, k.
  replace (pow2 E * (D * c)) with (pow2 E * D * c) by ring.
  split_and!; [done|nia|by apply near_scale|nia|nia|done].
Qed.

(** ** Products and sums of numbers in a known range *)
Lemma pow2_SC_pos : 0 < pow2 SC.
Proof. apply pow2_pos. rewrite SC_val. lia. Qed.

Lemma rng_1 : rng 0 0 f64_1.
Proof.
  destruct (nf_pow2 0) as [Hn Hz]; [rewrite SC_val; lia|].
  change (S754_finite false 4503599627370496 (0 - 52)) with f64_1 in *.
  eexists _, _. split_and!; [exact Hn|rewrite SC_val; lia|lia|lia].
Qed.

Lemma fz_1 : fz f64_1 = pow2 SC.
Proof. destruct rng_1 as (? & ? & _ & _ & H). rewrite Z.add_0_l in H. lia. Qed.

Lemma pow2_33 : pow2 33 = 8589934592. Proof. done. Qed.
Lemma pow2_40 : pow2 40 = 1099511627776. Proof. done. Qed.
Lemma fz_finite m e : fz (S754_finite false m e) = Zpos m * pow2 (e + SC).
Proof. done. Qed.
Lemma fz_0 : fz f64_0 = 0.
Proof. done. Qed.

Lemma f64_mul_ok a b c d x y :
  rng a b x → rng c d y → -100 <= a → b <= 100 → -100 <= c → d <= 100 →
  rne (fz x * fz y) (pow2 SC) (f64_mul x y).
Proof.
  intros Hx Hy Ha Hb Hc Hd.
  pose proof Hx as (m1 & e1 & Hn1 & _ & _). pose proof Hy as (m2 & e2 & Hn2 & _ & _).
  pose proof (rng_exp _ _ _ _ _ Hx Hn1 ltac:(lia) ltac:(lia)).
  pose proof (rng_exp _ _ _ _ _ Hy Hn2 ltac:(lia) ltac:(lia)).
  eapply f64_mul_rne; eauto; lia.
Qed.

Lemma rng_order a b f : rng a b f → -3000 <= a → -3000 <= b → a <= b.
Proof.
  intros (m & e & _ & _ & H) Ha Hb. apply Z.nlt_ge. intros Hlt.
  pose proof (pow2_double (b + SC) (a + SC)). pose proof (pow2_pos (b + SC)).
  rewrite SC_val in *. lia.
Qed.

Lemma rng_mul a b c d x y :
  rng a b x → rng c d y → -100 <= a → b <= 100 → -100 <= c → d <= 100 → -100 <= b → -100 <= d →
  rng (a + c) (b + d) (f64_mul x y).
Proof.
  intros Hx Hy Ha Hb Hc Hd Hb' Hd'.
  apply (rne_rng _ _ _ _ _ (f64_mul_ok _ _ _ _ _ _ Hx Hy Ha Hb Hc Hd)); [lia..|].
  destruct Hx as (_ & _ & _ & _ & Hx), Hy as (_ & _ & _ & _ & Hy).
  rewrite SC_val in *.
  rewrite <- !pow2_add by lia.
  replace (a + c + 4000 + 4000) with ((a + 4000) + (c + 4000)) by lia.
  replace (b + d + 4000 + 4000) with ((b + 4000) + (d + 4000)) by lia.
  rewrite !(pow2_add (_ + _)) by lia.
  pose proof (pow2_pos (a + 4000)). pose proof (pow2_pos (c + 4000)). split; nia.
Qed.

Lemma f64_mul_mono a b c d x x' y y' :
  rng a b x → rng a b x' → rng c d y → rng c d y' →
  -100 <= a → b <= 100 → -100 <= c → d <= 100 → fz x <= fz x' → fz y <= fz y' →
  fz (f64_mul x y) <= fz (f64_mul x' y').
Proof.
  intros Hx Hx' Hy Hy' Ha Hb Hc Hd Hle Hle'.
  eapply rne_mono; [by eapply (f64_mul_ok a b c d x y)|by eapply (f64_mul_ok a b c d x' y')|].
  destruct Hx as (? & ? & Hn & He & _), Hy as (? & ? & Hn' & He' & _).
  pose proof (fz_nf_pos _ _ _ Hn He). pose proof (fz_nf_pos _ _ _ Hn' He').
  pose proof pow2_SC_pos. apply Z.mul_le_mono_nonneg_r; [lia|].
  apply Z.mul_le_mono_nonneg; lia.
Qed.

(** Doubling one argument doubles a product. *)
Lemma f64_mul_double a b c d x x' y :
  rng a b x → rng a b x' → rng c d y → -100 <= a → b <= 100 → -100 <= c → d <= 100 →
  fz x = 2 * fz x' → fz (f64_mul x y) = 2 * fz (f64_mul x' y).
Proof.
  intros Hx Hx' Hy Ha Hb Hc Hd H2.
  pose proof (f64_mul_ok _ _ _ _ _ _ Hx Hy Ha Hb Hc Hd) as Hr.
  pose proof (f64_mul_ok _ _ _ _ _ _ Hx' Hy Ha Hb Hc Hd) as Hr'.
  apply (rne_scale _ _ _ 2) in Hr'; [|lia].
  replace (fz x' * fz y * 2) with (fz x * fz y) in Hr' by lia.
  rewrite (Z.mul_comm (pow2 SC) 2) in Hr'. eapply rne_half; [exact Hr| |exact Hr'].
  destruct Hx as (_ & _ & _ & _ & Hx), Hy as (_ & _ & _ & _ & Hy).
  pose proof (pow2_mono (a + SC) (a + SC)). rewrite SC_val in *.
  assert (P53 * pow2 4000 <= pow2 (a + 4000) * pow2 (c + 4000)).
  { rewrite <- pow2_53, <- !pow2_add by lia. apply pow2_mono. lia. }
  pose proof (pow2_pos (a + 4000)). pose proof (pow2_pos (c + 4000)). nia.
Qed.

(** Numbers of the unit interval: zero or not below [2 ^ -64]. *)
Definition unit_f64 (f : f64) : Prop := f = f64_0 ∨ rng (-64) 0 f.

Lemma unit_nonneg f : unit_f64 f → nonneg f.
Proof. intros [->|H]; [by left|by eapply rng_nonneg]. Qed.

Lemma unit_1 : unit_f64 f64_1.
Proof. right. eapply rng_weaken; [..|apply rng_1]; lia. Qed.

#[export] Hint Resolve unit_nonneg unit_1 : wf.

(** [1.0 + f]. *)
Lemma one_plus_rne f : unit_f64 f → rne (pow2 SC + fz f) 1 (f64_add f64_1 f).
Proof.
  pose proof rng_1 as (m1 & e1 & Hn1 & He1 & _). intros [->|Hf].
  - change (f64_add f64_1 f64_0) with f64_1. change (fz f64_0) with 0. rewrite Z.add_0_r, <- fz_1.
    by eapply rne_repr.
  - pose proof Hf as (m & e & Hn & He & _). rewrite <- fz_1.
    pose proof (rng_exp _ _ _ _ _ Hf Hn ltac:(lia) ltac:(lia)).
    pose proof (rng_exp _ _ _ _ _ rng_1 Hn1 ltac:(lia) ltac:(lia)).
    eapply f64_add_rne; eauto; lia.
Qed.

Lemma unit_fz f : unit_f64 f → 0 <= fz f <= pow2 SC.
Proof.
  intros [->|(m & e & Hn & He & H)]; [cbn; pose proof pow2_SC_pos; lia|].
  rewrite Z.add_0_l in H. pose proof (fz_nf_pos _ _ _ Hn He). lia.
Qed.

Lemma one_plus_rng f : unit_f64 f → rng 0 1 (f64_add f64_1 f).
Proof.
  intros Hf. apply (rne_rng _ _ _ _ _ (one_plus_rne f Hf)); [lia..|].
  pose proof (unit_fz f Hf). rewrite (Z.add_comm 1), pow2_succ by (rewrite SC_val; lia).
  rewrite Z.add_0_l. lia.
Qed.

Lemma mul_one_l f : unit_f64 f → unit_f64 (f64_mul f64_1 f) ∧ fz (f64_mul f64_1 f) = fz f.
Proof.
  intros [->|Hf]; [by split; [left|]|].
  pose proof (rng_mul _ _ _ _ _ _ rng_1 Hf ltac:(lia) ltac:(lia) ltac:(lia) ltac:(lia)
    ltac:(lia) ltac:(lia)) as Hr.
  pose proof (f64_mul_ok _ _ _ _ _ _ rng_1 Hf ltac:(lia) ltac:(lia) ltac:(lia) ltac:(lia)) as Hm.
  rewrite fz_1, (Z.mul_comm (pow2 SC)) in Hm.
  replace (pow2 SC) with (1 * pow2 SC) in Hm at 2 by lia.
  apply rne_cancel in Hm; [|apply pow2_SC_pos].
  split; [by right|]. pose proof Hf as (m & e & Hn & He & _).
  by eapply (rne_exact (fz f) f m e).
Qed.

(** The relative error of a rounding. *)
Lemma rne_upper X D f : rne X D f → fz f * D * P53 <= X * (P53 + 1).
Proof.
  intros (E & k & HE & HD & [[H1 _] _] & _ & [H2 _] & Hz & _)%rne_fz. rewrite Hz. nia.
Qed.

Lemma rne_lower X D f : rne X D f → X * (P53 - 1) <= fz f * D * P53.
Proof.
  intros (E & k & HE & HD & [[_ H1] _] & _ & [H2 _] & Hz & _)%rne_fz. rewrite Hz. nia.
Qed.

(** [1.0 - u] for [u] in the unit interval, exactly one or away from it. *)
Lemma one_minus u :
  unit_f64 u → fz u = pow2 SC ∨ fz u <= pow2 SC - pow2 (SC - 64) →
  unit_f64 (f64_sub f64_1 u) ∧
  if fz u =? pow2 SC then fz (f64_sub f64_1 u) = 0
  else rne (pow2 SC - fz u) 1 (f64_sub f64_1 u).
Proof.
  pose proof rng_1 as (m1 & e1 & Hn1 & He1 & _). intros Hu Hgap.
  pose proof (pow2_pos (SC - 64) ltac:(rewrite SC_val; lia)) as Hp.
  assert (Hr : if fz u =? pow2 SC then f64_sub f64_1 u = f64_0
               else rne (pow2 SC - fz u) 1 (f64_sub f64_1 u)).
  { destruct Hu as [->|Hf].
    - pose proof pow2_SC_pos. change (f64_sub f64_1 f64_0) with f64_1. change (fz f64_0) with 0.
      rewrite (proj2 (Z.eqb_neq _ _)) by lia. rewrite Z.sub_0_r, <- fz_1. by eapply rne_repr.
    - pose proof Hf as (m & e & Hn & He & _). rewrite <- fz_1.
      pose proof (rng_exp _ _ _ _ _ Hf Hn ltac:(lia) ltac:(lia)).
      pose proof (rng_exp _ _ _ _ _ rng_1 Hn1 ltac:(lia) ltac:(lia)).
      eapply f64_sub_rne; eauto; try lia. rewrite fz_1. apply unit_fz. by right. }
  pose proof (unit_fz u Hu). destruct (Z.eqb_spec (fz u) (pow2 SC)) as [He|Hne].
  - rewrite Hr. split; [by left|done].
  - split; [|done]. right. apply (rne_rng _ _ _ _ _ Hr); [lia..|].
    replace (-64 + SC) with (SC - 64) by lia. rewrite Z.add_0_l. lia.
Qed.

Lemma one_minus_mono u v :
  unit_f64 u → unit_f64 v → fz u = pow2 SC ∨ fz u <= pow2 SC - pow2 (SC - 64) →
  fz v = pow2 SC ∨ fz v <= pow2 SC - pow2 (SC - 64) → fz u <= fz v →
  fz (f64_sub f64_1 v) <= fz (f64_sub f64_1 u).
Proof.
  intros Hu Hv Hgu Hgv Hle. destruct (one_minus u Hu Hgu) as [Huu Hu'].
  destruct (one_minus v Hv Hgv) as [Hvv Hv'].
  pose proof (unit_fz _ Huu). pose proof (unit_fz _ Hvv). pose proof (unit_fz _ Hu).
  pose proof (unit_fz _ Hv).
  destruct (Z.eqb_spec (fz v) (pow2 SC)); [lia|].
  destruct (Z.eqb_spec (fz u) (pow2 SC)); [lia|]. eapply rne_mono; eauto. lia.
Qed.

(** A quotient of integers up to [2 ^ 40] in the unit interval. *)
Lemma ratio_unit a m r :
  0 < a <= m → m <= pow2 40 → rne (a * pow2 SC) m r → unit_f64 r.
Proof.
  intros Ha Hm Hr. right. apply (rne_rng _ _ _ _ _ Hr); [lia..|].
  pose proof pow2_SC_pos. rewrite Z.add_0_l. split; [|nia].
  assert (pow2 SC = pow2 64 * pow2 (-64 + SC)) as -> by (rewrite <- pow2_add by (rewrite ?SC_val; lia); f_equal; lia).
  pose proof (pow2_pos (-64 + SC) ltac:(rewrite SC_val; lia)).
  change (pow2 64) with 18446744073709551616. change (pow2 40) with 1099511627776 in *. nia.
Qed.

(** It is one or away from it. *)
Lemma ratio_gap a m r :
  0 < a <= m → m <= pow2 40 → rne (a * pow2 SC) m r →
  fz r = pow2 SC ∨ fz r <= pow2 SC - pow2 (SC - 64).
Proof.
  intros Ha Hm Hr. pose proof pow2_SC_pos.
  assert (H1 : rne (pow2 SC) 1 f64_1).
  { rewrite <- fz_1. pose proof rng_1 as (? & ? & ? & ? & _). by eapply rne_repr. }
  destruct (decide (a = m)) as [->|Hne].
  { left. rewrite Z.mul_comm in Hr. replace m with (1 * m) in Hr at 2 by lia.
    apply rne_cancel in Hr; [|lia]. rewrite <- fz_1. by eapply rne_unique. }
  right. apply rne_upper in Hr. apply Z.nlt_ge. intros Hlt.
  pose proof (pow2_pos (SC - 64) ltac:(rewrite SC_val; lia)) as Hp.
  assert (HS : pow2 SC = pow2 64 * pow2 (SC - 64)) by (rewrite <- pow2_add by (rewrite ?SC_val; lia); f_equal; lia).
  change (pow2 64) with 18446744073709551616 in HS. change (pow2 40) with 1099511627776 in *.
  set (G := pow2 (SC - 64)) in *.
  assert (Hx : (18446744073709551615 * G) * (m * P53) < (m - 1) * (18446744073709551616 * G) * (P53 + 1)).
  { apply Z.lt_le_trans with (fz r * (m * P53)); [apply Z.mul_lt_mono_pos_r; lia|].
    rewrite HS in Hr. nia. }
  assert (18446744073709551615 * (m * P53) < (m - 1) * 18446744073709551616 * (P53 + 1)) by nia.
  lia.
Qed.

(** From here on floats are reasoned about through these lemmas; the opacity
    keeps unification from running the arithmetic. *)
#[global] Opaque f64_add f64_sub f64_mul f64_div f64_of_Z fz pow2.
