(* ===== verification/Model.v ===== *)
(** * Domain model of the control plane

    [crates/control-plane/src/model.rs]: node states, node records and the
    derived quantities. A [DateTime<Utc>] is an instant in nanoseconds since
    the Unix epoch and a [std::time::Duration] a number of nanoseconds; the
    [chrono] functions the program calls are the operations of the class
    [Chrono], with their documented behaviour as the laws [ChronoLaws]. *)

From stdpp Require Import base tactics decidable numbers strings.
From Stdlib Require Import ZArith Lia.
From S2P Require Import Prelude F64.

Definition NANOS : Z := 1000000000.

(** ** The [chrono] interface *)
Class Chrono : Type := {
  (** [DateTime::from_timestamp(secs, 0)] *)
  from_timestamp : Z → option Z;
  (** [DateTime::timestamp] *)
  timestamp : Z → Z;
  (** [now.signed_duration_since(ts).to_std()], [None] for its error *)
  duration_since : Z → Z → option Z
}.

Class ChronoLaws (C : Chrono) : Prop := {
  from_timestamp_instant s t : from_timestamp s = Some t → t = s * NANOS;
  from_timestamp_defined s : 0 <= s < 2 ^ 42 → is_Some (from_timestamp s);
  timestamp_floor t : timestamp t = t / NANOS;
  duration_since_pos now ts : ts <= now → duration_since now ts = Some (now - ts);
  duration_since_neg now ts : now < ts → duration_since now ts = None
}.

(** An instance, to show that the laws can hold. *)
Definition chrono_reference : Chrono := {|
  from_timestamp s := if (0 <=? s) && (s <? 2 ^ 42) then Some (s * NANOS) else None;
  timestamp t := t / NANOS;
  duration_since now ts := if ts <=? now then Some (now - ts) else None
|}.

Lemma chrono_reference_laws : ChronoLaws chrono_reference.
Proof.
  split; cbn.
  - intros s t. destruct (_ && _); [by intros [= <-]|done].
  - intros s Hs. rewrite (proj2 (Z.leb_le _ _)), (proj2 (Z.ltb_lt _ _)) by lia. eauto.
  - done.
  - intros now ts H. by rewrite (proj2 (Z.leb_le _ _)).
  - intros now ts H. by rewrite (proj2 (Z.leb_gt _ _)).
Qed.

(** ** Node states *)
Inductive NodeState : Type := Starting | Healthy | Degraded | Draining | Offline.

#[export] Instance NodeState_eq_dec : EqDecision NodeState.
Proof. solve_decision. Defined.

Definition NodeState_as_str (s : NodeState) : string :=
  match s with
  | Starting => "starting"
  | Healthy => "healthy"
  | Degraded => "degraded"
  | Draining => "draining"
  | Offline => "offline"
  end.

Definition NodeState_parse (s : string) : option NodeState :=
  if String.eqb s "starting" then Some Starting
  else if String.eqb s "healthy" then Some Healthy
  else if String.eqb s "degraded" then Some Degraded
  else if String.eqb s "draining" then Some Draining
  else if String.eqb s "offline" then Some Offline
  else None.

Lemma NodeState_parse_as_str s : NodeState_parse (NodeState_as_str s) = Some s.
Proof. by destruct s. Qed.

Lemma NodeState_parse_inv t s : NodeState_parse t = Some s → t = NodeState_as_str s.
Proof.
  unfold NodeState_parse.
  repeat match goal with
  | |- context [String.eqb t ?k] =>
      destruct (String.eqb_spec t k) as [->|_]; [by intros [= <-]|]
  end. done.
Qed.

(** ** Nodes *)
Record Node : Type := mkNode {
  n_id : string;
  n_address : string;
  n_state : NodeState;
  n_last_heartbeat : option Z;
  n_max_connections : Z;
  n_active_connections : Z;
  n_bandwidth_limit : Z;
  n_bytes_up : Z;
  n_bytes_down : Z;
  n_latency_ms : Z;
  n_created_at : Z;
  n_updated_at : Z
}.

Definition is_selectable (n : Node) : bool :=
  match n_state n with
  | Healthy | Degraded => true
  | _ => false
  end.

Definition available_capacity (n : Node) : Z :=
  saturating_sub (n_max_connections n) (n_active_connections n).

Definition bandwidth_utilization (n : Node) : f64 :=
  if n_max_connections n =? 0 then f64_1
  else
    let ratio := f64_div (f64_of_Z (n_active_connections n)) (f64_of_Z (n_max_connections n)) in
    f64_clamp ratio f64_0 f64_1.

(** What the field types guarantee. *)
Definition Node_ok (n : Node) : bool :=
  is_u32 (n_max_connections n) && is_u32 (n_active_connections n) &&
  is_u64 (n_bandwidth_limit n) && is_u64 (n_bytes_up n) && is_u64 (n_bytes_down n) &&
  is_u32 (n_latency_ms n).

Lemma is_u32_iff z : is_u32 z = true ↔ 0 <= z < U32_MOD.
Proof. unfold is_u32. rewrite andb_true_iff, Z.leb_le, Z.ltb_lt. done. Qed.
Lemma is_u64_iff z : is_u64 z = true ↔ 0 <= z < U64_MOD.
Proof. unfold is_u64. rewrite andb_true_iff, Z.leb_le, Z.ltb_lt. done. Qed.

Lemma Node_ok_iff n :
  Node_ok n = true ↔
  0 <= n_max_connections n < U32_MOD ∧ 0 <= n_active_connections n < U32_MOD ∧
  0 <= n_bandwidth_limit n < U64_MOD ∧ 0 <= n_bytes_up n < U64_MOD ∧
  0 <= n_bytes_down n < U64_MOD ∧ 0 <= n_latency_ms n < U32_MOD.
Proof.
  unfold Node_ok. rewrite !andb_true_iff, !is_u32_iff, !is_u64_iff. tauto.
Qed.

(** ** Ratios of [u32] values as floats *)

(** The quotient of two integers that are exact as floats is the exact quotient
    rounded to nearest even. *)
Lemma quotient_rne a m :
  0 < a < P53 → 0 < m < P53 → rne (a * pow2 SC) m (f64_div (f64_of_Z a) (f64_of_Z m)).
Proof.
  intros Ha Hm.
  destruct (f64_of_Z_nf a) as (ma & ea & Hna & Hea); [unfold U64_MOD; lia|].
  destruct (f64_of_Z_nf m) as (mm & em & Hnm & Hem); [unfold U64_MOD; lia|].
  pose proof (f64_div_rne _ _ _ _ _ _ Hna Hnm ltac:(lia) ltac:(lia)) as Hr.
  rewrite !f64_of_Z_exact in Hr by lia. apply rne_cancel in Hr; [done|apply pow2_pos; rewrite SC_val; lia].
Qed.

Lemma ratio_rne a m :
  0 < a < U32_MOD → 0 < m < U32_MOD →
  rne (a * pow2 SC) m (f64_div (f64_of_Z a) (f64_of_Z m)).
Proof. unfold U32_MOD. intros. apply quotient_rne; lia. Qed.

Lemma ratio_zero m : 0 < m < U32_MOD → f64_div (f64_of_Z 0) (f64_of_Z m) = f64_0.
Proof.
  intros Hm. destruct (f64_of_Z_nf m) as (mm & em & [-> _] & _);
    [unfold U64_MOD, U32_MOD in *; lia|done].
Qed.
