(* ===== verification/Health.v ===== *)
(** * Node health

    [crates/control-plane/src/health.rs]: the policy, the reclassification of
    a node that just sent a heartbeat, and staleness. The classification
    compares binary64 numbers; it is proved to be an exact integer test for
    all [u32] inputs. *)

From stdpp Require Import base tactics decidable numbers strings.
From Stdlib Require Import ZArith Lia.
From S2P Require Import Prelude F64 Model.

Record HealthPolicy : Type := mkHealthPolicy {
  offline_timeout : Z;
  degraded_threshold : f64
}.

Definition HealthPolicy_default : HealthPolicy := {|
  offline_timeout := 30 * NANOS;
  degraded_threshold := f64_0_9
|}.

Definition reclassify_after_heartbeat (current : NodeState)
    (active_connections max_connections : Z) (policy : HealthPolicy) : NodeState :=
  match current with
  | Draining | Offline => current
  | _ =>
      let utilization :=
        if max_connections =? 0 then f64_1
        else f64_div (f64_of_Z active_connections) (f64_of_Z max_connections) in
      if f64_ge utilization (degraded_threshold policy) then Degraded else Healthy
  end.

Definition is_stale `{Chrono} (last_heartbeat : option Z) (now : Z) (policy : HealthPolicy) :
  bool :=
  match last_heartbeat with
  | None => false
  | Some ts =>
      let elapsed := default 0 (duration_since now ts) in
      offline_timeout policy <=? elapsed
  end.

Definition drained_complete_state : NodeState := Offline.

(** ** The threshold test *)
Lemma f64_0_9_rne : rne (9 * pow2 SC) 10 f64_0_9.
Proof.
  destruct f64_literals as (_ & _ & _ & -> & _). apply ratio_rne; unfold U32_MOD; lia.
Qed.

(** A quotient of [u32] values below [9/10] rounds strictly below [0.9]: the
    gap of at least [1 / (10 m)] exceeds both rounding errors. *)
Lemma ratio_below r a m :
  0 < a → 0 < m < U32_MOD → 10 * a < 9 * m → rne (a * pow2 SC) m r → fz r < fz f64_0_9.
Proof.
  intros Ha Hm Hlt Hr. apply Z.nle_gt. intros Hle.
  apply rne_upper in Hr. pose proof (rne_lower _ _ _ f64_0_9_rne) as Hlo.
  pose proof pow2_SC_pos as HS. set (S := pow2 SC) in *.
  assert (H3 : fz f64_0_9 * 10 * P53 * m <= fz r * m * P53 * 10) by nia.
  assert (H4 : 9 * S * (P53 - 1) * m <= a * S * (P53 + 1) * 10) by nia.
  assert (H5 : 9 * (P53 - 1) * m <= a * (P53 + 1) * 10) by nia.
  unfold U32_MOD in Hm. lia.
Qed.

Lemma threshold_exact a m :
  0 <= a < U32_MOD → 0 < m < U32_MOD →
  f64_ge (f64_div (f64_of_Z a) (f64_of_Z m)) f64_0_9 = (9 * m <=? 10 * a).
Proof.
  intros Ha Hm. destruct (decide (a = 0)) as [->|Hne].
  { rewrite ratio_zero by done. cbn. symmetry. apply Z.leb_gt. lia. }
  pose proof (ratio_rne a m ltac:(lia) Hm) as Hr.
  pose proof (f64_cmp_value _ _ (rne_nonneg _ _ _ Hr) (rne_nonneg _ _ _ f64_0_9_rne)) as Hc.
  unfold f64_partial_cmp in Hc. unfold f64_ge. rewrite Hc.
  destruct (Z.leb_spec (9 * m) (10 * a)) as [Hge|Hlt].
  - assert (fz f64_0_9 <= fz (f64_div (f64_of_Z a) (f64_of_Z m))).
    { eapply rne_mono; [apply f64_0_9_rne|done|].
      pose proof (pow2_pos SC ltac:(rewrite SC_val; lia)). nia. }
    destruct (Z.compare_spec (fz (f64_div (f64_of_Z a) (f64_of_Z m))) (fz f64_0_9)); done || lia.
  - pose proof (ratio_below _ a m ltac:(lia) Hm Hlt Hr).
    by rewrite (proj2 (Z.compare_lt_iff _ _)).
Qed.

Lemma reclassify_default s a m :
  0 <= a < U32_MOD → 0 <= m < U32_MOD →
  reclassify_after_heartbeat s a m HealthPolicy_default =
  match s with
  | Draining | Offline => s
  | _ => if 9 * m <=? 10 * a then Degraded else Healthy
  end.
Proof.
  intros Ha Hm. unfold reclassify_after_heartbeat. cbn [degraded_threshold HealthPolicy_default].
  destruct (Z.eqb_spec m 0) as [->|Hne].
  - rewrite (proj2 (Z.leb_le _ _)) by lia. by destruct s.
  - rewrite threshold_exact by lia. done.
Qed.

Lemma is_stale_iff {C : Chrono} {L : ChronoLaws C} lh now p :
  is_stale lh now p = true ↔
  ∃ ts, lh = Some ts ∧ offline_timeout p <= Z.max 0 (now - ts).
Proof.
  unfold is_stale. destruct lh as [ts|]; [|naive_solver].
  destruct (Z.le_gt_cases ts now) as [Hle|Hgt].
  - rewrite duration_since_pos by done. cbn. rewrite Z.leb_le. split.
    + intros Ht. exists ts. split; [done|lia].
    + intros (? & [= <-] & Ht). lia.
  - rewrite duration_since_neg by done. cbn. rewrite Z.leb_le. split.
    + intros Ht. exists ts. split; [done|lia].
    + intros (? & [= <-] & Ht). lia.
Qed.

(** ** Properties *)

(** Health classification is exact: with the default policy (the one the
    server runs with) and any [u32] counts, the floating-point comparison of
    the utilization with [0.9] decides the integer test
    [10 * active >= 9 * max]; rounding never misclassifies a node. Draining
    and offline nodes keep their state. *)
Theorem reclassify_exact (s : NodeState) (active max : Z) :
  is_u32 active = true → is_u32 max = true →
  reclassify_after_heartbeat s active max HealthPolicy_default =
  match s with
  | Draining | Offline => s
  | _ => if 9 * max <=? 10 * active then Degraded else Healthy
  end.
Proof. rewrite !is_u32_iff. apply reclassify_default. Qed.

Lemma reclassify_exact_witness :
  reclassify_after_heartbeat Starting 3865470565 4294967295 HealthPolicy_default = Healthy ∧
  reclassify_after_heartbeat Healthy 3865470566 4294967295 HealthPolicy_default = Degraded.
Proof.
  split.
  - apply (reclassify_exact Starting 3865470565 4294967295); reflexivity.
  - apply (reclassify_exact Healthy 3865470566 4294967295); reflexivity.
Defined.

(** Staleness: a node is stale exactly when it has sent a heartbeat and
    the time since it (zero if the clock went back) reached the timeout; a node
    that never sent one is never stale. *)
Theorem is_stale_spec (C : Chrono) (L : ChronoLaws C) (lh : option Z) (now : Z) (p : HealthPolicy) :
  is_stale lh now p = true ↔
  ∃ ts, lh = Some ts ∧ offline_timeout p <= Z.max 0 (now - ts).
Proof. apply is_stale_iff. Qed.

Lemma is_stale_spec_witness :
  @is_stale chrono_reference (Some 0) (30 * NANOS) HealthPolicy_default = true.
Proof.
  apply (is_stale_spec chrono_reference chrono_reference_laws). exists 0.
  split; [reflexivity|vm_compute; discriminate].
Defined.
