(* ===== verification/Bandwidth.v ===== *)
(** * Bandwidth allocation

    [crates/control-plane/src/bandwidth.rs]. An allocator and its guards share
    one atomic counter through an [Arc]: counters live in a heap and both hold
    its location. The file has two views of [try_reserve]: the function run by
    one task, with the spurious failures of [compare_exchange_weak] as an
    oracle, and a step relation in which any number of tasks interleave at the
    granularity of the atomic instructions. *)

From stdpp Require Import base tactics decidable numbers list gmap.
From Stdlib Require Import ZArith Lia.
From S2P Require Import Prelude F64 Model.

(** ** The shared counters *)
Abbreviation Heap := (gmap nat Z).

Record BandwidthAllocator : Type := mkAllocator { ba_limit : Z; ba_reserved : nat }.
Record BandwidthGuard : Type := mkGuard { bg_reserved : nat; bg_rate : Z }.

#[export] Instance BandwidthAllocator_eq_dec : EqDecision BandwidthAllocator.
Proof. solve_decision. Defined.

Definition alloc_loc (h : Heap) : nat := fresh (dom h).

(** [BandwidthAllocator::new]: a fresh counter at zero. *)
Definition BandwidthAllocator_new (limit_bytes_per_sec : Z) (h : Heap) :
  BandwidthAllocator * Heap :=
  let l := alloc_loc h in
  ({| ba_limit := limit_bytes_per_sec; ba_reserved := l |}, <[l := 0]> h).

Definition load (h : Heap) (l : nat) : Z := default 0 (h !! l).

(** [compare_exchange_weak(current, next)]: may fail spuriously. *)
Definition compare_exchange_weak (spurious : bool) (h : Heap) (l : nat) (current next : Z) :
  bool * Heap :=
  if negb spurious && (load h l =? current) then (true, <[l := next]> h) else (false, h).

(** [try_reserve]: each element of [oracle] says whether the corresponding
    exchange fails spuriously; when it is exhausted exchanges are honest. The
    recursion is the [loop], on one more attempt than the oracle has entries. *)
Fixpoint try_reserve_loop (oracle : list bool) (a : BandwidthAllocator) (rate : Z) (h : Heap) :
  option BandwidthGuard * Heap :=
  let current := load h (ba_reserved a) in
  match checked_add_u64 current rate with
  | None => (None, h)
  | Some next =>
      if ba_limit a <? next then (None, h)
      else
        let guard := {| bg_reserved := ba_reserved a; bg_rate := rate |} in
        match oracle with
        | [] =>
            let '(ok, h') := compare_exchange_weak false h (ba_reserved a) current next in
            (if ok then Some guard else None, h')
        | spurious :: oracle' =>
            let '(ok, h') := compare_exchange_weak spurious h (ba_reserved a) current next in
            if ok then (Some guard, h') else try_reserve_loop oracle' a rate h'
        end
  end.

Definition try_reserve (oracle : list bool) (a : BandwidthAllocator) (rate : Z) (h : Heap) :
  option BandwidthGuard * Heap :=
  try_reserve_loop oracle a rate h.

Definition ba_available (a : BandwidthAllocator) (h : Heap) : Z :=
  saturating_sub (ba_limit a) (load h (ba_reserved a)).

Definition ba_reserved_now (a : BandwidthAllocator) (h : Heap) : Z := load h (ba_reserved a).

Definition ba_utilization (a : BandwidthAllocator) (h : Heap) : f64 :=
  if ba_limit a =? 0 then f64_1
  else f64_clamp (f64_div (f64_of_Z (ba_reserved_now a h)) (f64_of_Z (ba_limit a))) f64_0 f64_1.

(** [Drop for BandwidthGuard]: [fetch_sub] wraps. *)
Definition BandwidthGuard_drop (g : BandwidthGuard) (h : Heap) : Heap :=
  <[bg_reserved g := wrapping_sub_u64 (load h (bg_reserved g)) (bg_rate g)]> h.

(** ** One task *)
Lemma load_insert h l v : load (<[l := v]> h) l = v.
Proof. unfold load. by rewrite lookup_insert_eq. Qed.

Lemma load_insert_ne h l l' v : l ≠ l' → load (<[l := v]> h) l' = load h l'.
Proof. intros. unfold load. by rewrite lookup_insert_ne. Qed.

#[export] Hint Rewrite load_insert : rust.

(** The specification of a reservation: it is granted exactly when it fits. *)
Definition reserve_spec (a : BandwidthAllocator) (rate : Z) (h : Heap) :
  option BandwidthGuard * Heap :=
  let next := load h (ba_reserved a) + rate in
  if next <=? ba_limit a
  then (Some {| bg_reserved := ba_reserved a; bg_rate := rate |}, <[ba_reserved a := next]> h)
  else (None, h).

Lemma try_reserve_loop_spec oracle a rate h :
  ba_limit a < U64_MOD → try_reserve_loop oracle a rate h = reserve_spec a rate h.
Proof.
  intros Hlim. induction oracle as [|sp oracle IH]; cbn [try_reserve_loop];
    unfold reserve_spec, checked_add_u64 in *.
  all: destruct (Z.ltb_spec (load h (ba_reserved a) + rate) U64_MOD) as [Hov|Hov];
    [|destruct (Z.leb_spec (load h (ba_reserved a) + rate) (ba_limit a)); [lia|done]].
  all: destruct (Z.ltb_spec (ba_limit a) (load h (ba_reserved a) + rate)) as [Hgt|Hle];
    [by rewrite (proj2 (Z.leb_gt _ _)) | rewrite (proj2 (Z.leb_le _ _)) in * by lia].
  - unfold compare_exchange_weak. by rewrite Z.eqb_refl.
  - unfold compare_exchange_weak. rewrite Z.eqb_refl. destruct sp; [|done]. cbn. by rewrite IH.
Qed.

Lemma try_reserve_spec oracle a rate h :
  ba_limit a < U64_MOD → try_reserve oracle a rate h = reserve_spec a rate h.
Proof. apply try_reserve_loop_spec. Qed.

(** ** Interleaved tasks

    A task is outside the allocator, at the head of the loop, between the
    checks and the exchange, or holds a guard. [limit] is the allocator's
    ceiling, shared and constant. *)
Inductive task : Type :=
| TIdle
| TLoop (rate : Z)
| TCas (rate current next : Z)
| THold (rate : Z).

Record world : Type := mkWorld { w_counter : Z; w_tasks : list task }.

Section interleaving.
Context (limit : Z).

Inductive label : Type := LCall (i : nat) (rate : Z) | LRefuse (i : nat) (rate : Z)
  | LTau | LGrant (i : nat) (rate : Z) | LDrop (i : nat) (rate : Z).

Inductive step : world → label → world → Prop :=
| step_call c ts i rate :
    ts !! i = Some TIdle → 0 <= rate < U64_MOD →
    step {| w_counter := c; w_tasks := ts |} (LCall i rate)
         {| w_counter := c; w_tasks := <[i := TLoop rate]> ts |}
| step_overflow c ts i rate :
    ts !! i = Some (TLoop rate) → checked_add_u64 c rate = None →
    step {| w_counter := c; w_tasks := ts |} (LRefuse i rate)
         {| w_counter := c; w_tasks := <[i := TIdle]> ts |}
| step_over_limit c ts i rate next :
    ts !! i = Some (TLoop rate) → checked_add_u64 c rate = Some next → limit < next →
    step {| w_counter := c; w_tasks := ts |} (LRefuse i rate)
         {| w_counter := c; w_tasks := <[i := TIdle]> ts |}
| step_load c ts i rate next :
    ts !! i = Some (TLoop rate) → checked_add_u64 c rate = Some next → next <= limit →
    step {| w_counter := c; w_tasks := ts |} LTau
         {| w_counter := c; w_tasks := <[i := TCas rate c next]> ts |}
| step_cas_fail c ts i rate current next :
    ts !! i = Some (TCas rate current next) →
    step {| w_counter := c; w_tasks := ts |} LTau
         {| w_counter := c; w_tasks := <[i := TLoop rate]> ts |}
| step_cas_ok c ts i rate next :
    ts !! i = Some (TCas rate c next) →
    step {| w_counter := c; w_tasks := ts |} (LGrant i rate)
         {| w_counter := next; w_tasks := <[i := THold rate]> ts |}
| step_drop c ts i rate :
    ts !! i = Some (THold rate) →
    step {| w_counter := c; w_tasks := ts |} (LDrop i rate)
         {| w_counter := wrapping_sub_u64 c rate; w_tasks := <[i := TIdle]> ts |}.

Inductive reachable (w0 : world) : world → Prop :=
| reach_refl : reachable w0 w0
| reach_step w l w' : reachable w0 w → step w l w' → reachable w0 w'.

(** [n] tasks, none in the allocator. *)
Definition initial (n : nat) : world := {| w_counter := 0; w_tasks := replicate n TIdle |}.

(** What a task holds. *)
Definition held (t : task) : Z := match t with THold r => r | _ => 0 end.
Fixpoint total (ts : list task) : Z :=
  match ts with
  | [] => 0
  | t :: ts => held t + total ts
  end.

(** Local invariant of a task. *)
Definition task_ok (t : task) : Prop :=
  match t with
  | TIdle => True
  | TLoop r | THold r => 0 <= r < U64_MOD
  | TCas r current next => 0 <= r < U64_MOD ∧ next = current + r ∧ next <= limit
  end.

Definition inv (w : world) : Prop :=
  w_counter w = total (w_tasks w) ∧ 0 <= w_counter w <= limit ∧
  Forall task_ok (w_tasks w).

Lemma total_insert ts i t t' :
  ts !! i = Some t → total (<[i := t']> ts) = total ts - held t + held t'.
Proof.
  revert i. induction ts as [|u ts IH]; intros [|i] Hi; try done.
  - injection Hi as ->. cbn. lia.
  - change (total (<[S i := t']> (u :: ts))) with (held u + total (<[i := t']> ts)).
    rewrite (IH _ Hi). cbn [total]. lia.
Qed.

Lemma total_nonneg ts : Forall task_ok ts → 0 <= total ts.
Proof.
  induction 1 as [|t ts Ht _ IH]; cbn; [lia|]. destruct t; cbn in *; lia.
Qed.

Lemma held_le_total ts i t : Forall task_ok ts → ts !! i = Some t → held t <= total ts.
Proof.
  intros Hok Hi. pose proof (total_insert ts i t TIdle Hi) as Ht. cbn in Ht.
  assert (0 <= total (<[i := TIdle]> ts)) by (apply total_nonneg, Forall_insert; done). lia.
Qed.

Lemma inv_initial n : 0 <= limit → inv (initial n).
Proof.
  intros Hl. unfold inv, initial. cbn. split_and!; [|lia|lia|by apply Forall_replicate].
  induction n; cbn in *; lia.
Qed.

Lemma inv_step w l w' : limit < U64_MOD → inv w → step w l w' → inv w'.
Proof.
  intros Hlim (Hc & Hr & Hok) Hs.
  assert (Hins : ∀ i t t', w_tasks w !! i = Some t → task_ok t' →
            Forall task_ok (<[i := t']> (w_tasks w))) by (intros; by apply Forall_insert).
  assert (Hget : ∀ i t, w_tasks w !! i = Some t → task_ok t)
    by (intros i t Hi; by eapply Forall_lookup_1).
  destruct Hs as [c ts i rate Hi Hrate|c ts i rate Hi Hov|c ts i rate next Hi Ha Hgt
    |c ts i rate next Hi Ha Hle|c ts i rate cur next Hi|c ts i rate next Hi|c ts i rate Hi];
    cbn [w_counter w_tasks] in *; pose proof (Hget _ _ Hi) as Ht; unfold inv;
    cbn [w_counter w_tasks]; rewrite (total_insert _ _ _ _ Hi); cbn [held task_ok] in *.
  - split_and!; [lia..|]. by eapply Hins.
  - split_and!; [lia..|]. by eapply Hins.
  - split_and!; [lia..|]. by eapply Hins.
  - unfold checked_add_u64 in Ha. destruct (Z.ltb_spec (c + rate) U64_MOD); [|done].
    injection Ha as <-. split_and!; [lia..|]. by eapply Hins.
  - destruct Ht as (? & ? & ?). split_and!; [lia..|]. by eapply Hins.
  - destruct Ht as (? & -> & ?). split_and!; [lia..|]. by eapply Hins.
  - pose proof (held_le_total _ _ _ Hok Hi) as Hh. cbn in Hh. unfold wrapping_sub_u64.
    rewrite Z.mod_small by lia. split_and!; [lia..|]. by eapply Hins.
Qed.

Lemma inv_reachable n w :
  0 <= limit < U64_MOD → reachable (initial n) w → inv w.
Proof.
  intros Hl. induction 1 as [|w l w' _ IH Hs]; [apply inv_initial; lia|].
  by eapply inv_step; [lia|..].
Qed.
End interleaving.

(** ** The abstract ledger

    What the allocator promises: a ledger of reservations, one slot per task,
    in which a reservation is granted only when it fits and refused only when
    it does not. *)
Section ledger.
Context (limit : Z).

Definition ledger : Type := list (option Z).

Fixpoint ledger_sum (l : ledger) : Z :=
  match l with
  | [] => 0
  | o :: l => default 0 o + ledger_sum l
  end.

Inductive ledger_step : ledger → label → ledger → Prop :=
| ledger_grant l i r :
    l !! i = Some None → ledger_sum l + r <= limit →
    ledger_step l (LGrant i r) (<[i := Some r]> l)
| ledger_release l i r :
    l !! i = Some (Some r) → ledger_step l (LDrop i r) (<[i := None]> l)
| ledger_refuse l i r :
    l !! i = Some None → limit < ledger_sum l + r → ledger_step l (LRefuse i r) l
| ledger_call l i r : ledger_step l (LCall i r) l
| ledger_tau l : ledger_step l LTau l.

Definition abs_task (t : task) : option Z := match t with THold r => Some r | _ => None end.
Definition abs (w : world) : ledger := abs_task <$> w_tasks w.

Lemma ledger_sum_abs (ts : list task) : ledger_sum (abs_task <$> ts) = total ts.
Proof.
  induction ts as [|t ts IH]; [done|]. cbn [fmap list_fmap ledger_sum total].
  rewrite <- IH. by destruct t.
Qed.

Lemma abs_insert_same (ts : list task) (i : nat) t t' :
  ts !! i = Some t → abs_task t' = abs_task t → abs_task <$> <[i := t']> ts = abs_task <$> ts.
Proof.
  intros Hi Ht. rewrite list_fmap_insert, Ht. apply list_insert_id.
  rewrite list_lookup_fmap, Hi. done.
Qed.

Lemma abs_lookup (ts : list task) (i : nat) t :
  ts !! i = Some t → (abs_task <$> ts) !! i = Some (abs_task t).
Proof. intros Hi. by rewrite list_lookup_fmap, Hi. Qed.

Lemma step_simulates w l w' :
  limit < U64_MOD → inv limit w → step limit w l w' → ledger_step (abs w) l (abs w').
Proof.
  intros Hlim (Hc & Hr & Hok) Hs. unfold abs.
  destruct Hs as [c ts i rate Hi Hrate|c ts i rate Hi Hov|c ts i rate next Hi Ha Hgt
    |c ts i rate next Hi Ha Hle|c ts i rate cur next Hi|c ts i rate next Hi|c ts i rate Hi];
    cbn [w_counter w_tasks] in *.
  - rewrite (abs_insert_same _ _ _ _ Hi) by done. constructor.
  - rewrite (abs_insert_same _ _ _ _ Hi) by done. constructor.
    + apply (abs_lookup _ _ _ Hi).
    + rewrite ledger_sum_abs. unfold checked_add_u64 in Hov.
      destruct (Z.ltb_spec (c + rate) U64_MOD); [done|lia].
  - rewrite (abs_insert_same _ _ _ _ Hi) by done. constructor.
    + apply (abs_lookup _ _ _ Hi).
    + rewrite ledger_sum_abs. unfold checked_add_u64 in Ha.
      destruct (Z.ltb_spec (c + rate) U64_MOD); [injection Ha as <-; lia|done].
  - rewrite (abs_insert_same _ _ _ _ Hi) by done. constructor.
  - rewrite (abs_insert_same _ _ _ _ Hi) by done. constructor.
  - pose proof (Forall_lookup_1 _ _ _ _ Hok Hi) as (_ & -> & ?).
    rewrite list_fmap_insert. constructor; [apply (abs_lookup _ _ _ Hi)|].
    rewrite ledger_sum_abs. lia.
  - rewrite list_fmap_insert. constructor. apply (abs_lookup _ _ _ Hi).
Qed.
End ledger.

(** ** Properties *)

(** (C23) No over-commitment, under every interleaving: from any number of
    tasks outside the allocator, after any sequence of loads, exchanges
    (spurious failures included) and guard drops, the shared counter equals the
    sum of the rates of the live guards and never exceeds the ceiling, and the
    plain [fetch_sub] of a drop never wraps. *)
Theorem allocator_no_overcommit (limit : Z) (n : nat) (w : world) :
  is_u64 limit = true → reachable limit (initial n) w →
  w_counter w = total (w_tasks w) ∧ 0 <= w_counter w <= limit ∧
  ∀ i rate, w_tasks w !! i = Some (THold rate) →
    wrapping_sub_u64 (w_counter w) rate = w_counter w - rate.
Proof.
  intros Hl%is_u64_iff Hr. pose proof (inv_reachable limit n w Hl Hr) as (Hc & Hb & Hok).
  split_and!; [done|lia|lia|]. intros i rate Hi.
  pose proof (held_le_total limit _ _ _ Hok Hi) as Hh. cbn in Hh.
  pose proof (Forall_lookup_1 _ _ _ _ Hok Hi) as Hrate. cbn in Hrate.
  unfold wrapping_sub_u64. apply Z.mod_small. lia.
Qed.

Lemma allocator_no_overcommit_witness :
  let w := {| w_counter := 600; w_tasks := [THold 600; TCas 400 0 400] |} in
  w_counter w = total (w_tasks w) ∧ 0 <= w_counter w <= 1000 ∧
  ∀ i rate, w_tasks w !! i = Some (THold rate) →
    wrapping_sub_u64 (w_counter w) rate = w_counter w - rate.
Proof.
  apply (allocator_no_overcommit 1000 2); [reflexivity|].
  eapply reach_step; [eapply reach_step; [eapply reach_step; [eapply reach_step;
    [eapply reach_step; [apply reach_refl|]|]|]|]|].
  - apply (step_call 1000 _ _ 0 600); [reflexivity|unfold U64_MOD; lia].
  - apply (step_call 1000 _ _ 1 400); [reflexivity|unfold U64_MOD; lia].
  - apply (step_load 1000 _ _ 0 600 600); [reflexivity|reflexivity|lia].
  - apply (step_load 1000 _ _ 1 400 400); [reflexivity|reflexivity|lia].
  - exact (step_cas_ok 1000 0 [TCas 600 0 600; TCas 400 0 400] 0 600 600 eq_refl).
Defined.

(** (C24) Refinement: every step of the interleaved allocator is a step of the
    abstract ledger with the same label. In particular a reservation is granted
    only when it fits at that moment and refused only when it does not. *)
Theorem allocator_refines_ledger (limit : Z) (n : nat) (w w' : world) (l : label) :
  is_u64 limit = true → reachable limit (initial n) w → step limit w l w' →
  ledger_step limit (abs w) l (abs w').
Proof.
  intros Hl%is_u64_iff Hr Hs. apply step_simulates; [lia| |done].
  by eapply inv_reachable.
Qed.

Lemma allocator_refines_ledger_witness :
  ledger_step 1000 [None] (LGrant 0 600) [Some 600].
Proof.
  apply (allocator_refines_ledger 1000 1 {| w_counter := 0; w_tasks := [TCas 600 0 600] |}
           {| w_counter := 600; w_tasks := [THold 600] |} (LGrant 0 600)); [reflexivity| |].
  - eapply reach_step; [eapply reach_step; [apply reach_refl|]|].
    + apply (step_call 1000 _ _ 0 600); [reflexivity|unfold U64_MOD; lia].
    + refine (step_load 1000 0 [TLoop 600] 0 600 600 eq_refl eq_refl _). lia.
  - exact (step_cas_ok 1000 0 [TCas 600 0 600] 0 600 600 eq_refl).
Defined.

(** [try_reserve] terminates with the right answer whatever spurious
    failures the exchange has: the reservation is granted exactly when
    [reserved + rate <= limit], the counter then grows by [rate], a refusal
    changes nothing, and dropping the guard restores the counter. *)
Theorem try_reserve_correct (oracle : list bool) (a : BandwidthAllocator) (rate : Z) (h : Heap) :
  is_u64 (ba_limit a) = true → is_u64 rate = true → is_u64 (load h (ba_reserved a)) = true →
  match try_reserve oracle a rate h with
  | (Some g, h') =>
      ba_reserved_now a h + rate <= ba_limit a ∧
      ba_reserved_now a h' = ba_reserved_now a h + rate ∧
      load (BandwidthGuard_drop g h') (ba_reserved a) = ba_reserved_now a h
  | (None, h') => ba_limit a < ba_reserved_now a h + rate ∧ h' = h
  end.
Proof.
  intros Hl%is_u64_iff Hr%is_u64_iff Hc%is_u64_iff. rewrite try_reserve_spec by lia.
  unfold reserve_spec, ba_reserved_now.
  destruct (Z.leb_spec (load h (ba_reserved a) + rate) (ba_limit a)); [|by split].
  unfold BandwidthGuard_drop, wrapping_sub_u64. cbn [bg_reserved bg_rate].
  rewrite !load_insert, Z.mod_small by lia. split_and!; lia.
Qed.

Lemma try_reserve_correct_witness :
  try_reserve [true; true] {| ba_limit := 1000; ba_reserved := 7 |} 400 {[7%nat := 600]}
  = (Some {| bg_reserved := 7; bg_rate := 400 |}, {[7%nat := 1000]}) ∧
  600 + 400 <= 1000.
Proof.
  split; [vm_compute; reflexivity|].
  pose proof (try_reserve_correct [true; true] {| ba_limit := 1000; ba_reserved := 7 |} 400
    {[7%nat := 600]} eq_refl eq_refl eq_refl) as H.
  vm_compute in H. exact (proj1 H).
Defined.
