(* ===== verification/Limiter.v ===== *)
(** * The rate limiter

    [RateLimiter] of [crates/control-plane/src/bandwidth.rs], in binary64 as the
    source computes it. Readings of [Instant::now()] are arguments, in
    nanoseconds; [acquire] loops, so it is given the list of the readings its
    successive attempts make, and its result says if they were enough. *)

From stdpp Require Import base tactics decidable numbers list.
From Stdlib Require Import ZArith Lia SpecFloat.
From S2P Require Import Prelude F64.

Record RateLimiter : Type := mkLimiter {
  rl_rate : f64;
  rl_capacity : f64;
  rl_tokens : f64;
  rl_last : Z
}.

Definition RateLimiter_new (rate_bytes_per_sec capacity_bytes : Z) (now : Z) : RateLimiter :=
  {| rl_rate := f64_of_Z rate_bytes_per_sec; rl_capacity := f64_of_Z capacity_bytes;
     rl_tokens := f64_of_Z capacity_bytes; rl_last := now |}.

(** [Instant::duration_since] saturates; [Duration::as_secs_f64]. *)
Definition duration_since (now last : Z) : Z := Z.max 0 (now - last).
Definition as_secs_f64 (ns : Z) : f64 :=
  f64_add (f64_of_Z (ns / 1000000000)) (f64_div (f64_of_Z (ns mod 1000000000)) (f64_of_Z 1000000000)).

Definition refill (now : Z) (l : RateLimiter) : RateLimiter :=
  let elapsed := as_secs_f64 (duration_since now (rl_last l)) in
  let added := f64_mul elapsed (rl_rate l) in
  {| rl_rate := rl_rate l; rl_capacity := rl_capacity l;
     rl_tokens := f64_min (f64_add (rl_tokens l) added) (rl_capacity l); rl_last := now |}.

Definition rl_available (l : RateLimiter) : f64 := rl_tokens l.

Definition try_take (n : Z) (now : Z) (l : RateLimiter) : bool * RateLimiter :=
  let l := refill now l in
  let n := f64_of_Z n in
  if f64_ge (rl_tokens l) n then
    (true, {| rl_rate := rl_rate l; rl_capacity := rl_capacity l;
              rl_tokens := f64_sub (rl_tokens l) n; rl_last := rl_last l |})
  else (false, l).

(** [Duration::from_secs_f64]: the nearest nanosecond, ties to even; it panics
    on a value that is negative, not finite, or too large. *)
Definition div_nearest_even (a b : Z) : Z :=
  let q := a / b in
  match 2 * (a mod b) ?= b with
  | Lt => q
  | Gt => q + 1
  | Eq => if Z.even q then q else q + 1
  end.
Definition from_secs_f64 (secs : f64) : outcome Empty_set Z :=
  match secs with
  | S754_zero _ => Ok 0
  | S754_finite false m e =>
      let ns := if 0 <=? e then Zpos m * 1000000000 * 2 ^ e
                else div_nearest_even (Zpos m * 1000000000) (2 ^ (- e)) in
      if ns / 1000000000 <? U64_MOD then Ok ns else Panic
  | _ => Panic
  end.

(** [acquire]: [None] while it is still waiting after these readings, else its
    result; the sleeps it asked for are returned too. *)
Fixpoint acquire (n : Z) (readings : list Z) (l : RateLimiter) :
  option (outcome Empty_set Z) * list Z * RateLimiter :=
  match readings with
  | [] => (None, [], l)
  | now :: readings =>
      match try_take n now l with
      | (true, l) => (Some (Ok 0), [], l)
      | (false, l) =>
          let missing := f64_sub (f64_of_Z n) (rl_tokens l) in
          let wait := f64_div missing (rl_rate l) in
          match from_secs_f64 (f64_max wait f64_0_001) with
          | Ok d => let '(r, sleeps, l) := acquire n readings l in (r, d :: sleeps, l)
          | _ => (Some Panic, [], l)
          end
      end
  end.

(** A bucket of 1000 bytes at 500 bytes/s: a burst, then half a second of
    waiting for 250 more. *)
Example acquire_waits :
  (acquire 1000 [0] (RateLimiter_new 500 1000 0)).1 = (Some (Ok 0), []) ∧
  (acquire 250 [0; 500000000] (acquire 1000 [0] (RateLimiter_new 500 1000 0)).2).1
  = (Some (Ok 0), [500000000]).
Proof. split; vm_compute; reflexivity. Qed.

(** With a rate of zero the wait is infinite and the conversion panics. *)
Example zero_rate_panics : (acquire 2 [0] (RateLimiter_new 0 1 0)).1.1 = Some Panic.
Proof. vm_compute. reflexivity. Qed.

(** ** The order of floats *)
Lemma ge_trans a b c : f64_ge a b = true → f64_ge b c = true → f64_ge a c = true.
Proof.
  unfold f64_ge.
  destruct a as [sa|[]| |[] ma ea], b as [sb|[]| |[] mb eb], c as [sc|[]| |[] mc ec];
    cbn [SFcompare]; try done;
    destruct (Z.compare_spec ea eb), (Z.compare_spec eb ec), (Z.compare_spec ea ec); try done; try lia;
    unfold Pos.compare in *; 
    change (Pos.compare_cont Eq ma mb) with (Pos.compare ma mb);
    change (Pos.compare_cont Eq mb mc) with (Pos.compare mb mc);
    change (Pos.compare_cont Eq ma mc) with (Pos.compare ma mc);
    destruct (Pos.compare_spec ma mb), (Pos.compare_spec mb mc), (Pos.compare_spec ma mc); try done; try lia.
Qed.

Lemma ge_refl a : a ≠ S754_nan → f64_ge a a = true.
Proof.
  unfold f64_ge. destruct a as [s|[]| |[] m e]; cbn [SFcompare]; try done; intros _;
    rewrite Z.compare_refl; change (Pos.compare_cont Eq m m) with (Pos.compare m m); by rewrite Pos.compare_refl.
Qed.

Lemma ge_not_nan a b : f64_ge a b = true → a ≠ S754_nan ∧ b ≠ S754_nan.
Proof. unfold f64_ge. by destruct a, b. Qed.

Lemma compare_swap a b : SFcompare b a = CompOpp <$> SFcompare a b.
Proof.
  destruct a as [sa|[]| |[] ma ea], b as [sb|[]| |[] mb eb]; cbn [SFcompare fmap option_fmap option_map]; try done;
    f_equal; rewrite (Z.compare_antisym ea eb); destruct (ea ?= eb)%Z; try done; cbn [CompOpp];
    change (Pos.compare_cont Eq mb ma) with (Pos.compare mb ma);
    change (Pos.compare_cont Eq ma mb) with (Pos.compare ma mb);
    rewrite (Pos.compare_antisym ma mb); by destruct (Pos.compare ma mb).
Qed.

Lemma min_le a b : b ≠ S754_nan → f64_ge b (f64_min a b) = true.
Proof.
  intros Hb. unfold f64_min. destruct (SFcompare a b) as [[]|] eqn:E; [| |by apply ge_refl|].
  - unfold f64_ge. by rewrite compare_swap, E.
  - unfold f64_ge. by rewrite compare_swap, E.
  - destruct a; try by apply ge_refl. all: destruct b; done.
Qed.


(** ** Integers as floats

    [rep x f]: [f] is the integer [x], up to saturation at [2 ^ 53]; enough for
    sums and products that are cut off at a capacity below [2 ^ 53]. *)
Definition rep (x : Z) (f : f64) : Prop :=
  (x = 0 ∧ f = f64_0) ∨
  (0 < x ∧ rng 0 130 f ∧ Z.min (fz f) (P53 * pow2 SC) = Z.min x P53 * pow2 SC).

Lemma P53_rne : rne (P53 * pow2 SC) 1 (f64_of_Z P53) ∧ fz (f64_of_Z P53) = P53 * pow2 SC.
Proof.
  assert (Hr : rne (P53 * pow2 SC) 1 (f64_of_Z P53)) by (apply f64_of_Z_rne; unfold U64_MOD; lia).
  split; [done|]. pose proof (rne_upper _ _ _ Hr). pose proof (rne_lower _ _ _ Hr).
  assert (f64_of_Z P53 = S754_finite false 4503599627370496 1) as -> by (vm_compute; reflexivity).
  rewrite fz_finite, pow2_add by (rewrite ?SC_val; lia). change (pow2 1) with 2. lia.
Qed.

Lemma rep_round x X D f :
  0 < x → rne X D f → X <= pow2 (130 + SC) * D →
  (if x <? P53 then X = x * pow2 SC * D else P53 * pow2 SC * D <= X) → rep x f.
Proof.
  intros Hx Hr Hub HX. right. pose proof pow2_SC_pos as HS.
  assert (HD : 0 < D) by (destruct Hr as (? & ? & ? & ? & _); lia).
  split; [done|]. split.
  { apply (rne_rng _ _ _ _ _ Hr); [lia..|]. rewrite Z.add_0_l. split; [|done].
    destruct (Z.ltb_spec x P53); nia. }
  destruct (Z.ltb_spec x P53).
  - assert (Hr' : rne (x * pow2 SC * D) (1 * D) (f64_of_Z x))
      by (apply rne_scale; [done|]; apply f64_of_Z_rne; unfold U64_MOD; lia).
    rewrite Z.mul_1_l, <- HX in Hr'. rewrite (rne_unique _ _ _ _ Hr Hr'), f64_of_Z_exact by lia. nia.
  - destruct P53_rne as [Hp Hz]. pose proof (rne_mono _ _ _ _ _ _ Hp Hr ltac:(lia)). nia.
Qed.

Lemma of_Z_rng n : 0 < n < U64_MOD → rng 0 64 (f64_of_Z n).
Proof.
  intros Hn. apply (rne_rng _ _ _ _ _ (f64_of_Z_rne n Hn)); [lia..|].
  rewrite Z.mul_1_r, Z.add_0_l, pow2_add by (rewrite ?SC_val; lia). pose proof pow2_SC_pos.
  change (pow2 64) with U64_MOD. nia.
Qed.

Lemma of_Z_0 : f64_of_Z 0 = f64_0.
Proof. by vm_compute. Qed.

Lemma rep_of_Z n : 0 <= n < U64_MOD → rep n (f64_of_Z n).
Proof.
  intros Hn. destruct (decide (n = 0)) as [->|Hn0]; [left; by rewrite of_Z_0|].
  pose proof pow2_SC_pos. apply (rep_round n (n * pow2 SC) 1).
  - lia.
  - apply f64_of_Z_rne. lia.
  - rewrite pow2_add by (rewrite ?SC_val; lia). pose proof (pow2_mono 64 130 ltac:(lia)).
    change (pow2 64) with U64_MOD in *. nia.
  - destruct (Z.ltb_spec n P53); nia.
Qed.

Lemma rep_value x f : rep x f → 0 <= x ∧ nonneg f ∧ Z.min (fz f) (P53 * pow2 SC) = Z.min x P53 * pow2 SC.
Proof.
  pose proof pow2_SC_pos. intros [[-> ->]|(Hx & Hf & Hz)].
  - rewrite fz_0. split_and!; [done|by left|lia].
  - split_and!; [lia|by eapply rng_nonneg|done].
Qed.

Lemma min_exact A a S : Z.min A (P53 * S) = Z.min a P53 * S → a < P53 → 0 < S → A = a * S.
Proof. intros H Ha HS. rewrite (Z.min_l a) in H by lia. destruct (Z.min_spec A (P53 * S)); nia. Qed.

(** The product of two [u64] values. *)
Lemma rep_mul a b : 0 <= a < U64_MOD → 0 <= b < U64_MOD → rep (a * b) (f64_mul (f64_of_Z a) (f64_of_Z b)).
Proof.
  intros Ha Hb. destruct (decide (a = 0)) as [->|Ha0].
  { left. split; [done|]. rewrite of_Z_0. destruct (decide (b = 0)) as [->|Hb0]; [by vm_compute|].
    destruct (f64_of_Z_nf b ltac:(lia)) as (m & e & [-> _] & _). by vm_compute. }
  destruct (decide (b = 0)) as [->|Hb0].
  { left. split; [lia|]. rewrite of_Z_0.
    destruct (f64_of_Z_nf a ltac:(lia)) as (m & e & [-> _] & _). by vm_compute. }
  pose proof (of_Z_rng a ltac:(lia)) as Hra. pose proof (of_Z_rng b ltac:(lia)) as Hrb.
  pose proof (rep_value _ _ (rep_of_Z a Ha)) as (_ & _ & Hza).
  pose proof (rep_value _ _ (rep_of_Z b Hb)) as (_ & _ & Hzb). pose proof pow2_SC_pos as HS.
  eapply rep_round; [nia|by eapply f64_mul_ok; eauto; lia|..].
  - destruct Hra as (_ & _ & _ & _ & Hra), Hrb as (_ & _ & _ & _ & Hrb).
    rewrite (pow2_add 0), (pow2_add 64) in Hra, Hrb by (rewrite ?SC_val; lia).
    rewrite (pow2_add 130) by (rewrite ?SC_val; lia).
    pose proof (pow2_mono 128 130 ltac:(lia)). change (pow2 128) with (pow2 64 * pow2 64) in *.
    set (M := pow2 64) in *. set (S := pow2 SC) in *.
    change (pow2 0) with 1 in *.
    apply Z.le_trans with ((M * S) * (M * S)); [apply Z.mul_le_mono_nonneg; lia|].
    replace (M * S * (M * S)) with (M * M * (S * S)) by ring.
    rewrite <- (Z.mul_assoc (pow2 130)).
    apply Z.mul_le_mono_nonneg_r; nia.
  - set (A := fz (f64_of_Z a)) in *. set (B := fz (f64_of_Z b)) in *. set (S := pow2 SC) in *.
    assert (HA : Z.min a P53 * S <= A) by (rewrite <- Hza; apply Z.le_min_l).
    assert (HB : Z.min b P53 * S <= B) by (rewrite <- Hzb; apply Z.le_min_l).
    destruct (Z.ltb_spec (a * b) P53).
    + assert (a < P53 ∧ b < P53) as [? ?] by nia. rewrite (min_exact _ _ _ Hza), (min_exact _ _ _ Hzb) by lia. ring.
    + destruct (Z.lt_ge_cases a P53), (Z.lt_ge_cases b P53).
      * rewrite Z.min_l in HA, HB by lia. nia.
      * rewrite Z.min_l in HA by lia. rewrite Z.min_r in HB by lia.
        apply Z.le_trans with ((1 * S) * (P53 * S)); [lia|]. apply Z.mul_le_mono_nonneg; nia.
      * rewrite Z.min_l in HB by lia. rewrite Z.min_r in HA by lia.
        apply Z.le_trans with ((P53 * S) * (1 * S)); [lia|]. apply Z.mul_le_mono_nonneg; nia.
      * rewrite Z.min_r in HA, HB by lia.
        apply Z.le_trans with ((P53 * S) * (1 * S)); [lia|]. apply Z.mul_le_mono_nonneg; nia.
Qed.

Definition positive_or_zero (f : f64) : bool :=
  match f with S754_zero false | S754_finite false _ _ => true | _ => false end.
Lemma add_0_l f : positive_or_zero f = true → f64_add f64_0 f = f.
Proof. by destruct f as [[]| | |[]]. Qed.
Lemma add_0_r f : positive_or_zero f = true → f64_add f f64_0 = f.
Proof. by destruct f as [[]| | |[]]. Qed.

(** Adding to an exact integer. *)
Lemma rep_add t a f :
  0 <= t < P53 → 0 <= a → rep a f → rng 0 128 f ∨ f = f64_0 →
  rep (t + a) (f64_add (f64_of_Z t) f).
Proof.
  intros Ht Ha Hf Hr. pose proof pow2_SC_pos as HS.
  destruct (decide (t = 0)) as [->|Ht0].
  { rewrite of_Z_0, Z.add_0_l. by rewrite add_0_l by (destruct Hr as [(m & e & [-> _] & _)| -> ]; done). }
  destruct Hf as [[-> ->]|(Ha0 & _ & Hz)].
  { rewrite Z.add_0_r. destruct (f64_of_Z_nf t) as (m & e & [E _] & _); [unfold U64_MOD; lia|].
    rewrite add_0_r by (by rewrite E). apply rep_of_Z. unfold U64_MOD. lia. }
  destruct Hr as [Hr| -> ]; [|rewrite fz_0 in Hz; lia].
  pose proof (of_Z_rng t ltac:(unfold U64_MOD; lia)) as Hrt.
  pose proof Hr as (m1 & e1 & Hn1 & _ & Hb1). pose proof Hrt as (m2 & e2 & Hn2 & _ & _).
  pose proof (rng_exp _ _ _ _ _ Hr Hn1 ltac:(lia) ltac:(lia)).
  pose proof (rng_exp _ _ _ _ _ Hrt Hn2 ltac:(lia) ltac:(lia)).
  eapply rep_round; [lia|by eapply f64_add_rne; eauto; lia|..]; rewrite f64_of_Z_exact by lia.
  - rewrite (pow2_add 128) in Hb1 by (rewrite ?SC_val; lia).
    rewrite (pow2_add 130) by (rewrite ?SC_val; lia).
    change (pow2 130) with (4 * pow2 128). pose proof (pow2_mono 53 128 ltac:(lia)).
    rewrite pow2_53 in *. nia.
  - destruct (Z.ltb_spec (t + a) P53); nia.
Qed.

Lemma fz_inj f g : nonneg f → nonneg g → fz f = fz g → f = g.
Proof.
  intros Hf Hg Hz. pose proof (f64_cmp_value f g Hf Hg) as Hc. rewrite Hz, Z.compare_refl in Hc.
  unfold f64_partial_cmp in Hc.
  destruct Hf as [->|(m & e & [-> _] & _)], Hg as [->|(m' & e' & [-> _] & _)]; try done.
  cbn [SFcompare] in Hc. change (Pos.compare_cont Eq m m') with (Pos.compare m m') in Hc.
  destruct (Z.compare_spec e e') as [->| |]; try done.
  destruct (Pos.compare_spec m m') as [->| |]; done.
Qed.

Lemma of_Z_value n : 0 <= n < P53 → fz (f64_of_Z n) = n * pow2 SC ∧ nonneg (f64_of_Z n).
Proof.
  intros Hn. destruct (decide (n = 0)) as [->|Hn0].
  - rewrite of_Z_0. split; [by rewrite fz_0|by left].
  - split; [apply f64_of_Z_exact; lia|].
    eapply rng_nonneg, of_Z_rng. unfold U64_MOD. lia.
Qed.

Lemma rep_exact x f : rep x f → x < P53 → f = f64_of_Z x.
Proof.
  intros Hf Hx. pose proof (rep_value _ _ Hf) as (Hx0 & Hn & Hz). pose proof pow2_SC_pos.
  destruct (of_Z_value x) as [Hv Hn']; [lia|]. apply fz_inj; [done..|]. rewrite Hv. nia.
Qed.

(** Comparison with, and cut-off at, an exact integer. *)
Lemma rep_cmp x f n : rep x f → 0 <= n < P53 → SFcompare f (f64_of_Z n) = Some (x ?= n).
Proof.
  intros Hf Hn. pose proof (rep_value _ _ Hf) as (Hx0 & Hnn & Hz). pose proof pow2_SC_pos.
  destruct (of_Z_value n) as [Hv Hn']; [lia|].
  pose proof (f64_cmp_value f _ Hnn Hn') as Hc. unfold f64_partial_cmp in Hc. rewrite Hc, Hv. f_equal.
  destruct (Z.compare_spec x n); [apply Z.compare_eq_iff|apply Z.compare_lt_iff|apply Z.compare_gt_iff]; nia.
Qed.

Lemma rep_min x f cap :
  rep x f → 0 <= cap < P53 → f64_min f (f64_of_Z cap) = f64_of_Z (Z.min x cap).
Proof.
  intros Hf Hc. unfold f64_min. rewrite (rep_cmp x) by done. unfold Z.min.
  destruct (Z.compare_spec x cap); [..|done]; apply rep_exact; done || lia.
Qed.

Lemma of_Z_ge t n : 0 <= t < P53 → 0 <= n < U64_MOD → f64_ge (f64_of_Z t) (f64_of_Z n) = (n <=? t).
Proof.
  intros Ht Hn. unfold f64_ge. rewrite compare_swap, (rep_cmp n) by (apply rep_of_Z || done; done).
  cbn. rewrite Z.leb_compare. by destruct (n ?= t).
Qed.

Lemma of_Z_sub t n : 0 <= n <= t → t < P53 → f64_sub (f64_of_Z t) (f64_of_Z n) = f64_of_Z (t - n).
Proof.
  intros Hn Ht. destruct (decide (n = 0)) as [->|Hn0].
  { rewrite of_Z_0, Z.sub_0_r. destruct (decide (t = 0)) as [->|]; [by vm_compute|].
    destruct (f64_of_Z_nf t) as (m & e & [-> _] & _); [unfold U64_MOD; lia|]. by vm_compute. }
  destruct (f64_of_Z_nf t) as (m & e & Hnt & He); [unfold U64_MOD; lia|].
  destruct (f64_of_Z_nf n) as (m' & e' & Hnn & He'); [unfold U64_MOD; lia|].
  pose proof pow2_SC_pos as HS.
  pose proof (f64_of_Z_exact t ltac:(lia)) as Vt. pose proof (f64_of_Z_exact n ltac:(lia)) as Vn.
  pose proof (f64_sub_rne _ _ _ _ _ _ Hnt Hnn ltac:(lia) ltac:(lia) ltac:(nia)) as Hs.
  rewrite Vt, Vn in Hs. destruct (Z.eqb_spec (n * pow2 SC) (t * pow2 SC)) as [E|E].
  { assert (n = t) as -> by nia. by rewrite Hs, Z.sub_diag, of_Z_0. }
  assert (n ≠ t) by (by intros ->). destruct (of_Z_value (t - n)) as [Hv Hnv]; [lia|].
  apply fz_inj; [by eapply rne_nonneg|done|]. eapply rne_unique; [done|].
  rewrite <- Z.mul_sub_distr_r. apply f64_of_Z_rne. unfold U64_MOD. lia.
Qed.

(** ** The limiter against an integer token bucket

    At readings that are whole seconds apart the floats are exact, and the
    limiter is the token bucket over the integers below. A request is the
    seconds since the previous one and the bytes asked for. *)
Fixpoint bucket (rate cap : Z) (reqs : list (Z * Z)) (t : Z) : list bool * Z :=
  match reqs with
  | [] => ([], t)
  | (dt, n) :: reqs =>
      let t := Z.min (t + dt * rate) cap in
      let t' := if n <=? t then t - n else t in
      let '(oks, rest) := bucket rate cap reqs t' in ((n <=? t) :: oks, rest)
  end.

Fixpoint take_all (reqs : list (Z * Z)) (now : Z) (l : RateLimiter) : list bool * RateLimiter :=
  match reqs with
  | [] => ([], l)
  | (dt, n) :: reqs =>
      let now := now + dt * 1000000000 in
      let '(ok, l) := try_take n now l in
      let '(oks, l) := take_all reqs now l in (ok :: oks, l)
  end.

Fixpoint granted (oks : list bool) (reqs : list (Z * Z)) : Z :=
  match oks, reqs with
  | ok :: oks, (_, n) :: reqs => (if ok then n else 0) + granted oks reqs
  | _, _ => 0
  end.
Definition seconds (reqs : list (Z * Z)) : Z := foldr (λ r s, r.1 + s) 0 reqs.
Definition u64_request (r : Z * Z) : Prop := 0 <= r.1 < U64_MOD ∧ 0 <= r.2 < U64_MOD.

(** A limiter whose bucket holds the integer [t]. *)
Definition holds (rate cap t now : Z) : RateLimiter :=
  {| rl_rate := f64_of_Z rate; rl_capacity := f64_of_Z cap; rl_tokens := f64_of_Z t; rl_last := now |}.

Lemma as_secs_whole dt : 0 <= dt < U64_MOD → as_secs_f64 (dt * 1000000000) = f64_of_Z dt.
Proof.
  intros Hdt. unfold as_secs_f64. rewrite Z.div_mul, Z.mod_mul by lia.
  assert (f64_div (f64_of_Z 0) (f64_of_Z 1000000000) = f64_0) as -> by (by vm_compute).
  apply add_0_r. destruct (decide (dt = 0)) as [->|]; [by vm_compute|].
  by destruct (f64_of_Z_nf dt ltac:(lia)) as (m & e & [-> _] & _).
Qed.

Section token_bucket.
Context (rate cap : Z) (Hrate : 0 <= rate < U64_MOD) (Hcap : 0 <= cap < P53).

Lemma refill_exact t dt now :
  0 <= t <= cap → 0 <= dt < U64_MOD →
  refill (now + dt * 1000000000) (holds rate cap t now)
  = holds rate cap (Z.min (t + dt * rate) cap) (now + dt * 1000000000).
Proof.
  intros Ht Hdt. unfold refill, duration_since, holds. cbn [rl_rate rl_capacity rl_tokens rl_last].
  replace (Z.max 0 _) with (dt * 1000000000) by lia. rewrite as_secs_whole by done. f_equal.
  pose proof (rep_mul dt rate Hdt Hrate) as Hm. apply rep_min; [|done].
  apply rep_add; [lia|nia|done|]. destruct Hm as [[_ ->]|(Hpos & _)]; [by right|left].
  pose proof (rng_mul 0 64 0 64 (f64_of_Z dt) (f64_of_Z rate)) as Hr.
  apply Hr; try lia; apply of_Z_rng; nia.
Qed.

Lemma try_take_exact t dt n now :
  0 <= t <= cap → u64_request (dt, n) →
  try_take n (now + dt * 1000000000) (holds rate cap t now) =
  let t := Z.min (t + dt * rate) cap in
  (n <=? t, holds rate cap (if n <=? t then t - n else t) (now + dt * 1000000000)).
Proof.
  intros Ht [Hdt Hn]. cbn [fst snd] in *. unfold try_take. rewrite refill_exact by done.
  cbn zeta. set (t' := Z.min (t + dt * rate) cap). assert (0 <= t' <= cap) by nia.
  cbn [holds rl_tokens rl_rate rl_capacity rl_last]. rewrite of_Z_ge by (done || lia).
  destruct (Z.leb_spec n t') as [Hle|Hgt]; [|done]. by rewrite of_Z_sub by lia.
Qed.

Lemma take_all_exact reqs : ∀ t now,
  0 <= t <= cap → Forall u64_request reqs →
  let '(oks, l) := take_all reqs now (holds rate cap t now) in
  let '(oks', rest) := bucket rate cap reqs t in
  oks = oks' ∧ rl_available l = f64_of_Z rest ∧ 0 <= rest <= cap ∧
  granted oks reqs + rest <= t + rate * seconds reqs.
Proof.
  induction reqs as [|[dt n] reqs IH]; intros t now Ht Hreqs; cbn [take_all bucket].
  { cbn [granted seconds foldr]. split_and!; [done|done|lia..]. }
  inversion_clear Hreqs as [|? ? Hr Hreqs']. rewrite try_take_exact by done. cbn zeta.
  set (t1 := Z.min (t + dt * rate) cap). destruct Hr as [Hdt Hn]. cbn [fst snd] in *.
  set (t2 := if n <=? t1 then t1 - n else t1).
  assert (Ht2 : 0 <= t2 <= cap) by (unfold t2, t1; destruct (Z.leb_spec n (Z.min (t + dt * rate) cap)); nia).
  specialize (IH t2 (now + dt * 1000000000) Ht2 Hreqs').
  destruct (take_all reqs _ _) as [oks l], (bucket rate cap reqs t2) as [oks' rest].
  destruct IH as (-> & Hl & Hrest & Hsum). split_and!; [done|done|lia|lia|].
  change (seconds ((dt, n) :: reqs)) with (dt + seconds reqs). cbn [granted].
  assert (t1 <= t + dt * rate) by apply Z.le_min_l. unfold t2 in Hsum. destruct (n <=? t1); lia.
Qed.

End token_bucket.

(** (C25) With a capacity below 2^53 bytes, requests that arrive whole seconds
    apart are granted or refused exactly as by an integer token bucket, and the limiter is left with exactly
    the bucket's tokens, never negative and never above the capacity; so the
    bytes granted never exceed one burst of the capacity plus the rate times
    the seconds passed. *)
Theorem limiter_is_token_bucket rate cap now reqs :
  0 <= rate < U64_MOD → 0 <= cap < P53 → Forall u64_request reqs →
  let '(oks, l) := take_all reqs now (RateLimiter_new rate cap now) in
  let '(oks', rest) := bucket rate cap reqs cap in
  oks = oks' ∧ rl_available l = f64_of_Z rest ∧ 0 <= rest <= cap ∧
  granted oks reqs + rest <= cap + rate * seconds reqs.
Proof. intros Hrate Hcap Hreqs. by apply (take_all_exact rate cap Hrate Hcap); [lia|]. Qed.

(** A bucket of 1000 bytes at 500 bytes per second. *)
Lemma limiter_is_token_bucket_witness :
  Forall u64_request [(0, 800); (0, 300); (1, 700); (1, 501)] ∧
  bucket 500 1000 [(0, 800); (0, 300); (1, 700); (1, 501)] 1000 = ([true; false; true; false], 500) ∧
  (let '(oks, l) := take_all [(0, 800); (0, 300); (1, 700); (1, 501)] 7 (RateLimiter_new 500 1000 7) in
   oks = [true; false; true; false] ∧ rl_available l = f64_of_Z 500).
Proof.
  assert (Hf : Forall u64_request [(0, 800); (0, 300); (1, 700); (1, 501)])
    by (repeat constructor; unfold U64_MOD; cbn; lia).
  split; [exact Hf|]. split; [vm_compute; reflexivity|].
  pose proof (limiter_is_token_bucket 500 1000 7 _ ltac:(unfold U64_MOD; lia) ltac:(lia) Hf) as H.
  destruct (take_all _ _ _) as [oks l]. cbn in H. destruct H as (-> & -> & _). split; vm_compute; reflexivity.
Defined.

(** ** Acquiring *)
Lemma refill_le now l :
  rl_capacity l ≠ S754_nan → f64_ge (rl_capacity l) (rl_tokens (refill now l)) = true.
Proof. apply min_le. Qed.

Lemma try_take_le n now l b l' :
  rl_capacity l ≠ S754_nan → try_take n now l = (b, l') →
  rl_capacity l' = rl_capacity l ∧
  (b = true → f64_ge (rl_capacity l) (f64_of_Z n) = true).
Proof.
  intros Hc. unfold try_take. pose proof (refill_le now l Hc) as Hle.
  destruct (f64_ge _ (f64_of_Z n)) eqn:E; intros [= <- <-]; split; try done.
  intros _. by eapply ge_trans.
Qed.

(** (C27) A request larger than the bucket's capacity, which is below 2^53
    bytes, is never granted: however long [acquire] runs, whatever the clock and the state of the bucket, it is
    still waiting (or has panicked in the conversion of its wait). *)
Theorem oversized_acquire_never_returns cap n readings l :
  0 <= cap < P53 → cap < n < U64_MOD → rl_capacity l = f64_of_Z cap →
  (acquire n readings l).1.1 ≠ Some (Ok 0).
Proof.
  intros Hcap Hn Hl. assert (Hge : f64_ge (f64_of_Z cap) (f64_of_Z n) = false)
    by (rewrite of_Z_ge by lia; lia).
  assert (Hnan : f64_of_Z cap ≠ S754_nan).
  { destruct (of_Z_value cap Hcap) as [_ [->|(m & e & [-> _] & _)]]; done. }
  revert l Hl. induction readings as [|now readings IH]; intros l Hl; cbn [acquire]; [done|].
  destruct (try_take n now l) as [b l'] eqn:E.
  apply try_take_le in E as [Hc Hb]; rewrite ?Hl in *; [|done].
  destruct b; [by rewrite Hb in Hge|]. specialize (IH l' Hc).
  destruct (from_secs_f64 _); [|done..]. by destruct (acquire n readings l') as [[r s] l''].
Qed.

(** Eleven bytes from a bucket of ten, tried three times a second apart. *)
Lemma oversized_acquire_never_returns_witness :
  (acquire 11 [0; 1000000000; 2000000000] (RateLimiter_new 5 10 0)).1.1 ≠ Some (Ok 0) ∧
  (acquire 11 [0; 1000000000; 2000000000] (RateLimiter_new 5 10 0)).1.2
  = [200000000; 200000000; 200000000].
Proof.
  split; [|vm_compute; reflexivity].
  apply (oversized_acquire_never_returns 10); [lia|unfold U64_MOD; lia|reflexivity].
Defined.
