(* ===== verification/Acquire.v ===== *)
(** * Waiting for tokens

    [RateLimiter::acquire] of [crates/control-plane/src/bandwidth.rs] sleeps for
    the time the missing tokens take and tries again. In binary64 the refill can
    fall short of what was waited for; this file bounds by how much, and shows
    that the loop ends after at most five attempts. *)

From stdpp Require Import base tactics decidable numbers list.
From Stdlib Require Import ZArith Lia SpecFloat.
From S2P Require Import Prelude F64 Limiter.

(** ** Rounding with zero

    [rnd X D f]: [f] is [X / D] (scaled) up to a relative error of [2 ^ -53];
    unlike [rne] it includes zero. *)
Definition rnd (X D : Z) (f : f64) : Prop :=
  0 <= X ∧ 0 < D ∧ nonneg f ∧ X * (P53 - 1) <= fz f * D * P53 <= X * (P53 + 1).

(** Zero, or in a range. *)
Definition good (a b : Z) (f : f64) : Prop := f = f64_0 ∨ rng a b f.

Lemma rne_rnd X D f : rne X D f → rnd X D f.
Proof.
  intros Hr. pose proof (rne_upper _ _ _ Hr). pose proof (rne_lower _ _ _ Hr).
  pose proof (rne_nonneg _ _ _ Hr) as Hn. destruct Hr as (E & k & HE & HD & _ & [HX _] & _).
  pose proof (pow2_pos E HE). split_and!; try done; nia.
Qed.

Lemma nonneg_value f : nonneg f → 0 <= fz f.
Proof.
  intros [->|(m & e & Hn & He)]; [by rewrite fz_0|]. pose proof (fz_nf_pos _ _ _ Hn He). lia.
Qed.

Lemma nonneg_zero f : nonneg f → fz f <= 0 → f = f64_0.
Proof. intros [->|(m & e & Hn & He)] Hz; [done|]. pose proof (fz_nf_pos _ _ _ Hn He). lia. Qed.

Lemma rnd_exact f : nonneg f → rnd (fz f) 1 f.
Proof.
  intros Hf. pose proof (nonneg_value f Hf). split_and!; try done; lia.
Qed.

Lemma good_nonneg a b f : good a b f → nonneg f.
Proof. intros [->|Hf]; [by left|by eapply rng_nonneg]. Qed.

Lemma good_poz a b f : good a b f → positive_or_zero f = true.
Proof. by intros [->|(m & e & [-> _] & _)]. Qed.

(** Goodness of a rounded value from its exact value. *)
Lemma rne_good X D f a b :
  rne X D f → -3000 <= a → -3000 <= b → pow2 (a + SC) * D <= X <= pow2 (b + SC) * D → good a b f.
Proof. intros. right. by eapply rne_rng. Qed.

Lemma add_rnd a b x y :
  -140 <= a → b <= 140 → good a b x → good a b y → rnd (fz x + fz y) 1 (f64_add x y).
Proof.
  intros Ha Hb [->|Hx] Hy.
  { rewrite add_0_l by (by eapply good_poz). rewrite fz_0. apply rnd_exact. by eapply good_nonneg. }
  destruct Hy as [->|Hy].
  { rewrite add_0_r by (eapply good_poz; by right). rewrite fz_0, Z.add_0_r. apply rnd_exact. by eapply rng_nonneg. }
  pose proof Hx as (m1 & e1 & Hn1 & _ & _). pose proof Hy as (m2 & e2 & Hn2 & _ & _).
  pose proof (rng_exp _ _ _ _ _ Hx Hn1 ltac:(lia) ltac:(lia)).
  pose proof (rng_exp _ _ _ _ _ Hy Hn2 ltac:(lia) ltac:(lia)).
  apply rne_rnd. eapply f64_add_rne; eauto; lia.
Qed.

Lemma mul_rnd a b x y :
  -100 <= a → b <= 100 → good a b x → rng a b y → rnd (fz x * fz y) (pow2 SC) (f64_mul x y).
Proof.
  intros Ha Hb [->|Hx] Hy.
  { rewrite fz_0. pose proof pow2_SC_pos. assert (f64_mul f64_0 y = f64_0) as ->
      by (destruct Hy as (m & e & [-> _] & _); by vm_compute).
    split_and!; [lia|done|by left|rewrite fz_0; lia..]. }
  apply rne_rnd. by eapply f64_mul_ok.
Qed.

Lemma div_rnd a b x y :
  -140 <= a → b <= 140 → rng a b x → rng a b y → rnd (fz x * pow2 SC) (fz y) (f64_div x y).
Proof.
  intros Ha Hb Hx Hy.
  pose proof Hx as (m1 & e1 & Hn1 & _ & _). pose proof Hy as (m2 & e2 & Hn2 & _ & _).
  pose proof (rng_exp _ _ _ _ _ Hx Hn1 ltac:(lia) ltac:(lia)).
  pose proof (rng_exp _ _ _ _ _ Hy Hn2 ltac:(lia) ltac:(lia)).
  apply rne_rnd. eapply f64_div_rne; eauto; lia.
Qed.

(** A range from bounds on the value. *)
Lemma value_rng a b f :
  0 <= a <= 2000 → 0 <= b <= 2000 → nonneg f → pow2 SC <= fz f * pow2 a → fz f <= pow2 b * pow2 SC →
  rng (- a) b f.
Proof.
  intros Ha Hb Hn Hlo Hhi. pose proof pow2_SC_pos.
  assert (HS : pow2 SC = pow2 a * pow2 (- a + SC))
    by (rewrite <- pow2_add by (rewrite ?SC_val; lia); f_equal; lia).
  pose proof (pow2_pos a ltac:(lia)). pose proof (pow2_pos (- a + SC) ltac:(rewrite SC_val; lia)).
  destruct Hn as [->|(m & e & Hf & He)]; [rewrite fz_0 in *; lia|].
  exists m, e. split_and!; [done|done|nia|]. rewrite pow2_add by (rewrite ?SC_val; lia). lia.
Qed.

Lemma rng_value a b f :
  0 <= a <= 2000 → 0 <= b <= 2000 → rng (- a) b f → pow2 SC <= fz f * pow2 a ∧ fz f <= pow2 b * pow2 SC.
Proof.
  intros Ha Hb (m & e & _ & _ & Hz). rewrite (pow2_add b) in Hz by (rewrite ?SC_val; lia).
  assert (HS : pow2 SC = pow2 a * pow2 (- a + SC))
    by (rewrite <- pow2_add by (rewrite ?SC_val; lia); f_equal; lia).
  pose proof (pow2_pos a ltac:(lia)). nia.
Qed.

(** ** Elapsed time as seconds *)
Section elapsed.
Context (g : Z) (Hg : 0 <= g < 2 ^ 60).

Lemma billion_value : rng 0 64 (f64_of_Z 1000000000) ∧ fz (f64_of_Z 1000000000) = 1000000000 * pow2 SC.
Proof. split; [apply of_Z_rng; unfold U64_MOD; lia|apply f64_of_Z_exact; lia]. Qed.

Lemma fraction_value :
  let f := f64_div (f64_of_Z (g mod 1000000000)) (f64_of_Z 1000000000) in
  good (-40) 64 f ∧
  (g mod 1000000000) * pow2 SC * (P53 - 1) <= fz f * 1000000000 * P53
    <= (g mod 1000000000) * pow2 SC * (P53 + 1).
Proof.
  set (r := g mod 1000000000). cbv zeta. assert (Hr : 0 <= r < 1000000000) by (apply Z.mod_pos_bound; lia).
  pose proof pow2_SC_pos as HS. destruct billion_value as [Hb Vb].
  destruct (decide (r = 0)) as [->|Hr0].
  { assert (f64_div (f64_of_Z 0) (f64_of_Z 1000000000) = f64_0) as -> by (by vm_compute).
    split; [by left|]. rewrite fz_0. lia. }
  pose proof (of_Z_rng r ltac:(unfold U64_MOD; lia)) as Hrr.
  pose proof (div_rnd 0 64 _ _ ltac:(lia) ltac:(lia) Hrr Hb) as (_ & _ & Hn & Hv).
  rewrite Vb, f64_of_Z_exact in Hv by lia. set (f := f64_div _ _) in *.
  assert (Hv' : r * pow2 SC * (P53 - 1) <= fz f * 1000000000 * P53 <= r * pow2 SC * (P53 + 1)) by nia.
  split; [|done]. right. apply (value_rng 40 64); [lia|lia|exact Hn|..].
  - change (pow2 40) with 1099511627776. nia.
  - change (pow2 64) with 18446744073709551616. nia.
Qed.

(** [as_secs_f64] of [g] nanoseconds, within two roundings. *)
Lemma as_secs_value :
  let v := fz (as_secs_f64 g) in
  good (-40) 65 (as_secs_f64 g) ∧
  g * pow2 SC * (P53 - 2) <= v * 1000000000 * P53 ∧ v * 1000000000 <= 2 * g * pow2 SC.
Proof.
  cbv zeta. unfold as_secs_f64. destruct fraction_value as [Hf Vf]. cbv zeta in Hf, Vf.
  set (f := f64_div _ _) in *. pose proof pow2_SC_pos as HS. change (2 ^ 60) with 1152921504606846976 in Hg.
  set (q := g / 1000000000). set (r := g mod 1000000000) in *.
  assert (Hqr : g = 1000000000 * q + r) by (apply Z.div_mod; lia).
  assert (Hr : 0 <= r < 1000000000) by (apply Z.mod_pos_bound; lia).
  assert (Hq : 0 <= q < 1152921505) by lia.
  destruct (of_Z_value q) as [Vq Nq]; [lia|].
  assert (Gq : good (-40) 65 (f64_of_Z q)).
  { destruct (decide (q = 0)) as [->|]; [left; apply of_Z_0|right].
    eapply rng_weaken; [| |apply of_Z_rng; unfold U64_MOD; lia]; lia. }
  assert (Gf : good (-40) 65 f) by (destruct Hf as [->|Hf]; [by left|right; eapply rng_weaken; [| |exact Hf]; lia]).
  pose proof (add_rnd (-40) 65 _ _ ltac:(lia) ltac:(lia) Gq Gf) as (_ & _ & Hn & Hv).
  rewrite Vq in Hv. set (s := f64_add _ _) in *.
  assert (Hlo : g * pow2 SC * (P53 - 2) <= fz s * 1000000000 * P53) by nia.
  assert (Hhi : fz s * 1000000000 <= 2 * g * pow2 SC) by nia.
  split_and!; [|done|done].
  destruct (decide (g = 0)) as [Hg0|Hg0].
  { left. apply nonneg_zero; [done|]. rewrite Hg0 in Hhi. pose proof (nonneg_value _ Hn). lia. }
  right. apply (value_rng 40 65); [lia|lia|exact Hn|..].
  - change (pow2 40) with 1099511627776. nia.
  - change (pow2 65) with 36893488147419103232. nia.
Qed.
End elapsed.

(** ** Seconds as a sleep *)
Lemma div_nearest_even_bounds a b :
  0 <= a → 0 < b → 2 * a <= 2 * div_nearest_even a b * b + b ∧ 2 * div_nearest_even a b * b <= 2 * a + b.
Proof.
  intros Ha Hb. unfold div_nearest_even. pose proof (Z.div_mod a b ltac:(lia)) as E.
  pose proof (Z.mod_pos_bound a b Hb). set (q := a / b) in *. set (r := a mod b) in *.
  destruct (Z.compare_spec (2 * r) b); [destruct (Z.even q)|..]; nia.
Qed.

(** The sleep is the number of seconds to the nearest nanosecond. *)
Lemma from_secs_value w :
  rng (-10) 45 w →
  ∃ d, from_secs_f64 w = Ok d ∧ 2000000000 * fz w <= 2 * d * pow2 SC + pow2 SC ∧
    2 * d * pow2 SC <= 2000000000 * fz w + pow2 SC.
Proof.
  intros Hw. pose proof (rng_value 10 45 w ltac:(lia) ltac:(lia) Hw) as [_ Hhi].
  pose proof Hw as (m & e & Hn & He & _).
  pose proof (rng_exp _ _ _ _ _ Hw Hn ltac:(lia) ltac:(lia)) as Hexp.
  destruct Hn as [-> Hm]. rewrite fz_finite in *. cbn [from_secs_f64].
  pose proof pow2_SC_pos as HS. change (pow2 45) with 35184372088832 in Hhi.
  set (ns := if 0 <=? e then _ else _).
  assert (Hns : 2000000000 * (Zpos m * pow2 (e + SC)) <= 2 * ns * pow2 SC + pow2 SC ∧
                2 * ns * pow2 SC <= 2000000000 * (Zpos m * pow2 (e + SC)) + pow2 SC).
  { unfold ns. destruct (Z.leb_spec 0 e) as [H0|H0].
    - rewrite pow2_add by (rewrite ?SC_val; lia). change (2 ^ e) with (pow2 e). nia.
    - assert (HE : pow2 SC = pow2 (- e) * pow2 (e + SC))
        by (rewrite <- pow2_add by (rewrite ?SC_val; lia); f_equal; lia).
      change (2 ^ (- e)) with (pow2 (- e)). pose proof (pow2_pos (- e) ltac:(lia)).
      pose proof (pow2_pos (e + SC) ltac:(rewrite SC_val; lia)).
      pose proof (div_nearest_even_bounds (Zpos m * 1000000000) (pow2 (- e)) ltac:(lia) ltac:(lia)).
      rewrite HE. nia. }
  exists ns. split; [|exact Hns].
  assert (Hlt : ns < 10 ^ 9 * U64_MOD) by (unfold U64_MOD; nia).
  rewrite (proj2 (Z.ltb_lt _ _)); [done|]. apply Z.div_lt_upper_bound; lia.
Qed.

(** ** One wait *)
Section waiting.
Context (rate n cap : Z) (Hrate : 0 < rate < 2 ^ 40) (Hn : 0 < n <= cap) (Hcap : cap < 2 ^ 40).

Abbreviation S := (pow2 SC).

Lemma small_value x : 0 < x < 2 ^ 40 → rng 0 64 (f64_of_Z x) ∧ fz (f64_of_Z x) = x * S.
Proof.
  change (2 ^ 40) with 1099511627776. intros Hx.
  split; [apply of_Z_rng; unfold U64_MOD; lia|apply f64_of_Z_exact; lia].
Qed.

(** The tokens a time [g] adds. *)
Lemma added_value g :
  0 <= g < 2 ^ 60 →
  let A := f64_mul (as_secs_f64 g) (f64_of_Z rate) in
  (A = f64_0 ∨ rng (-32) 73 A) ∧ g * S * rate * (2 ^ 51 - 1) <= fz A * 1000000000 * 2 ^ 51.
Proof.
  intros Hg. cbv zeta. destruct (as_secs_value g Hg) as (Hv & Vlo & Vhi). cbv zeta in Vlo, Vhi.
  destruct (small_value rate Hrate) as [Rr Vr]. pose proof pow2_SC_pos as HS.
  change (2 ^ 60) with 1152921504606846976 in Hg. change (2 ^ 40) with 1099511627776 in Hrate.
  change (2 ^ 51) with 2251799813685248.
  assert (Rr' : rng (-40) 65 (f64_of_Z rate)) by (eapply rng_weaken; [| |exact Rr]; lia).
  pose proof (mul_rnd (-40) 65 _ _ ltac:(lia) ltac:(lia) Hv Rr') as (_ & _ & HA & HAv).
  rewrite Vr in HAv. set (A := f64_mul _ _) in *. set (v := fz (as_secs_f64 g)) in *.
  assert (HAlo : v * rate * (P53 - 1) <= fz A * P53) by nia.
  assert (HAhi : fz A <= 2 * v * rate) by nia.
  assert (Hlo : g * S * rate * (2251799813685248 - 1) <= fz A * 1000000000 * 2251799813685248) by nia.
  split; [|exact Hlo]. destruct (decide (g = 0)) as [Hg0|Hg0].
  { left. apply nonneg_zero; [exact HA|]. rewrite Hg0 in Vhi. assert (0 <= v) by (apply nonneg_value; by eapply good_nonneg). nia. }
  right. apply (value_rng 32 73); [lia|lia|exact HA|..].
  - change (pow2 32) with 4294967296. nia.
  - change (pow2 73) with 9444732965739290427392. nia.
Qed.

(** What is missing, when [f] tokens are [G] short of [n]. *)
Lemma missing_value f G :
  good (-53) 41 f → 0 < G → fz f + G = n * S →
  let x := f64_sub (f64_of_Z n) f in
  rng (-107) 64 x ∧ G * (P53 - 1) <= fz x * P53 <= G * (P53 + 1).
Proof.
  intros Hf HG Hgap. cbv zeta. destruct (small_value n) as [Rn Vn]; [lia|]. pose proof pow2_SC_pos as HS.
  change (2 ^ 40) with 1099511627776 in *.
  destruct Hf as [->|Hf].
  { rewrite fz_0 in Hgap. assert (f64_sub (f64_of_Z n) f64_0 = f64_of_Z n) as ->
      by (pose proof Rn as (m & e & [-> _] & _); by vm_compute).
    split; [eapply rng_weaken; [| |exact Rn]; lia|]. rewrite Vn. lia. }
  pose proof Hf as (m & e & Hfn & He & _). pose proof Rn as (m1 & e1 & Hnn & _ & _).
  pose proof (rng_exp _ _ _ _ _ Hf Hfn ltac:(lia) ltac:(lia)) as Hexp.
  pose proof (rng_exp _ _ _ _ _ Rn Hnn ltac:(lia) ltac:(lia)).
  pose proof (f64_sub_rne _ _ _ _ _ _ Hnn Hfn ltac:(lia) ltac:(lia) ltac:(lia)) as Hs.
  rewrite (proj2 (Z.eqb_neq _ _)) in Hs by lia. rewrite Vn in Hs.
  replace (n * S - fz f) with G in Hs by lia.
  apply rne_rnd in Hs as (_ & _ & Hx & Hxv). rewrite Z.mul_1_r in Hxv.
  split; [|exact Hxv]. set (x := f64_sub _ _) in *.
  assert (HGlo : S <= G * pow2 106).
  { destruct Hfn as [-> _]. rewrite fz_finite in Hgap.
    assert (E1 : S = pow2 (- e) * pow2 (e + SC)) by (rewrite <- pow2_add by (rewrite ?SC_val; lia); f_equal; lia).
    pose proof (pow2_pos (e + SC) ltac:(rewrite SC_val in *; lia)). pose proof (pow2_mono (- e) 106 ltac:(lia)).
    set (U := pow2 (e + SC)) in *. assert (EG : G = (n * pow2 (- e) - Zpos m) * U) by (rewrite E1 in Hgap; lia).
    assert (0 < n * pow2 (- e) - Zpos m) by nia. assert (U <= G) by nia. rewrite E1.
    rewrite (Z.mul_comm G). apply Z.mul_le_mono_nonneg; lia. }
  apply (value_rng 107 64); [lia|lia|exact Hx|..].
  - change (pow2 107) with (2 * pow2 106). pose proof (pow2_pos 106 ltac:(lia)). nia.
  - change (pow2 64) with 18446744073709551616. assert (0 <= fz f) by (apply nonneg_value; by eapply rng_nonneg). nia.
Qed.

Lemma max_value a b :
  nonneg a → nonneg b → nonneg (f64_max a b) ∧ fz (f64_max a b) = Z.max (fz a) (fz b).
Proof.
  intros Ha Hb. pose proof (f64_cmp_value a b Ha Hb) as Hc. unfold f64_partial_cmp in Hc.
  unfold f64_max. rewrite Hc. destruct (Z.compare_spec (fz a) (fz b)); (split; [done|lia]).
Qed.

Lemma millisecond_value : nonneg f64_0_001 ∧ S <= 1000 * fz f64_0_001 ∧ fz f64_0_001 <= S.
Proof.
  split; [right; exists 4611686018427388%positive, (-62); split; [by split|rewrite SC_val; lia]|].
  unfold f64_0_001. rewrite fz_finite.
  assert (S = pow2 62 * pow2 (-62 + SC)) as -> by (rewrite <- pow2_add by (rewrite ?SC_val; lia); f_equal; lia).
  pose proof (pow2_pos (-62 + SC) ltac:(rewrite SC_val; lia)). change (pow2 62) with 4611686018427387904. lia.
Qed.

(** The sleep that [acquire] asks for when [G] is missing: at the rate it adds
    almost [G], and it is at least a millisecond, to the nanosecond. *)
Definition wait_for (f : f64) : outcome Empty_set Z :=
  from_secs_f64 (f64_max (f64_div (f64_sub (f64_of_Z n) f) (f64_of_Z rate)) f64_0_001).

Lemma wait_value f G :
  good (-53) 41 f → 0 < G → fz f + G = n * S →
  ∃ d, wait_for f = Ok d ∧ 0 <= d ∧
    G * (2 ^ 20 - 1) * 1000000000 <= d * S * rate * 2 ^ 20 ∧ S * 999999 <= d * S.
Proof.
  intros Hf HG Hgap. destruct (missing_value f G Hf HG Hgap) as [Rx Vx]. cbv zeta in Rx, Vx.
  unfold wait_for. set (x := f64_sub _ _) in *.
  destruct (small_value rate Hrate) as [Rr Vr]. pose proof pow2_SC_pos as HS.
  assert (Rr' : rng (-107) 64 (f64_of_Z rate)) by (eapply rng_weaken; [| |exact Rr]; lia).
  pose proof (div_rnd (-107) 64 _ _ ltac:(lia) ltac:(lia) Rx Rr') as (_ & _ & Hw & Vw).
  rewrite Vr in Vw. set (w := f64_div _ _) in *.
  change (2 ^ 40) with 1099511627776 in *. change (2 ^ 20) with 1048576.
  assert (Vw' : fz x * (P53 - 1) <= fz w * rate * P53 <= fz x * (P53 + 1)) by nia.
  destruct millisecond_value as (Hms & Mlo & Mhi).
  destruct (max_value w f64_0_001 Hw Hms) as [Hmx Vmx]. set (w' := f64_max _ _) in *.
  assert (0 <= fz f) by (apply nonneg_value; by eapply good_nonneg).
  assert (HGn : G <= 1099511627776 * S) by nia.
  assert (Hx : fz x <= 2 * G) by nia. assert (Hwhi : fz w <= 4 * G) by nia.
  assert (Rw : rng (-10) 45 w').
  { apply (value_rng 10 45); [lia|lia|exact Hmx|..].
    - change (pow2 10) with 1024. lia.
    - change (pow2 45) with 35184372088832. lia. }
  destruct (from_secs_value w' Rw) as (d & Hd & Dlo & Dhi). exists d.
  assert (HdS : fz w' * 999999500 <= d * S) by lia.
  assert (Hd0 : 0 <= d) by nia.
  split_and!; [exact Hd|exact Hd0| |lia].
  assert (Hww : fz w <= fz w') by lia.
  assert (H1 : G * (P53 - 1) * (P53 - 1) <= fz w * rate * P53 * P53) by nia.
  assert (H2 : G * (2251799813685248 - 1) <= fz w' * rate * 2251799813685248) by nia.
  nia.
Qed.

(** ** One attempt *)

(** A limiter that [f] tokens leave [G] short of [n]. *)
Record waits (now : Z) (l : RateLimiter) (G : Z) : Prop := {
  wt_rate : rl_rate l = f64_of_Z rate;
  wt_capacity : rl_capacity l = f64_of_Z cap;
  wt_last : rl_last l = now;
  wt_good : good (-53) 41 (rl_tokens l);
  wt_short : 0 < G;
  wt_gap : fz (rl_tokens l) + G = n * S
}.

Lemma ge_value a b : nonneg a → nonneg b → f64_ge a b = (fz b <=? fz a).
Proof.
  intros Ha Hb. pose proof (f64_cmp_value a b Ha Hb) as Hc. unfold f64_partial_cmp in Hc.
  unfold f64_ge. rewrite Hc. destruct (Z.compare_spec (fz a) (fz b)), (Z.leb_spec (fz b) (fz a)); done || lia.
Qed.

Lemma min_value a b :
  nonneg a → nonneg b → (f64_min a b = a ∧ fz a <= fz b) ∨ (f64_min a b = b ∧ fz b <= fz a).
Proof.
  intros Ha Hb. pose proof (f64_cmp_value a b Ha Hb) as Hc. unfold f64_partial_cmp in Hc.
  unfold f64_min. rewrite Hc. destruct (Z.compare_spec (fz a) (fz b)); [left|left|right]; (split; [done|lia]).
Qed.

(** Adding tokens: at least [n] if the exact sum is, else within a rounding. *)
Lemma sum_value f A :
  good (-53) 41 f → A = f64_0 ∨ rng (-32) 73 A →
  let s := f64_add f A in
  nonneg s ∧ (fz f + fz A) * (P53 - 1) <= fz s * P53 ∧ (n * S <= fz f + fz A → n * S <= fz s) ∧
  (fz s <= pow2 41 * S → good (-53) 41 s).
Proof.
  intros Hf HA. cbv zeta. pose proof pow2_SC_pos as HS. destruct (small_value n) as [Rn Vn]; [lia|].
  change (2 ^ 40) with 1099511627776 in *.
  destruct HA as [->|HA].
  { rewrite add_0_r by (by eapply good_poz). rewrite fz_0, Z.add_0_r.
    pose proof (good_nonneg _ _ _ Hf) as Hnn. pose proof (nonneg_value _ Hnn). split_and!; try done; lia. }
  assert (Gf : good (-53) 73 f) by (destruct Hf as [->|Hf]; [by left|right; eapply rng_weaken; [| |exact Hf]; lia]).
  assert (GA : good (-53) 73 A) by (right; eapply rng_weaken; [| |exact HA]; lia).
  pose proof (add_rnd (-53) 73 _ _ ltac:(lia) ltac:(lia) Gf GA) as (_ & _ & Hs & Vs).
  pose proof (rng_value 32 73 A ltac:(lia) ltac:(lia) HA) as [Alo _]. change (pow2 32) with 4294967296 in Alo.
  pose proof (nonneg_value _ (good_nonneg _ _ _ Hf)).
  split_and!; [exact Hs|lia| |].
  - intros Hge. destruct Hf as [->|Hf].
    { rewrite add_0_l by (eapply good_poz; by right). rewrite fz_0 in Hge. lia. }
    pose proof Hf as (m1 & e1 & Hn1 & _ & _). pose proof HA as (m2 & e2 & Hn2 & _ & _).
    pose proof (rng_exp _ _ _ _ _ Hf Hn1 ltac:(lia) ltac:(lia)).
    pose proof (rng_exp _ _ _ _ _ HA Hn2 ltac:(lia) ltac:(lia)).
    pose proof (f64_add_rne _ _ _ _ _ _ Hn1 Hn2 ltac:(lia) ltac:(lia)) as Hr.
    rewrite <- Vn. eapply rne_mono; [apply (f64_of_Z_rne n)|exact Hr|lia]. unfold U64_MOD. lia.
  - intros Hlt. right. set (s := f64_add f A) in *. apply (value_rng 53 41); [lia|lia|exact Hs|..|exact Hlt].
    change (pow2 53) with 9007199254740992. nia.
Qed.

(** An attempt succeeds, or leaves a limiter that waits for the rest. *)
Lemma attempt now g l :
  rl_rate l = f64_of_Z rate → rl_capacity l = f64_of_Z cap → rl_last l = now → good (-53) 41 (rl_tokens l) →
  0 <= g < 2 ^ 60 →
  let A := f64_mul (as_secs_f64 g) (f64_of_Z rate) in
  (∃ l', try_take n (now + g) l = (true, l')) ∨
  (∃ l' G, try_take n (now + g) l = (false, l') ∧ waits (now + g) l' G ∧
     fz (rl_tokens l) + fz A < n * S ∧ G * P53 <= (n * S - (fz (rl_tokens l) + fz A)) * P53 + n * S).
Proof.
  intros Hr Hc Hl Hf Hg. cbv zeta. destruct (added_value g Hg) as [HA _]. cbv zeta in HA.
  destruct (sum_value _ _ Hf HA) as (Hs & Vs & Hge & Hgood). cbv zeta in Hs, Vs, Hge, Hgood.
  destruct (small_value n) as [Rn Vn]; [lia|]. destruct (small_value cap) as [Rc Vc]; [lia|].
  pose proof (rng_nonneg _ _ _ Rn) as Nn. pose proof (rng_nonneg _ _ _ Rc) as Nc. pose proof pow2_SC_pos as HS.
  unfold try_take, refill, duration_since. rewrite Hl, Hr, Hc.
  replace (Z.max 0 (now + g - now)) with g by lia. cbn [rl_tokens rl_rate rl_capacity rl_last].
  set (A := f64_mul _ _) in *. set (s := f64_add _ A) in *.
  destruct (min_value s (f64_of_Z cap) Hs Nc) as [[-> Hle]|[-> Hle]].
  - rewrite ge_value, Vn by done. destruct (Z.leb_spec (n * S) (fz s)) as [Hsn|Hsn]; [left; by eexists|right].
    exists {| rl_rate := f64_of_Z rate; rl_capacity := f64_of_Z cap; rl_tokens := s; rl_last := now + g |}, (n * S - fz s).
    split_and!; [done| |lia|lia]. constructor; cbn [rl_tokens rl_rate rl_capacity rl_last]; try done; [|lia..].
    apply Hgood. change (pow2 41) with 2199023255552. change (2 ^ 40) with 1099511627776 in *. nia.
  - left. rewrite ge_value, Vn, Vc by done. rewrite (proj2 (Z.leb_le _ _)) by nia. by eexists.
Qed.

(** What is added in a sleep of [d] or longer. *)
Lemma waited_added G d g :
  0 <= d <= g → g < 2 ^ 60 → G * (2 ^ 20 - 1) * 1000000000 <= d * S * rate * 2 ^ 20 → S * 999999 <= d * S →
  let A := f64_mul (as_secs_f64 g) (f64_of_Z rate) in
  G * (2 ^ 19 - 1) <= fz A * 2 ^ 19 ∧ S <= fz A * 1001.
Proof.
  intros Hd Hg Dlo Dms. cbv zeta. destruct (added_value g ltac:(lia)) as [_ Alo]. cbv zeta in Alo.
  set (a := fz (f64_mul _ _)) in *. pose proof pow2_SC_pos as HS.
  assert (Hy : d * S * rate <= g * S * rate) by (apply Z.mul_le_mono_nonneg_r; nia).
  assert (Hms : S * 999999 <= d * S * rate) by nia.
  set (y := d * S * rate) in *. set (z := g * S * rate) in *.
  change (2 ^ 51) with 2251799813685248 in *. change (2 ^ 20) with 1048576 in *. change (2 ^ 19) with 524288.
  split; lia.
Qed.

(** Waiting as long as asked for closes the gap but for a small part. *)
Lemma waited_step now l G d g :
  waits now l G → wait_for (rl_tokens l) = Ok d → d <= g < 2 ^ 60 →
  (∃ l', try_take n (now + g) l = (true, l')) ∨
  (∃ l' G', try_take n (now + g) l = (false, l') ∧ waits (now + g) l' G' ∧
     G' * 2 ^ 18 <= G + 64 * S ∧ S < G * 1024).
Proof.
  intros [Hr Hc Hl Hf HG Hgap] Hd Hg.
  destruct (wait_value _ _ Hf HG Hgap) as (d' & Hd' & Hd0 & Dlo & Dms).
  rewrite Hd in Hd'. injection Hd' as <-.
  destruct (attempt now g l Hr Hc Hl Hf ltac:(lia)) as [?|(l' & G' & Ht & Hw & Hlt & HG')]; [by left|right].
  destruct (waited_added G d g ltac:(lia) ltac:(lia) Dlo Dms) as [HGA HSA]. cbv zeta in *.
  set (a := fz (f64_mul _ _)) in *. pose proof pow2_SC_pos as HS. exists l', G'. split_and!; [done|done| |lia].
  assert (HnS : n * S <= 1099511627776 * S) by (apply Z.mul_le_mono_nonneg_r; lia).
  change (2 ^ 19) with 524288 in *. change (2 ^ 18) with 262144. lia.
Qed.

(** ** The loop *)

(** Gaps from which [k] further attempts fail at most. *)
Definition level (k : nat) (G : Z) : Prop :=
  match k with
  | O => G * 1024 <= S
  | 1%nat => G <= 192 * S
  | 2%nat => G <= 2 ^ 25 * S
  | _ => G <= 2 ^ 40 * S
  end.

Lemma level_step k G G' :
  (k <= 3)%nat → level k G → 0 < G → G' * 2 ^ 18 <= G + 64 * S → S < G * 1024 → ∃ j, k = Datatypes.S j ∧ level j G'.
Proof.
  intros Hk. pose proof pow2_SC_pos as HS. change (2 ^ 18) with 262144.
  destruct k as [|[|[|[|k]]]]; cbn [level]; [lia|..|lia];
    change (2 ^ 25) with 33554432; change (2 ^ 40) with 1099511627776; intros.
  - exists 0%nat. cbn [level]. lia.
  - exists 1%nat. cbn [level]. lia.
  - exists 2%nat. cbn [level]. change (2 ^ 25) with 33554432. lia.
Qed.

(** Every sleep was slept, and not for more than [2 ^ 60] nanoseconds. *)
Fixpoint respects (sleeps readings : list Z) : Prop :=
  match sleeps, readings with
  | d :: sleeps, a :: ((b :: _) as readings) => d <= b - a < 2 ^ 60 ∧ respects sleeps readings
  | _, _ => True
  end.

Lemma acquire_fails now readings l G :
  waits now l G → ∃ d, wait_for (rl_tokens l) = Ok d ∧
  ∀ l0, try_take n now l0 = (false, l) →
    acquire n (now :: readings) l0 =
    let '(r, sleeps, l') := acquire n readings l in (r, d :: sleeps, l').
Proof.
  intros [Hr _ _ Hf HG Hgap]. destruct (wait_value _ _ Hf HG Hgap) as (d & Hd & _).
  exists d. split; [done|]. intros l0 Ht. cbn [acquire]. rewrite Ht, Hr.
  unfold wait_for in Hd. by rewrite Hd.
Qed.

Lemma acquire_after k : ∀ readings now l G d,
  (k <= 3)%nat → waits now l G → level k G → (k < length readings)%nat →
  wait_for (rl_tokens l) = Ok d → respects (d :: (acquire n readings l).1.2) (now :: readings) →
  (acquire n readings l).1.1 = Some (Ok 0).
Proof.
  induction k as [k IH] using lt_wf_ind. intros readings now l G d Hk Hw Hlev Hlen Hd Hresp.
  destruct readings as [|now' readings]; [cbn in Hlen; lia|]. destruct Hresp as [Hg Hresp].
  destruct (waited_step now l G d (now' - now) Hw Hd Hg) as [[l' Ht]|(l' & G' & Ht & Hw' & Hgap & Hbig)];
    replace (now + (now' - now)) with now' in * by lia.
  - cbn [acquire]. by rewrite Ht.
  - destruct (level_step k G G' Hk Hlev (wt_short _ _ _ Hw) Hgap Hbig) as (j & -> & Hlev').
    destruct (acquire_fails now' readings l' G' Hw') as (d' & Hd' & Hacq).
    rewrite (Hacq l Ht) in Hresp |- *.
    destruct (acquire n readings l') as [[r sleeps] l''] eqn:E.
    specialize (IH j ltac:(lia) readings now' l' G' d' ltac:(lia) Hw' Hlev'). rewrite E in IH.
    apply IH; [cbn in Hlen; lia|done|done].
Qed.

(** A limiter that holds its rate and capacity and a reasonable number of
    tokens, not necessarily whole. *)
Record sound (l : RateLimiter) : Prop := {
  so_rate : rl_rate l = f64_of_Z rate;
  so_capacity : rl_capacity l = f64_of_Z cap;
  so_good : good (-53) 41 (rl_tokens l)
}.

Lemma acquire_loop l readings :
  sound l → (5 <= length readings)%nat →
  (∀ r, head readings = Some r → rl_last l <= r < rl_last l + 2 ^ 60) →
  respects (acquire n readings l).1.2 readings →
  (acquire n readings l).1.1 = Some (Ok 0).
Proof.
  intros [Hr Hc Hf] Hlen Hfirst Hresp. destruct readings as [|now' readings]; [cbn in Hlen; lia|].
  specialize (Hfirst now' eq_refl). set (now := rl_last l) in *.
  destruct (attempt now (now' - now) l Hr Hc eq_refl Hf ltac:(lia))
    as [[l' Htt]|(l' & G & Htt & Hw & _ & _)]; replace (now + (now' - now)) with now' in * by lia.
  - cbn [acquire]. by rewrite Htt.
  - destruct (acquire_fails now' readings l' G Hw) as (d & Hd & Hacq). rewrite (Hacq l Htt) in Hresp |- *.
    pose proof (acquire_after 3 readings now' l' G d ltac:(lia) Hw) as HA.
    destruct (acquire n readings l') as [[r sleeps] l''] eqn:E. apply HA; [|cbn in Hlen; lia|done|done].
    cbn [level]. pose proof (wt_gap _ _ _ Hw). pose proof (nonneg_value _ (good_nonneg _ _ _ (wt_good _ _ _ Hw))).
    pose proof pow2_SC_pos. change (2 ^ 40) with 1099511627776 in *. nia.
Qed.

(** ** Every limiter in use is sound *)
Lemma cap_good : good (-53) 41 (f64_of_Z cap).
Proof.
  right. destruct (small_value cap) as [Rc Vc]; [lia|]. pose proof pow2_SC_pos.
  apply (value_rng 53 41); [lia|lia|by eapply rng_nonneg|..]; rewrite Vc; change (2 ^ 40) with 1099511627776 in *.
  - change (pow2 53) with 9007199254740992. nia.
  - change (pow2 41) with 2199023255552. nia.
Qed.

Lemma refill_good l now :
  sound l → rl_last l <= now < rl_last l + 2 ^ 60 → sound (refill now l).
Proof.
  intros [Hr Hc Hf] Hnow. unfold refill, duration_since. rewrite Hr, Hc.
  destruct (added_value (Z.max 0 (now - rl_last l)) ltac:(lia)) as [HA _]. cbv zeta in HA.
  destruct (sum_value _ _ Hf HA) as (Hs & _ & _ & Hgood). cbv zeta in Hs, Hgood. split; [done|done|].
  cbn [rl_tokens]. set (s := f64_add _ _) in *. destruct (small_value cap) as [Rc Vc]; [lia|]. pose proof pow2_SC_pos.
  destruct (min_value s (f64_of_Z cap) Hs (rng_nonneg _ _ _ Rc)) as [[-> Hle]|[-> _]]; [|apply cap_good].
  apply Hgood. rewrite Vc in Hle. change (pow2 41) with 2199023255552. change (2 ^ 40) with 1099511627776 in *. nia.
Qed.
End waiting.

(** What is left after a take is nothing or at least [2 ^ -53]. *)
Lemma take_good f k :
  good (-53) 41 f → 0 <= k < U64_MOD → f64_ge f (f64_of_Z k) = true → good (-53) 41 (f64_sub f (f64_of_Z k)).
Proof.
  intros Hf Hk Hge. destruct (decide (k = 0)) as [->|Hk0].
  { rewrite of_Z_0. by destruct Hf as [->|(m & e & [-> ?] & ?)]; [left|right; exists m, e]. }
  pose proof (of_Z_rng k ltac:(lia)) as Rk. pose proof pow2_SC_pos as HS.
  rewrite ge_value in Hge by first [by eapply good_nonneg|by eapply rng_nonneg]. apply Z.leb_le in Hge.
  pose proof (rng_value 0 64 _ ltac:(lia) ltac:(lia) Rk) as [Klo _]. change (pow2 0) with 1 in Klo.
  destruct Hf as [->|Hf]; [rewrite fz_0 in Hge; lia|].
  pose proof (rng_value 53 41 f ltac:(lia) ltac:(lia) Hf) as [_ Fhi]. change (pow2 41) with 2199023255552 in Fhi.
  pose proof (rne_lower _ _ _ (f64_of_Z_rne k ltac:(lia))) as Hlow.
  assert (Hk53 : k < P53) by nia. rewrite f64_of_Z_exact in * by lia.
  pose proof Hf as (m & e & Hfn & _ & _). pose proof Rk as (m1 & e1 & Hkn & _ & _).
  pose proof (rng_exp _ _ _ _ _ Hf Hfn ltac:(lia) ltac:(lia)) as Hexp.
  pose proof (rng_exp _ _ _ _ _ Rk Hkn ltac:(lia) ltac:(lia)).
  pose proof (f64_sub_rne _ _ _ _ _ _ Hfn Hkn ltac:(lia) ltac:(lia) ltac:(rewrite f64_of_Z_exact by lia; lia)) as Hs.
  rewrite f64_of_Z_exact in Hs by lia. destruct (Z.eqb_spec (k * pow2 SC) (fz f)) as [_|Hne]; [by left|right].
  eapply rne_rng; [exact Hs|lia|lia|]. rewrite (pow2_add 41) by (rewrite ?SC_val; lia). change (pow2 41) with 2199023255552.
  split; [|nia].
  assert (He : -53 <= e).
  { assert (Hf1 : rng 0 41 f) by (exists m, e; split_and!; [done|rewrite SC_val; lia|by (change (0 + SC) with SC; lia)|
      rewrite (pow2_add 41) by (rewrite ?SC_val; lia); change (pow2 41) with 2199023255552; lia]).
    pose proof (rng_exp _ _ _ _ _ Hf1 Hfn ltac:(lia) ltac:(lia)). lia. }
  destruct Hfn as [-> _]. rewrite fz_finite in *. set (U := pow2 (-53 + SC)).
  assert (E1 : pow2 SC = pow2 53 * U) by (unfold U; rewrite <- pow2_add by (rewrite ?SC_val; lia); f_equal; lia).
  assert (E2 : pow2 (e + SC) = pow2 (e + 53) * U) by (unfold U; rewrite <- pow2_add by (rewrite ?SC_val; lia); f_equal; lia).
  assert (0 < U) by (apply pow2_pos; rewrite SC_val; lia). rewrite E1, E2 in *.
  set (x := Zpos m * pow2 (e + 53)). set (y := k * pow2 53).
  assert (y * U < x * U) by (unfold x, y; lia). assert (y < x) by nia. unfold x, y in *. nia.
Qed.

(** The limiters [RateLimiter::new] and any number of attempts lead to, with a
    monotonic clock and less than [2 ^ 60] nanoseconds (36 years) between them;
    [acquire] is a sequence of attempts. *)
Inductive used (rate cap : Z) : RateLimiter → Prop :=
| used_new now : used rate cap (RateLimiter_new rate cap now)
| used_take n now l :
    used rate cap l → 0 <= n < U64_MOD → rl_last l <= now < rl_last l + 2 ^ 60 →
    used rate cap (try_take n now l).2.

Lemma used_sound rate cap l : 0 < rate < 2 ^ 40 → 0 < cap < 2 ^ 40 → used rate cap l → sound rate cap l.
Proof.
  intros Hrate Hcap Hu. induction Hu as [now|n now l _ IH Hn Hnow].
  - split; [done|done|]. by apply (cap_good 1 cap); lia.
  - pose proof (refill_good rate 1 cap Hrate ltac:(lia) ltac:(lia) l now IH Hnow) as [Hr Hc Hg]. unfold try_take.
    destruct (f64_ge _ _) eqn:Hge; [|by split]. split; [done|done|]. cbn [snd rl_tokens]. by apply take_good.
Qed.

(** ** Properties *)

(** (C26) Acquiring returns. Take any limiter in use, made with a rate and a
    capacity that are positive and below [2 ^ 40] bytes (a rate of zero panics),
    whatever was taken from it before and whatever fraction of a byte it holds:
    [acquire] of a positive number of bytes not above the capacity is granted
    after at most five attempts if each sleep it asks for is slept, for that long
    or longer, the clock being read first within 2^60 ns (36 years) of the last
    refill; rounding can make it sleep again, but not more often than that. *)
Theorem acquire_returns (rate n cap : Z) (l : RateLimiter) (readings : list Z) :
  0 < rate < 2 ^ 40 → 0 < n <= cap → cap < 2 ^ 40 → used rate cap l →
  (5 <= length readings)%nat →
  (∀ r, head readings = Some r → rl_last l <= r < rl_last l + 2 ^ 60) →
  respects (acquire n readings l).1.2 readings →
  (acquire n readings l).1.1 = Some (Ok 0).
Proof.
  intros Hrate Hn Hcap Hu. apply (acquire_loop rate n cap); [done..|]. apply used_sound; [done|lia|done].
Qed.

(** Three bytes a second and a bucket of ten. It is emptied, and half a second
    later, with a byte and a half in it, all of it is asked for: the wait,
    rounded to a nanosecond, is too short by a hair, and one more millisecond is
    slept. *)
Definition drained : RateLimiter := (try_take 10 500000000 (try_take 10 0 (RateLimiter_new 3 10 0)).2).2.

Lemma acquire_returns_witness :
  let readings := [500000000; 3333333333; 3334333333; 3335333333; 3336333333] in
  rl_tokens drained = f64_div (f64_of_Z 3) (f64_of_Z 2) ∧
  (acquire 10 readings drained).1.2 = [2833333333; 1000000] ∧
  (acquire 10 readings drained).1.1 = Some (Ok 0).
Proof.
  split; [vm_compute; reflexivity|]. split; [vm_compute; reflexivity|].
  apply (acquire_returns 3 10 10 drained [500000000; 3333333333; 3334333333; 3335333333; 3336333333]);
    [lia|lia|lia| |cbn; lia|intros r [= <-]; vm_compute; split; [discriminate|reflexivity]|].
  - unfold drained. repeat apply used_take; try (vm_compute; split; [discriminate|reflexivity]). apply used_new.
  - vm_compute. repeat split; discriminate.
Defined.
