(* ===== verification/Routing.v ===== *)
(** * Health-aware node selection

    [crates/control-plane/src/routing.rs]: the composite score, in binary64 as
    the code computes it, and the selector. [Iterator::max_by] is the standard
    library's fold, which keeps the later of two equal elements. *)

From stdpp Require Import base tactics decidable numbers list sets strings.
From Stdlib Require Import ZArith Lia SpecFloat.
From S2P Require Import Prelude F64 Model Health.

Record ScoreWeights : Type := mkScoreWeights {
  sw_health : f64;
  sw_capacity : f64;
  sw_latency : f64;
  sw_bandwidth : f64
}.

Definition ScoreWeights_default : ScoreWeights := {|
  sw_health := f64_100;
  sw_capacity := f64_1;
  sw_latency := f64_1;
  sw_bandwidth := f64_1
|}.

(** The trait [NodeSelector]. *)
Class NodeSelector (S : Type) : Type := { node_select : S → list Node → option Node }.

Record HealthAwareSelector : Type := mkSelector { weights : ScoreWeights }.

Definition HealthAwareSelector_new (w : ScoreWeights) : HealthAwareSelector := {| weights := w |}.
Definition HealthAwareSelector_default : HealthAwareSelector :=
  {| weights := ScoreWeights_default |}.

Definition health_factor (state : NodeState) : f64 :=
  match state with
  | Healthy => f64_1
  | Degraded => f64_0_5
  | _ => f64_0
  end.

Definition capacity_factor (node : Node) : f64 :=
  if n_max_connections node =? 0 then f64_0
  else f64_div (f64_of_Z (available_capacity node)) (f64_of_Z (n_max_connections node)).

Definition latency_factor (latency_ms : Z) : f64 :=
  f64_div f64_1 (f64_add f64_1 (f64_of_Z latency_ms)).

Definition bandwidth_factor (node : Node) : f64 :=
  f64_sub f64_1 (bandwidth_utilization node).

Definition score (node : Node) (w : ScoreWeights) : f64 :=
  if negb (is_selectable node) then f64_0
  else
    let health := health_factor (n_state node) in
    let capacity := capacity_factor node in
    let latency := latency_factor (n_latency_ms node) in
    let bandwidth := bandwidth_factor node in
    f64_mul (f64_mul (f64_mul (f64_mul (sw_health w) health)
      (f64_add f64_1 (f64_mul (sw_capacity w) capacity)))
      (f64_add f64_1 (f64_mul (sw_latency w) latency)))
      (f64_add f64_1 (f64_mul (sw_bandwidth w) bandwidth)).

(** [Iterator::max_by]. *)
Definition max_by {A} (compare : A → A → comparison) (l : list A) : option A :=
  match l with
  | [] => None
  | x :: l =>
      Some (foldl (λ x y, match compare x y with Gt => x | _ => y end) x l)
  end.

Definition selector_select (s : HealthAwareSelector) (nodes : list Node) : option Node :=
  max_by (λ a b, default Eq (f64_partial_cmp (score a (weights s)) (score b (weights s))))
    (filter (λ n, is_selectable n = true) nodes).

#[export] Instance HealthAware_NodeSelector : NodeSelector HealthAwareSelector :=
  {| node_select := selector_select |}.

(** ** [max_by] keeps the last maximum *)
Section max_by.
Context {A : Type} (key : A → Z) (cmp : A → A → comparison) (P : A → Prop).
Hypothesis cmp_key : ∀ a b, P a → P b → cmp a b = (key a ?= key b).

Definition last_max (l : list A) (r : A) : Prop :=
  ∃ l1 l2, l = l1 ++ r :: l2 ∧ (∀ x, x ∈ l1 → key x <= key r) ∧ (∀ x, x ∈ l2 → key x < key r).

Lemma last_max_snoc l r y :
  P y → P r → last_max l r →
  last_max (l ++ [y]) (match cmp r y with Gt => r | _ => y end).
Proof.
  intros Hy Hr (l1 & l2 & -> & H1 & H2). rewrite cmp_key by done.
  assert (Hcase : key r <= key y ∨ key y < key r) by lia. destruct Hcase as [Hle|Hlt].
  - replace (match key r ?= key y with Gt => r | _ => y end) with y
      by (destruct (Z.compare_spec (key r) (key y)); [done|done|lia]).
    exists (l1 ++ r :: l2), []. split_and!; [done| |set_solver].
    intros x [Hx|[->|Hx]%elem_of_cons]%elem_of_app; [..|specialize (H2 x Hx)];
      [specialize (H1 x Hx)|..]; lia.
  - rewrite (proj2 (Z.compare_gt_iff _ _)) by lia.
    exists l1, (l2 ++ [y]). split_and!; [by rewrite <- app_assoc|done|].
    intros x [Hx| ->%list_elem_of_singleton]%elem_of_app; auto.
Qed.

Lemma foldl_last_max l2 l1 r :
  Forall P l2 → P r → last_max l1 r →
  last_max (l1 ++ l2) (foldl (λ x y, match cmp x y with Gt => x | _ => y end) r l2).
Proof.
  revert l1 r. induction l2 as [|y l2 IH]; intros l1 r Hl Hr Hm.
  { by rewrite app_nil_r. }
  inversion Hl as [|?? Hy Hl2]; subst. cbn [foldl]. rewrite cons_middle, app_assoc.
  apply IH; [done| |by apply last_max_snoc]. by destruct (cmp r y).
Qed.

Lemma max_by_last_max l :
  Forall P l →
  match max_by cmp l with None => l = [] | Some r => last_max l r end.
Proof.
  destruct l as [|x l]; [done|]. intros [Hx Hl]%Forall_cons. cbn [max_by].
  apply (foldl_last_max l [x]); [done|done|]. exists [], []. set_solver.
Qed.
End max_by.

(** ** The factors as exact quotients, rounded *)

(** Connections that count against the ceiling. *)
Definition effective (n : Node) : Z := Z.min (n_active_connections n) (n_max_connections n).

Lemma pow2_40_u32 z : z < U32_MOD → z <= pow2 40.
Proof. unfold U32_MOD. rewrite pow2_40. lia. Qed.

Section factors.
Context (n : Node) (Hok : Node_ok n = true).

Lemma capacity_cases :
  capacity_factor n = f64_0 ∧ (n_max_connections n = 0 ∨ available_capacity n = 0) ∨
  0 < available_capacity n <= n_max_connections n ∧
  rne (available_capacity n * pow2 SC) (n_max_connections n) (capacity_factor n).
Proof.
  apply Node_ok_iff in Hok as (Hm & Ha & _). unfold capacity_factor.
  destruct (Z.eqb_spec (n_max_connections n) 0); [by left; auto|].
  assert (Hc : 0 <= available_capacity n <= n_max_connections n)
    by (unfold available_capacity, saturating_sub; lia).
  destruct (decide (available_capacity n = 0)) as [Hz|Hz].
  - left. rewrite Hz, ratio_zero by lia. auto.
  - right. split; [lia|]. apply ratio_rne; lia.
Qed.

Lemma capacity_unit : unit_f64 (capacity_factor n).
Proof.
  destruct capacity_cases as [[-> _]|[Ha Hr]]; [by left|].
  apply Node_ok_iff in Hok as (Hm & _). eapply ratio_unit; eauto. apply pow2_40_u32, Hm.
Qed.

Lemma utilization_cases :
  n_max_connections n = 0 ∧ bandwidth_utilization n = f64_1 ∨
  0 < n_max_connections n ∧ effective n = 0 ∧ bandwidth_utilization n = f64_0 ∨
  0 < effective n <= n_max_connections n ∧
  rne (effective n * pow2 SC) (n_max_connections n) (bandwidth_utilization n).
Proof.
  apply Node_ok_iff in Hok as (Hm & Ha & _). unfold bandwidth_utilization, effective.
  destruct (Z.eqb_spec (n_max_connections n) 0) as [Hz|Hz]; [by left|]. right.
  destruct (decide (n_active_connections n = 0)) as [Ha0|Ha0].
  { left. rewrite Ha0, ratio_zero by lia. split_and!; [lia..|done]. }
  right. split; [lia|].
  pose proof (ratio_rne (n_active_connections n) (n_max_connections n) ltac:(lia) ltac:(lia)) as Hr.
  set (r := f64_div _ _) in *. pose proof pow2_SC_pos as HS.
  assert (H1 : rne (n_max_connections n * pow2 SC) (n_max_connections n) f64_1).
  { rewrite Z.mul_comm. replace (n_max_connections n) with (1 * n_max_connections n) at 2 by lia.
    apply rne_scale; [lia|]. rewrite <- fz_1. pose proof rng_1 as (? & ? & ? & ? & _).
    by eapply rne_repr. }
  unfold f64_clamp, f64_lt, f64_gt.
  pose proof (f64_cmp_value r f64_0 (rne_nonneg _ _ _ Hr) (or_introl eq_refl)) as H0.
  pose proof (f64_cmp_value r f64_1 (rne_nonneg _ _ _ Hr) (rne_nonneg _ _ _ H1)) as Hc.
  unfold f64_partial_cmp in H0, Hc.
  pose proof (rne_nf _ _ _ Hr) as (mr & er & Hnr & Her).
  pose proof (fz_nf_pos _ _ _ Hnr Her) as Hpos.
  rewrite H0. rewrite fz_0. rewrite (proj2 (Z.compare_gt_iff _ _)) by done.
  rewrite Hc, fz_1. destruct (Z.le_gt_cases (n_active_connections n) (n_max_connections n)) as [Hle|Hgt].
  - assert (fz r <= fz f64_1) by (eapply rne_mono; [exact Hr|exact H1|nia]). rewrite fz_1 in *.
    rewrite Z.min_l by lia. destruct (Z.compare_spec (fz r) (pow2 SC)); [done..|lia].
  - assert (fz f64_1 <= fz r) by (eapply rne_mono; [exact H1|exact Hr|nia]). rewrite fz_1 in *.
    rewrite Z.min_r by lia. destruct (Z.compare_spec (fz r) (pow2 SC)) as [He|He|He]; [|lia|done].
    rewrite <- He, Z.mul_comm. replace (n_max_connections n) with (1 * n_max_connections n) at 2 by lia.
    apply rne_scale; [lia|]. by eapply rne_repr.
Qed.

Lemma utilization_unit : unit_f64 (bandwidth_utilization n).
Proof.
  destruct utilization_cases as [[_ ->]|[(_ & _ & ->)|[Ha Hr]]]; [apply unit_1|by left|].
  apply Node_ok_iff in Hok as (Hm & _). eapply ratio_unit; eauto. apply pow2_40_u32, Hm.
Qed.

Lemma utilization_gap :
  fz (bandwidth_utilization n) = pow2 SC ∨
  fz (bandwidth_utilization n) <= pow2 SC - pow2 (SC - 64).
Proof.
  destruct utilization_cases as [[_ ->]|[(_ & _ & ->)|[Ha Hr]]].
  - left. apply fz_1.
  - right. rewrite fz_0. pose proof (pow2_mono (SC - 64) SC). rewrite SC_val in *. lia.
  - apply Node_ok_iff in Hok as (Hm & _). eapply ratio_gap; eauto. apply pow2_40_u32, Hm.
Qed.

Lemma bandwidth_unit : unit_f64 (bandwidth_factor n).
Proof. apply one_minus; [apply utilization_unit|apply utilization_gap]. Qed.
End factors.

Lemma latency_rne l :
  0 <= l < U32_MOD → rne (pow2 SC) (1 + l) (latency_factor l).
Proof.
  intros Hl. unfold latency_factor. unfold U32_MOD in Hl.
  assert (Hs : rne ((1 + l) * pow2 SC) 1 (f64_add f64_1 (f64_of_Z l))).
  { pose proof rng_1 as (m1 & e1 & Hn1 & He1 & _).
    pose proof (rng_exp _ _ _ _ _ rng_1 Hn1 ltac:(lia) ltac:(lia)).
    destruct (decide (l = 0)) as [->|Hne].
    - replace (f64_add f64_1 (f64_of_Z 0)) with f64_1 by (vm_compute; reflexivity). rewrite <- fz_1, Z.mul_1_l. by eapply rne_repr.
    - destruct (f64_of_Z_nf l) as (m & e & Hn & He); [unfold U64_MOD; lia|].
      replace ((1 + l) * pow2 SC) with (fz f64_1 + fz (f64_of_Z l))
        by (rewrite fz_1, f64_of_Z_exact by lia; ring).
      eapply f64_add_rne; eauto; lia. }
  set (s := f64_add _ _) in *.
  assert (Hz : fz s = (1 + l) * pow2 SC).
  { destruct (f64_of_Z_nf (1 + l)) as (m & e & Hn & He); [unfold U64_MOD; lia|].
    rewrite <- f64_of_Z_exact by lia. eapply rne_exact; eauto; [rewrite SC_val; lia|].
    by rewrite f64_of_Z_exact by lia. }
  assert (Hg : rng 0 33 s).
  { apply (rne_rng _ _ _ _ _ Hs); [lia..|]. pose proof pow2_SC_pos.
    rewrite Z.add_0_l, (pow2_add 33) by (rewrite ?SC_val; lia). rewrite pow2_33. nia. }
  pose proof Hg as (m & e & Hn & _ & _). pose proof rng_1 as (m1 & e1 & Hn1 & _ & _).
  pose proof (rng_exp _ _ _ _ _ rng_1 Hn1 ltac:(lia) ltac:(lia)).
  pose proof (rng_exp _ _ _ _ _ Hg Hn ltac:(lia) ltac:(lia)).
  pose proof (f64_div_rne _ _ _ _ _ _ Hn1 Hn ltac:(lia) ltac:(lia)) as Hd.
  rewrite Hz, fz_1 in Hd. by apply rne_cancel in Hd; [|apply pow2_SC_pos].
Qed.

Lemma latency_unit l : 0 <= l < U32_MOD → unit_f64 (latency_factor l).
Proof.
  intros Hl. apply (ratio_unit 1 (1 + l)); [lia| |rewrite Z.mul_1_l; by apply latency_rne].
  unfold U32_MOD in Hl. rewrite pow2_40. lia.
Qed.

(** ** The score as a product *)

(** [1.0 + weight * factor] with the default weight. *)
Definition term (f : f64) : f64 := f64_add f64_1 (f64_mul f64_1 f).
Definition product (h a b c : f64) : f64 := f64_mul (f64_mul (f64_mul h a) b) c.

Lemma term_rng f : unit_f64 f → rng 0 1 (term f).
Proof. intros [H _]%mul_one_l. by apply one_plus_rng. Qed.

Lemma term_mono f g : unit_f64 f → unit_f64 g → fz f <= fz g → fz (term f) <= fz (term g).
Proof.
  intros [Hf Ef]%mul_one_l [Hg Eg]%mul_one_l Hle.
  eapply rne_mono; [by apply one_plus_rne|by apply one_plus_rne|]. lia.
Qed.

Section product.
Context (a a' b b' c c' : f64).
Hypotheses (Ha : rng 0 1 a) (Ha' : rng 0 1 a') (Hb : rng 0 1 b) (Hb' : rng 0 1 b')
           (Hc : rng 0 1 c) (Hc' : rng 0 1 c').

Lemma product_rng h : rng 5 7 h → rng 5 10 (product h a b c).
Proof.
  intros Hh. unfold product. apply (rng_mul 5 9 0 1); [|done|lia..].
  apply (rng_mul 5 8 0 1); [|done|lia..]. apply (rng_mul 5 7 0 1); done || lia.
Qed.

Lemma product_mono h h' :
  rng 5 7 h → rng 5 7 h' → fz h <= fz h' → fz a <= fz a' → fz b <= fz b' → fz c <= fz c' →
  fz (product h a b c) <= fz (product h' a' b' c').
Proof.
  intros Hh Hh' Lh La Lb Lc. unfold product.
  assert (rng 5 8 (f64_mul h a)) by (apply (rng_mul 5 7 0 1); done || lia).
  assert (rng 5 8 (f64_mul h' a')) by (apply (rng_mul 5 7 0 1); done || lia).
  assert (rng 5 9 (f64_mul (f64_mul h a) b)) by (apply (rng_mul 5 8 0 1); done || lia).
  assert (rng 5 9 (f64_mul (f64_mul h' a') b')) by (apply (rng_mul 5 8 0 1); done || lia).
  apply (f64_mul_mono 5 9 0 1); [done..|lia|lia|lia|lia| |done].
  apply (f64_mul_mono 5 8 0 1); [done..|lia|lia|lia|lia| |done].
  apply (f64_mul_mono 5 7 0 1); done || lia.
Qed.

Lemma product_double h h' :
  rng 5 7 h → rng 5 7 h' → fz h = 2 * fz h' → fz (product h a b c) = 2 * fz (product h' a b c).
Proof.
  intros Hh Hh' Lh. unfold product.
  assert (rng 5 8 (f64_mul h a)) by (apply (rng_mul 5 7 0 1); done || lia).
  assert (rng 5 8 (f64_mul h' a)) by (apply (rng_mul 5 7 0 1); done || lia).
  apply (f64_mul_double 5 9 0 1); [by apply (rng_mul 5 8 0 1); done || lia
    |by apply (rng_mul 5 8 0 1); done || lia|done|lia..|].
  apply (f64_mul_double 5 8 0 1); [done..|lia|lia|lia|lia|].
  apply (f64_mul_double 5 7 0 1); done || lia.
Qed.
End product.

(** [weights.health * health_factor(state)] for the two selectable states. *)
Definition health_term (s : NodeState) : f64 := f64_mul f64_100 (health_factor s).

Lemma normal_rng (m : positive) (e a b : Z) :
  P52 <= Zpos m < P53 → - 2000 <= e → e + 52 = a → e + 53 = b →
  rng a b (S754_finite false m e).
Proof.
  intros Hm He <- <-. exists m, e. split_and!; [by split|rewrite SC_val; lia|..]; rewrite fz_finite.
  - replace (e + 52 + SC) with (52 + (e + SC)) by lia.
    rewrite (pow2_add 52) by (rewrite ?SC_val; lia). pose proof (pow2_pos (e + SC) ltac:(rewrite SC_val; lia)).
    rewrite pow2_52. apply Z.mul_le_mono_nonneg_r; lia.
  - replace (e + 53 + SC) with (53 + (e + SC)) by lia.
    rewrite (pow2_add 53) by (rewrite ?SC_val; lia). pose proof (pow2_pos (e + SC) ltac:(rewrite SC_val; lia)).
    rewrite pow2_53. apply Z.mul_le_mono_nonneg_r; lia.
Qed.

Lemma health_term_healthy : health_term Healthy = S754_finite false 7036874417766400 (-46).
Proof. vm_compute. reflexivity. Qed.
Lemma health_term_degraded : health_term Degraded = S754_finite false 7036874417766400 (-47).
Proof. vm_compute. reflexivity. Qed.

Lemma health_term_rng s : s = Healthy ∨ s = Degraded → rng 5 7 (health_term s).
Proof.
  intros [-> | ->].
  - apply (rng_weaken 6 7); [lia|lia|].
    rewrite health_term_healthy. apply normal_rng; lia.
  - apply (rng_weaken 5 6); [lia|lia|].
    rewrite health_term_degraded. apply normal_rng; lia.
Qed.

Lemma health_term_double : fz (health_term Healthy) = 2 * fz (health_term Degraded).
Proof.
  rewrite health_term_healthy, health_term_degraded, !fz_finite.
  replace (-46 + SC) with (-47 + SC + 1) by lia. rewrite pow2_succ by (rewrite SC_val; lia). lia.
Qed.

Lemma is_selectable_iff n : is_selectable n = true ↔ n_state n = Healthy ∨ n_state n = Degraded.
Proof. unfold is_selectable. destruct (n_state n); naive_solver. Qed.

Abbreviation dscore n := (score n ScoreWeights_default).

Lemma score_product n :
  is_selectable n = true →
  dscore n = product (health_term (n_state n)) (term (capacity_factor n))
    (term (latency_factor (n_latency_ms n))) (term (bandwidth_factor n)).
Proof. intros H. unfold score. by rewrite H. Qed.

Section terms.
Context (n : Node) (Hok : Node_ok n = true).

Lemma capacity_term : rng 0 1 (term (capacity_factor n)).
Proof. by apply term_rng, capacity_unit. Qed.
Lemma bandwidth_term : rng 0 1 (term (bandwidth_factor n)).
Proof. by apply term_rng, bandwidth_unit. Qed.
Lemma latency_u32 : 0 <= n_latency_ms n < U32_MOD.
Proof. by apply Node_ok_iff in Hok as (_ & _ & _ & _ & _ & ?). Qed.
Lemma latency_term : rng 0 1 (term (latency_factor (n_latency_ms n))).
Proof. apply term_rng, latency_unit, latency_u32. Qed.

Lemma score_rng : is_selectable n = true → rng 5 10 (dscore n).
Proof.
  intros Hs. rewrite score_product by done.
  apply product_rng; [apply capacity_term|apply latency_term|apply bandwidth_term|].
  by apply health_term_rng, is_selectable_iff.
Qed.
End terms.

#[export] Hint Resolve capacity_term bandwidth_term latency_term capacity_unit bandwidth_unit
  utilization_unit utilization_gap latency_u32 : wf.

(** ** Monotonicity *)

(** [n1] is no more loaded than [n2], as fractions of their ceilings. *)
Definition less_loaded (n1 n2 : Node) : bool :=
  (0 <? n_max_connections n1) &&
  (n_active_connections n1 * n_max_connections n2 <=? n_active_connections n2 * n_max_connections n1).

Section monotone.
Context (n1 n2 : Node) (Hok1 : Node_ok n1 = true) (Hok2 : Node_ok n2 = true).

Lemma less_loaded_iff :
  less_loaded n1 n2 = true ↔
  0 < n_max_connections n1 ∧
  n_active_connections n1 * n_max_connections n2 <= n_active_connections n2 * n_max_connections n1.
Proof. unfold less_loaded. by rewrite andb_true_iff, Z.ltb_lt, Z.leb_le. Qed.

Lemma capacity_mono :
  less_loaded n1 n2 = true → fz (capacity_factor n2) <= fz (capacity_factor n1).
Proof.
  intros [Hm Hl]%less_loaded_iff. pose proof pow2_SC_pos.
  pose proof (unit_fz _ (capacity_unit n1 Hok1)) as Hu.
  destruct (capacity_cases n2 Hok2) as [[-> _]|[Ha2 Hr2]]; [rewrite fz_0; lia|].
  pose proof (proj1 (Node_ok_iff n1) Hok1) as (Hm1 & Hc1 & _).
  pose proof (proj1 (Node_ok_iff n2) Hok2) as (Hm2 & Hc2 & _).
  assert (Hav : available_capacity n2 * n_max_connections n1 <=
                available_capacity n1 * n_max_connections n2)
    by (unfold available_capacity, saturating_sub in *; nia).
  destruct (capacity_cases n1 Hok1) as [[_ Hz]|[Ha1 Hr1]].
  - exfalso. nia.
  - eapply rne_mono; [exact Hr2|exact Hr1|]. nia.
Qed.

Lemma utilization_mono :
  less_loaded n1 n2 = true → fz (bandwidth_utilization n1) <= fz (bandwidth_utilization n2).
Proof.
  intros [Hm Hl]%less_loaded_iff. pose proof pow2_SC_pos.
  pose proof (unit_fz _ (utilization_unit n1 Hok1)) as Hu1.
  pose proof (unit_fz _ (utilization_unit n2 Hok2)) as Hu2.
  destruct (utilization_cases n2 Hok2) as [[_ ->]|H2]; [rewrite fz_1; lia|].
  destruct (utilization_cases n1 Hok1) as [[? _]|[(_ & _ & ->)|[He1 Hr1]]];
    [lia|rewrite fz_0; lia|].
  pose proof (proj1 (Node_ok_iff n1) Hok1) as (Hm1 & Hc1 & _).
  pose proof (proj1 (Node_ok_iff n2) Hok2) as (Hm2 & Hc2 & _).
  destruct H2 as [(Hp2 & Hz & _)|[He2 Hr2]]; [exfalso; unfold effective in *; nia|].
  eapply rne_mono; [exact Hr1|exact Hr2|].
  assert (effective n1 * n_max_connections n2 <= effective n2 * n_max_connections n1)
    by (unfold effective in *; nia). nia.
Qed.

Lemma bandwidth_mono :
  less_loaded n1 n2 = true → fz (bandwidth_factor n2) <= fz (bandwidth_factor n1).
Proof.
  intros Hl. apply one_minus_mono; eauto using utilization_mono with wf.
Qed.
End monotone.

Lemma latency_mono l1 l2 :
  0 <= l1 < U32_MOD → 0 <= l2 < U32_MOD → l1 <= l2 →
  fz (latency_factor l2) <= fz (latency_factor l1).
Proof.
  intros H1 H2 Hle. eapply rne_mono; [by apply latency_rne..|]. pose proof pow2_SC_pos. nia.
Qed.

Lemma score_mono_state n1 n2 h1 h2 :
  Node_ok n1 = true → Node_ok n2 = true → less_loaded n1 n2 = true →
  n_latency_ms n1 <= n_latency_ms n2 → rng 5 7 h1 → rng 5 7 h2 → fz h2 <= fz h1 →
  fz (product h2 (term (capacity_factor n2)) (term (latency_factor (n_latency_ms n2)))
    (term (bandwidth_factor n2))) <=
  fz (product h1 (term (capacity_factor n1)) (term (latency_factor (n_latency_ms n1)))
    (term (bandwidth_factor n1))).
Proof.
  intros Hok1 Hok2 Hl Hlat Hh1 Hh2 Hh. apply product_mono; eauto with wf.
  - apply term_mono; eauto with wf. by apply capacity_mono.
  - apply term_mono; [apply latency_unit; eauto with wf..|]. apply latency_mono; eauto with wf.
  - apply term_mono; eauto with wf. by apply bandwidth_mono.
Qed.

(** ** Healthy nodes against degraded nodes

    The extreme factors of the two classes. A healthy node uses less than nine
    tenths of its slots, and since counts are integers below [2 ^ 32] it leaves
    more than [(2 ^ 36 + 1) / (10 * 2 ^ 36)] of them. *)
Definition c_lo : f64 := f64_div (f64_of_Z 68719476737) (f64_of_Z 687194767360).
Definition u_hi : f64 := f64_div (f64_of_Z 618475290623) (f64_of_Z 687194767360).
Definition c_hi : f64 := f64_div (f64_of_Z 1) (f64_of_Z 10).

Lemma extremes_rne :
  rne (68719476737 * pow2 SC) 687194767360 c_lo ∧
  rne (618475290623 * pow2 SC) 687194767360 u_hi ∧
  rne (1 * pow2 SC) 10 c_hi.
Proof. split_and!; apply quotient_rne; lia. Qed.

Lemma ratio_unit_gap a m r :
  0 < a <= m → m <= 1099511627776 → rne (a * pow2 SC) m r →
  unit_f64 r ∧ (fz r = pow2 SC ∨ fz r <= pow2 SC - pow2 (SC - 64)).
Proof. intros. split; [by eapply ratio_unit|by eapply ratio_gap]. Qed.

Lemma extremes_unit :
  unit_f64 c_lo ∧ unit_f64 c_hi ∧
  (unit_f64 u_hi ∧ (fz u_hi = pow2 SC ∨ fz u_hi <= pow2 SC - pow2 (SC - 64))) ∧
  (unit_f64 f64_0_9 ∧ (fz f64_0_9 = pow2 SC ∨ fz f64_0_9 <= pow2 SC - pow2 (SC - 64))).
Proof.
  destruct extremes_rne as (H1 & H2 & H3).
  split_and!; eapply ratio_unit_gap; try (exact H1 || exact H2 || exact H3 || exact f64_0_9_rne); lia.
Qed.

Lemma one_in_term : rng 0 1 f64_1.
Proof. eapply rng_weaken; [..|apply rng_1]; lia. Qed.

Lemma extremes_term :
  rng 0 1 (term c_lo) ∧ rng 0 1 (term (f64_sub f64_1 u_hi)) ∧
  rng 0 1 (term c_hi) ∧ rng 0 1 (term (f64_sub f64_1 f64_0_9)) ∧ rng 0 1 (term f64_1).
Proof.
  destruct extremes_unit as (U1 & U3 & [U2 G2] & [U4 G4]).
  split_and!; apply term_rng; [exact U1| |exact U3| |exact unit_1].
  - exact (proj1 (one_minus _ U2 G2)).
  - exact (proj1 (one_minus _ U4 G4)).
Qed.

Lemma extremes_compare :
  fz (product (health_term Degraded) (term c_hi) (term f64_1) (term (f64_sub f64_1 f64_0_9))) <
  fz (product (health_term Healthy) (term c_lo) f64_1 (term (f64_sub f64_1 u_hi))).
Proof.
  destruct extremes_term as (T1 & T2 & T3 & T4 & T5).
  assert (Hc : ∀ x y, rng 5 10 x → rng 5 10 y → f64_partial_cmp x y = Some Lt → fz x < fz y).
  { intros x y Hx Hy. rewrite f64_cmp_value by eauto with wf. intros [= ?]. by apply Z.compare_lt_iff. }
  apply Hc; [| |vm_compute; reflexivity].
  - exact (product_rng _ _ _ T3 T5 T4 _ (health_term_rng Degraded (or_intror eq_refl))).
  - exact (product_rng _ _ _ T1 one_in_term T2 _ (health_term_rng Healthy (or_introl eq_refl))).
Qed.

Lemma healthy_lower n :
  Node_ok n = true → n_state n = Healthy →
  10 * n_active_connections n < 9 * n_max_connections n →
  fz (product (health_term Healthy) (term c_lo) f64_1 (term (f64_sub f64_1 u_hi))) <= fz (dscore n).
Proof.
  intros Hok Hs Hload. rewrite score_product, Hs by (apply is_selectable_iff; auto).
  destruct extremes_rne as (H1 & H2 & _). pose proof pow2_SC_pos.
  destruct extremes_unit as (U1 & _ & [U2 G2] & _).
  destruct extremes_term as (T1 & T2 & _).
  pose proof (proj1 (Node_ok_iff n) Hok) as (Hm & Ha & _). unfold U32_MOD in Hm.
  pose proof (health_term_rng Healthy (or_introl eq_refl)) as Hh.
  apply product_mono; [exact T1|by apply capacity_term|exact one_in_term|by apply latency_term
    |exact T2|by apply bandwidth_term|exact Hh|exact Hh|lia|..].
  - apply term_mono; [exact U1|by apply capacity_unit|].
    destruct (capacity_cases n Hok) as [[_ Hz]|[Hc Hr]];
      [unfold available_capacity, saturating_sub in Hz; lia|].
    eapply rne_mono; [exact H1|exact Hr|]. unfold available_capacity, saturating_sub in *. nia.
  - pose proof (latency_term n Hok) as (_ & _ & _ & _ & Hl). rewrite fz_1. rewrite Z.add_0_l in Hl. lia.
  - apply term_mono; [exact (proj1 (one_minus _ U2 G2))|by apply bandwidth_unit|].
    apply one_minus_mono; [by apply utilization_unit|exact U2|by apply utilization_gap|exact G2|].
    destruct (utilization_cases n Hok) as [[? _]|[(_ & _ & ->)|[He Hr]]];
      [lia|pose proof (unit_fz _ U2); rewrite fz_0; lia|].
    eapply rne_mono; [exact Hr|exact H2|]. unfold effective in *. nia.
Qed.

Lemma degraded_upper n :
  Node_ok n = true → n_state n = Degraded →
  9 * n_max_connections n <= 10 * n_active_connections n →
  fz (dscore n) <=
  fz (product (health_term Degraded) (term c_hi) (term f64_1) (term (f64_sub f64_1 f64_0_9))).
Proof.
  intros Hok Hs Hload. rewrite score_product, Hs by (apply is_selectable_iff; auto).
  destruct extremes_rne as (_ & _ & H3). pose proof pow2_SC_pos.
  destruct extremes_unit as (_ & U3 & _ & [U4 G4]).
  pose proof (proj1 (Node_ok_iff n) Hok) as (Hm & Ha & _).
  pose proof (unit_fz _ U3). pose proof (unit_fz _ U4). destruct extremes_term as (_ & _ & T3 & T4 & T5).
  pose proof (health_term_rng Degraded (or_intror eq_refl)) as Hh.
  apply product_mono; [by apply capacity_term|exact T3|by apply latency_term|exact T5
    |by apply bandwidth_term|exact T4|exact Hh|exact Hh|lia|..].
  - apply term_mono; [by apply capacity_unit|exact U3|].
    destruct (capacity_cases n Hok) as [[-> _]|[Hc Hr]]; [rewrite fz_0; lia|].
    eapply rne_mono; [exact Hr|exact H3|]. unfold available_capacity, saturating_sub in *. nia.
  - apply term_mono; [apply latency_unit; eauto with wf|apply unit_1|].
    rewrite fz_1. apply unit_fz, latency_unit. eauto with wf.
  - apply term_mono; [by apply bandwidth_unit|exact (proj1 (one_minus _ U4 G4))|].
    apply one_minus_mono; [exact U4|by apply utilization_unit|exact G4|by apply utilization_gap|].
    destruct (utilization_cases n Hok) as [[_ ->]|[(Hp & Hz & _)|[He Hr]]];
      [rewrite fz_1; lia|unfold effective in Hz; lia|].
    eapply rne_mono; [exact f64_0_9_rne|exact Hr|]. unfold effective in *. nia.
Qed.

(** ** From values back to float comparisons *)
Lemma ge_of_fz x y : nonneg x → nonneg y → fz y <= fz x → f64_ge x y = true.
Proof.
  intros Hx Hy Hle. unfold f64_ge. pose proof (f64_cmp_value x y Hx Hy) as Hc.
  unfold f64_partial_cmp in Hc. rewrite Hc. by destruct (Z.compare_spec (fz x) (fz y)); [| lia|].
Qed.

Lemma lt_of_fz x y : nonneg x → nonneg y → fz x < fz y → f64_lt x y = true.
Proof.
  intros Hx Hy Hlt. unfold f64_lt. pose proof (f64_cmp_value x y Hx Hy) as Hc.
  unfold f64_partial_cmp in Hc. rewrite Hc. by rewrite (proj2 (Z.compare_lt_iff _ _)).
Qed.

Definition candidate (n : Node) : Prop := Node_ok n = true ∧ is_selectable n = true.

Lemma candidate_nonneg n : candidate n → nonneg (dscore n).
Proof. intros [Hok Hs]. eapply rng_nonneg, (score_rng n Hok Hs). Qed.

#[export] Hint Resolve candidate_nonneg : wf.

Lemma filter_decompose {A} (P : A → Prop) `{∀ x, Decision (P x)} (l l1 l2 : list A) r :
  filter P l = l1 ++ r :: l2 →
  ∃ k1 k2, l = k1 ++ r :: k2 ∧ filter P k1 = l1 ∧ filter P k2 = l2.
Proof.
  revert l1. induction l as [|x l IH]; intros l1 Heq; [by destruct l1|].
  rewrite filter_cons in Heq. destruct (decide (P x)) as [Hx|Hx].
  - destruct l1 as [|y l1]; simplify_eq/=; [by exists [], l|].
    destruct (IH l1 ltac:(done)) as (k1 & k2 & -> & <- & <-). exists (y :: k1), k2.
    by rewrite filter_cons_True.
  - destruct (IH l1 Heq) as (k1 & k2 & -> & <- & <-). exists (x :: k1), k2.
    by rewrite filter_cons_False.
Qed.

Lemma select_last_max nodes :
  Forall (λ n, Node_ok n = true) nodes →
  match selector_select HealthAwareSelector_default nodes with
  | None => filter (λ n, is_selectable n = true) nodes = []
  | Some r => last_max (λ n, fz (dscore n)) (filter (λ n, is_selectable n = true) nodes) r
  end.
Proof.
  intros Hok. unfold selector_select.
  apply (max_by_last_max (λ n, fz (dscore n)) _ candidate).
  - intros a b Ha Hb. cbn [weights HealthAwareSelector_default].
    by rewrite f64_cmp_value by auto with wf.
  - apply Forall_forall. intros n [Hs Hn]%list_elem_of_filter. split; [|done].
    rewrite Forall_forall in Hok. auto.
Qed.

(** The result is a best selectable node. *)
(** Whatever the weights, the selection is a selectable node of the list. *)
Lemma foldl_pick {A} (f : A → A → comparison) l x :
  foldl (λ x y, match f x y with Gt => x | _ => y end) x l ∈ x :: l.
Proof.
  revert x. induction l as [|y l IH]; intros x; cbn; [left|].
  specialize (IH (match f x y with Gt => x | _ => y end)). destruct (f x y); set_solver.
Qed.

Lemma selector_select_elem s nodes r :
  Some r = selector_select s nodes → is_selectable r = true ∧ r ∈ nodes.
Proof.
  unfold selector_select, max_by. destruct (filter _ nodes) as [|x l] eqn:Hf; [done|]. intros [= ->].
  match goal with |- context [foldl ?f x l] => set (r := foldl f x l) end.
  assert (Hr : r ∈ x :: l) by apply (foldl_pick (λ a b, default Eq _)). rewrite <- Hf in Hr.
  by apply (list_elem_of_filter (λ n, is_selectable n = true)) in Hr.
Qed.

Lemma select_max nodes :
  Forall (λ n, Node_ok n = true) nodes →
  match selector_select HealthAwareSelector_default nodes with
  | None => ∀ n, n ∈ nodes → is_selectable n = false
  | Some r => r ∈ nodes ∧ is_selectable r = true ∧
      ∀ n, n ∈ nodes → is_selectable n = true → f64_ge (dscore r) (dscore n) = true
  end.
Proof.
  intros Hok. pose proof (select_last_max nodes Hok) as Hm. rewrite Forall_forall in Hok.
  set (P := λ n, is_selectable n = true) in *.
  destruct (selector_select _ nodes) as [r|].
  - destruct Hm as (l1 & l2 & Hf & H1 & H2).
    assert (Hr : is_selectable r = true ∧ r ∈ nodes)
      by (apply (list_elem_of_filter P); rewrite Hf; set_solver).
    destruct Hr as [Hr Hin]. split_and!; [done|done|]. intros n Hn Hs.
    assert (Hnf : n ∈ filter P nodes) by by apply list_elem_of_filter.
    apply ge_of_fz; [apply candidate_nonneg; split; auto..|].
    rewrite Hf in Hnf. apply elem_of_app in Hnf as [Hx|[-> |Hx]%elem_of_cons]; [by apply H1|done|].
    apply Z.lt_le_incl, (H2 n Hx).
  - intros n Hn. destruct (is_selectable n) eqn:Hs; [|done].
    assert (Hnf : n ∈ filter P nodes) by by apply list_elem_of_filter.
    rewrite Hm in Hnf. by apply not_elem_of_nil in Hnf.
Qed.

Lemma score_bounds_fz n :
  candidate n → fz (f64_of_Z 50) <= fz (dscore n) <= fz (f64_of_Z 800).
Proof.
  intros [Hok Hs]. rewrite score_product by done.
  pose proof (health_term_rng _ (proj1 (is_selectable_iff n) Hs)) as Hh.
  pose proof (term_rng _ unit_1) as H2.
  pose proof (health_term_rng Healthy (or_introl eq_refl)) as Hhh.
  pose proof (health_term_rng Degraded (or_intror eq_refl)) as Hhd.
  assert (Hlo : ∀ f, rng 0 1 f → fz f64_1 <= fz f)
    by (intros f (_ & _ & _ & _ & Hf); rewrite fz_1; rewrite Z.add_0_l in Hf; lia).
  assert (Hhi : ∀ f, unit_f64 f → fz (term f) <= fz (term f64_1)).
  { intros f Hf. apply term_mono; [done|apply unit_1|]. rewrite fz_1. by apply unit_fz. }
  assert (Hb : fz (health_term Degraded) <= fz (health_term (n_state n)) <= fz (health_term Healthy)).
  { pose proof health_term_double. destruct Hhd as (? & ? & Hn & He & _).
    pose proof (fz_nf_pos _ _ _ Hn He). destruct (proj1 (is_selectable_iff n) Hs) as [-> | ->]; lia. }
  replace (f64_of_Z 50) with (product (health_term Degraded) f64_1 f64_1 f64_1)
    by (vm_compute; reflexivity).
  replace (f64_of_Z 800) with (product (health_term Healthy) (term f64_1) (term f64_1) (term f64_1))
    by (vm_compute; reflexivity).
  split; apply product_mono; try exact one_in_term; try exact H2; try exact Hhh; try exact Hhd;
    try exact Hh; try apply Hb; try apply Hlo; try apply Hhi;
    auto using capacity_term, latency_term, bandwidth_term, capacity_unit, bandwidth_unit.
  apply latency_unit, latency_u32, Hok.
Qed.

Definition classified (n : Node) : Prop :=
  is_selectable n = true →
  n_state n = reclassify_after_heartbeat Starting (n_active_connections n) (n_max_connections n)
    HealthPolicy_default.

Lemma healthy_beats_degraded a b :
  Node_ok a = true → Node_ok b = true → classified a → classified b →
  n_state a = Healthy → n_state b = Degraded → fz (dscore b) < fz (dscore a).
Proof.
  intros Ha Hb Hca Hcb Hsa Hsb.
  pose proof (proj1 (Node_ok_iff a) Ha) as (Hma & Haa & _).
  pose proof (proj1 (Node_ok_iff b) Hb) as (Hmb & Hab & _).
  unfold classified in Hca, Hcb. rewrite Hsa, reclassify_default in Hca by done.
  rewrite Hsb, reclassify_default in Hcb by done.
  rewrite is_selectable_iff in Hca, Hcb. specialize (Hca (or_introl Hsa)). specialize (Hcb (or_intror Hsb)).
  destruct (Z.leb_spec (9 * n_max_connections a) (10 * n_active_connections a)); [done|].
  destruct (Z.leb_spec (9 * n_max_connections b) (10 * n_active_connections b)); [|done].
  pose proof (healthy_lower a). pose proof (degraded_upper b). pose proof extremes_compare.
  eapply Z.le_lt_trans; [by apply degraded_upper|].
  eapply Z.lt_le_trans; [apply extremes_compare|by apply healthy_lower].
Qed.

(** ** Properties *)

(** The selector: with the default weights and nodes whose fields are in
    range, [None] means that no node is selectable; otherwise the result is a
    selectable node of the list whose score no selectable node exceeds, and
    every selectable node after it in the list scores strictly less: a tie goes
    to the last node, not to the first as the module comment says. *)
Theorem select_spec (nodes : list Node) :
  Forall (λ n, Node_ok n = true) nodes →
  match selector_select HealthAwareSelector_default nodes with
  | None => Forall (λ n, is_selectable n = false) nodes
  | Some r =>
      is_selectable r = true ∧
      ∃ before after, nodes = before ++ r :: after ∧
        (∀ n, n ∈ before → is_selectable n = true → f64_ge (dscore r) (dscore n) = true) ∧
        (∀ n, n ∈ after → is_selectable n = true → f64_lt (dscore n) (dscore r) = true)
  end.
Proof.
  intros Hok. pose proof (select_last_max nodes Hok) as Hm. rewrite Forall_forall in Hok.
  destruct (selector_select _ nodes) as [r|].
  - destruct Hm as (l1 & l2 & Hf & H1 & H2).
    apply filter_decompose in Hf as Hd. destruct Hd as (k1 & k2 & -> & <- & <-).
    assert (Hr : is_selectable r = true ∧ r ∈ k1 ++ r :: k2)
      by (apply (list_elem_of_filter (λ n, is_selectable n = true)); rewrite Hf; set_solver).
    assert (candidate r) by (split; [apply Hok|]; apply Hr).
    split; [apply Hr|]. exists k1, k2. split; [done|].
    split; intros n Hn Hs; (assert (candidate n) by (split; [apply Hok; set_solver|done])).
    + apply ge_of_fz; [auto with wf..|]. apply H1, list_elem_of_filter. done.
    + apply lt_of_fz; [auto with wf..|]. apply H2, list_elem_of_filter. done.
  - apply Forall_forall. intros n Hn. destruct (is_selectable n) eqn:Hs; [|done].
    assert (Hin : n ∈ filter (λ n, is_selectable n = true) nodes) by by apply list_elem_of_filter.
    rewrite Hm in Hin. by apply not_elem_of_nil in Hin.
Qed.

Definition sample_node (id : string) (s : NodeState) (active max latency : Z) : Node :=
  {| n_id := id; n_address := "127.0.0.1:9001"; n_state := s; n_last_heartbeat := Some 0;
     n_max_connections := max; n_active_connections := active; n_bandwidth_limit := 1000000;
     n_bytes_up := 0; n_bytes_down := 0; n_latency_ms := latency;
     n_created_at := 0; n_updated_at := 0 |}.

Lemma select_spec_witness :
  selector_select HealthAwareSelector_default
    [sample_node "a" Healthy 0 10 5; sample_node "b" Healthy 0 10 5]
  = Some (sample_node "b" Healthy 0 10 5) ∧
  is_selectable (sample_node "b" Healthy 0 10 5) = true.
Proof.
  pose proof (select_spec [sample_node "a" Healthy 0 10 5; sample_node "b" Healthy 0 10 5]) as H.
  assert (E : selector_select HealthAwareSelector_default
    [sample_node "a" Healthy 0 10 5; sample_node "b" Healthy 0 10 5]
    = Some (sample_node "b" Healthy 0 10 5)) by (vm_compute; reflexivity).
  split; [exact E|]. rewrite E in H. apply H. repeat constructor.
Defined.

(** Healthy first: when the state of every selectable node is the one the
    health policy gives to its load (as it is right after a heartbeat), the
    selector never returns a degraded node while a healthy one is registered,
    whatever the latencies and loads. The margin between a degraded node at its
    best (0.9 load, no latency) and a healthy one at its worst is a few units of
    [2 ^ -36]; the rounding of the score never closes it. *)
Theorem select_prefers_healthy (nodes : list Node) (h : Node) :
  Forall (λ n, Node_ok n = true) nodes → Forall classified nodes →
  h ∈ nodes → n_state h = Healthy →
  ∃ r, selector_select HealthAwareSelector_default nodes = Some r ∧ n_state r = Healthy.
Proof.
  intros Hok Hcl Hh Hs. pose proof (select_last_max nodes Hok) as Hm.
  rewrite !Forall_forall in *.
  assert (Hf : h ∈ filter (λ n, is_selectable n = true) nodes)
    by (apply list_elem_of_filter; rewrite is_selectable_iff; auto).
  destruct (selector_select _ nodes) as [r|]; [|rewrite Hm in Hf; by apply not_elem_of_nil in Hf].
  exists r. split; [done|]. destruct Hm as (l1 & l2 & Heq & H1 & H2).
  assert (Hr : is_selectable r = true ∧ r ∈ nodes)
    by (apply (list_elem_of_filter (λ n, is_selectable n = true)); rewrite Heq; set_solver).
  destruct Hr as [Hr Hrn]. apply is_selectable_iff in Hr as [Hr|Hr]; [done|].
  pose proof (healthy_beats_degraded h r (Hok _ Hh) (Hok _ Hrn) (Hcl _ Hh) (Hcl _ Hrn) Hs Hr).
  rewrite Heq in Hf. apply elem_of_app in Hf as [Hf|[-> |Hf]%elem_of_cons].
  - specialize (H1 _ Hf). cbn in H1. lia.
  - congruence.
  - specialize (H2 _ Hf). cbn in H2. lia.
Qed.

Lemma select_prefers_healthy_witness :
  ∃ r, selector_select HealthAwareSelector_default
         [sample_node "far" Healthy 89 100 4294967295; sample_node "near" Degraded 90 100 0] = Some r
       ∧ n_state r = Healthy.
Proof.
  apply (select_prefers_healthy _ (sample_node "far" Healthy 89 100 4294967295)).
  - repeat constructor.
  - repeat constructor; intros _; vm_compute; reflexivity.
  - left.
  - reflexivity.
Defined.

(** (C31) The score is monotone: a selectable node that is no more loaded, no
    slower and in no worse a state never scores less, and a healthy node scores
    strictly more than a degraded one with such figures. *)
Theorem score_monotone (n1 n2 : Node) :
  Node_ok n1 = true → Node_ok n2 = true → is_selectable n1 = true → is_selectable n2 = true →
  less_loaded n1 n2 = true → n_latency_ms n1 <= n_latency_ms n2 →
  n_state n1 = Healthy ∨ n_state n2 = Degraded →
  f64_ge (dscore n1) (dscore n2) = true ∧
  (n_state n1 ≠ n_state n2 → f64_lt (dscore n2) (dscore n1) = true).
Proof.
  intros Hok1 Hok2 Hs1 Hs2 Hl Hlat Hst.
  assert (candidate n1 ∧ candidate n2) as [C1 C2] by done.
  assert (Hst1 := proj1 (is_selectable_iff n1) Hs1). assert (Hst2 := proj1 (is_selectable_iff n2) Hs2).
  pose proof health_term_double as Hd.
  pose proof (health_term_rng Degraded (or_intror eq_refl)) as (? & ? & Hn & He & _).
  pose proof (fz_nf_pos _ _ _ Hn He) as Hp.
  split.
  - apply ge_of_fz; [auto with wf..|]. rewrite !score_product by done.
    apply score_mono_state; auto using health_term_rng.
    destruct Hst1 as [E1|E1], Hst2 as [E2|E2]; rewrite E1, E2; try lia. destruct Hst; congruence.
  - intros Hne. assert (n_state n1 = Healthy ∧ n_state n2 = Degraded) as [E1 E2]
      by (destruct Hst1, Hst2, Hst; split; congruence).
    apply lt_of_fz; [auto with wf..|]. rewrite !score_product, E1, E2 by done.
    rewrite (product_double _ _ _ (capacity_term n1 Hok1) (latency_term n1 Hok1) (bandwidth_term n1 Hok1)
      _ _ (health_term_rng Healthy (or_introl eq_refl)) (health_term_rng Degraded (or_intror eq_refl)) Hd).
    pose proof (score_mono_state n1 n2 (health_term Degraded) (health_term Degraded) Hok1 Hok2 Hl Hlat
      (health_term_rng Degraded (or_intror eq_refl)) (health_term_rng Degraded (or_intror eq_refl))
      (Z.le_refl _)) as Hle.
    pose proof (product_rng _ _ _ (capacity_term n1 Hok1) (latency_term n1 Hok1) (bandwidth_term n1 Hok1)
      _ (health_term_rng Degraded (or_intror eq_refl))) as (? & ? & Hn' & He' & _).
    pose proof (fz_nf_pos _ _ _ Hn' He'). lia.
Qed.

Lemma score_monotone_witness :
  f64_ge (dscore (sample_node "a" Healthy 1 10 5)) (dscore (sample_node "b" Degraded 2 10 7)) = true ∧
  (Healthy ≠ Degraded →
   f64_lt (dscore (sample_node "b" Degraded 2 10 7)) (dscore (sample_node "a" Healthy 1 10 5)) = true).
Proof.
  apply (score_monotone (sample_node "a" Healthy 1 10 5) (sample_node "b" Degraded 2 10 7));
    try reflexivity; [cbn; lia|by left].
Defined.

(** The score is a number: with the default weights a selectable node
    with fields in range scores between 50 and 800 (never NaN, never infinite),
    so [unwrap_or(Equal)] in the selector is never reached; any other node
    scores exactly zero. *)
Theorem score_bounds (n : Node) :
  Node_ok n = true →
  if is_selectable n
  then f64_ge (score n ScoreWeights_default) (f64_of_Z 50) = true ∧
       f64_ge (f64_of_Z 800) (score n ScoreWeights_default) = true
  else score n ScoreWeights_default = f64_0.
Proof.
  intros Hok. destruct (is_selectable n) eqn:Hs; [|unfold score; by rewrite Hs].
  pose proof (score_bounds_fz n (conj Hok Hs)) as Hb.
  assert (candidate n) by done.
  assert (∀ z, 0 < z < U64_MOD → nonneg (f64_of_Z z))
    by (intros z Hz; eapply rne_nonneg, f64_of_Z_rne, Hz).
  split; apply ge_of_fz; auto with wf; try apply Hb; match goal with H : _ |- _ => apply H end;
    unfold U64_MOD; lia.
Qed.

Lemma score_bounds_witness :
  f64_ge (dscore (sample_node "a" Healthy 0 10 0)) (f64_of_Z 50) = true ∧
  f64_ge (f64_of_Z 800) (dscore (sample_node "a" Healthy 0 10 0)) = true.
Proof. apply (score_bounds (sample_node "a" Healthy 0 10 0)). reflexivity. Defined.
