(* ===== verification/Registry.v ===== *)
(** * The node registry

    [crates/control-plane/src/registry.rs]. The trait [NodeRepository] is a
    class of operations on an abstract repository state, together with the
    contract [RepositoryLaws] that the service relies on: the repository is a
    finite map from node ids to nodes, and each operation is one update of it.
    [Sqlite] is the implementation of the source: a table of SQL rows whose
    integer columns hold [i64] values, the SQL statements as functions on it,
    and the decoding of rows. Its instance of the contract is the refinement
    proof. The driver may fail at any statement ([sql_fault]); a failed
    statement leaves the table as it was. *)

From stdpp Require Import base tactics decidable numbers list sorting strings gmap.
From Stdlib Require Import ZArith Lia SpecFloat.
From S2P Require Import Prelude F64 Model.

Record Heartbeat : Type := mkHeartbeat {
  hb_node_id : string;
  hb_active_connections : Z;
  hb_bytes_up : Z;
  hb_bytes_down : Z;
  hb_latency_ms : Z;
  hb_available_bandwidth : Z
}.

Record RegisterRequest : Type := mkRegisterRequest {
  rr_node_id : string;
  rr_address : string;
  rr_max_connections : Z;
  rr_bandwidth_limit : Z
}.

(** What the field types guarantee. *)
Definition Heartbeat_ok (hb : Heartbeat) : bool :=
  is_u32 (hb_active_connections hb) && is_u64 (hb_bytes_up hb) && is_u64 (hb_bytes_down hb) &&
  is_u32 (hb_latency_ms hb) && is_u64 (hb_available_bandwidth hb).
Definition RegisterRequest_ok (r : RegisterRequest) : bool :=
  is_u32 (rr_max_connections r) && is_u64 (rr_bandwidth_limit r).

(** The [anyhow] errors of the control plane. *)
Inductive Error : Type :=
| Storage
| ColumnDecode (column : string)
| UnknownState (status : string)
| InvalidEpoch (unix : Z)
| Disappeared.

#[export] Instance Error_eq_dec : EqDecision Error.
Proof. solve_decision. Defined.

(** Operations on a state of type [S] that may fail. *)
Abbreviation M := (SM Error).

(** ** The trait *)
Class NodeRepository (R : Type) : Type := {
  repo_register : RegisterRequest → M R unit;
  repo_get : string → M R (option Node);
  repo_list : M R (list Node);
  repo_apply_heartbeat : Heartbeat → M R unit;
  repo_set_draining : string → M R unit;
  repo_mark_offline : string → M R unit;
  repo_set_state : string → NodeState → M R unit;
  repo_adjust_active : string → Z → M R unit;
  repo_accumulate_bytes : string → Z → Z → M R unit
}.

(** ** The contract, on finite maps of nodes *)
Abbreviation Nodes := (gmap string Node).

Definition with_state (s : NodeState) (t : Z) (n : Node) : Node :=
  {| n_id := n_id n; n_address := n_address n; n_state := s;
     n_last_heartbeat := n_last_heartbeat n; n_max_connections := n_max_connections n;
     n_active_connections := n_active_connections n; n_bandwidth_limit := n_bandwidth_limit n;
     n_bytes_up := n_bytes_up n; n_bytes_down := n_bytes_down n; n_latency_ms := n_latency_ms n;
     n_created_at := n_created_at n; n_updated_at := t |}.

Definition with_heartbeat (hb : Heartbeat) (t : Z) (n : Node) : Node :=
  {| n_id := n_id n; n_address := n_address n; n_state := n_state n;
     n_last_heartbeat := Some t; n_max_connections := n_max_connections n;
     n_active_connections := hb_active_connections hb; n_bandwidth_limit := n_bandwidth_limit n;
     n_bytes_up := hb_bytes_up hb; n_bytes_down := hb_bytes_down hb;
     n_latency_ms := hb_latency_ms hb; n_created_at := n_created_at n; n_updated_at := t |}.

Definition with_active (a : Z) (t : Z) (n : Node) : Node :=
  {| n_id := n_id n; n_address := n_address n; n_state := n_state n;
     n_last_heartbeat := n_last_heartbeat n; n_max_connections := n_max_connections n;
     n_active_connections := a; n_bandwidth_limit := n_bandwidth_limit n;
     n_bytes_up := n_bytes_up n; n_bytes_down := n_bytes_down n; n_latency_ms := n_latency_ms n;
     n_created_at := n_created_at n; n_updated_at := t |}.

Definition with_bytes (up down : Z) (t : Z) (n : Node) : Node :=
  {| n_id := n_id n; n_address := n_address n; n_state := n_state n;
     n_last_heartbeat := n_last_heartbeat n; n_max_connections := n_max_connections n;
     n_active_connections := n_active_connections n; n_bandwidth_limit := n_bandwidth_limit n;
     n_bytes_up := up; n_bytes_down := down; n_latency_ms := n_latency_ms n;
     n_created_at := n_created_at n; n_updated_at := t |}.

(** A registration: a new node starts; a known one takes the new address and
    limits, restarts if it was offline, and keeps everything else. *)
Definition registered (req : RegisterRequest) (t : Z) (old : option Node) : Node :=
  match old with
  | None =>
      {| n_id := rr_node_id req; n_address := rr_address req; n_state := Starting;
         n_last_heartbeat := None; n_max_connections := rr_max_connections req;
         n_active_connections := 0; n_bandwidth_limit := rr_bandwidth_limit req;
         n_bytes_up := 0; n_bytes_down := 0; n_latency_ms := 0;
         n_created_at := t; n_updated_at := t |}
  | Some n =>
      {| n_id := n_id n; n_address := rr_address req;
         n_state := match n_state n with Offline => Starting | s => s end;
         n_last_heartbeat := n_last_heartbeat n; n_max_connections := rr_max_connections req;
         n_active_connections := n_active_connections n;
         n_bandwidth_limit := rr_bandwidth_limit req;
         n_bytes_up := n_bytes_up n; n_bytes_down := n_bytes_down n;
         n_latency_ms := n_latency_ms n; n_created_at := n_created_at n; n_updated_at := t |}
  end.

Definition spec_register (req : RegisterRequest) (t : Z) (m : Nodes) : Nodes :=
  <[rr_node_id req := registered req t (m !! rr_node_id req)]> m.
Definition spec_heartbeat (hb : Heartbeat) (t : Z) (m : Nodes) : Nodes :=
  alter (with_heartbeat hb t) (hb_node_id hb) m.
Definition spec_set_state (id : string) (s : NodeState) (t : Z) (m : Nodes) : Nodes :=
  alter (with_state s t) id m.
Definition spec_adjust_active (id : string) (delta : Z) (t : Z) (m : Nodes) : Nodes :=
  alter (λ n, with_active (Z.max 0 (n_active_connections n + delta)) t n) id m.
Definition spec_accumulate (id : string) (up down : Z) (t : Z) (m : Nodes) : Nodes :=
  alter (λ n, with_bytes (n_bytes_up n + up) (n_bytes_down n + down) t n) id m.

(** [l] lists the nodes of [m] in the order of their ids. *)
Definition lists (m : Nodes) (l : list Node) : Prop :=
  StronglySorted (λ a b, String.leb (n_id a) (n_id b) = true) l ∧ NoDup l ∧
  ∀ n, n ∈ l ↔ m !! n_id n = Some n.

Section contract.
Context {R : Type}.
Context (inv : R → Prop) (view : R → Nodes) (stamp : R → Z) (reliable : R → Prop).

(** The operation is the update [f], or fails and changes nothing; it only
    fails when the storage is not [reliable]. *)
Definition updates (c : M R unit) (f : Z → Nodes → Nodes) (s : R) : Prop :=
  let '(r, s') := c s in
  inv s' ∧ (reliable s → reliable s' ∧ r = Ok tt) ∧
  match r with
  | Ok _ => view s' = f (stamp s) (view s)
  | Err _ => view s' = view s
  | Panic => False
  end.

(** The operation only reads. *)
Definition reads {A} (c : M R A) (P : Nodes → A → Prop) (s : R) : Prop :=
  let '(r, s') := c s in
  inv s' ∧ (reliable s → reliable s' ∧ ∃ a, r = Ok a) ∧ view s' = view s ∧
  match r with Ok a => P (view s) a | Err _ => True | Panic => False end.
End contract.

Class RepositoryLaws (R : Type) `{NodeRepository R} : Type := {
  repo_inv : R → Prop;
  repo_view : R → Nodes;
  (** the instant, truncated to seconds, of the next update *)
  repo_stamp : R → Z;
  (** no statement fails from here on *)
  repo_reliable : R → Prop;
  view_typed s id n : repo_inv s → repo_view s !! id = Some n → n_id n = id ∧ Node_ok n = true;
  law_get s id : repo_inv s →
    reads repo_inv repo_view repo_reliable (repo_get id) (λ m r, r = m !! id) s;
  law_list s : repo_inv s → reads repo_inv repo_view repo_reliable repo_list lists s;
  law_register s req : repo_inv s → RegisterRequest_ok req = true →
    updates repo_inv repo_view repo_stamp repo_reliable (repo_register req) (spec_register req) s;
  law_heartbeat s hb : repo_inv s → Heartbeat_ok hb = true →
    updates repo_inv repo_view repo_stamp repo_reliable (repo_apply_heartbeat hb)
      (spec_heartbeat hb) s;
  law_draining s id : repo_inv s →
    updates repo_inv repo_view repo_stamp repo_reliable (repo_set_draining id)
      (spec_set_state id Draining) s;
  law_offline s id : repo_inv s →
    updates repo_inv repo_view repo_stamp repo_reliable (repo_mark_offline id)
      (spec_set_state id Offline) s;
  law_set_state s id st : repo_inv s →
    updates repo_inv repo_view repo_stamp repo_reliable (repo_set_state id st)
      (spec_set_state id st) s;
  law_adjust s id delta : repo_inv s → is_i64 delta = true →
    (∀ n, repo_view s !! id = Some n → n_active_connections n + delta < U32_MOD) →
    updates repo_inv repo_view repo_stamp repo_reliable (repo_adjust_active id delta)
      (spec_adjust_active id delta) s;
  law_accumulate s id up down : repo_inv s → is_u64 up = true → is_u64 down = true →
    (∀ n, repo_view s !! id = Some n →
       n_bytes_up n + up < 2 ^ 63 ∧ n_bytes_down n + down < 2 ^ 63) →
    updates repo_inv repo_view repo_stamp repo_reliable (repo_accumulate_bytes id up down)
      (spec_accumulate id up down) s
}.

(** ** The SQLite implementation *)

(** An INTEGER column holds an [i64]; arithmetic that leaves its range gives a
    REAL, and a REAL that is an integer of the range is stored as one. *)
Inductive cell : Type := CInt (z : Z) | CReal (f : f64).

Definition integer_affinity (f : f64) : cell :=
  let store z := if (- 2 ^ 63 <? z) && (z <? 2 ^ 63 - 1) then CInt z else CReal f in
  match f with
  | S754_zero _ => CInt 0
  | S754_finite s m e =>
      let sign z := if s then - z else z in
      if 0 <=? e then store (sign (Zpos m * 2 ^ e))
      else if Zpos m mod 2 ^ (- e) =? 0 then store (sign (Zpos m / 2 ^ (- e)))
      else CReal f
  | _ => CReal f
  end.

(** [column + ?] *)
Definition sql_add (c : cell) (d : Z) : cell :=
  match c with
  | CInt z => if is_i64 (z + d) then CInt (z + d) else CReal (f64_add (f64_of_Z z) (f64_of_Z d))
  | CReal f => CReal (f64_add f (f64_of_Z d))
  end.

(** [MAX(0, x)] *)
Definition sql_max0 (c : cell) : cell :=
  match c with
  | CInt z => CInt (Z.max 0 z)
  | CReal f => if f64_lt f f64_0 then CInt 0 else CReal f
  end.

Definition sql_store (c : cell) : cell :=
  match c with CInt z => CInt z | CReal f => integer_affinity f end.

(** A row of [nodes], less its primary key. *)
Record Row : Type := mkRow {
  r_address : string;
  r_status : string;
  r_last_heartbeat : option Z;
  r_max_connections : Z;
  r_active_connections : cell;
  r_bandwidth_limit : Z;
  r_bytes_up : cell;
  r_bytes_down : cell;
  r_latency_ms : Z;
  r_created_at : Z;
  r_updated_at : Z
}.

(** The world the code runs in: the readings of the clock, in order, which
    statements fail, and [chrono]. *)
Class Environment : Type := {
  utc_now : nat → Z;
  sql_fault : nat → bool;
  env_chrono :: Chrono
}.

Record Sqlite : Type := mkSqlite {
  sq_table : gmap string Row;
  sq_ticks : nat;
  sq_calls : nat
}.

(** The key order of [ORDER BY id]: bytewise. *)
Definition by_id {A} (a b : string * A) : Prop := String.leb a.1 b.1 = true.
#[export] Instance by_id_dec {A} (a b : string * A) : Decision (by_id a b).
Proof. unfold by_id. apply _. Defined.

Section sqlite.
Context `{E : Environment}.

Definition epoch (unix : Z) : outcome Error Z :=
  match from_timestamp unix with
  | Some t => Ok t
  | None => Err (InvalidEpoch unix)
  end.

Definition opt_epoch (unix : option Z) : option Z :=
  match unix with
  | Some u => from_timestamp u
  | None => None
  end.

Definition try_get_i64 (column : string) (c : cell) : outcome Error Z :=
  match c with
  | CInt z => Ok z
  | CReal _ => Err (ColumnDecode column)
  end.

Definition row_into_node (id : string) (row : Row) : outcome Error Node :=
  let? state := match NodeState_parse (r_status row) with
                | Some s => Ok s
                | None => Err (UnknownState (r_status row))
                end in
  let? active := try_get_i64 "active_connections" (r_active_connections row) in
  let? up := try_get_i64 "bytes_up" (r_bytes_up row) in
  let? down := try_get_i64 "bytes_down" (r_bytes_down row) in
  let? created := epoch (r_created_at row) in
  let? updated := epoch (r_updated_at row) in
  Ok {| n_id := id; n_address := r_address row; n_state := state;
        n_last_heartbeat := opt_epoch (r_last_heartbeat row);
        n_max_connections := as_u32 (r_max_connections row);
        n_active_connections := as_u32 active;
        n_bandwidth_limit := as_u64 (r_bandwidth_limit row);
        n_bytes_up := as_u64 up; n_bytes_down := as_u64 down;
        n_latency_ms := as_u32 (r_latency_ms row);
        n_created_at := created; n_updated_at := updated |}.

Definition now_epoch : M Sqlite Z := λ s,
  (Ok (timestamp (utc_now (sq_ticks s))),
   {| sq_table := sq_table s; sq_ticks := S (sq_ticks s); sq_calls := sq_calls s |}).

(** [query.execute(&pool)]: the statement takes effect or fails. *)
Definition execute (statement : gmap string Row → gmap string Row) : M Sqlite unit := λ s,
  if sql_fault (sq_calls s)
  then (Err Storage,
        {| sq_table := sq_table s; sq_ticks := sq_ticks s; sq_calls := S (sq_calls s) |})
  else (Ok tt,
        {| sq_table := statement (sq_table s); sq_ticks := sq_ticks s;
           sq_calls := S (sq_calls s) |}).

(** [query.fetch_optional(&pool)] and [query.fetch_all(&pool)]. *)
Definition fetch {A} (query : gmap string Row → A) : M Sqlite A := λ s,
  ((if sql_fault (sq_calls s) then Err Storage else Ok (query (sq_table s))),
   {| sq_table := sq_table s; sq_ticks := sq_ticks s; sq_calls := S (sq_calls s) |}).

(** [INSERT INTO nodes ... ON CONFLICT(id) DO UPDATE SET ...] *)
Definition upsert_node (req : RegisterRequest) (now : Z) (tbl : gmap string Row) :
  gmap string Row :=
  <[rr_node_id req :=
    match tbl !! rr_node_id req with
    | None =>
        {| r_address := rr_address req; r_status := "starting"; r_last_heartbeat := None;
           r_max_connections := as_i64 (rr_max_connections req);
           r_active_connections := CInt 0;
           r_bandwidth_limit := as_i64 (rr_bandwidth_limit req);
           r_bytes_up := CInt 0; r_bytes_down := CInt 0; r_latency_ms := 0;
           r_created_at := now; r_updated_at := now |}
    | Some row =>
        {| r_address := rr_address req;
           r_status := if String.eqb (r_status row) "offline" || String.eqb (r_status row) "starting"
                       then "starting" else r_status row;
           r_last_heartbeat := r_last_heartbeat row;
           r_max_connections := as_i64 (rr_max_connections req);
           r_active_connections := r_active_connections row;
           r_bandwidth_limit := as_i64 (rr_bandwidth_limit req);
           r_bytes_up := r_bytes_up row; r_bytes_down := r_bytes_down row;
           r_latency_ms := r_latency_ms row;
           r_created_at := r_created_at row; r_updated_at := now |}
    end]> tbl.

Definition sqlite_register (req : RegisterRequest) : M Sqlite unit :=
  let! now := now_epoch in execute (upsert_node req now).

Definition sqlite_get (id : string) : M Sqlite (option Node) :=
  let! row := fetch (λ tbl, tbl !! id) in
  match row with
  | None => m_ret None
  | Some row => m_lift (omap_ok Some (row_into_node id row))
  end.

(** [SELECT ... FROM nodes ORDER BY id] *)
Definition select_all (tbl : gmap string Row) : list (string * Row) :=
  merge_sort by_id (map_to_list tbl).

(** [rows.iter().map(row_into_node).collect()] *)
Fixpoint collect_nodes (rows : list (string * Row)) : outcome Error (list Node) :=
  match rows with
  | [] => Ok []
  | (id, row) :: rows =>
      let? n := row_into_node id row in
      let? ns := collect_nodes rows in
      Ok (n :: ns)
  end.

Definition sqlite_list : M Sqlite (list Node) :=
  let! rows := fetch select_all in m_lift (collect_nodes rows).

Definition set_heartbeat (hb : Heartbeat) (now : Z) (row : Row) : Row :=
  {| r_address := r_address row; r_status := r_status row; r_last_heartbeat := Some now;
     r_max_connections := r_max_connections row;
     r_active_connections := CInt (as_i64 (hb_active_connections hb));
     r_bandwidth_limit := r_bandwidth_limit row;
     r_bytes_up := CInt (as_i64 (hb_bytes_up hb));
     r_bytes_down := CInt (as_i64 (hb_bytes_down hb));
     r_latency_ms := as_i64 (hb_latency_ms hb);
     r_created_at := r_created_at row; r_updated_at := now |}.

Definition sqlite_apply_heartbeat (hb : Heartbeat) : M Sqlite unit :=
  let! now := now_epoch in execute (alter (set_heartbeat hb now) (hb_node_id hb)).

Definition set_status (status : string) (now : Z) (row : Row) : Row :=
  {| r_address := r_address row; r_status := status;
     r_last_heartbeat := r_last_heartbeat row; r_max_connections := r_max_connections row;
     r_active_connections := r_active_connections row;
     r_bandwidth_limit := r_bandwidth_limit row; r_bytes_up := r_bytes_up row;
     r_bytes_down := r_bytes_down row; r_latency_ms := r_latency_ms row;
     r_created_at := r_created_at row; r_updated_at := now |}.

Definition sqlite_set_draining (id : string) : M Sqlite unit :=
  let! now := now_epoch in execute (alter (set_status "draining" now) id).
Definition sqlite_mark_offline (id : string) : M Sqlite unit :=
  let! now := now_epoch in execute (alter (set_status "offline" now) id).
Definition sqlite_set_state (id : string) (state : NodeState) : M Sqlite unit :=
  let! now := now_epoch in execute (alter (set_status (NodeState_as_str state) now) id).

Definition set_counts (active up down : cell) (now : Z) (row : Row) : Row :=
  {| r_address := r_address row; r_status := r_status row;
     r_last_heartbeat := r_last_heartbeat row; r_max_connections := r_max_connections row;
     r_active_connections := sql_store active;
     r_bandwidth_limit := r_bandwidth_limit row; r_bytes_up := sql_store up;
     r_bytes_down := sql_store down; r_latency_ms := r_latency_ms row;
     r_created_at := r_created_at row; r_updated_at := now |}.

Definition sqlite_adjust_active (id : string) (delta : Z) : M Sqlite unit :=
  let! now := now_epoch in
  execute (alter (λ row, set_counts (sql_max0 (sql_add (r_active_connections row) delta))
                           (r_bytes_up row) (r_bytes_down row) now row) id).

Definition sqlite_accumulate_bytes (id : string) (up down : Z) : M Sqlite unit :=
  let! now := now_epoch in
  execute (alter (λ row, set_counts (r_active_connections row)
                           (sql_add (r_bytes_up row) (as_i64 up))
                           (sql_add (r_bytes_down row) (as_i64 down)) now row) id).

#[export] Instance Sqlite_NodeRepository : NodeRepository Sqlite := {|
  repo_register := sqlite_register;
  repo_get := sqlite_get;
  repo_list := sqlite_list;
  repo_apply_heartbeat := sqlite_apply_heartbeat;
  repo_set_draining := sqlite_set_draining;
  repo_mark_offline := sqlite_mark_offline;
  repo_set_state := sqlite_set_state;
  repo_adjust_active := sqlite_adjust_active;
  repo_accumulate_bytes := sqlite_accumulate_bytes
|}.
End sqlite.

(** ** Casts through [i64] columns *)
Lemma as_i64_low z : 0 <= z < 2 ^ 63 → as_i64 z = z.
Proof. intros Hz. unfold as_i64, U64_MOD. rewrite Z.mod_small by lia. lia. Qed.

Lemma as_i64_high z : 2 ^ 63 <= z < U64_MOD → as_i64 z = z - U64_MOD.
Proof.
  unfold as_i64, U64_MOD. intros Hz.
  replace (z + 2 ^ 63) with (z - 2 ^ 63 + 1 * 2 ^ 64) by lia.
  rewrite Z.mod_add, Z.mod_small by lia. lia.
Qed.

Lemma i64_column_u64 z : 0 <= z < U64_MOD → as_u64 (as_i64 z) = z ∧ is_i64 (as_i64 z) = true.
Proof.
  intros Hz. unfold as_u64, is_i64. destruct (Z.lt_ge_cases z (2 ^ 63)).
  - rewrite as_i64_low by lia. split; [by apply Z.mod_small|]. apply andb_true_iff. lia.
  - rewrite as_i64_high by lia. split.
    + replace (z - U64_MOD) with (z + (-1) * U64_MOD) by lia.
      rewrite Z.mod_add by done. by apply Z.mod_small.
    + apply andb_true_iff. unfold U64_MOD in *. lia.
Qed.

Lemma i64_column_u32 z : 0 <= z < U32_MOD → as_u32 (as_i64 z) = z ∧ as_i64 z = z.
Proof.
  unfold U32_MOD. intros Hz. rewrite as_i64_low by lia. split; [|done].
  unfold as_u32, U32_MOD. apply Z.mod_small. lia.
Qed.

Lemma as_u64_nonneg_column z : is_i64 z = true → as_u64 z < 2 ^ 63 → z = as_u64 z.
Proof.
  unfold is_i64, as_u64, U64_MOD. rewrite andb_true_iff, Z.leb_le, Z.ltb_lt. intros Hz Hlt.
  destruct (Z.lt_ge_cases z 0); [|by rewrite Z.mod_small by lia].
  replace z with (z + 2 ^ 64 + (-1) * 2 ^ 64) in Hlt by lia.
  rewrite Z.mod_add, Z.mod_small in Hlt by lia. lia.
Qed.

(** ** The order of ids *)
Lemma ascii_compare_nat a b : Ascii.compare a b = (Ascii.N_of_ascii a ?= Ascii.N_of_ascii b)%N.
Proof. done. Qed.

Lemma string_leb_trans a b c :
  String.leb a b = true → String.leb b c = true → String.leb a c = true.
Proof.
  unfold String.leb. revert b c.
  induction a as [|x a IH]; intros [|y b] [|z c]; cbn [String.compare]; try done.
  rewrite !ascii_compare_nat.
  destruct (N.compare_spec (Ascii.N_of_ascii x) (Ascii.N_of_ascii y)) as [Hxy|Hxy|Hxy],
           (N.compare_spec (Ascii.N_of_ascii y) (Ascii.N_of_ascii z)) as [Hyz|Hyz|Hyz]; try done;
  destruct (N.compare_spec (Ascii.N_of_ascii x) (Ascii.N_of_ascii z)); try done; try lia.
  apply IH.
Qed.

#[export] Instance by_id_trans {A} : Transitive (@by_id A).
Proof. intros a b c. apply string_leb_trans. Qed.
#[export] Instance by_id_total {A} : Total (@by_id A).
Proof. intros a b. apply String.leb_total. Qed.

(** ** The refinement: rows represent nodes *)
Definition cell_int (c : cell) : Z := match c with CInt z => z | CReal _ => 0 end.

Definition node_of (id : string) (row : Row) : Node :=
  {| n_id := id; n_address := r_address row;
     n_state := default Starting (NodeState_parse (r_status row));
     n_last_heartbeat := (λ u, u * NANOS) <$> r_last_heartbeat row;
     n_max_connections := as_u32 (r_max_connections row);
     n_active_connections := as_u32 (cell_int (r_active_connections row));
     n_bandwidth_limit := as_u64 (r_bandwidth_limit row);
     n_bytes_up := as_u64 (cell_int (r_bytes_up row));
     n_bytes_down := as_u64 (cell_int (r_bytes_down row));
     n_latency_ms := as_u32 (r_latency_ms row);
     n_created_at := r_created_at row * NANOS;
     n_updated_at := r_updated_at row * NANOS |}.

(** Seconds that [chrono] represents. *)
Definition epoch_ok (u : Z) : Prop := 0 <= u < 2 ^ 42.

Record Row_ok (row : Row) : Prop := {
  ok_status : is_Some (NodeState_parse (r_status row));
  ok_active : ∃ z, r_active_connections row = CInt z ∧ 0 <= z < U32_MOD;
  ok_up : ∃ z, r_bytes_up row = CInt z ∧ is_i64 z = true;
  ok_down : ∃ z, r_bytes_down row = CInt z ∧ is_i64 z = true;
  ok_heartbeat : match r_last_heartbeat row with Some u => epoch_ok u | None => True end;
  ok_created : epoch_ok (r_created_at row);
  ok_updated : epoch_ok (r_updated_at row)
}.

Definition rows_ok (tbl : gmap string Row) : Prop := map_Forall (λ _ row, Row_ok row) tbl.
Definition sq_inv (s : Sqlite) : Prop := rows_ok (sq_table s).
Definition table_view (tbl : gmap string Row) : Nodes := map_imap (λ id row, Some (node_of id row)) tbl.
Definition sq_view (s : Sqlite) : Nodes := table_view (sq_table s).

Lemma table_view_lookup tbl id : table_view tbl !! id = node_of id <$> tbl !! id.
Proof. unfold table_view. rewrite map_lookup_imap. by destruct (tbl !! id). Qed.

Lemma table_view_insert tbl id row :
  table_view (<[id := row]> tbl) = <[id := node_of id row]> (table_view tbl).
Proof.
  apply map_eq. intros j. rewrite table_view_lookup. destruct (decide (id = j)) as [->|Hne].
  - by rewrite !lookup_insert_eq.
  - by rewrite !lookup_insert_ne, table_view_lookup by done.
Qed.

Lemma table_view_alter tbl id f g :
  (∀ row, tbl !! id = Some row → node_of id (f row) = g (node_of id row)) →
  table_view (alter f id tbl) = alter g id (table_view tbl).
Proof.
  intros Hfg. apply map_eq. intros j. rewrite table_view_lookup.
  destruct (decide (id = j)) as [->|Hne].
  - rewrite !lookup_alter_eq, table_view_lookup. destruct (tbl !! j) as [row|] eqn:Hr; [|done].
    cbn. by rewrite Hfg.
  - by rewrite !lookup_alter_ne, table_view_lookup by done.
Qed.

Lemma rows_ok_alter (tbl : gmap string Row) (id : string) (f : Row → Row) :
  rows_ok tbl →
  (∀ row, tbl !! id = Some row → Row_ok row → Row_ok (f row)) →
  rows_ok (alter f id tbl).
Proof.
  intros Hok Hf j row Hj. apply lookup_alter_Some in Hj as [(<- & row' & Hr & ->)|[_ Hj]].
  - eapply Hf; [done|]. by eapply Hok.
  - by eapply Hok.
Qed.

Lemma node_of_ok id row : Node_ok (node_of id row) = true.
Proof.
  apply Node_ok_iff. cbn. unfold as_u32, as_u64. split_and!; try apply Z.mod_pos_bound; done.
Qed.

Section refinement.
Context `{E : Environment} `{L : !ChronoLaws env_chrono}.
Hypothesis clock_ok : ∀ i, 0 <= utc_now i < 2 ^ 42 * NANOS.

Definition sq_stamp (s : Sqlite) : Z := timestamp (utc_now (sq_ticks s)) * NANOS.
Definition sq_reliable (s : Sqlite) : Prop := ∀ i, (sq_calls s <= i)%nat → sql_fault i = false.

Lemma epoch_in_range u : epoch_ok u → from_timestamp u = Some (u * NANOS).
Proof.
  intros Hu. destruct (from_timestamp_defined u Hu) as [t Ht].
  by rewrite Ht, (from_timestamp_instant _ _ Ht).
Qed.

Lemma now_ok i : epoch_ok (timestamp (utc_now i)).
Proof.
  rewrite timestamp_floor. pose proof (clock_ok i) as Hc. unfold epoch_ok, NANOS in *.
  split; [apply Z.div_pos; lia|apply Z.div_lt_upper_bound; lia].
Qed.

Lemma row_into_node_ok id row : Row_ok row → row_into_node id row = Ok (node_of id row).
Proof.
  intros [[st Hst] (a & Ha & _) (u & Hu & _) (d & Hd & _) Hhb Hc Hup].
  unfold row_into_node, epoch, node_of.
  rewrite Hst, Ha, Hu, Hd, !epoch_in_range by done. cbn [try_get_i64 obind cell_int default].
  do 2 f_equal. destruct (r_last_heartbeat row) as [h|]; [|done]. cbn. by apply epoch_in_range.
Qed.

(** Every update of the implementation has this shape. *)
Lemma sqlite_updates (statement : Z → gmap string Row → gmap string Row) f s :
  let now := timestamp (utc_now (sq_ticks s)) in
  sq_inv s → rows_ok (statement now (sq_table s)) →
  table_view (statement now (sq_table s)) = f (now * NANOS) (sq_view s) →
  updates sq_inv sq_view sq_stamp sq_reliable (m_bind now_epoch (λ now, execute (statement now))) f s.
Proof.
  intros now Hinv Hok Hv. unfold updates, m_bind, now_epoch, execute. cbn [sq_calls sq_table sq_ticks].
  destruct (sql_fault (sq_calls s)) eqn:Hf; unfold sq_inv, sq_reliable; cbn [sq_calls sq_table sq_ticks].
  - split_and!; [done| |done]. intros Hr. by rewrite Hr in Hf.
  - split_and!; [done| |done]. intros Hr. split; [|done]. intros i Hi. apply Hr. lia.
Qed.

Lemma sqlite_alter (f : Z → Row → Row) (g : Z → Node → Node) id s :
  let now := timestamp (utc_now (sq_ticks s)) in
  sq_inv s →
  (∀ row, sq_table s !! id = Some row → Row_ok row →
    Row_ok (f now row) ∧ node_of id (f now row) = g (now * NANOS) (node_of id row)) →
  updates sq_inv sq_view sq_stamp sq_reliable
    (m_bind now_epoch (λ now, execute (alter (f now) id))) (λ t, alter (g t) id) s.
Proof.
  intros now Hinv Hf. apply sqlite_updates; [done| |].
  - apply rows_ok_alter; [done|]. intros row Hr Hok. by apply Hf.
  - apply (table_view_alter _ _ _ (g (now * NANOS))). intros row Hr. apply Hf; [done|].
    by eapply Hinv.
Qed.

Lemma fetch_reads {A B} (q : gmap string Row → A) (k : A → outcome Error B) P s :
  sq_inv s → (∃ b, k (q (sq_table s)) = Ok b ∧ P (sq_view s) b) →
  reads sq_inv sq_view sq_reliable (m_bind (fetch q) (λ a, m_lift (k a))) P s.
Proof.
  intros Hinv (b & Hk & HP). unfold reads, m_bind, fetch, m_lift.
  destruct (sql_fault (sq_calls s)) eqn:Hf.
  - split_and!; [done| |done..]. intros Hr. by rewrite Hr in Hf.
  - rewrite Hk. split_and!; [done| |done|done]. intros Hr. split; [|by eexists].
    intros i Hi. apply Hr. cbn in Hi. lia.
Qed.

Lemma sqlite_get_reads id s :
  sq_inv s → reads sq_inv sq_view sq_reliable (sqlite_get id) (λ m r, r = m !! id) s.
Proof.
  intros Hinv. pose (k := λ row : option Row,
    match row with None => Ok None | Some row => omap_ok Some (row_into_node id row) end).
  assert (Hg : sqlite_get id s = m_bind (fetch (λ tbl, tbl !! id)) (λ row, m_lift (k row)) s).
  { unfold sqlite_get, m_bind, fetch. destruct (sql_fault _); [done|].
    by destruct (sq_table s !! id). }
  unfold reads. rewrite Hg. apply (fetch_reads _ k (λ m r, r = m !! id)); [done|]. unfold k.
  unfold sq_view. rewrite table_view_lookup. destruct (sq_table s !! id) as [row|] eqn:Hr.
  - rewrite row_into_node_ok by (by eapply Hinv). by eexists.
  - by eexists.
Qed.

Lemma collect_nodes_ok rows :
  Forall (λ p, Row_ok p.2) rows → collect_nodes rows = Ok ((λ p, node_of p.1 p.2) <$> rows).
Proof.
  induction 1 as [|[id row] rows Hrow _ IH]; [done|]. cbn [collect_nodes].
  rewrite row_into_node_ok by done. cbn [obind]. rewrite IH. done.
Qed.

Lemma sqlite_list_reads s : sq_inv s → reads sq_inv sq_view sq_reliable sqlite_list lists s.
Proof.
  intros Hinv. apply fetch_reads; [done|].
  assert (Hperm : select_all (sq_table s) ≡ₚ map_to_list (sq_table s)) by apply merge_sort_Permutation.
  rewrite collect_nodes_ok.
  2:{ apply Forall_forall. intros [id row] Hin. rewrite Hperm in Hin.
      apply elem_of_map_to_list in Hin. by eapply Hinv. }
  eexists. split; [done|]. split_and!.
  - apply (StronglySorted_fmap (λ p, node_of p.1 p.2) by_id); [done|]. apply StronglySorted_merge_sort; apply _.
  - apply NoDup_fmap_2_strong; [|rewrite Hperm; apply NoDup_map_to_list].
    intros [i r] [j r'] Hi Hj Heq. rewrite Hperm in Hi, Hj.
    apply elem_of_map_to_list in Hi, Hj. assert (i = j) by (by injection Heq). simplify_eq. done.
  - intros n. unfold sq_view. rewrite table_view_lookup, list_elem_of_fmap. setoid_rewrite Hperm. split.
    + intros ([id row] & -> & Hin%elem_of_map_to_list). cbn. by rewrite Hin.
    + destruct (sq_table s !! n_id n) as [row|] eqn:Hr; [|done]. intros [= Hn].
      exists (n_id n, row). split; [done|]. by apply elem_of_map_to_list.
Qed.

Lemma sqlite_get_result id s :
  sq_inv s →
  (sqlite_get id s).1 = if sql_fault (sq_calls s) then Err Storage else Ok (sq_view s !! id).
Proof.
  intros Hinv. pose proof (sqlite_get_reads id s Hinv) as Hr. revert Hr.
  unfold reads, sqlite_get, m_bind, fetch. destruct (sql_fault (sq_calls s)); [done|].
  unfold sq_view. rewrite table_view_lookup. destruct (sq_table s !! id) as [row|] eqn:Hrow; [|done].
  intros _. cbn. by rewrite row_into_node_ok by (by eapply Hinv).
Qed.

Lemma sqlite_list_result s :
  sq_inv s →
  if sql_fault (sq_calls s) then (sqlite_list s).1 = Err Storage
  else ∃ l, (sqlite_list s).1 = Ok l ∧ lists (sq_view s) l.
Proof.
  intros Hinv. pose proof (sqlite_list_reads s Hinv) as Hr. revert Hr.
  unfold reads, sqlite_list, m_bind, fetch, m_lift. destruct (sql_fault (sq_calls s)) eqn:Hf; [done|].
  rewrite collect_nodes_ok; [intros (_ & _ & _ & Hl); by eexists|].
  apply Forall_forall. intros [i r] Hin. unfold select_all in Hin.
  rewrite merge_sort_Permutation in Hin. apply elem_of_map_to_list in Hin. by eapply Hinv.
Qed.

Lemma upsert_node_spec req now tbl :
  RegisterRequest_ok req = true → epoch_ok now → rows_ok tbl →
  rows_ok (upsert_node req now tbl) ∧
  table_view (upsert_node req now tbl) = spec_register req (now * NANOS) (table_view tbl).
Proof.
  unfold RegisterRequest_ok. rewrite andb_true_iff, is_u32_iff, is_u64_iff.
  intros [Hmax Hlim] Hnow Hok.
  destruct (i64_column_u32 _ Hmax) as [Em _]. destruct (i64_column_u64 _ Hlim) as [El _].
  unfold upsert_node, spec_register. rewrite table_view_insert, table_view_lookup.
  destruct (tbl !! rr_node_id req) as [row|] eqn:Hr.
  - pose proof (Hok _ _ Hr) as [[st Hst] Ha Hu Hd Hhb Hc Hup]. split.
    + apply map_Forall_insert_2; [|done]. split; try done.
      cbn. destruct (_ || _); [by eexists|by eexists].
    + cbn [fmap option_fmap option_map]. f_equal. unfold node_of, registered. cbn.
      rewrite Em, El, Hst. f_equal. rewrite (NodeState_parse_inv _ _ Hst). by destruct st.
  - split.
    + apply map_Forall_insert_2; [|done].
      split; cbn; try done; by eexists.
    + cbn [fmap option_fmap option_map]. f_equal. unfold node_of, registered. cbn. by rewrite Em, El.
Qed.

Lemma set_heartbeat_spec hb now id row :
  Heartbeat_ok hb = true → epoch_ok now → Row_ok row →
  Row_ok (set_heartbeat hb now row) ∧
  node_of id (set_heartbeat hb now row) = with_heartbeat hb (now * NANOS) (node_of id row).
Proof.
  unfold Heartbeat_ok. rewrite !andb_true_iff, !is_u32_iff, !is_u64_iff.
  intros ((((Ha & Hu) & Hd) & Hl) & _) Hnow [Hst _ _ _ Hhb Hc Hup].
  destruct (i64_column_u32 _ Ha) as [Ea Ea']. destruct (i64_column_u32 _ Hl) as [El _].
  destruct (i64_column_u64 _ Hu) as [Eu Eu']. destruct (i64_column_u64 _ Hd) as [Ed Ed'].
  split.
  - split; cbn; try done; [|by eexists..]. eexists. split; [done|]. by rewrite Ea'.
  - unfold node_of, with_heartbeat. cbn. by rewrite Ea, El, Eu, Ed.
Qed.

Lemma set_status_spec st now id row :
  epoch_ok now → Row_ok row →
  Row_ok (set_status (NodeState_as_str st) now row) ∧
  node_of id (set_status (NodeState_as_str st) now row) = with_state st (now * NANOS) (node_of id row).
Proof.
  intros Hnow [Hst Ha Hu Hd Hhb Hc Hup]. split.
  - split; try done. cbn. rewrite NodeState_parse_as_str. by eexists.
  - unfold node_of, with_state. cbn. by rewrite NodeState_parse_as_str.
Qed.

Lemma adjust_row_spec delta now id row :
  is_i64 delta = true → epoch_ok now → Row_ok row →
  n_active_connections (node_of id row) + delta < U32_MOD →
  let row' := set_counts (sql_max0 (sql_add (r_active_connections row) delta))
                (r_bytes_up row) (r_bytes_down row) now row in
  Row_ok row' ∧ node_of id row' =
    with_active (Z.max 0 (n_active_connections (node_of id row) + delta)) (now * NANOS) (node_of id row).
Proof.
  intros Hd Hnow [Hst (a & Ha & Har) (u & Hu & Hur) (d & Hdn & Hdr) Hhb Hc Hup].
  unfold node_of, with_active. cbn. rewrite Ha, Hu, Hdn. cbn [cell_int sql_add sql_store].
  assert (Ea : as_u32 a = a) by (by apply Z.mod_small). rewrite Ea. intros Hlt.
  unfold is_i64 in *. rewrite andb_true_iff, Z.leb_le, Z.ltb_lt in Hd. unfold U32_MOD in *.
  replace ((- 2 ^ 63 <=? a + delta) && (a + delta <? 2 ^ 63)) with true
    by (symmetry; apply andb_true_iff; lia).
  cbn [sql_max0 sql_store cell_int]. split.
  - split; cbn; rewrite ?Hu, ?Hdn; try done; eexists; (split; [done|]); [|done|done].
    unfold U32_MOD. lia.
  - f_equal. apply Z.mod_small. unfold U32_MOD. lia.
Qed.

Lemma add_column_spec c up :
  (∃ z, c = CInt z ∧ is_i64 z = true) → 0 <= up < U64_MOD → as_u64 (cell_int c) + up < 2 ^ 63 →
  ∃ z, sql_store (sql_add c (as_i64 up)) = CInt z ∧ is_i64 z = true ∧ as_u64 z = as_u64 (cell_int c) + up.
Proof.
  intros (z & -> & Hz) Hup Hlt. cbn [cell_int] in *.
  assert (H0 : 0 <= as_u64 z) by (by apply Z.mod_pos_bound).
  pose proof (as_u64_nonneg_column z Hz ltac:(lia)) as Heq. rewrite as_i64_low by lia.
  assert (Hin : is_i64 (z + up) = true) by (unfold is_i64; apply andb_true_iff; lia).
  cbn [sql_add]. rewrite Hin. eexists. split_and!; [done|done|].
  rewrite <- Heq. unfold as_u64, U64_MOD. apply Z.mod_small. lia.
Qed.

Lemma accumulate_row_spec up down now id row :
  is_u64 up = true → is_u64 down = true → epoch_ok now → Row_ok row →
  n_bytes_up (node_of id row) + up < 2 ^ 63 → n_bytes_down (node_of id row) + down < 2 ^ 63 →
  let row' := set_counts (r_active_connections row) (sql_add (r_bytes_up row) (as_i64 up))
                (sql_add (r_bytes_down row) (as_i64 down)) now row in
  Row_ok row' ∧ node_of id row' =
    with_bytes (n_bytes_up (node_of id row) + up) (n_bytes_down (node_of id row) + down)
      (now * NANOS) (node_of id row).
Proof.
  rewrite !is_u64_iff. intros Hu Hd Hnow [Hst (a & Ha & Har) Hup Hdn Hhb Hc Hupd] Hlu Hld.
  cbn in Hlu, Hld. destruct (add_column_spec _ _ Hup Hu Hlu) as (zu & Eu & Iu & Vu).
  destruct (add_column_spec _ _ Hdn Hd Hld) as (zd & Ed & Id & Vd).
  unfold node_of, with_bytes. cbn. rewrite Eu, Ed, Ha. cbn [cell_int sql_store]. rewrite Vu, Vd.
  split; [|done]. split; cbn; rewrite ?Eu, ?Ed, ?Ha; try done; by eexists.
Qed.

(** [SqliteNodeRepository] meets the contract. *)
#[export] Instance Sqlite_laws : RepositoryLaws Sqlite.
Proof.
  refine {| repo_inv := sq_inv; repo_view := sq_view; repo_stamp := sq_stamp;
            repo_reliable := sq_reliable |}.
  - intros s id n Hinv. unfold sq_view. rewrite table_view_lookup, fmap_Some.
    intros (row & _ & ->). split; [done|apply node_of_ok].
  - intros s id. apply sqlite_get_reads.
  - apply sqlite_list_reads.
  - intros s req Hinv Hreq.
    destruct (upsert_node_spec req _ _ Hreq (now_ok (sq_ticks s)) Hinv).
    by apply (sqlite_updates (upsert_node req)).
  - intros s hb Hinv Hhb. apply (sqlite_alter (set_heartbeat hb) (with_heartbeat hb)); [done|].
    intros row _ Hr. apply set_heartbeat_spec; auto using now_ok.
  - intros s id Hinv. apply (sqlite_alter (set_status "draining") (with_state Draining)); [done|].
    intros row _ Hr. apply (set_status_spec Draining); auto using now_ok.
  - intros s id Hinv. apply (sqlite_alter (set_status "offline") (with_state Offline)); [done|].
    intros row _ Hr. apply (set_status_spec Offline); auto using now_ok.
  - intros s id st Hinv.
    apply (sqlite_alter (set_status (NodeState_as_str st)) (with_state st)); [done|].
    intros row _ Hr. apply set_status_spec; auto using now_ok.
  - intros s id delta Hinv Hd Hlt.
    apply (sqlite_alter (λ now row, set_counts (sql_max0 (sql_add (r_active_connections row) delta))
      (r_bytes_up row) (r_bytes_down row) now row)
      (λ t n, with_active (Z.max 0 (n_active_connections n + delta)) t n)); [done|].
    intros row Hr Hok. apply adjust_row_spec; auto using now_ok. apply Hlt. unfold sq_view.
    by rewrite table_view_lookup, Hr.
  - intros s id up down Hinv Hu Hd Hlt.
    apply (sqlite_alter (λ now row, set_counts (r_active_connections row)
      (sql_add (r_bytes_up row) (as_i64 up)) (sql_add (r_bytes_down row) (as_i64 down)) now row)
      (λ t n, with_bytes (n_bytes_up n + up) (n_bytes_down n + down) t n)); [done|].
    intros row Hr Hok. destruct (Hlt (node_of id row)) as [Hl1 Hl2];
      [unfold sq_view; by rewrite table_view_lookup, Hr|].
    apply accumulate_row_spec; auto using now_ok.
Defined.
End refinement.

(** ** Histories of updates *)
Inductive repo_op : Type :=
| OpRegister (req : RegisterRequest)
| OpHeartbeat (hb : Heartbeat)
| OpDraining (id : string)
| OpOffline (id : string)
| OpSetState (id : string) (st : NodeState)
| OpAdjust (id : string) (delta : Z)
| OpBytes (id : string) (up down : Z).

Definition run_op {R} `{NodeRepository R} (op : repo_op) : M R unit :=
  match op with
  | OpRegister req => repo_register req
  | OpHeartbeat hb => repo_apply_heartbeat hb
  | OpDraining id => repo_set_draining id
  | OpOffline id => repo_mark_offline id
  | OpSetState id st => repo_set_state id st
  | OpAdjust id delta => repo_adjust_active id delta
  | OpBytes id up down => repo_accumulate_bytes id up down
  end.

Definition spec_op (op : repo_op) : Z → Nodes → Nodes :=
  match op with
  | OpRegister req => spec_register req
  | OpHeartbeat hb => spec_heartbeat hb
  | OpDraining id => spec_set_state id Draining
  | OpOffline id => spec_set_state id Offline
  | OpSetState id st => spec_set_state id st
  | OpAdjust id delta => spec_adjust_active id delta
  | OpBytes id up down => spec_accumulate id up down
  end.

(** The arguments have their types, and counters do not leave their range. *)
Definition op_ok (m : Nodes) (op : repo_op) : bool :=
  match op with
  | OpRegister req => RegisterRequest_ok req
  | OpHeartbeat hb => Heartbeat_ok hb
  | OpAdjust id delta =>
      is_i64 delta &&
      match m !! id with Some n => n_active_connections n + delta <? U32_MOD | None => true end
  | OpBytes id up down =>
      is_u64 up && is_u64 down &&
      match m !! id with
      | Some n => (n_bytes_up n + up <? 2 ^ 63) && (n_bytes_down n + down <? 2 ^ 63)
      | None => true
      end
  | _ => true
  end.

Lemma run_op_updates {R} `{RepositoryLaws R} op s :
  repo_inv s → op_ok (repo_view s) op = true →
  updates repo_inv repo_view repo_stamp repo_reliable (run_op op) (spec_op op) s.
Proof.
  intros Hinv Hok. destruct op as [req|hb|id|id|id st|id delta|id up down]; cbn [run_op spec_op op_ok] in *.
  - by apply law_register.
  - by apply law_heartbeat.
  - by apply law_draining.
  - by apply law_offline.
  - by apply law_set_state.
  - apply andb_true_iff in Hok as [Hd Hm]. apply law_adjust; [done..|].
    intros n Hn. rewrite Hn in Hm. by apply Z.ltb_lt.
  - rewrite !andb_true_iff in Hok. destruct Hok as [[Hu Hd] Hm]. apply law_accumulate; [done..|].
    intros n Hn. rewrite Hn, andb_true_iff, !Z.ltb_lt in Hm. done.
Qed.

(** A history: operations one after the other, errors included. *)
Inductive history {R} `{RepositoryLaws R} : R → R → Prop :=
| history_nil s : history s s
| history_step s op s' :
    op_ok (repo_view s) op = true → history (run_op op s).2 s' → history s s'
| history_read s id s' : history (repo_get id s).2 s' → history s s'
| history_list s s' : history (repo_list s).2 s' → history s s'.

Lemma history_inv {R} `{RepositoryLaws R} s s' : repo_inv s → history s s' → repo_inv s'.
Proof.
  intros Hinv Hh. induction Hh as [s|s op s' Hok _ IH|s id s' _ IH|s s' _ IH]; [done|..]; apply IH.
  - pose proof (run_op_updates op s Hinv Hok) as Hu. unfold updates in Hu.
    destruct (run_op op s); apply Hu.
  - pose proof (law_get s id Hinv) as Hu. unfold reads in Hu. destruct (repo_get id s); apply Hu.
  - pose proof (law_list s Hinv) as Hu. unfold reads in Hu. destruct (repo_list s); apply Hu.
Qed.

(** An environment in which the hypotheses hold. *)
Definition reference_env : Environment := {|
  utc_now i := Z.of_nat i mod 2 ^ 40 * NANOS;
  sql_fault _ := false;
  env_chrono := chrono_reference
|}.

Lemma reference_clock_ok i : 0 <= @utc_now reference_env i < 2 ^ 42 * NANOS.
Proof.
  cbn. unfold NANOS. pose proof (Z.mod_pos_bound (Z.of_nat i) (2 ^ 40) ltac:(lia)). lia.
Qed.

Definition empty_db : Sqlite := {| sq_table := ∅; sq_ticks := 0; sq_calls := 0 |}.

(** ** Properties *)

(** (C18) Refinement of the registry: every statement of the SQLite repository
    implements its abstract update on the map of nodes (through the [i64]
    columns, the text status and second-granular timestamps), or fails with a
    storage error and leaves the registry as it was; it succeeds whenever the
    driver does. The arguments have the types of the trait, an adjustment keeps
    the connections of its node below 2^32 and an accumulation its bytes below
    2^63, and the clock is within 2^42 seconds of the epoch. *)
Theorem sqlite_refines_registry (E : Environment) (L : ChronoLaws env_chrono)
    (op : repo_op) (s : Sqlite) :
  (∀ i, 0 <= utc_now i < 2 ^ 42 * NANOS) → sq_inv s → op_ok (sq_view s) op = true →
  let '(r, s') := run_op op s in
  sq_inv s' ∧
  if sql_fault (sq_calls s) then r = Err Storage ∧ sq_table s' = sq_table s
  else r = Ok tt ∧ sq_view s' = spec_op op (sq_stamp s) (sq_view s).
Proof.
  intros Hclk Hinv Hok.
  pose proof (@run_op_updates Sqlite _ (Sqlite_laws Hclk) op s Hinv Hok) as Hu.
  assert (Hr : (run_op op s).1 = if sql_fault (sq_calls s) then Err Storage else Ok tt)
    by (destruct op; cbn; unfold m_bind, now_epoch, execute; cbn; by destruct (sql_fault _)).
  assert (Ht : sql_fault (sq_calls s) = true → sq_table (run_op op s).2 = sq_table s)
    by (destruct op; cbn; unfold m_bind, now_epoch, execute; cbn; by destruct (sql_fault _)).
  unfold updates in Hu. destruct (run_op op s) as [r s']. cbn in Hr, Ht.
  destruct Hu as (Hi & _ & Hv). split; [exact Hi|].
  destruct (sql_fault (sq_calls s)); subst r; auto.
Qed.

Lemma sqlite_refines_registry_witness :
  let req := {| rr_node_id := "n1"; rr_address := "h:1"; rr_max_connections := 4294967295;
                rr_bandwidth_limit := 18446744073709551615 |} in
  let '(r, s') := @run_op Sqlite (@Sqlite_NodeRepository reference_env) (OpRegister req) empty_db in
  sq_inv s' ∧ r = Ok tt ∧
  sq_view s' = spec_op (OpRegister req) (@sq_stamp reference_env empty_db) (sq_view empty_db).
Proof.
  apply (sqlite_refines_registry reference_env chrono_reference_laws
    (OpRegister {| rr_node_id := "n1"; rr_address := "h:1"; rr_max_connections := 4294967295;
                   rr_bandwidth_limit := 18446744073709551615 |}) empty_db).
  - exact reference_clock_ok.
  - apply map_Forall_empty.
  - reflexivity.
Defined.

(** The registry stays readable: after any history of typed operations,
    some of which the driver may have failed, the table decodes: [list] either
    reports a storage error or returns exactly the registered nodes, each once,
    in the order of their ids and with fields in range, and [get] agrees with
    it. No stored status, counter or timestamp ever becomes undecodable. *)
Theorem registry_always_readable (E : Environment) (L : ChronoLaws env_chrono)
    (Hclk : ∀ i, 0 <= utc_now i < 2 ^ 42 * NANOS) (s s' : Sqlite) :
  sq_inv s → @history Sqlite _ (Sqlite_laws Hclk) s s' →
  match (sqlite_list s').1 with
  | Ok l => lists (sq_view s') l ∧ Forall (λ n, Node_ok n = true) l
  | Err e => e = Storage
  | Panic => False
  end ∧
  ∀ id, match (sqlite_get id s').1 with
        | Ok r => r = sq_view s' !! id
        | Err e => e = Storage
        | Panic => False
        end.
Proof.
  intros Hinv Hh. apply history_inv in Hh; [|done].
  pose proof (sqlite_list_result s' Hh) as Hl. split.
  - destruct (sql_fault (sq_calls s')); [by rewrite Hl|]. destruct Hl as (l & -> & Hl).
    split; [done|]. apply Forall_forall. intros n Hn%Hl.
    eapply (@view_typed Sqlite _ (Sqlite_laws Hclk)); [exact Hh|exact Hn].
  - intros id. rewrite (sqlite_get_result id s' Hh). by destruct (sql_fault (sq_calls s')).
Qed.

Lemma registry_always_readable_witness :
  (@sqlite_list reference_env empty_db).1 = Ok [] ∧ lists (sq_view empty_db) [].
Proof.
  split; [reflexivity|].
  apply (registry_always_readable reference_env chrono_reference_laws reference_clock_ok
           empty_db empty_db); [apply map_Forall_empty|constructor].
Defined.
