(* ===== verification/Service.v ===== *)
(** * The control plane service

    [crates/control-plane/src/service.rs] and the node gauges of
    [crates/control-plane/src/metrics.rs]. The service coordinates a
    repository (any implementation of the trait), the selector and the
    per-node bandwidth allocators; its theorems are proved against
    [RepositoryLaws] alone. The value of [Utc::now()] in the sweep is an
    argument of the operation. *)

From stdpp Require Import base tactics decidable numbers list sorting strings gmap.
From Stdlib Require Import ZArith Lia SpecFloat.
From S2P Require Import Prelude F64 Model Health Bandwidth Routing Registry.

(** ** Gauges *)
Definition health_gauge_value (state : NodeState) : f64 :=
  match state with
  | Healthy => f64_1
  | Degraded => f64_0_5
  | _ => f64_0
  end.

(** The gauges of the Prometheus recorder, by name and [node_id] label. *)
Abbreviation Gauges := (gmap (string * string) f64).

Definition record_node (node : Node) (g : Gauges) : Gauges :=
  <[("proxy_bandwidth_utilization", n_id node) := bandwidth_utilization node]>
  (<[("proxy_node_latency_ms", n_id node) := f64_of_Z (n_latency_ms node)]>
  (<[("proxy_node_health", n_id node) := health_gauge_value (n_state node)]> g)).

(** ** State *)
Record SelectedNode : Type := mkSelected { sel_node : Node; sel_guard : BandwidthGuard }.

Record ControlPlaneService (R : Type) : Type := mkService {
  sv_repo : R;
  sv_policy : HealthPolicy;
  sv_weights : ScoreWeights;
  sv_allocators : gmap string BandwidthAllocator;
  sv_heap : Heap;
  sv_gauges : Gauges
}.
Arguments mkService {R}.
Arguments sv_repo {R}.
Arguments sv_policy {R}.
Arguments sv_weights {R}.
Arguments sv_allocators {R}.
Arguments sv_heap {R}.
Arguments sv_gauges {R}.

(** [slice::sort_by]: a stable sort. *)
Fixpoint sorted_insert {A} (cmp : A → A → comparison) (x : A) (l : list A) : list A :=
  match l with
  | [] => [x]
  | y :: l' => match cmp x y with Gt => y :: sorted_insert cmp x l' | _ => x :: l end
  end.
Definition sort_by {A} (cmp : A → A → comparison) (l : list A) : list A :=
  foldr (sorted_insert cmp) [] l.

Section service.
Context {R : Type} `{NodeRepository R}.

Abbreviation S := (ControlPlaneService R).

Definition ControlPlaneService_new (repo : R) (policy : HealthPolicy) : S :=
  {| sv_repo := repo; sv_policy := policy; sv_weights := ScoreWeights_default;
     sv_allocators := ∅; sv_heap := ∅; sv_gauges := ∅ |}.

Definition with_repo (s : S) (r : R) : S :=
  {| sv_repo := r; sv_policy := sv_policy s; sv_weights := sv_weights s;
     sv_allocators := sv_allocators s; sv_heap := sv_heap s; sv_gauges := sv_gauges s |}.
Definition with_gauges (s : S) (g : Gauges) : S :=
  {| sv_repo := sv_repo s; sv_policy := sv_policy s; sv_weights := sv_weights s;
     sv_allocators := sv_allocators s; sv_heap := sv_heap s; sv_gauges := g |}.
Definition with_alloc (s : S) (a : gmap string BandwidthAllocator) (h : Heap) : S :=
  {| sv_repo := sv_repo s; sv_policy := sv_policy s; sv_weights := sv_weights s;
     sv_allocators := a; sv_heap := h; sv_gauges := sv_gauges s |}.

(** [self.repo.op(..).await] *)
Definition on_repo {A} (c : M R A) : M S A := λ s,
  let '(r, repo') := c (sv_repo s) in (r, with_repo s repo').

Definition metrics_record_node (n : Node) : M S unit := λ s,
  (Ok tt, with_gauges s (record_node n (sv_gauges s))).

Definition get_policy : M S HealthPolicy := λ s, (Ok (sv_policy s), s).

(** [allocator]: the entry of the map, created on first use. *)
Definition allocator (node_id : string) (limit : Z) : M S BandwidthAllocator := λ s,
  match sv_allocators s !! node_id with
  | Some a => (Ok a, s)
  | None =>
      let '(a, h') := BandwidthAllocator_new limit (sv_heap s) in
      (Ok a, with_alloc s (<[node_id := a]> (sv_allocators s)) h')
  end.

Definition register (req : RegisterRequest) : M S Node :=
  let! _ := on_repo (repo_register req) in
  let! found := on_repo (repo_get (rr_node_id req)) in
  match found with
  | None => m_err Disappeared
  | Some node => let! _ := metrics_record_node node in m_ret node
  end.

(** [heartbeat] after its first read of the node. *)
Definition heartbeat_after (hb : Heartbeat) (current : option Node) : M S unit :=
  match current with
  | None => m_ret tt
  | Some n =>
      let state := n_state n in
      let max := n_max_connections n in
      let! _ := on_repo (repo_apply_heartbeat hb) in
      let! policy := get_policy in
      let next := reclassify_after_heartbeat state (hb_active_connections hb) max policy in
      let! _ := if decide (next = state) then m_ret tt
                else on_repo (repo_set_state (hb_node_id hb) next) in
      let! found := on_repo (repo_get (hb_node_id hb)) in
      match found with
      | Some n => metrics_record_node n
      | None => m_ret tt
      end
  end.

Definition heartbeat (hb : Heartbeat) : M S unit :=
  let! current := on_repo (repo_get (hb_node_id hb)) in heartbeat_after hb current.

Fixpoint record_all (nodes : list Node) : M S unit :=
  match nodes with
  | [] => m_ret tt
  | n :: nodes => let! _ := metrics_record_node n in record_all nodes
  end.

Definition list_nodes : M S (list Node) :=
  let! nodes := on_repo repo_list in
  let! _ := record_all nodes in
  m_ret nodes.

Definition record_found (found : option Node) : M S (option Node) :=
  match found with
  | Some n => let! _ := metrics_record_node n in m_ret (Some n)
  | None => m_ret None
  end.

Definition get (id : string) : M S (option Node) :=
  let! n := on_repo (repo_get id) in record_found n.

Definition drain (id : string) : M S (option Node) :=
  let! _ := on_repo (repo_set_draining id) in
  let! n := on_repo (repo_get id) in
  record_found n.

Definition select : M S (option Node) := λ s,
  (let! nodes := on_repo repo_list in
   let eligible := filter (λ n, is_selectable n = true) nodes in
   m_ret (node_select (HealthAwareSelector_new (sv_weights s)) eligible)) s.

(** The number of slots and the slice of bandwidth of one connection. *)
Definition slots_of (node : Node) : Z := Z.max (n_max_connections node) 1.
Definition share_of (node : Node) : Z := Z.max (n_bandwidth_limit node / slots_of node) 1.

Context (spurious : string → list bool).

Fixpoint reserve_first (eligible : list Node) : M S (option SelectedNode) :=
  match eligible with
  | [] => m_ret None
  | node :: eligible =>
      let! alloc := allocator (n_id node) (n_bandwidth_limit node) in
      λ s,
        match try_reserve (spurious (n_id node)) alloc (share_of node) (sv_heap s) with
        | (Some guard, h') =>
            (Ok (Some {| sel_node := node; sel_guard := guard |}), with_alloc s (sv_allocators s) h')
        | (None, h') => reserve_first eligible (with_alloc s (sv_allocators s) h')
        end
  end.

(** Candidates by descending score. *)
Definition by_score (w : ScoreWeights) (a b : Node) : comparison :=
  default Eq (f64_partial_cmp (score b w) (score a w)).

Definition select_with_bandwidth : M S (option SelectedNode) := λ s,
  (let! nodes := on_repo repo_list in
   let eligible := filter (λ n, is_selectable n = true) nodes in
   reserve_first (sort_by (by_score (sv_weights s)) eligible)) s.

Definition adjust_active (node_id : string) (delta : Z) : M S unit :=
  on_repo (repo_adjust_active node_id delta).

Definition is_live (n : Node) : bool :=
  match n_state n with Starting | Healthy | Degraded => true | _ => false end.

Context `{C : Chrono}.

Fixpoint sweep (now : Z) (nodes : list Node) (marked : Z) : M S Z :=
  match nodes with
  | [] => m_ret marked
  | node :: nodes =>
      let! policy := get_policy in
      if is_live node && is_stale (n_last_heartbeat node) now policy
      then let! _ := on_repo (repo_mark_offline (n_id node)) in sweep now nodes (marked + 1)
      else sweep now nodes marked
  end.

Definition mark_stale_offline (now : Z) : M S Z :=
  let! nodes := on_repo repo_list in sweep now nodes 0.
End service.

(** ** Reasoning about service operations *)
Section laws.
Context {R : Type} `{RL : RepositoryLaws R}.

Abbreviation S := (ControlPlaneService R).

Definition sinv (s : S) : Prop := repo_inv (sv_repo s).
Definition sview (s : S) : Nodes := repo_view (sv_repo s).
Definition sreliable (s : S) : Prop := repo_reliable (sv_repo s).

(** [wp c s Q]: running [c] in [s] ends with a result and state in [Q]. *)
Definition wp {A} (c : M S A) (s : S) (Q : outcome Error A → S → Prop) : Prop :=
  Q (c s).1 (c s).2.

Lemma wp_run {A} (c : M S A) s Q : wp c s Q → let '(r, s') := c s in Q r s'.
Proof. unfold wp. by destruct (c s). Qed.

Lemma wp_ret {A} (a : A) s (Q : outcome Error A → S → Prop) : Q (Ok a) s → wp (m_ret a) s Q.
Proof. done. Qed.

Lemma wp_bind {A B} (c : M S A) (k : A → M S B) s Q :
  wp c s (λ r s', match r with
                  | Ok a => wp (k a) s' Q
                  | Err e => Q (Err e) s'
                  | Panic => Q Panic s'
                  end) →
  wp (m_bind c k) s Q.
Proof. unfold wp, m_bind. by destruct (c s) as [[a|e|] s']. Qed.

Lemma wp_mono {A} (c : M S A) s (Q Q' : outcome Error A → S → Prop) :
  wp c s Q → (∀ r s', Q r s' → Q' r s') → wp c s Q'.
Proof. unfold wp. auto. Qed.

Lemma wp_update (c : M R unit) f s (Q : outcome Error unit → S → Prop) :
  updates repo_inv repo_view repo_stamp repo_reliable c f (sv_repo s) →
  (∀ r', repo_inv r' → (sreliable s → repo_reliable r') →
     repo_view r' = f (repo_stamp (sv_repo s)) (sview s) → Q (Ok tt) (with_repo s r')) →
  (∀ e r', repo_inv r' → ¬ sreliable s → repo_view r' = sview s → Q (Err e) (with_repo s r')) →
  wp (on_repo c) s Q.
Proof.
  unfold updates, wp, on_repo. destruct (c (sv_repo s)) as [[[]|e|] r'];
    intros (Hi & Hr & Hv) HOk HErr; cbn; [| |done].
  - apply HOk; [done| |done]. intros Hs. by apply Hr.
  - apply HErr; [done| |done]. intros Hs. by destruct (Hr Hs).
Qed.

Lemma wp_read {A} (c : M R A) P s (Q : outcome Error A → S → Prop) :
  reads repo_inv repo_view repo_reliable c P (sv_repo s) →
  (∀ a r', repo_inv r' → (sreliable s → repo_reliable r') → repo_view r' = sview s →
     P (sview s) a → Q (Ok a) (with_repo s r')) →
  (∀ e r', repo_inv r' → ¬ sreliable s → repo_view r' = sview s → Q (Err e) (with_repo s r')) →
  wp (on_repo c) s Q.
Proof.
  unfold reads, wp, on_repo. destruct (c (sv_repo s)) as [[a|e|] r'];
    intros (Hi & Hr & Hv & HP) HOk HErr; cbn; [| |done].
  - apply HOk; [done| |done|done]. intros Hs. by apply Hr.
  - apply HErr; [done| |done]. intros Hs. by destruct (Hr Hs) as [_ [? ?]].
Qed.

Lemma wp_record n s (Q : outcome Error unit → S → Prop) :
  Q (Ok tt) (with_gauges s (record_node n (sv_gauges s))) → wp (metrics_record_node n) s Q.
Proof. done. Qed.

Lemma wp_policy s (Q : outcome Error HealthPolicy → S → Prop) :
  Q (Ok (sv_policy s)) s → wp get_policy s Q.
Proof. done. Qed.

(** An operation that leaves the registry as it is, whatever it returns. *)
Definition quiet {A} (s : S) (r : outcome Error A) (s' : S) : Prop :=
  sinv s' ∧ sview s' = sview s ∧ (sreliable s → sreliable s') ∧ sv_policy s' = sv_policy s ∧
  sv_weights s' = sv_weights s.

Lemma wp_record_all nodes s (Q : outcome Error unit → S → Prop) :
  (∀ g, Q (Ok tt) (with_gauges s g)) → wp (record_all nodes) s Q.
Proof.
  revert s. induction nodes as [|n nodes IH]; intros s HQ.
  - cbn [record_all]. apply wp_ret. specialize (HQ (sv_gauges s)). by destruct s.
  - cbn [record_all]. apply wp_bind, wp_record, IH. intros g. apply HQ.
Qed.

Lemma get_spec id s :
  sinv s → wp (get id) s (λ r s', quiet s r s' ∧
    match r with Ok v => v = sview s !! id | Err _ => ¬ sreliable s | Panic => False end).
Proof.
  intros Hinv. unfold get. apply wp_bind. eapply wp_read; [by apply law_get| |].
  - intros a r' Hi Hr Hv ->. unfold record_found. destruct (sview s !! id);
      [apply wp_bind, wp_record|]; by apply wp_ret.
  - intros e r' Hi Hr Hv. split; [|done]. done.
Qed.

Lemma list_spec s :
  sinv s → wp list_nodes s (λ r s', quiet s r s' ∧
    match r with Ok l => lists (sview s) l | Err _ => ¬ sreliable s | Panic => False end).
Proof.
  intros Hinv. unfold list_nodes. apply wp_bind. eapply wp_read; [by apply law_list| |].
  - intros l r' Hi Hr Hv Hl. apply wp_bind, wp_record_all. intros g. by apply wp_ret.
  - intros e r' Hi Hr Hv. done.
Qed.

Lemma select_quiet s :
  sinv s → wp select s (λ r s', quiet s r s' ∧
    match r with
    | Ok v => ∃ l, lists (sview s) l ∧
        v = selector_select {| weights := sv_weights s |} (filter (λ n, is_selectable n = true) l)
    | Err _ => ¬ sreliable s
    | Panic => False
    end).
Proof.
  intros Hinv. unfold select, wp.
  apply (wp_bind (on_repo repo_list)). eapply wp_read; [by apply law_list| |].
  - intros l r' Hi Hr Hv Hl. apply wp_ret. split; [done|]. by exists l.
  - done.
Qed.

Lemma register_spec req s :
  sinv s → RegisterRequest_ok req = true →
  wp (register req) s (λ r s', sinv s' ∧ (sreliable s → sreliable s') ∧ sv_policy s' = sv_policy s ∧
    match r with
    | Ok n => n = registered req (repo_stamp (sv_repo s)) (sview s !! rr_node_id req) ∧
              sview s' = <[rr_node_id req := n]> (sview s)
    | Err _ => ¬ sreliable s ∧
               (sview s' = sview s ∨
                sview s' = spec_register req (repo_stamp (sv_repo s)) (sview s))
    | Panic => False
    end).
Proof.
  intros Hinv Hreq. unfold register. apply wp_bind. eapply wp_update; [by apply law_register| |].
  - intros r1 Hi1 Hr1 Hv1. apply wp_bind. eapply wp_read; [by apply law_get| |].
    + intros v r2 Hi2 Hr2 Hv2 ->. unfold sview at 1. cbn [sv_repo with_repo].
      rewrite Hv1. unfold spec_register at 1. rewrite lookup_insert_eq.
      apply wp_bind, wp_record, wp_ret. split_and!; [done|intros Hs; apply Hr2, Hr1, Hs|done|done|].
      unfold sview in *. cbn in *. by rewrite Hv2, Hv1.
    + intros e r2 Hi2 Hr2 Hv2. unfold sview in *. cbn in *. split_and!; [done| |done| |].
      * intros Hs. by destruct (Hr2 (Hr1 Hs)).
      * intros Hs. by destruct (Hr2 (Hr1 Hs)).
      * right. by rewrite Hv2, Hv1.
  - intros e r1 Hi1 Hr1 Hv1. split_and!; [done|done|done|done|by left].
Qed.

(** The node after a heartbeat. *)
Definition beaten (policy : HealthPolicy) (hb : Heartbeat) (t t' : Z) (n : Node) : Node :=
  with_state (reclassify_after_heartbeat (n_state n) (hb_active_connections hb)
                (n_max_connections n) policy) t' (with_heartbeat hb t n).

Lemma with_state_id hb n t :
  with_state (n_state n) t (with_heartbeat hb t n) = with_heartbeat hb t n.
Proof. done. Qed.

(** What is left after the node was read: [n] is the node read, [m] the node
    the registry holds by then. *)
Lemma heartbeat_after_spec hb n m s :
  sinv s → Heartbeat_ok hb = true → sview s !! hb_node_id hb = Some m →
  let next := reclassify_after_heartbeat (n_state n) (hb_active_connections hb)
                (n_max_connections n) (sv_policy s) in
  let t := repo_stamp (sv_repo s) in
  wp (heartbeat_after hb (Some n)) s (λ r s', sinv s' ∧ (sreliable s → sreliable s') ∧
    sv_policy s' = sv_policy s ∧
    match r with
    | Ok _ => ∃ t', sview s' = <[hb_node_id hb :=
          if decide (next = n_state n) then with_heartbeat hb t m
          else with_state next t' (with_heartbeat hb t m)]> (sview s)
    | Err _ => ¬ sreliable s ∧
        (sview s' = sview s ∨ sview s' = <[hb_node_id hb := with_heartbeat hb t m]> (sview s) ∨
         next ≠ n_state n ∧ ∃ t', sview s' = <[hb_node_id hb := with_state next t' (with_heartbeat hb t m)]> (sview s))
    | Panic => False
    end).
Proof.
  intros Hinv Hhb Hm next t. unfold heartbeat_after. apply wp_bind.
  eapply wp_update; [by apply law_heartbeat| |].
  2:{ intros e r1 Hi1 Hr1 Hv1. split_and!; [done|done|done|done|by left]. }
  intros r1 Hi1 Hr1 Hv1.
  assert (Hv1' : repo_view r1 = <[hb_node_id hb := with_heartbeat hb t m]> (sview s)).
  { rewrite Hv1. unfold spec_heartbeat. apply map_eq. intros j.
    destruct (decide (hb_node_id hb = j)) as [<-|Hne].
    - by rewrite lookup_alter_eq, Hm, lookup_insert_eq.
    - by rewrite lookup_alter_ne, lookup_insert_ne by done. }
  apply wp_bind, wp_policy, wp_bind. cbn [sv_policy with_repo]. fold next.
  destruct (decide (next = n_state n)) as [Heq|Hne].
  - apply wp_ret, wp_bind. eapply wp_read; [by apply law_get| |].
    + intros v r2 Hi2 Hr2 Hv2 _. assert (sreliable s → repo_reliable r2) by (intros Hs; apply Hr2, Hr1, Hs).
      unfold sview in Hv2. cbn in Hv2. rewrite Hv1' in Hv2.
      destruct v; [apply wp_record|apply wp_ret]; (split_and!; [done|done|done|by exists 0]).
    + intros e r2 Hi2 Hr2 Hv2. unfold sview in Hv2. cbn in Hv2. rewrite Hv1' in Hv2.
      assert (¬ sreliable s) by (intros Hs; apply Hr2, Hr1, Hs).
      split_and!; [done|done|done|done|by right; left].
  - eapply wp_update; [by apply law_set_state| |].
    + intros r2 Hi2 Hr2 Hv2. unfold sview in Hv2. cbn in Hv2. rewrite Hv1' in Hv2.
      assert (Hv2' : ∃ t', repo_view r2 = <[hb_node_id hb := with_state next t' (with_heartbeat hb t m)]> (sview s)).
      { exists (repo_stamp r1). rewrite Hv2. unfold spec_set_state. apply map_eq. intros j.
        destruct (decide (hb_node_id hb = j)) as [<-|Hj].
        - by rewrite lookup_alter_eq, !lookup_insert_eq.
        - by rewrite lookup_alter_ne, !lookup_insert_ne by done. }
      apply wp_bind. eapply wp_read; [by apply law_get| |].
      * intros v r3 Hi3 Hr3 Hv3 _. assert (sreliable s → repo_reliable r3) by (intros Hs; apply Hr3, Hr2, Hr1, Hs).
        unfold sview in Hv3. cbn in Hv3. rewrite <- Hv3 in Hv2'.
        destruct v; [apply wp_record|apply wp_ret]; split_and!; done.
      * intros e r3 Hi3 Hr3 Hv3. unfold sview in Hv3. cbn in Hv3. rewrite <- Hv3 in Hv2'.
        assert (¬ sreliable s) by (intros Hs; apply Hr3, Hr2, Hr1, Hs).
        split_and!; [done|done|done|done|by right; right].
    + intros e r2 Hi2 Hr2 Hv2. unfold sview in Hv2. cbn in Hv2. rewrite Hv1' in Hv2.
      assert (¬ sreliable s) by (intros Hs; apply Hr2, Hr1, Hs).
      split_and!; [done|done|done|done|by right; left].
Qed.

Lemma heartbeat_spec hb s :
  sinv s → Heartbeat_ok hb = true →
  wp (heartbeat hb) s (λ r s', sinv s' ∧ (sreliable s → sreliable s') ∧ sv_policy s' = sv_policy s ∧
    match r with
    | Ok _ => match sview s !! hb_node_id hb with
              | None => sview s' = sview s
              | Some n => ∃ t t', sview s' = <[hb_node_id hb := beaten (sv_policy s) hb t t' n]> (sview s)
              end
    | Err _ => ¬ sreliable s ∧ (sview s' = sview s ∨
        ∃ n t t' st, sview s !! hb_node_id hb = Some n ∧
          (st = n_state n ∨ st = reclassify_after_heartbeat (n_state n) (hb_active_connections hb)
             (n_max_connections n) (sv_policy s)) ∧
          sview s' = <[hb_node_id hb := with_state st t' (with_heartbeat hb t n)]> (sview s))
    | Panic => False
    end).
Proof.
  intros Hinv Hhb. unfold heartbeat. apply wp_bind. eapply wp_read; [by apply law_get| |].
  - intros v r1 Hi1 Hr1 Hv1 ->. destruct (sview s !! hb_node_id hb) as [n|] eqn:Hn.
    + eapply wp_mono; [apply (heartbeat_after_spec hb n n (with_repo s r1)); [done|done|]|].
      { unfold sview. cbn. by rewrite Hv1. }
      cbn [sv_policy with_repo]. intros r s' (Hi & Hr & Hp & HQ).
      assert (Hview : sview (with_repo s r1) = sview s) by apply Hv1. rewrite Hview in HQ.
      split_and!; [done|intros Hs; apply Hr, Hr1, Hs|done|]. destruct r as [u|e|]; [| |done].
      * destruct HQ as (t' & HQ). exists (repo_stamp (sv_repo (with_repo s r1))).
        destruct (decide _) as [Heq|Hne]; [|by exists t'].
        eexists. rewrite HQ. unfold beaten. by rewrite Heq, with_state_id.
      * destruct HQ as [Hu HQ]. split; [intros Hs; apply Hu, Hr1, Hs|].
        destruct HQ as [HQ|[HQ|[_ [t' HQ]]]]; [by left|right..].
        -- exists n, (repo_stamp r1), (repo_stamp r1), (n_state n). split_and!; [done|by left|].
           by rewrite HQ, with_state_id.
        -- eexists n, _, t', _. split_and!; [done|by right|done].
    + apply wp_ret. split_and!; [done|auto|done|]. apply Hv1.
  - intros e r1 Hi1 Hr1 Hv1. split_and!; [done|done|done|done|by left].
Qed.

Lemma drain_spec id s :
  sinv s →
  wp (drain id) s (λ r s', sinv s' ∧ (sreliable s → sreliable s') ∧ sv_policy s' = sv_policy s ∧
    match r with
    | Ok v => sview s' = spec_set_state id Draining (repo_stamp (sv_repo s)) (sview s) ∧
              v = sview s' !! id
    | Err _ => ¬ sreliable s ∧
        (sview s' = sview s ∨ sview s' = spec_set_state id Draining (repo_stamp (sv_repo s)) (sview s))
    | Panic => False
    end).
Proof.
  intros Hinv. unfold drain. apply wp_bind. eapply wp_update; [by apply law_draining| |].
  - intros r1 Hi1 Hr1 Hv1. apply wp_bind. eapply wp_read; [by apply law_get| |].
    + intros v r2 Hi2 Hr2 Hv2 ->. assert (sreliable s → repo_reliable r2) by (intros Hs; apply Hr2, Hr1, Hs).
      unfold sview in Hv2. cbn in Hv2.
      assert (Hq : ∀ g, sview (with_gauges (with_repo (with_repo s r1) r2) g) = repo_view r1) by done.
      unfold record_found. destruct (sview (with_repo s r1) !! id) eqn:E;
        [apply wp_bind, wp_record|]; apply wp_ret; (split_and!; [done|done|done| |]);
        unfold sview in *; cbn in *; congruence.
    + intros e r2 Hi2 Hr2 Hv2. unfold sview in Hv2. cbn in Hv2.
      assert (¬ sreliable s) by (intros Hs; apply Hr2, Hr1, Hs).
      split_and!; [done|done|done|done|]. right. unfold sview at 1. cbn. by rewrite Hv2.
  - intros e r1 Hi1 Hr1 Hv1. split_and!; [done|done|done|done|by left].
Qed.
End laws.

(** ** The sweep *)
Section sweep.
Context {R : Type} `{RL : RepositoryLaws R} `{C : Chrono}.

Abbreviation S := (ControlPlaneService R).

(** A node the sweep marks offline. *)
Definition expired (policy : HealthPolicy) (now : Z) (n : Node) : bool :=
  is_live n && is_stale (n_last_heartbeat n) now policy.

Fixpoint count_expired (policy : HealthPolicy) (now : Z) (nodes : list Node) : Z :=
  match nodes with
  | [] => 0
  | n :: nodes => (if expired policy now n then 1 else 0) + count_expired policy now nodes
  end.

(** [m'] is [m] with nodes of [todo] marked offline: all the expired ones, or
    some of them if the storage failed. *)
Definition swept (policy : HealthPolicy) (now : Z) (complete : bool) (todo : list string)
    (m m' : Nodes) : Prop :=
  ∀ id, match m !! id with
        | None => m' !! id = None
        | Some n =>
            (∃ t, id ∈ todo ∧ expired policy now n = true ∧ m' !! id = Some (with_state Offline t n)) ∨
            ((complete = true → id ∈ todo → expired policy now n = false) ∧ m' !! id = Some n)
        end.

Lemma swept_skip p now b n ids m m' :
  m !! n_id n = Some n → expired p now n = false →
  swept p now b ids m m' → swept p now b (n_id n :: ids) m m'.
Proof.
  intros Hn Hexp Hsw id. specialize (Hsw id). destruct (m !! id) as [k|] eqn:Hm; [|done].
  destruct Hsw as [(t & Hid & He & Hv)|[Hno Hv]].
  - left. exists t. split_and!; [by right|done|done].
  - right. split; [|done]. intros Hb [->|Hid]%elem_of_cons; [congruence|auto].
Qed.

Lemma swept_mark p now b n ids t m m' :
  m !! n_id n = Some n → expired p now n = true → n_id n ∉ ids →
  swept p now b ids (spec_set_state (n_id n) Offline t m) m' → swept p now b (n_id n :: ids) m m'.
Proof.
  intros Hn Hexp Hnn Hsw id. specialize (Hsw id). unfold spec_set_state in Hsw.
  destruct (decide (n_id n = id)) as [<-|Hne].
  - rewrite lookup_alter_eq, Hn in Hsw. rewrite Hn.
    destruct Hsw as [(t' & Hid & _)|[_ Hsw]]; [by destruct (Hnn Hid)|].
    left. exists t. split_and!; [by left|done|done].
  - rewrite lookup_alter_ne in Hsw by done. destruct (m !! id) as [k|] eqn:Hm; [|done].
    destruct Hsw as [(t' & Hid & He & Hsw)|[Hno Hsw]].
    + left. exists t'. split_and!; [by right|done|done].
    + right. split; [|done]. intros Hb [->|Hid]%elem_of_cons; [done|auto].
Qed.

Lemma swept_refl p now ids m : swept p now false ids m m.
Proof. intros id. destruct (m !! id); [right; by split|done]. Qed.

Lemma sweep_spec now nodes marked s :
  sinv s → NoDup (n_id <$> nodes) → (∀ n, n ∈ nodes → sview s !! n_id n = Some n) →
  wp (sweep now nodes marked) s (λ r s', sinv s' ∧ (sreliable s → sreliable s') ∧
    sv_policy s' = sv_policy s ∧
    match r with
    | Ok k => k = marked + count_expired (sv_policy s) now nodes ∧
              swept (sv_policy s) now true (n_id <$> nodes) (sview s) (sview s')
    | Err _ => ¬ sreliable s ∧ swept (sv_policy s) now false (n_id <$> nodes) (sview s) (sview s')
    | Panic => False
    end).
Proof.
  revert marked s. induction nodes as [|n nodes IH]; intros marked s Hinv Hnd Hin.
  { cbn [sweep]. apply wp_ret. split_and!; [done|done|done|cbn; lia|].
    intros id. destruct (sview s !! id); [|done]. right. split; [|done]. intros _ Hx.
    by apply not_elem_of_nil in Hx. }
  cbn [sweep]. apply wp_bind, wp_policy. cbn [fmap list_fmap] in Hnd.
  apply NoDup_cons in Hnd as [Hnn Hnd]. fold (expired (sv_policy s) now n).
  assert (Hn : sview s !! n_id n = Some n) by (apply Hin; left).
  destruct (expired (sv_policy s) now n) eqn:Hexp.
  2:{ eapply wp_mono; [apply IH; [done|done|intros m Hm; apply Hin; by right]|].
      intros r s' (Hi & Hr & Hp & HQ). split_and!; [done|done|done|].
      destruct r as [k|e|]; [|destruct HQ; split; [done|by apply swept_skip]|done].
      destruct HQ as [-> HQ]. split; [cbn [count_expired]; rewrite Hexp; lia|by apply swept_skip]. }
  apply wp_bind. eapply wp_update; [by apply law_offline| |].
  - intros r1 Hi1 Hr1 Hv1.
    eapply wp_mono; [apply IH; [done|done|]|].
    { intros m Hm. unfold sview. cbn. rewrite Hv1. unfold spec_set_state.
      rewrite lookup_alter_ne; [apply Hin; by right|].
      intros Heq. apply Hnn. rewrite Heq. by apply list_elem_of_fmap_2. }
    cbn [sv_policy with_repo]. intros r s' (Hi & Hr & Hp & HQ).
    change (sview (with_repo s r1)) with (repo_view r1) in HQ. rewrite Hv1 in HQ.
    split_and!; [done|intros Hs; apply Hr, Hr1, Hs|done|]. destruct r as [k|e|]; [| |done].
    + destruct HQ as [-> HQ]. split; [cbn [count_expired]; rewrite Hexp; lia|by eapply swept_mark].
    + destruct HQ as [Hu HQ]. split; [intros Hs; apply Hu, Hr1, Hs|by eapply swept_mark].
  - intros e r1 Hi1 Hr1 Hv1. split_and!; [done|done|done|done|].
    change (sview (with_repo s r1)) with (repo_view r1). rewrite Hv1. apply swept_refl.
Qed.

Lemma lists_ids (s : S) l :
  sinv s → lists (sview s) l →
  NoDup (n_id <$> l) ∧ (∀ n, n ∈ l → sview s !! n_id n = Some n) ∧
  (∀ id n, sview s !! id = Some n → id ∈ n_id <$> l).
Proof.
  intros Hinv (Hsort & Hnd & Hin). split_and!.
  - apply NoDup_fmap_2_strong; [|done]. intros a b Ha%Hin Hb%Hin Heq. rewrite Heq in Ha. congruence.
  - intros n. apply Hin.
  - intros id n Hn. destruct (view_typed _ _ _ Hinv Hn) as [<- _].
    apply list_elem_of_fmap_2. by apply Hin.
Qed.

Lemma mark_stale_offline_spec now s :
  sinv s →
  wp (mark_stale_offline now) s (λ r s', sinv s' ∧ (sreliable s → sreliable s') ∧
    sv_policy s' = sv_policy s ∧
    match r with
    | Ok k => (∃ l, lists (sview s) l ∧ k = count_expired (sv_policy s) now l) ∧
              ∃ ids, (∀ id n, sview s !! id = Some n → id ∈ ids) ∧
                swept (sv_policy s) now true ids (sview s) (sview s')
    | Err _ => ¬ sreliable s ∧ ∃ ids, swept (sv_policy s) now false ids (sview s) (sview s')
    | Panic => False
    end).
Proof.
  intros Hinv. unfold mark_stale_offline. apply wp_bind. eapply wp_read; [by apply law_list| |].
  - intros l r1 Hi1 Hr1 Hv1 Hl. destruct (lists_ids s l Hinv Hl) as (Hnd & Hin & Hall).
    assert (Hvs : sview (with_repo s r1) = sview s) by apply Hv1.
    eapply wp_mono; [apply sweep_spec; [done|done|by rewrite Hvs]|]. rewrite Hvs.
    cbn [sv_policy with_repo]. intros r s' (Hi & Hr & Hp & HQ).
    split_and!; [done|intros Hs; apply Hr, Hr1, Hs|done|]. destruct r as [k|e|]; [| |done].
    + destruct HQ as [-> HQ]. split; [by exists l|by exists (n_id <$> l)].
    + destruct HQ as [Hu HQ]. split; [intros Hs; apply Hu, Hr1, Hs|by exists (n_id <$> l)].
  - intros e r1 Hi1 Hr1 Hv1. split_and!; [done|done|done|done|]. exists [].
    change (sview (with_repo s r1)) with (repo_view r1). rewrite Hv1. apply swept_refl.
Qed.
End sweep.

(** ** Selection with a bandwidth reservation *)
Section reserve.
Context {R : Type} `{RL : RepositoryLaws R} (spurious : string → list bool).

Abbreviation S := (ControlPlaneService R).

(** The ceiling that applies to a node (the one its allocator was created
    with) and what is committed of it. *)
Definition ceiling (s : S) (n : Node) : Z :=
  match sv_allocators s !! n_id n with Some a => ba_limit a | None => n_bandwidth_limit n end.
Definition committed (s : S) (id : string) : Z :=
  match sv_allocators s !! id with Some a => load (sv_heap s) (ba_reserved a) | None => 0 end.

Definition has_room (s : S) (n : Node) : bool := committed s (n_id n) + share_of n <=? ceiling s n.

Record alloc_inv (s : S) : Prop := {
  alloc_distinct i j a b :
    sv_allocators s !! i = Some a → sv_allocators s !! j = Some b →
    ba_reserved a = ba_reserved b → i = j;
  alloc_bounded i a :
    sv_allocators s !! i = Some a →
    ba_reserved a ∈ dom (sv_heap s) ∧
    0 <= load (sv_heap s) (ba_reserved a) <= ba_limit a ∧ ba_limit a < U64_MOD
}.

(** The allocator of a node, with the same ceiling and commitments. *)
Lemma allocator_spec n s :
  alloc_inv s → 0 <= n_bandwidth_limit n < U64_MOD →
  ∃ a s', allocator (n_id n) (n_bandwidth_limit n) s = (Ok a, s') ∧ alloc_inv s' ∧
    sv_allocators s' !! n_id n = Some a ∧ ba_limit a = ceiling s n ∧
    (∀ id, committed s' id = committed s id) ∧ (∀ m, n_id m ≠ n_id n → ceiling s' m = ceiling s m) ∧
    sv_repo s' = sv_repo s ∧ sv_policy s' = sv_policy s ∧ sv_weights s' = sv_weights s.
Proof.
  intros Hinv Hlim. unfold allocator, ceiling.
  destruct (sv_allocators s !! n_id n) as [a|] eqn:Ha; [by exists a, s|].
  cbn [BandwidthAllocator_new]. set (l := alloc_loc (sv_heap s)).
  assert (Hl : l ∉ dom (sv_heap s)) by (unfold l, alloc_loc; apply is_fresh).
  assert (Hold : ∀ i a, sv_allocators s !! i = Some a → ba_reserved a ≠ l).
  { intros i a Hi Heq. destruct (alloc_bounded _ Hinv i a Hi) as [Hd _]. apply Hl. by rewrite <- Heq. }
  clearbody l.
  eexists _, _. split; [done|]. cbn [with_alloc sv_allocators sv_heap sv_repo sv_policy sv_weights].
  split_and!; [|by rewrite lookup_insert_eq|done| | |done|done|done].
  - split; cbn [with_alloc sv_allocators sv_heap].
    + intros i j b c. rewrite !lookup_insert_Some.
      intros [[<- <-]|[_ Hb]] [[<- <-]|[_ Hc]] Heq; cbn in Heq; try done.
      * by destruct (Hold _ _ Hc).
      * by destruct (Hold _ _ Hb).
      * by eapply (alloc_distinct _ Hinv).
    + intros i b. rewrite lookup_insert_Some. intros [[<- <-]|[_ Hb]]; cbn.
      * split_and!; [rewrite dom_insert_L; set_solver|rewrite load_insert; lia|rewrite load_insert; lia|lia].
      * destruct (alloc_bounded _ Hinv i b Hb) as (? & ? & ?).
        rewrite load_insert_ne by (by eapply not_eq_sym, Hold).
        split_and!; [rewrite dom_insert_L; set_solver|lia..].
  - intros id. unfold committed. cbn. destruct (decide (n_id n = id)) as [<-|Hne].
    + rewrite lookup_insert_eq, Ha. cbn. apply load_insert.
    + rewrite lookup_insert_ne by done. destruct (sv_allocators s !! id) as [b|] eqn:Hb; [|done].
      apply load_insert_ne. by eapply not_eq_sym, Hold.
  - intros m Hm. cbn. by rewrite lookup_insert_ne.
Qed.

(** The outcome of a reservation round over [l]. *)
Definition reserved (l : list Node) (s : S) (r : option SelectedNode) (s' : S) : Prop :=
  alloc_inv s' ∧ sv_repo s' = sv_repo s ∧
  match r with
  | None => Forall (λ n, has_room s n = false) l ∧ ∀ id, committed s' id = committed s id
  | Some sel =>
      ∃ before after, l = before ++ sel_node sel :: after ∧
        Forall (λ n, has_room s n = false) before ∧ has_room s (sel_node sel) = true ∧
        bg_rate (sel_guard sel) = share_of (sel_node sel) ∧
        (∃ a, sv_allocators s' !! n_id (sel_node sel) = Some a ∧
              bg_reserved (sel_guard sel) = ba_reserved a) ∧
        ∀ id, committed s' id = committed s id +
          if decide (id = n_id (sel_node sel)) then share_of (sel_node sel) else 0
  end.

Lemma with_alloc_id (s : S) : with_alloc s (sv_allocators s) (sv_heap s) = s.
Proof. by destruct s. Qed.

Lemma share_pos n : 1 <= share_of n.
Proof. unfold share_of. lia. Qed.

Lemma grant_spec n a (s : S) :
  alloc_inv s → sv_allocators s !! n_id n = Some a → 0 <= n_bandwidth_limit n →
  load (sv_heap s) (ba_reserved a) + share_of n <= ba_limit a →
  let s' := with_alloc s (sv_allocators s)
    (<[ba_reserved a := load (sv_heap s) (ba_reserved a) + share_of n]> (sv_heap s)) in
  alloc_inv s' ∧
  ∀ id, committed s' id = committed s id + if decide (id = n_id n) then share_of n else 0.
Proof.
  intros Hinv Ha Hlim Hroom s'. pose proof (share_pos n) as Hs. split.
  - split; [apply (alloc_distinct _ Hinv)|]. intros i b Hb. cbn in *.
    destruct (alloc_bounded _ Hinv i b Hb) as (Hd & Hr & Hl).
    split; [rewrite dom_insert_L; set_solver|].
    destruct (decide (ba_reserved a = ba_reserved b)) as [Heq|Hne].
    + assert (n_id n = i) as <- by (by eapply (alloc_distinct _ Hinv)). simplify_eq.
      rewrite load_insert. lia.
    + by rewrite load_insert_ne by done.
  - intros id. unfold committed. cbn. destruct (sv_allocators s !! id) as [b|] eqn:Hb.
    + destruct (decide (id = n_id n)) as [->|Hne]; [simplify_eq; apply load_insert|].
      rewrite load_insert_ne, Z.add_0_r; [done|]. intros Heq. apply Hne. symmetry.
      by eapply (alloc_distinct _ Hinv).
    + destruct (decide (id = n_id n)) as [->|]; [congruence|lia].
Qed.

Lemma reserve_first_spec l s :
  alloc_inv s → NoDup (n_id <$> l) → Forall (λ n, 0 <= n_bandwidth_limit n < U64_MOD) l →
  ∃ r s', reserve_first spurious l s = (Ok r, s') ∧ reserved l s r s'.
Proof.
  revert s. induction l as [|n l IH]; intros s Hinv Hnd Hlim.
  { exists None, s. split; [done|]. by split_and!. }
  cbn [fmap list_fmap] in Hnd. apply NoDup_cons in Hnd as [Hnn Hnd].
  apply Forall_cons in Hlim as [Hn Hlim].
  destruct (allocator_spec n s Hinv Hn) as (a & s1 & Heq & Hinv1 & Ha & Hc & Hcom & Hceil & Hrepo & _).
  cbn [reserve_first]. unfold m_bind. rewrite Heq.
  destruct (alloc_bounded _ Hinv1 _ _ Ha) as (Hd & Hr & Hl).
  rewrite try_reserve_spec by done. unfold reserve_spec.
  assert (Hload : load (sv_heap s1) (ba_reserved a) = committed s (n_id n))
    by (rewrite <- Hcom; unfold committed; by rewrite Ha).
  destruct (Z.leb_spec (load (sv_heap s1) (ba_reserved a) + share_of n) (ba_limit a)) as [Hle|Hgt].
  - eexists _, _. split; [done|].
    destruct (grant_spec n a s1 Hinv1 Ha ltac:(lia) Hle) as [Hinv2 Hcom2].
    split_and!; [done|done|]. exists [], l. cbn [sel_node sel_guard bg_rate bg_reserved].
    split_and!; [done|constructor| |done|by exists a|].
    + apply Z.leb_le. by rewrite <- Hc, <- Hload.
    + intros id. by rewrite Hcom2, Hcom.
  - rewrite with_alloc_id. destruct (IH s1 Hinv1 Hnd Hlim) as (r & s' & Hrun & Hinv' & Hrepo' & HQ).
    assert (Hfull : has_room s n = false) by (apply Z.leb_gt; by rewrite <- Hc, <- Hload).
    assert (Hroom : ∀ m, m ∈ l → has_room s1 m = has_room s m).
    { intros m Hm. unfold has_room. rewrite Hcom, Hceil; [done|]. intros Hid. apply Hnn.
      rewrite <- Hid. by apply list_elem_of_fmap_2. }
    eexists r, s'. split; [done|]. split_and!; [done|congruence|]. destruct r as [sel|].
    + destruct HQ as (l1 & l2 & -> & Hb & Hsel & Hrate & Hguard & Hcom').
      exists (n :: l1), l2. split_and!; [done| |rewrite <- Hroom by set_solver; done|done|done|].
      * constructor; [done|]. rewrite Forall_forall in *. intros m Hm.
        rewrite <- Hroom by set_solver. auto.
      * intros id. by rewrite Hcom', Hcom.
    + destruct HQ as [Hall Hcom']. split; [|intros id; by rewrite Hcom', Hcom].
      constructor; [done|]. rewrite Forall_forall in *. intros m Hm. rewrite <- Hroom by done. auto.
Qed.
End reserve.

(** ** Sorting candidates *)
Section sort_by.
Context {A : Type} (key : A → Z) (cmp : A → A → comparison) (P : A → Prop).
(** [cmp] orders by descending key. *)
Hypothesis cmp_key : ∀ a b, P a → P b → cmp a b = (key b ?= key a).

Lemma sorted_insert_perm x l : sorted_insert cmp x l ≡ₚ x :: l.
Proof.
  induction l as [|y l IH]; [done|]. cbn [sorted_insert].
  destruct (cmp x y); [done|done|]. rewrite IH. apply Permutation_swap.
Qed.

Lemma sort_by_perm l : sort_by cmp l ≡ₚ l.
Proof.
  induction l as [|x l IH]; [done|]. cbn [sort_by foldr]. rewrite sorted_insert_perm.
  by apply perm_skip.
Qed.

Lemma sorted_insert_sorted x l :
  P x → Forall P l → StronglySorted (λ a b, key b <= key a) l →
  StronglySorted (λ a b, key b <= key a) (sorted_insert cmp x l).
Proof.
  intros Hx. induction l as [|y l IH]; intros Hl Hs.
  { constructor; constructor. }
  apply Forall_cons in Hl as [Hy Hl]. apply StronglySorted_inv in Hs as [Hs Hall].
  cbn [sorted_insert]. rewrite cmp_key by done.
  assert (Hins : key y <= key x → StronglySorted (λ a b, key b <= key a) (x :: y :: l)).
  { intros Hle. constructor; [by constructor|]. constructor; [done|].
    eapply Forall_impl; [exact Hall|]. intros z Hz. cbn in *. lia. }
  destruct (Z.compare_spec (key y) (key x)) as [He|Hlt|Hgt]; [apply Hins; lia|apply Hins; lia|].
  constructor; [by apply IH|]. rewrite sorted_insert_perm. constructor; [lia|done].
Qed.

Lemma sort_by_sorted l :
  Forall P l → StronglySorted (λ a b, key b <= key a) (sort_by cmp l).
Proof.
  induction l as [|x l IH]; intros Hl; [constructor|]. apply Forall_cons in Hl as [Hx Hl].
  cbn [sort_by foldr]. apply sorted_insert_sorted; [done| |by apply IH].
  fold (sort_by cmp l). by rewrite sort_by_perm.
Qed.
End sort_by.

(** ** The operations the API and the sweep task run *)
Inductive sv_op : Type :=
| SvRegister (req : RegisterRequest)
| SvHeartbeat (hb : Heartbeat)
| SvList
| SvGet (id : string)
| SvDrain (id : string)
| SvSelect
| SvSelectBandwidth (spurious : string → list bool)
| SvSweep (now : Z).

Definition sv_op_ok (op : sv_op) : bool :=
  match op with
  | SvRegister req => RegisterRequest_ok req
  | SvHeartbeat hb => Heartbeat_ok hb
  | _ => true
  end.

Section operations.
Context {R : Type} `{RL : RepositoryLaws R} `{C : Chrono}.

Abbreviation S := (ControlPlaneService R).

(** The state after an operation, whatever it returned. *)
Definition sv_step (op : sv_op) (s : S) : S :=
  match op with
  | SvRegister req => (register req s).2
  | SvHeartbeat hb => (heartbeat hb s).2
  | SvList => (list_nodes s).2
  | SvGet id => (get id s).2
  | SvDrain id => (drain id s).2
  | SvSelect => (select s).2
  | SvSelectBandwidth spurious => (select_with_bandwidth spurious s).2
  | SvSweep now => (mark_stale_offline now s).2
  end.

Definition sv_run (ops : list sv_op) (s : S) : S := foldl (λ s op, sv_step op s) s ops.

Lemma reserve_first_repo spurious l (s : S) : sv_repo (reserve_first spurious l s).2 = sv_repo s.
Proof.
  revert s. induction l as [|n l IH]; intros s; [done|]. cbn [reserve_first]. unfold m_bind, allocator.
  destruct (sv_allocators s !! n_id n) as [a|]; cbn.
  - destruct (try_reserve _ _ _ _) as [[g|] h']; cbn; [done|by rewrite IH].
  - destruct (try_reserve _ _ _ _) as [[g|] h']; cbn; [done|by rewrite IH].
Qed.

Lemma select_bandwidth_view spurious (s : S) :
  sinv s → sinv (select_with_bandwidth spurious s).2 ∧ sview (select_with_bandwidth spurious s).2 = sview s.
Proof.
  intros Hinv. unfold select_with_bandwidth.
  apply (wp_bind (on_repo repo_list) _ s (λ _ s', sinv s' ∧ sview s' = sview s)).
  eapply wp_read; [by apply law_list| |done].
  intros l r1 Hi1 Hr1 Hv1 Hl. unfold wp, sinv, sview. rewrite reserve_first_repo. done.
Qed.

Lemma select_with_bandwidth_run spurious (s : S) :
  sinv s → sreliable s → alloc_inv s →
  ∃ l r r1 s', lists (sview s) l ∧ select_with_bandwidth spurious s = (Ok r, s') ∧
    reserved (sort_by (by_score (sv_weights s)) (filter (λ n, is_selectable n = true) l))
      (with_repo s r1) r s'.
Proof.
  intros Hinv Hr Ha. pose proof (law_list (sv_repo s) Hinv) as Hl. unfold reads in Hl.
  unfold select_with_bandwidth, m_bind, on_repo.
  destruct (repo_list (sv_repo s)) as [[l|e|] r1]; destruct Hl as (Hi & Hrel & Hv & HP);
    [|destruct (Hrel Hr) as [_ [? ?]]; done|done].
  destruct (lists_ids s l Hinv HP) as (Hnd & Hin & _).
  set (el := sort_by _ _). assert (Hperm : el ≡ₚ filter (λ n, is_selectable n = true) l) by apply sort_by_perm.
  destruct (reserve_first_spec spurious el (with_repo s r1)) as (r & s' & Hrun & Hres).
  - destruct Ha as [H1 H2]. split; [exact H1|exact H2].
  - rewrite Hperm. apply NoDup_fmap_2_strong; [|apply NoDup_filter; by apply NoDup_fmap_1 in Hnd].
    intros a b [_ Hx%Hin]%list_elem_of_filter [_ Hy%Hin]%list_elem_of_filter Heq.
    rewrite Heq in Hx. congruence.
  - rewrite Hperm. apply Forall_forall. intros n [_ Hn]%list_elem_of_filter.
    destruct (view_typed _ _ _ Hinv (Hin n Hn)) as [_ Hok]. by apply Node_ok_iff in Hok as (_ & _ & ? & _).
  - by exists l, r, r1, s'.
Qed.

(** The life cycle of a node. *)
Inductive lifecycle : NodeState → NodeState → Prop :=
| lc_stay s : lifecycle s s
| lc_register : lifecycle Offline Starting
| lc_heartbeat s s' :
    s = Starting ∨ s = Healthy ∨ s = Degraded → s' = Healthy ∨ s' = Degraded → lifecycle s s'
| lc_drain s : lifecycle s Draining
| lc_sweep s : s = Starting ∨ s = Healthy ∨ s = Degraded → lifecycle s Offline.

Lemma lifecycle_heartbeat s a m p : lifecycle s (reclassify_after_heartbeat s a m p).
Proof.
  unfold reclassify_after_heartbeat.
  destruct s; try apply lc_stay; destruct (f64_ge _ _); apply lc_heartbeat; auto.
Qed.

Lemma lifecycle_draining s : lifecycle Draining s → s = Draining.
Proof. inversion 1; subst; try done; naive_solver. Qed.

(** Every node of [m] is still in [m'], one step of the life cycle later. *)
Definition evolves (m m' : Nodes) : Prop :=
  ∀ id n, m !! id = Some n → ∃ n', m' !! id = Some n' ∧ lifecycle (n_state n) (n_state n').

Lemma evolves_refl m : evolves m m.
Proof. intros id n Hn. exists n. split; [done|constructor]. Qed.

Lemma evolves_insert m id n' :
  (∀ n, m !! id = Some n → lifecycle (n_state n) (n_state n')) → evolves m (<[id := n']> m).
Proof.
  intros Hid j n Hn. destruct (decide (id = j)) as [<-|Hne].
  - exists n'. rewrite lookup_insert_eq. auto.
  - exists n. rewrite lookup_insert_ne by done. split; [done|constructor].
Qed.

Lemma evolves_alter m id t : evolves m (spec_set_state id Draining t m).
Proof.
  intros j n Hn. unfold spec_set_state. destruct (decide (id = j)) as [<-|Hne].
  - eexists. rewrite lookup_alter_eq, Hn. split; [done|apply lc_drain].
  - exists n. rewrite lookup_alter_ne by done. split; [done|constructor].
Qed.

Lemma evolves_registered m req t :
  evolves m (<[rr_node_id req := registered req t (m !! rr_node_id req)]> m).
Proof.
  apply evolves_insert. intros n ->. cbn. destruct (n_state n); try apply lc_stay. apply lc_register.
Qed.

Lemma evolves_swept p now b ids m m' : swept p now b ids m m' → evolves m m'.
Proof.
  intros Hsw id n Hn. specialize (Hsw id). rewrite Hn in Hsw.
  destruct Hsw as [(t & _ & He & Hv)|[_ Hv]]; [|exists n; split; [done|constructor]].
  eexists. split; [done|]. apply lc_sweep. unfold expired, is_live in He.
  destruct (n_state n); naive_solver.
Qed.

Lemma sv_step_evolves op s :
  sinv s → sv_op_ok op = true → sinv (sv_step op s) ∧ evolves (sview s) (sview (sv_step op s)).
Proof.
  intros Hinv Hok. destruct op as [req|hb| |id|id| |sp|now]; cbn [sv_step sv_op_ok] in *.
  - pose proof (register_spec req s Hinv Hok) as (Hi & _ & _ & HQ). split; [done|].
    destruct (register req s).1 as [n|e|]; [destruct HQ as [-> ->]; apply evolves_registered| |done].
    destruct HQ as [_ [-> | ->]]; [apply evolves_refl|apply evolves_registered].
  - pose proof (heartbeat_spec hb s Hinv Hok) as (Hi & _ & _ & HQ). split; [done|].
    destruct (heartbeat hb s).1 as [n|e|]; [| |done].
    + destruct (sview s !! hb_node_id hb) as [n'|] eqn:Hn; [|rewrite HQ; apply evolves_refl].
      destruct HQ as (t & t' & ->). apply evolves_insert. intros n0. rewrite Hn. intros [= <-].
      apply lifecycle_heartbeat.
    + destruct HQ as [_ [-> |(n & t & t' & st & Hn & Hst & ->)]]; [apply evolves_refl|].
      apply evolves_insert. intros n0. rewrite Hn. intros [= <-]. cbn.
      destruct Hst as [-> | ->]; [constructor|apply lifecycle_heartbeat].
  - pose proof (list_spec s Hinv) as ((Hi & -> & _) & _). split; [done|apply evolves_refl].
  - pose proof (get_spec id s Hinv) as ((Hi & -> & _) & _). split; [done|apply evolves_refl].
  - pose proof (drain_spec id s Hinv) as (Hi & _ & _ & HQ). split; [done|].
    destruct (drain id s).1 as [n|e|]; [destruct HQ as [-> _]; apply evolves_alter| |done].
    destruct HQ as [_ [-> | ->]]; [apply evolves_refl|apply evolves_alter].
  - pose proof (select_quiet s Hinv) as ((Hi & -> & _) & _). split; [done|apply evolves_refl].
  - destruct (select_bandwidth_view sp s Hinv) as [Hi ->]. split; [done|apply evolves_refl].
  - pose proof (mark_stale_offline_spec now s Hinv) as (Hi & _ & _ & HQ). split; [done|].
    destruct (mark_stale_offline now s).1 as [n|e|]; [| |done].
    + destruct HQ as [_ (ids & _ & Hsw)]. by eapply evolves_swept.
    + destruct HQ as [_ (ids & Hsw)]. by eapply evolves_swept.
Qed.

Lemma sv_run_draining ops s id n :
  sinv s → Forall (λ op, sv_op_ok op = true) ops → sview s !! id = Some n → n_state n = Draining →
  ∃ n', sview (sv_run ops s) !! id = Some n' ∧ n_state n' = Draining.
Proof.
  revert s n. induction ops as [|op ops IH]; intros s n Hinv Hok Hn Hs; [by exists n|].
  apply Forall_cons in Hok as [Ho Hok]. destruct (sv_step_evolves op s Hinv Ho) as [Hi He].
  destruct (He id n Hn) as (n' & Hn' & Hlc). rewrite Hs in Hlc. apply lifecycle_draining in Hlc.
  by apply (IH (sv_step op s) n').
Qed.

Lemma select_serves (s : S) :
  sinv s → sreliable s → sv_weights s = ScoreWeights_default →
  sview (select s).2 = sview s ∧
  match (select s).1 with
  | Ok (Some r) => sview s !! n_id r = Some r ∧ is_selectable r = true ∧
      ∀ id n, sview s !! id = Some n → is_selectable n = true → f64_ge (dscore r) (dscore n) = true
  | Ok None => ∀ id n, sview s !! id = Some n → is_selectable n = false
  | _ => False
  end.
Proof.
  intros Hinv Hr Hw. pose proof (select_quiet s Hinv) as ((_ & Hv & _) & HQ). split; [done|].
  destruct (select s).1 as [v|e|]; [|done|done]. destruct HQ as (l & Hl & ->). rewrite Hw.
  destruct Hl as (_ & _ & Hin).
  assert (Hreg : ∀ id n, sview s !! id = Some n → n ∈ l ∧ Node_ok n = true).
  { intros id n Hn. destruct (view_typed _ _ _ Hinv Hn) as [<- Hok]. split; [by apply Hin|done]. }
  set (el := filter (λ n, is_selectable n = true) l).
  assert (Hok : Forall (λ n, Node_ok n = true) el).
  { apply Forall_forall. intros n [_ Hn%Hin]%list_elem_of_filter. by destruct (Hreg _ _ Hn). }
  pose proof (select_max el Hok) as Hm.
  change {| weights := ScoreWeights_default |} with HealthAwareSelector_default.
  destruct (selector_select HealthAwareSelector_default el) as [r|].
  - destruct Hm as ([_ Hrl%Hin]%list_elem_of_filter & Hrs & Hmax). split_and!; [done|done|].
    intros id n Hn Hs. apply Hmax; [|done]. apply list_elem_of_filter. by destruct (Hreg _ _ Hn).
  - intros id n Hn. destruct (is_selectable n) eqn:Hs; [|done].
    rewrite <- Hs. apply Hm, list_elem_of_filter. by destruct (Hreg _ _ Hn).
Qed.
End operations.

(** ** A service over SQLite, for concrete runs *)
#[local] Existing Instance reference_env.
Definition reference_laws : RepositoryLaws Sqlite :=
  @Sqlite_laws reference_env chrono_reference_laws reference_clock_ok.

Definition sample_row (status : string) (hb : option Z) (active max : Z) : Row :=
  {| r_address := "127.0.0.1:9001"; r_status := status; r_last_heartbeat := hb;
     r_max_connections := max; r_active_connections := CInt active; r_bandwidth_limit := 1000;
     r_bytes_up := CInt 0; r_bytes_down := CInt 0; r_latency_ms := 5;
     r_created_at := 0; r_updated_at := 0 |}.

(** A service whose registry holds one node "n1". *)
Definition sample_service (row : Row) : ControlPlaneService Sqlite :=
  ControlPlaneService_new {| sq_table := {[ "n1" := row ]}; sq_ticks := 100; sq_calls := 0 |}
    HealthPolicy_default.

Definition sample_heartbeat (active : Z) : Heartbeat :=
  {| hb_node_id := "n1"; hb_active_connections := active; hb_bytes_up := 10; hb_bytes_down := 20;
     hb_latency_ms := 7; hb_available_bandwidth := 1000 |}.

Lemma sample_inv status st hb active max :
  NodeState_parse status = Some st → (match hb with Some u => epoch_ok u | None => True end) →
  0 <= active < U32_MOD →
  @sinv Sqlite _ reference_laws (sample_service (sample_row status hb active max)).
Proof.
  intros Hst Hhb Ha. unfold sinv. cbn. unfold sq_inv, rows_ok. cbn.
  apply map_Forall_singleton. split; cbn; try done; try (by eexists); unfold epoch_ok; lia.
Qed.

Lemma sample_reliable row : @sreliable Sqlite _ reference_laws (sample_service row).
Proof. done. Qed.

(** ** Properties *)
Section properties.
Context {R : Type} `{RL : RepositoryLaws R} `{C : Chrono}.

Abbreviation S := (ControlPlaneService R).

(** (C21) A heartbeat: while the storage works, the heartbeat of a known node
    succeeds and replaces that node only: it gets the reported counters, the
    time of the update and the state [reclassify_after_heartbeat] gives to its
    old state, its reported load and its registered ceiling. The heartbeat of
    an unknown node is accepted and ignored. *)
Theorem heartbeat_correct (hb : Heartbeat) (s : S) :
  sinv s → sreliable s → Heartbeat_ok hb = true →
  (heartbeat hb s).1 = Ok tt ∧
  match sview s !! hb_node_id hb with
  | None => sview (heartbeat hb s).2 = sview s
  | Some n => ∃ t t', sview (heartbeat hb s).2 =
      <[hb_node_id hb := beaten (sv_policy s) hb t t' n]> (sview s)
  end.
Proof.
  intros Hinv Hr Hhb. pose proof (heartbeat_spec hb s Hinv Hhb) as (_ & _ & _ & HQ).
  destruct (heartbeat hb s).1 as [[]|e|]; [done|by destruct HQ|done].
Qed.

(** Registration: while the storage works, it succeeds, the caller gets
    the stored node back, and only that entry of the registry changes; an
    offline node restarts, and the last heartbeat, the counters and the
    draining state of a known node are kept. *)
Theorem register_correct (req : RegisterRequest) (s : S) :
  sinv s → sreliable s → RegisterRequest_ok req = true →
  ∃ t, let n := registered req t (sview s !! rr_node_id req) in
  (register req s).1 = Ok n ∧ sview (register req s).2 = <[rr_node_id req := n]> (sview s).
Proof.
  intros Hinv Hr Hreq. pose proof (register_spec req s Hinv Hreq) as (_ & _ & _ & HQ).
  exists (repo_stamp (sv_repo s)). cbn zeta.
  destruct (register req s).1 as [n|e|]; [destruct HQ as [-> ->]; done|by destruct HQ|done].
Qed.

(** (C22) The sweep: while the storage works, it succeeds; exactly the live
    nodes (starting, healthy or degraded) whose last heartbeat is older than
    the timeout become offline, every other node is untouched, and the result
    is their number. *)
Theorem sweep_correct (now : Z) (s : S) :
  sinv s → sreliable s →
  ∃ l, lists (sview s) l ∧
  (mark_stale_offline now s).1 = Ok (count_expired (sv_policy s) now l) ∧
  ∀ id, match sview s !! id with
        | None => sview (mark_stale_offline now s).2 !! id = None
        | Some n =>
            if expired (sv_policy s) now n
            then ∃ t, sview (mark_stale_offline now s).2 !! id = Some (with_state Offline t n)
            else sview (mark_stale_offline now s).2 !! id = Some n
        end.
Proof.
  intros Hinv Hr. pose proof (mark_stale_offline_spec now s Hinv) as (_ & _ & _ & HQ).
  destruct (mark_stale_offline now s).1 as [k|e|]; [|by destruct HQ|done].
  destruct HQ as [(l & Hl & ->) (ids & Hids & Hsw)]. exists l. split_and!; [done|done|].
  intros id. specialize (Hsw id). destruct (sview s !! id) as [n|] eqn:Hn; [|done].
  destruct Hsw as [(t & _ & -> & Hv)|[Hno Hv]]; [by exists t|].
  by rewrite Hno by eauto.
Qed.

(** The life cycle: whatever operation the API or the sweep task runs,
    storage failures included, no node disappears and each node's state takes
    at most one step of the life cycle: only a registration restarts an
    offline node, only a heartbeat makes a node healthy or degraded, only the
    sweep of a live node makes it offline. *)
Theorem lifecycle_respected (op : sv_op) (s : S) :
  sinv s → sv_op_ok op = true → sinv (sv_step op s) ∧ evolves (sview s) (sview (sv_step op s)).
Proof. apply sv_step_evolves. Qed.

(** Draining is final: no sequence of operations, not even a new
    registration or the sweep, moves a node out of [Draining]; in particular
    it never becomes offline and is never selected again. *)
Theorem draining_is_final (ops : list sv_op) (s : S) (id : string) (n : Node) :
  sinv s → Forall (λ op, sv_op_ok op = true) ops → sview s !! id = Some n → n_state n = Draining →
  ∃ n', sview (sv_run ops s) !! id = Some n' ∧ n_state n' = Draining ∧ is_selectable n' = false.
Proof.
  intros Hinv Hok Hn Hs. destruct (sv_run_draining ops s id n Hinv Hok Hn Hs) as (n' & Hn' & Hs').
  exists n'. split_and!; [done|done|]. unfold is_selectable. by rewrite Hs'.
Qed.

(** (C38) A stale node cannot come back: when an offline node whose last
    heartbeat is stale registers again and the sweep runs before its first
    heartbeat, the old heartbeat still being stale at the time of the sweep, it is
    offline again (the registration keeps the old heartbeat time), and from then
    on its heartbeats are recorded but leave it offline. *)
Theorem reregistered_node_stays_offline (req : RegisterRequest) (hb : Heartbeat) (now : Z) (s : S) (n : Node) :
  sinv s → sreliable s → RegisterRequest_ok req = true → Heartbeat_ok hb = true →
  hb_node_id hb = rr_node_id req → sview s !! rr_node_id req = Some n → n_state n = Offline →
  is_stale (n_last_heartbeat n) now (sv_policy s) = true →
  let s1 := (register req s).2 in
  let s2 := (mark_stale_offline now s1).2 in
  let s3 := (heartbeat hb s2).2 in
  ∃ n1 n3, sview s1 !! rr_node_id req = Some n1 ∧ n_state n1 = Starting ∧
           sview s3 !! rr_node_id req = Some n3 ∧ n_state n3 = Offline.
Proof.
  intros Hinv Hr Hreq Hhb Hid Hn Hst Hstale s1 s2 s3.
  pose proof (register_spec req s Hinv Hreq) as (Hi1 & Hr1 & Hp1 & HQ1). fold s1 in Hi1, Hr1, Hp1, HQ1.
  destruct (register req s).1 as [m1|e|]; [|by destruct HQ1|done]. destruct HQ1 as [-> Hv1].
  rewrite Hn in Hv1. set (n1 := registered req _ (Some n)) in Hv1.
  assert (Hl1 : sview s1 !! rr_node_id req = Some n1) by (by rewrite Hv1, lookup_insert_eq).
  assert (Hs1 : n_state n1 = Starting) by (cbn; by rewrite Hst).
  pose proof (mark_stale_offline_spec now s1 Hi1) as (Hi2 & Hr2 & Hp2 & HQ2). fold s2 in Hi2, Hr2, Hp2, HQ2.
  destruct (mark_stale_offline now s1).1 as [k|e|]; [|destruct HQ2; tauto|done].
  destruct HQ2 as [_ (ids & Hids & Hsw)]. specialize (Hsw (rr_node_id req)). rewrite Hl1, Hp1 in Hsw.
  assert (Hexp : expired (sv_policy s) now n1 = true)
    by (unfold expired, is_live; rewrite Hs1; exact Hstale).
  destruct Hsw as [(t & _ & _ & Hl2)|[Hno _]]; [|rewrite Hno in Hexp by eauto; done].
  pose proof (heartbeat_spec hb s2 Hi2 Hhb) as (_ & _ & _ & HQ3). fold s3 in HQ3.
  destruct (heartbeat hb s2).1 as [u|e|]; [|destruct HQ3; tauto|done].
  rewrite Hid, Hl2 in HQ3. destruct HQ3 as (t3 & t4 & Hv3).
  exists n1. eexists. rewrite Hv3, lookup_insert_eq. split_and!; [done|done|done|done].
Qed.

(** A drain can be lost: when a heartbeat has read a starting node and
    a drain request for it completes before the heartbeat writes, both return
    successfully and the node ends up healthy or degraded, eligible again. *)
Theorem heartbeat_can_undo_drain (hb : Heartbeat) (s : S) (n : Node) :
  sinv s → sreliable s → Heartbeat_ok hb = true →
  sview s !! hb_node_id hb = Some n → n_state n = Starting →
  let s1 := (drain (hb_node_id hb) s).2 in
  let s2 := (heartbeat_after hb (Some n) s1).2 in
  (∃ n1, (drain (hb_node_id hb) s).1 = Ok (Some n1) ∧ n_state n1 = Draining) ∧
  (heartbeat_after hb (Some n) s1).1 = Ok tt ∧
  ∃ n2, sview s2 !! hb_node_id hb = Some n2 ∧ is_selectable n2 = true.
Proof.
  intros Hinv Hr Hhb Hn Hst s1 s2.
  pose proof (drain_spec (hb_node_id hb) s Hinv) as (Hi1 & Hr1 & Hp1 & HQ1). fold s1 in Hi1, Hr1, Hp1, HQ1.
  destruct (drain (hb_node_id hb) s).1 as [v|e|]; [|by destruct HQ1|done].
  destruct HQ1 as [Hv1 ->].
  assert (Hl1 : sview s1 !! hb_node_id hb = Some (with_state Draining (repo_stamp (sv_repo s)) n))
    by (rewrite Hv1; unfold spec_set_state; by rewrite lookup_alter_eq, Hn).
  split; [eexists; by rewrite Hl1|].
  pose proof (heartbeat_after_spec hb n _ s1 Hi1 Hhb Hl1) as (_ & _ & _ & HQ2). fold s2 in HQ2.
  destruct (heartbeat_after hb (Some n) s1).1 as [[]|e|]; [|destruct HQ2; tauto|done].
  split; [done|]. destruct HQ2 as (t' & Hv2). eexists. split; [by rewrite Hv2, lookup_insert_eq|].
  rewrite Hst. unfold reclassify_after_heartbeat, is_selectable.
  destruct (f64_ge _ _); done.
Qed.

(** (C19) Routing through the service: with the default weights and working
    storage, [select] answers with a registered, selectable node whose score no
    other registered selectable node exceeds, and with nothing only when no
    registered node is selectable. It changes nothing. *)
Theorem select_correct (s : S) :
  sinv s → sreliable s → sv_weights s = ScoreWeights_default →
  sview (select s).2 = sview s ∧
  match (select s).1 with
  | Ok (Some r) => sview s !! n_id r = Some r ∧ is_selectable r = true ∧
      ∀ id n, sview s !! id = Some n → is_selectable n = true → f64_ge (dscore r) (dscore n) = true
  | Ok None => ∀ id n, sview s !! id = Some n → is_selectable n = false
  | _ => False
  end.
Proof. apply select_serves. Qed.

(** (C20) Selection with a reservation: with the default weights, working
    storage and consistent allocators it answers; the selected node is
    registered and selectable, its slice [max 1 (limit / slots)] fitted under
    its ceiling and is now committed (nothing else is), and every registered
    selectable node that scores higher had no room. It answers with nothing
    only when no registered selectable node has room. *)
Theorem select_with_bandwidth_correct (spurious : string → list bool) (s : S) :
  sinv s → sreliable s → alloc_inv s → sv_weights s = ScoreWeights_default →
  let s' := (select_with_bandwidth spurious s).2 in
  alloc_inv s' ∧ sview s' = sview s ∧
  match (select_with_bandwidth spurious s).1 with
  | Ok (Some sel) =>
      let n := sel_node sel in
      sview s !! n_id n = Some n ∧ is_selectable n = true ∧
      bg_rate (sel_guard sel) = share_of n ∧ committed s (n_id n) + share_of n <= ceiling s n ∧
      (∀ id, committed s' id = committed s id + if decide (id = n_id n) then share_of n else 0) ∧
      (∀ id m, sview s !! id = Some m → is_selectable m = true →
         f64_lt (dscore n) (dscore m) = true → has_room s m = false)
  | Ok None => ∀ id m, sview s !! id = Some m → is_selectable m = true → has_room s m = false
  | _ => False
  end.
Proof.
  intros Hinv Hr Ha Hw s'. pose proof (select_bandwidth_view spurious s Hinv) as [_ Hview].
  destruct (select_with_bandwidth_run spurious s Hinv Hr Ha) as (l & r & r1 & s1 & Hl & Hrun & Hres).
  unfold s'. rewrite Hrun in *. cbn [fst snd] in *. clear s'. destruct Hres as (Hai & _ & HQ).
  split_and!; [done|done|]. rewrite Hw in HQ. set (el := filter (λ n, is_selectable n = true) l) in *.
  assert (Hel : ∀ id m, sview s !! id = Some m → is_selectable m = true →
            m ∈ sort_by (by_score ScoreWeights_default) el).
  { intros id m Hm Hs. rewrite sort_by_perm. apply list_elem_of_filter. split; [done|].
    destruct (view_typed _ _ _ Hinv Hm) as [<- _]. by apply Hl. }
  assert (Hcand : ∀ m, m ∈ sort_by (by_score ScoreWeights_default) el →
            sview s !! n_id m = Some m ∧ candidate m).
  { intros m Hm. rewrite sort_by_perm in Hm. apply list_elem_of_filter in Hm as [Hs Hm%Hl]. split; [done|].
    split; [|done]. by destruct (view_typed _ _ _ Hinv Hm). }
  destruct r as [sel|].
  - destruct HQ as (l1 & l2 & Heq & Hfull & Hroom & Hrate & _ & Hcom).
    assert (Hsort : StronglySorted (λ a b, fz (dscore b) <= fz (dscore a)) (l1 ++ sel_node sel :: l2)).
    { rewrite <- Heq. apply (sort_by_sorted (λ n, fz (dscore n)) _ candidate).
      - intros a b Hca Hcb. unfold by_score. by rewrite f64_cmp_value by auto with wf.
      - apply Forall_forall. intros m Hm. apply Hcand. by rewrite sort_by_perm. }
    destruct (Hcand (sel_node sel)) as [Hreg [Hok Hsel]]; [rewrite Heq; set_solver|].
    split_and!; [done|done|done|by apply Z.leb_le|done|]. intros id m Hm Hs Hlt.
    pose proof (Hel id m Hm Hs) as Hin. destruct (Hcand m Hin) as [_ Hcm]. rewrite Heq in Hin.
    rewrite Forall_forall in Hfull. apply elem_of_app in Hin as [Hin|Hin]; [by apply Hfull|].
    exfalso. apply StronglySorted_app_1_r in Hsort. apply StronglySorted_inv in Hsort as [_ Hall].
    rewrite Forall_forall in Hall.
    assert (Hle : fz (dscore m) <= fz (dscore (sel_node sel)))
      by (apply elem_of_cons in Hin as [->|Hin]; [done|by apply Hall]).
    pose proof (ge_of_fz _ _ (candidate_nonneg _ (conj Hok Hsel)) (candidate_nonneg _ Hcm) Hle) as Hge.
    unfold f64_ge, f64_lt in *. destruct (SFcompare _ _) as [[]|]; done.
  - destruct HQ as [Hall _]. rewrite Forall_forall in Hall. intros id m Hm Hs. by eapply Hall, Hel.
Qed.
End properties.

(** ** Witnesses *)
Abbreviation starting_service := (sample_service (sample_row "starting" None 0 100)).
Abbreviation stale_service := (sample_service (sample_row "offline" (Some 10) 0 100)).
Abbreviation healthy_service := (sample_service (sample_row "healthy" (Some 90) 1 100)).
Abbreviation draining_service := (sample_service (sample_row "draining" (Some 90) 1 100)).

Definition sample_request : RegisterRequest :=
  {| rr_node_id := "n1"; rr_address := "127.0.0.1:9002"; rr_max_connections := 50;
     rr_bandwidth_limit := 500 |}.

Ltac sample := first
  [ eapply sample_inv; [reflexivity|cbn; unfold epoch_ok; lia|unfold U32_MOD; lia]
  | apply sample_reliable | reflexivity ].

Lemma heartbeat_correct_witness :
  (heartbeat (sample_heartbeat 95) starting_service).1 = Ok tt ∧
  ∃ n', @sview _ _ reference_laws (heartbeat (sample_heartbeat 95) starting_service).2 !! "n1" = Some n' ∧
        n_state n' = Degraded.
Proof.
  pose proof (@heartbeat_correct Sqlite _ reference_laws (sample_heartbeat 95) starting_service
    ltac:(sample) ltac:(sample) eq_refl) as H.
  split; [apply H|]. destruct H as (_ & t & t' & ->). eexists. split; [reflexivity|].
  vm_compute. reflexivity.
Defined.

Lemma register_correct_witness :
  ∃ n, (register sample_request stale_service).1 = Ok n.
Proof.
  destruct (@register_correct Sqlite _ reference_laws sample_request stale_service
    ltac:(sample) ltac:(sample) eq_refl) as (t & H & _).
  eexists. exact H.
Defined.

Lemma sweep_correct_witness :
  ∃ l, lists (@sview _ _ reference_laws healthy_service) l ∧
    (@mark_stale_offline _ _ chrono_reference (120 * NANOS) healthy_service).1
    = Ok (@count_expired chrono_reference HealthPolicy_default (120 * NANOS) l).
Proof.
  destruct (@sweep_correct Sqlite _ reference_laws chrono_reference (120 * NANOS) healthy_service
    ltac:(sample) ltac:(sample)) as (l & Hl & H & _).
  exists l. split; [exact Hl|exact H].
Defined.

Lemma lifecycle_respected_witness :
  @evolves (@sview _ _ reference_laws starting_service)
    (@sview _ _ reference_laws
       (@sv_step _ _ chrono_reference (SvHeartbeat (sample_heartbeat 5)) starting_service)).
Proof.
  apply (@lifecycle_respected Sqlite _ reference_laws chrono_reference
    (SvHeartbeat (sample_heartbeat 5)) starting_service); sample.
Defined.

Lemma draining_is_final_witness :
  ∃ n', @sview _ _ reference_laws
          (@sv_run _ _ chrono_reference
             [SvRegister sample_request; SvHeartbeat (sample_heartbeat 0); SvSweep (120 * NANOS)]
             draining_service) !! "n1" = Some n' ∧
        n_state n' = Draining ∧ is_selectable n' = false.
Proof.
  eapply (@draining_is_final Sqlite _ reference_laws chrono_reference).
  - sample.
  - repeat constructor.
  - reflexivity.
  - reflexivity.
Defined.

Lemma reregistered_node_stays_offline_witness :
  let s1 := (register sample_request stale_service).2 in
  let s2 := (@mark_stale_offline _ _ chrono_reference (120 * NANOS) s1).2 in
  let s3 := (heartbeat (sample_heartbeat 0) s2).2 in
  ∃ n1 n3, @sview _ _ reference_laws s1 !! "n1" = Some n1 ∧ n_state n1 = Starting ∧
           @sview _ _ reference_laws s3 !! "n1" = Some n3 ∧ n_state n3 = Offline.
Proof.
  eapply (@reregistered_node_stays_offline Sqlite _ reference_laws chrono_reference
    sample_request (sample_heartbeat 0) (120 * NANOS) stale_service);
    [sample|sample|reflexivity|reflexivity|reflexivity|reflexivity|reflexivity|vm_compute; reflexivity].
Defined.

Lemma heartbeat_can_undo_drain_witness :
  ∃ n n2, @sview _ _ reference_laws starting_service !! "n1" = Some n ∧
    @sview _ _ reference_laws
      (heartbeat_after (sample_heartbeat 0) (Some n) (drain "n1" starting_service).2).2 !! "n1" = Some n2 ∧
    is_selectable n2 = true.
Proof.
  eexists. destruct (@heartbeat_can_undo_drain Sqlite _ reference_laws (sample_heartbeat 0)
    starting_service (node_of "n1" (sample_row "starting" None 0 100))
    ltac:(sample) ltac:(sample) eq_refl eq_refl eq_refl) as (_ & _ & n2 & H).
  exists n2. split; [reflexivity|exact H].
Defined.

Lemma select_correct_witness :
  match (select healthy_service).1 with
  | Ok (Some r) => @sview _ _ reference_laws healthy_service !! n_id r = Some r ∧ is_selectable r = true
  | _ => False
  end.
Proof.
  pose proof (@select_correct Sqlite _ reference_laws healthy_service
    ltac:(sample) ltac:(sample) eq_refl) as [_ H].
  destruct (select healthy_service).1 as [[r|]|e|] eqn:E; [|exfalso|exfalso; exact H|exfalso; exact H].
  - destruct H as (H1 & H2 & _). split; [exact H1|exact H2].
  - specialize (H "n1" (node_of "n1" (sample_row "healthy" (Some 90) 1 100)) eq_refl). discriminate H.
Defined.

Lemma select_with_bandwidth_correct_witness :
  match (select_with_bandwidth (λ _, [true]) healthy_service).1 with
  | Ok (Some sel) => bg_rate (sel_guard sel) = share_of (sel_node sel)
  | Ok None => False
  | _ => False
  end.
Proof.
  pose proof (@select_with_bandwidth_correct Sqlite _ reference_laws (λ _, [true]) healthy_service
    ltac:(sample) ltac:(sample) ltac:(split; intros; cbn in *; simplify_map_eq) eq_refl) as (_ & _ & H).
  destruct (select_with_bandwidth _ healthy_service).1 as [[sel|]|e|];
    [apply H| |exact H|exact H].
  specialize (H "n1" (node_of "n1" (sample_row "healthy" (Some 90) 1 100)) eq_refl eq_refl).
  discriminate H.
Defined.
