(* ===== verification/Session.v ===== *)
(** * SOCKS5 sessions over TCP streams

    The parts that [crates/gateway/src/handler.rs] and
    [crates/node/src/handler.rs] share, word for word up to their error type:
    reads and writes with a deadline, the greeting, the username/password
    sub-negotiation and the request. The error type is a parameter, an
    instance of [SessionError].

    A stream is what its peer sends ([s_in], and whether the peer then closes
    or stays silent), what was written to it, and the fate of the writes to
    come. A read that needs more than the peer sends ends with an I/O error if
    the peer closes and with a timeout if it does not. *)

From stdpp Require Import base tactics decidable numbers list strings.
From Stdlib Require Import ZArith Lia Strings.Byte.
From S2P Require Import Prelude RustStd Constants Reader Host Request Handshake Auth Reply.

(** ** Streams *)
Inductive IoError : Type := UnexpectedEof | ConnectionRefused | OtherIo.

(** A write that fails after [sent] bytes. *)
Inductive write_fault : Type := WIo (sent : nat) | WTimeout (sent : nat).

Record stream : Type := mkStream {
  s_in : list u8;
  s_eof : bool;
  s_out : list u8;
  s_faults : list (option write_fault)
}.

Definition with_in (s : stream) (l : list u8) : stream :=
  {| s_in := l; s_eof := s_eof s; s_out := s_out s; s_faults := s_faults s |}.

(** How [timeout(deadline, TcpStream::connect(addr))] ends. *)
Inductive dial_result : Type := Dialed (s : stream) | DialFailed (e : IoError) | DialTimedOut.

(** How [timeout(idle, copy_bidirectional(a, b))] ends. *)
Inductive copy_result : Type := Copied (up down : Z) | CopyFailed (detail : string) | CopyTimedOut.

(** A message carried by an error: a text of the source, with the value it
    formats. *)
Inductive message : Type :=
| Text (t : string)
| WithByte (t : string) (b : u8)
| WithText (t : string) (detail : string)
| OfProtocol (e : ProtocolError).

Class SessionError (E : Type) : Type := {
  e_protocol : message → E;
  e_timeout : message → E;
  e_io : IoError → E
}.

Section session.
Context {E : Type} `{SessionError E}.

Abbreviation IO := (SM E stream).

(** [timeout(deadline, stream.read_exact(buf))] with a buffer of [n] bytes. *)
Definition read_exact_timeout (n : nat) : IO (list u8) := λ s,
  if (n <=? length (s_in s))%nat then (Ok (take n (s_in s)), with_in s (drop n (s_in s)))
  else
    (Err (if s_eof s then e_io UnexpectedEof else e_timeout (Text "handshake read timed out")),
     with_in s []).

(** [timeout(deadline, stream.write_all(data))]. *)
Definition write_all_timeout (data : list u8) : IO unit := λ s,
  let written k :=
    {| s_in := s_in s; s_eof := s_eof s; s_out := s_out s ++ take k data;
       s_faults := tail (s_faults s) |} in
  match head (s_faults s) with
  | Some (Some (WIo k)) => (Err (e_io OtherIo), written k)
  | Some (Some (WTimeout k)) => (Err (e_timeout (Text "handshake write timed out")), written k)
  | _ => (Ok tt, written (length data))
  end.

Definition reply_bytes (code : u8) : outcome E (list u8) := Reply_to_bytes (simple_reply code).

(** [try_reply]: the result of the write is dropped. *)
Definition try_reply (code : u8) : IO unit := λ s,
  match reply_bytes code with
  | Ok bytes => (Ok tt, (write_all_timeout bytes s).2)
  | Err e => (Err e, s)
  | Panic => (Panic, s)
  end.

(** Indexing an array that was just filled. *)
Definition byte_at (l : list u8) (i : nat) : IO u8 := m_lift (slice_index l i).

Definition read_greeting : IO Greeting :=
  let! hdr := read_exact_timeout GREETING_HEADER_LEN in
  let! n := byte_at hdr 1 in
  let nmethods := u8_nat n in
  if (nmethods =? 0)%nat then m_err (e_protocol (Text "greeting: no methods")) else
  let! methods := read_exact_timeout nmethods in
  let buf := hdr ++ methods in
  m_lift (map_err (λ e, e_protocol (OfProtocol e)) (Greeting_parse buf)).

Definition credentials_match (auth : option (string * string)) (username password : string) :
  bool :=
  match auth with
  | Some (expected_user, expected_pass) =>
      String.eqb username expected_user && String.eqb password expected_pass
  | None => false
  end.

Definition handle_user_pass_auth (auth : option (string * string)) : IO unit :=
  let! ver := read_exact_timeout 1 in
  let! ver := byte_at ver 0 in
  if negb (u8_eqb ver AUTH_VERSION) then m_err (e_protocol (WithByte "auth frame version" ver)) else
  let! ulen := read_exact_timeout 1 in
  let! ulen := byte_at ulen 0 in
  let ulen := u8_nat ulen in
  if (ulen =? 0)%nat || (255 <? ulen)%nat
  then m_err (e_protocol (Text "invalid username length")) else
  let! uname := read_exact_timeout ulen in
  let! plen := read_exact_timeout 1 in
  let! plen := byte_at plen 0 in
  let plen := u8_nat plen in
  let! passwd := read_exact_timeout plen in
  let! username := m_lift (ok_or (from_utf8 uname) (e_protocol (Text "invalid utf-8 in username"))) in
  let! password := m_lift (ok_or (from_utf8 passwd) (e_protocol (Text "invalid utf-8 in password"))) in
  let ok := credentials_match auth username password in
  let status := if ok then AUTH_STATUS_SUCCESS else AUTH_STATUS_FAILURE in
  let! _ := write_all_timeout (auth_reply_bytes status) in
  if negb ok then m_err (e_protocol (Text "authentication failed")) else m_ret tt.

Definition read_request : IO Request :=
  let! hdr := read_exact_timeout REQUEST_HEADER_LEN in
  let! atyp := byte_at hdr 3 in
  let lift_len c := m_lift (map_err (λ e, e_protocol (OfProtocol e)) c) in
  let! lens :=
    if u8_eqb atyp ATYP_DOMAIN then
      let! len_byte := read_exact_timeout 1 in
      let! len := byte_at len_byte 0 in
      let! total := lift_len (addr_len atyp (Some len)) in
      m_ret ((total - 1)%nat, Some len)
    else
      let! total := lift_len (addr_len atyp None) in
      m_ret (total, None) in
  let addr_buf_len := lens.1 in
  let domain_len := lens.2 in
  let! addr_buf := read_exact_timeout addr_buf_len in
  let full := hdr ++ (match domain_len with Some len => [len] | None => [] end) ++ addr_buf in
  m_lift (omap_ok fst (map_err (λ e, e_protocol (OfProtocol e)) (Request_parse full))).
(** Steps 1 to 3 of [run_with_ctx], the same in both handlers: greeting,
    authentication, and the request, which must be a [CONNECT]. *)
Definition accept_connect (auth : option (string * string)) : IO Request :=
  let! greeting := read_greeting in
  let allow_no_auth := match auth with None => true | Some _ => false end in
  let allow_user_pass := match auth with None => false | Some _ => true end in
  let m := negotiate greeting allow_user_pass allow_no_auth in
  let! _ := write_all_timeout (MethodSelection_to_bytes m) in
  if u8_eqb (method m) METHOD_NO_ACCEPTABLE
  then m_err (e_protocol (Text "no acceptable authentication method")) else
  let! _ := if u8_eqb (method m) METHOD_USER_PASS
            then handle_user_pass_auth auth else m_ret tt in
  let! request := read_request in
  if negb (bool_decide (command request = Connect)) then
    let! _ := try_reply REPLY_COMMAND_NOT_SUPPORTED in
    m_err (e_protocol (Text "unsupported command (only CONNECT is supported)"))
  else m_ret request.
End session.

(** ** Reads and writes *)
Section lemmas.
Context {E : Type} `{SessionError E}.

Abbreviation IO := (SM E stream).

Lemma read_exact_ok n l rest s :
  s_in s = l ++ rest → length l = n → read_exact_timeout (E := E) n s = (Ok l, with_in s rest).
Proof.
  intros Hin <-. unfold read_exact_timeout. rewrite Hin.
  rewrite (proj2 (Nat.leb_le _ _)) by (rewrite length_app; lia).
  by rewrite take_app_exact, drop_app_exact.
Qed.

Lemma read_exact_inv n s l s' :
  read_exact_timeout (E := E) n s = (Ok l, s') →
  length l = n ∧ s_in s = l ++ s_in s' ∧ s' = with_in s (s_in s').
Proof.
  unfold read_exact_timeout. destruct (Nat.leb_spec n (length (s_in s))); [|by destruct (s_eof s)].
  intros [= <- <-]. cbn. rewrite length_take, take_drop. split_and!; [lia|done|done].
Qed.

(** Too few bytes. *)
Lemma read_exact_short n s :
  (length (s_in s) < n)%nat →
  read_exact_timeout n s =
  (Err (if s_eof s then e_io UnexpectedEof else e_timeout (Text "handshake read timed out")),
   with_in s []).
Proof. intros Hlt. unfold read_exact_timeout. by rewrite (proj2 (Nat.leb_gt _ _)). Qed.

Lemma byte_at_ok l i b (s : stream) : l !! i = Some b → byte_at (E := E) l i s = (Ok b, s).
Proof. intros Hl. unfold byte_at, m_lift, slice_index. by rewrite Hl. Qed.

Lemma byte_at_inv l i b (s s' : stream) : byte_at (E := E) l i s = (Ok b, s') → l !! i = Some b ∧ s' = s.
Proof. unfold byte_at, m_lift, slice_index. destruct (l !! i); [by intros [= -> ->]|done]. Qed.

(** A write that is not going to fail. *)
Definition can_write (s : stream) : Prop := Forall (λ f, f = None) (s_faults s).

Definition wrote (s : stream) (data : list u8) : stream :=
  {| s_in := s_in s; s_eof := s_eof s; s_out := s_out s ++ data; s_faults := tail (s_faults s) |}.

Lemma write_all_ok data s :
  can_write s → write_all_timeout (E := E) data s = (Ok tt, wrote s data) ∧ can_write (wrote s data).
Proof.
  unfold can_write, write_all_timeout, wrote. intros Hf. split.
  - rewrite firstn_all. destruct (s_faults s) as [|f fs]; [done|]. by inversion Hf; subst.
  - cbn. destruct (s_faults s); [done|]. by inversion Hf.
Qed.

Lemma write_all_inv data s u s' : write_all_timeout (E := E) data s = (Ok u, s') → s' = wrote s data.
Proof.
  unfold write_all_timeout, wrote.
  destruct (head (s_faults s)) as [[[]|]|]; try done; by intros [= <- <-]; rewrite firstn_all.
Qed.

Lemma reply_bytes_ok code : reply_bytes (E := E) code = Ok (reply_wire Byte.x00 (simple_reply code)).
Proof. unfold reply_bytes. by apply Reply_to_bytes_ok. Qed.

End lemmas.

(** One step of a session whose input is known: read the bytes [l]; index an
    array; write, when [H : can_write s] says that writes succeed. *)
Ltac read_step l :=
  erewrite m_bind_run by
    (apply (read_exact_ok _ l); [cbn [app]; first [eassumption | reflexivity]|first [done | reflexivity]]).
Ltac byte_step := erewrite m_bind_run by (apply byte_at_ok; reflexivity).
Ltac write_step H :=
  match goal with
  | |- context [m_bind (write_all_timeout ?d) _ ?s] =>
      let W := fresh "Hwr" in let C := fresh "Hcw" in
      destruct (write_all_ok d s H) as [W C]; rewrite (m_bind_run _ _ _ _ _ W); clear W
  end.

Section frames.
Context {E : Type} `{SessionError E}.

Abbreviation IO := (SM E stream).

(** ** The greeting *)
Lemma read_greeting_ok g rest s :
  Greeting_ok g = true → s_in s = greeting_wire g ++ rest →
  read_greeting (E := E) s = (Ok g, with_in s rest).
Proof.
  intros Hok Hin. pose proof (proj1 (Greeting_ok_len g) Hok) as Hlen. unfold read_greeting.
  set (n := as_u8 (Z.of_nat (length (methods g)))).
  erewrite m_bind_run by (apply (read_exact_ok _ [VERSION; n]); [exact Hin|done]).
  erewrite m_bind_run by by apply byte_at_ok. cbv zeta.
  assert (Hn : u8_nat n = length (methods g)) by (apply as_u8_of_nat; lia). rewrite Hn.
  rewrite (proj2 (Nat.eqb_neq _ _)) by lia.
  erewrite m_bind_run by (by apply (read_exact_ok _ (methods g) rest)).
  change ([VERSION; n] ++ methods g) with (greeting_wire g).
  rewrite <- (app_nil_r (greeting_wire g)), Greeting_parse_of_wire by done. done.
Qed.

Lemma read_greeting_inv s g s' :
  read_greeting (E := E) s = (Ok g, s') →
  Greeting_ok g = true ∧ s_in s = greeting_wire g ++ s_in s' ∧ s' = with_in s (s_in s').
Proof.
  unfold read_greeting. intros Hr. inv_run.
  apply read_exact_inv in R as (Hl1 & Hi1 & Hs1). apply byte_at_inv in R0 as [Hb ->].
  destruct (Nat.eqb_spec (u8_nat v0) 0); [done|]. inv_run.
  apply read_exact_inv in R as (Hl2 & Hi2 & Hs2). apply map_err_ok in Hr.
  apply Greeting_parse_ok_inv in Hr as [Hok (rest & Hg)].
  destruct v as [|x [|y [|]]]; try done. injection Hb as ->.
  injection Hg as -> Hn Hm. apply (f_equal u8_nat) in Hn.
  pose proof (proj1 (Greeting_ok_len g) Hok) as Hlen. rewrite as_u8_of_nat in Hn by lia.
  assert (rest = []) as ->.
  { apply (f_equal length) in Hm. rewrite length_app in Hm. destruct rest; [done|]. cbn in Hm. lia. }
  rewrite app_nil_r in Hm. subst v1. split_and!; [done| |].
  - rewrite Hi1, Hi2. unfold greeting_wire. rewrite <- Hn. 
    replace (as_u8 (Z.of_nat (u8_nat v0))) with v0 by (by rewrite u8_nat_val, as_u8_of_val). done.
  - rewrite Hs2, Hs1. done.
Qed.

(** ** Username and password *)
Lemma auth_ok auth c rest s :
  Credentials_ok c = true → s_in s = UsernamePassword_to_vec c ++ rest → can_write s →
  credentials_match auth (username c) (password c) = true →
  handle_user_pass_auth (E := E) auth s =
  (Ok tt, wrote (with_in s rest) (auth_reply_bytes AUTH_STATUS_SUCCESS)).
Proof.
  intros (Hu & Hp & Hul & Hpl)%Credentials_ok_iff Hin Hw Hm. destruct c as [u p].
  unfold UsernamePassword_to_vec in Hin. cbn [username password] in *.
  rewrite <- !app_assoc in Hin. cbn [app] in Hin. unfold handle_user_pass_auth.
  read_step [AUTH_VERSION]. byte_step. autorewrite with rust. cbn [negb].
  read_step [as_u8 (Z.of_nat (str_len u))]. byte_step. cbv zeta. rewrite as_u8_of_nat by lia.
  rewrite (proj2 (Nat.eqb_neq _ _)), (proj2 (Nat.ltb_ge _ _)) by lia. cbn [orb].
  read_step (as_bytes u).
  read_step [as_u8 (Z.of_nat (str_len p))]. byte_step. cbv zeta. rewrite as_u8_of_nat by lia.
  read_step (as_bytes p).
  rewrite !from_utf8_as_bytes by done. cbn [ok_or].
  erewrite m_bind_run by done. erewrite m_bind_run by done. rewrite Hm. cbn [negb].
  destruct (write_all_ok (auth_reply_bytes AUTH_STATUS_SUCCESS) (with_in s rest) Hw) as [Hwr _].
  erewrite m_bind_run by exact Hwr. done.
Qed.

Lemma single_byte (l : list u8) b : length l = 1%nat → l !! 0%nat = Some b → l = [b].
Proof. destruct l as [|x [|]]; try done. by intros _ [= ->]. Qed.

Lemma auth_inv auth s u s' :
  handle_user_pass_auth (E := E) auth s = (Ok u, s') →
  ∃ c, Credentials_ok c = true ∧ s_in s = UsernamePassword_to_vec c ++ s_in s' ∧
    credentials_match auth (username c) (password c) = true ∧
    s' = wrote (with_in s (s_in s')) (auth_reply_bytes AUTH_STATUS_SUCCESS).
Proof.
  unfold handle_user_pass_auth. intros Hr. inv_run.
  apply read_exact_inv in R as (L1 & I1 & S1). apply byte_at_inv in R0 as [B1 ->].
  destruct (u8_eqb v0 AUTH_VERSION) eqn:EV; [|done]. apply u8_eqb_eq in EV as ->. cbn [negb] in Hr. inv_run.
  apply read_exact_inv in R as (L2 & I2 & S2). apply byte_at_inv in R0 as [B2 ->]. cbv zeta in Hr.
  destruct (Nat.eqb_spec (u8_nat v1) 0); [done|]. destruct (Nat.ltb_spec 255 (u8_nat v1)); [done|].
  cbn [orb] in Hr. inv_run.
  apply read_exact_inv in R as (L3 & I3 & S3). apply read_exact_inv in R0 as (L4 & I4 & S4).
  apply byte_at_inv in R1 as [B4 ->]. apply read_exact_inv in R2 as (L5 & I5 & S5).
  destruct (from_utf8 v2) as [un|] eqn:Eu; [|done]. destruct (from_utf8 v5) as [pw|] eqn:Ep; [|done].
  cbn [ok_or] in R3, R4. simplify_eq. apply write_all_inv in R5 as ->.
  destruct (credentials_match auth v6 v7) eqn:Em; [|done]. cbn [negb] in Hr. inv_run.
  apply from_utf8_inv in Eu as [-> Hu], Ep as [-> Hp].
  exists {| username := v6; password := v7 |}. cbn [username password].
  apply single_byte in B1, B2, B4; [|done..]. subst v v0 v3.
  pose proof (u8_nat_range v1). pose proof (u8_nat_range v4).
  split_and!; [|..|done|].
  - apply Credentials_ok_iff. unfold str_len. cbn [username password]. split_and!; done || lia.
  - unfold UsernamePassword_to_vec, str_len. cbn [username password].
    rewrite L3, L5, !u8_nat_val, !as_u8_of_val, I1, I2, I3, I4, I5, <- !app_assoc. done.
  - rewrite S5, S4, S3, S2, S1. done.
Qed.

(** ** The request *)

(** The address after the header: for a domain its length byte comes first. *)
Lemma addr_wire_split r :
  Request_ok r = true →
  match addr_wire (addr r) with
  | [] => False
  | b :: tl =>
      if u8_eqb (SocksAddr_atyp (addr r)) ATYP_DOMAIN
      then addr_len (SocksAddr_atyp (addr r)) (Some b) = Ok (1 + length tl)%nat
      else addr_len (SocksAddr_atyp (addr r)) None = Ok (1 + length tl)%nat
  end.
Proof.
  intros (Hok & He & Hn)%Request_ok_inv. pose proof (addr_wire_length (addr r) Hok) as Hlen.
  destruct r as [cmd [[[ip|[oct]]|name] p]]; cbn [addr host] in *.
  - unfold addr_wire in *. cbn in *. done.
  - unfold addr_wire in *. cbn [host host_wire port v6_octets SocksAddr_wire_len] in *.
    cbn in Hlen. destruct oct; [cbn in Hlen; lia|]. cbn in Hlen |- *.
    rewrite Hlen. reflexivity.
  - cbn [Host_encodable Host_nonempty] in *. apply Nat.ltb_lt in He, Hn.
    unfold addr_wire in *. cbn [host host_wire port app] in *.
    change (SocksAddr_atyp _) with ATYP_DOMAIN. rewrite u8_eqb_refl, addr_len_domain by lia.
    cbn in Hlen. f_equal. lia.
Qed.

Lemma addr_len_positive a d n : addr_len a d = Ok n → (3 <= n)%nat.
Proof.
  unfold addr_len. intros Ha. split_tests; try done; injection Ha as <-; lia.
Qed.

Lemma addr_len_not_domain a d : u8_eqb a ATYP_DOMAIN = false → addr_len a d = addr_len a None.
Proof. intros Ha. unfold addr_len. by rewrite Ha. Qed.

Lemma read_request_ok rsv r rest s :
  Request_ok r = true → s_in s = request_wire rsv r ++ rest →
  read_request (E := E) s = (Ok r, with_in s rest).
Proof.
  intros Hok Hin. pose proof (addr_wire_split r Hok) as Hsplit.
  pose proof (Request_parse_of_wire rsv r [] Hok) as Hparse. rewrite app_nil_r in Hparse.
  unfold request_wire in Hin, Hparse. rewrite <- app_assoc in Hin. cbn [app] in Hin.
  unfold read_request. read_step [VERSION; Command_to_u8 (command r); rsv; SocksAddr_atyp (addr r)].
  byte_step. destruct (addr_wire (addr r)) as [|b tl] eqn:Ha; [done|]. cbv zeta.
  destruct (u8_eqb (SocksAddr_atyp (addr r)) ATYP_DOMAIN) eqn:Ed.
  - erewrite m_bind_run.
    2:{ read_step [b]. byte_step. rewrite Hsplit. cbn [map_err]. erewrite m_bind_run by done. done. }
    cbn [fst snd]. replace (1 + length tl - 1)%nat with (length tl) by lia.
    read_step tl. cbn [app] in *. rewrite Hparse. done.
  - erewrite m_bind_run.
    2:{ rewrite Hsplit. cbn [map_err]. erewrite m_bind_run by done. done. }
    cbn [fst snd]. read_step (b :: tl). cbn [app] in *. rewrite Hparse. done.
Qed.

Lemma read_request_inv s r s' :
  read_request (E := E) s = (Ok r, s') →
  ∃ rsv, Request_ok r = true ∧ s_in s = request_wire rsv r ++ s_in s' ∧ s' = with_in s (s_in s').
Proof.
  unfold read_request. intros Hr. inv_run.
  apply read_exact_inv in R as (L1 & I1 & S1). apply byte_at_inv in R0 as [B1 ->]. cbv zeta in Hr.
  apply read_exact_inv in R2 as (L2 & I2 & S2).
  destruct v as [|b0 [|b1 [|b2 [|b3 [|]]]]]; try done. injection B1 as ->.
  set (pre := match v1.2 with Some len => [len] | None => [] end) in *.
  assert (Hpre : ∃ total, addr_len v0 v1.2 = Ok total ∧ total = (length pre + v1.1)%nat ∧
            s_in s0 = pre ++ s_in s2 ∧ s2 = with_in s0 (s_in s2) ∧
            (v1.2 = None → u8_eqb v0 ATYP_DOMAIN = false)).
  { destruct (u8_eqb v0 ATYP_DOMAIN) eqn:Ed; inv_run.
    - apply read_exact_inv in R as (L3 & I3 & S3). apply byte_at_inv in R0 as [B3 ->].
      apply single_byte in B3; [|done]. subst v. apply map_err_ok in R2. unfold pre. cbn [fst snd].
      exists v4. pose proof (addr_len_positive _ _ _ R2).
      split_and!; [done|cbn; lia|done|done|done].
    - apply map_err_ok in R. exists v. unfold pre. cbn [fst snd].
      split_and!; [done|done|done|by destruct s2|done]. }
  destruct Hpre as (total & Htot & Hlen & I3 & S3 & Hnd).
  destruct (Request_parse _) as [[r' n]|e|] eqn:Hp; try done. cbn in Hr. injection Hr as ->.
  pose proof (Request_parse_addr_len _ _ _ Hp) as Hal.
  apply Request_parse_ok_inv in Hp as (rsv & rest & Hfull & Hok & Hn). exists rsv.
  assert (Hatyp : v0 = SocksAddr_atyp (addr r)) by (by injection Hfull).
  assert (Htn : total = (n - request_header_len)%nat).
  { rewrite <- Hatyp in Hal. unfold pre in Hal. destruct v1.2 as [len|]; cbn in Hal; [congruence|].
    rewrite addr_len_not_domain in Hal by auto. congruence. }
  assert (rest = []) as ->.
  { assert (4 <= n)%nat by (rewrite Hn, request_wire_length by (by apply Request_ok_inv); lia).
    apply (f_equal length) in Hfull. rewrite !length_app, L2, <- Hn in Hfull. cbn in Hfull.
    unfold request_header_len, REQUEST_HEADER_LEN in Htn. destruct rest; [done|]. cbn in Hfull. lia. }
  rewrite app_nil_r in Hfull. split_and!; [done| |].
  - by rewrite <- Hfull, I1, I3, I2, <- !app_assoc.
  - by rewrite S2, S3, S1.
Qed.

(** ** What the client must have sent *)
Definition method_of (auth : option (string * string)) : u8 :=
  match auth with None => METHOD_NO_AUTH | Some _ => METHOD_USER_PASS end.

(** The credential frame, when credentials are configured. *)
Definition credentials_wire (auth : option (string * string)) : list u8 :=
  match auth with
  | None => []
  | Some (u, p) => UsernamePassword_to_vec {| username := u; password := p |}
  end.

(** What the gateway sends back before the final reply. *)
Definition preamble_replies (auth : option (string * string)) : list u8 :=
  [VERSION; method_of auth] ++
  match auth with None => [] | Some _ => auth_reply_bytes AUTH_STATUS_SUCCESS end.

Lemma negotiate_single g auth :
  negotiate g (match auth with None => false | Some _ => true end)
    (match auth with None => true | Some _ => false end) =
  if offered g (method_of auth) then {| method := method_of auth |} else no_acceptable_method.
Proof. by destruct auth as [[u p]|]. Qed.

Lemma method_of_acceptable auth : u8_eqb (method_of auth) METHOD_NO_ACCEPTABLE = false.
Proof. by destruct auth as [[u p]|]. Qed.

Lemma credentials_match_some u p u' p' :
  credentials_match (Some (u, p)) u' p' = true ↔ u' = u ∧ p' = p.
Proof. cbn. by rewrite andb_true_iff, !String.eqb_eq. Qed.

Lemma accept_connect_inv auth s r s' :
  accept_connect (E := E) auth s = (Ok r, s') →
  command r = Connect ∧ Request_ok r = true ∧
  (∃ g rsv, Greeting_ok g = true ∧ offered g (method_of auth) = true ∧
     s_in s = greeting_wire g ++ credentials_wire auth ++ request_wire rsv r ++ s_in s') ∧
  s_out s' = s_out s ++ preamble_replies auth ∧ s_eof s' = s_eof s.
Proof.
  unfold accept_connect. intros Hr. inv_run. apply read_greeting_inv in R as (Hg & I1 & S1).
  rewrite negotiate_single in Hr, R0. apply write_all_inv in R0 as ->.
  destruct (offered v (method_of auth)) eqn:Ho; [|done].
  cbn [method] in Hr. rewrite method_of_acceptable in Hr. inv_run.
  apply read_request_inv in R0 as (rsv & Hok & I3 & S3).
  destruct (bool_decide_reflect (command v2 = Connect)) as [Hc|]; cbn [negb] in Hr; [|inv_run; done].
  inv_run. split_and!; [done|done| |..].
  - exists v, rsv. split_and!; [done|done|]. rewrite I1. f_equal.
    destruct auth as [[u p]|] eqn:Ea; cbn in R.
    + apply auth_inv in R as (c & _ & I2 & Hm & S2). apply credentials_match_some in Hm as [<- <-].
      cbn in I2. rewrite I2. destruct c. cbn. by rewrite I3.
    + injection R as _ <-. cbn in I3. done.
  - rewrite S3. destruct auth as [[u p]|] eqn:Ea; cbn in R.
    + apply auth_inv in R as (c & _ & _ & _ & S2). rewrite S2, S1. cbn. by rewrite <- app_assoc.
    + injection R as _ <-. rewrite S1. done.
  - rewrite S3. destruct auth as [[u p]|] eqn:Ea; cbn in R.
    + apply auth_inv in R as (c & _ & _ & _ & S2). rewrite S2, S1. done.
    + injection R as _ <-. rewrite S1. done.
Qed.

Lemma accept_connect_ok auth g rsv r rest s :
  Greeting_ok g = true → offered g (method_of auth) = true →
  (∀ u p, auth = Some (u, p) → Credentials_ok {| username := u; password := p |} = true) →
  command r = Connect → Request_ok r = true → can_write s →
  s_in s = greeting_wire g ++ credentials_wire auth ++ request_wire rsv r ++ rest →
  ∃ s', accept_connect (E := E) auth s = (Ok r, s') ∧ s_in s' = rest ∧ s_eof s' = s_eof s ∧ can_write s' ∧
    s_out s' = s_out s ++ preamble_replies auth.
Proof.
  intros Hg Ho Hc Hcmd Hok Hw Hin. unfold accept_connect.
  erewrite m_bind_run by (by eapply read_greeting_ok). cbv zeta. rewrite negotiate_single, Ho.
  destruct (write_all_ok (MethodSelection_to_bytes {| method := method_of auth |})
    (with_in s (credentials_wire auth ++ request_wire rsv r ++ rest)) Hw) as [Hwr Hw1].
  erewrite m_bind_run by exact Hwr. cbn [method]. rewrite method_of_acceptable.
  set (s1 := wrote _ _) in *.
  assert (Hauth : ∃ s2, (if u8_eqb (method_of auth) METHOD_USER_PASS
                  then handle_user_pass_auth auth else m_ret tt) s1 = (Ok tt, s2) ∧
            s_in s2 = request_wire rsv r ++ rest ∧ s_eof s2 = s_eof s ∧ can_write s2 ∧
            s_out s2 = s_out s ++ preamble_replies auth).
  { destruct auth as [[u p]|] eqn:Ea; cbn [method_of].
    - eexists. change (u8_eqb METHOD_USER_PASS METHOD_USER_PASS) with true. cbv iota.
      split; [eapply auth_ok; [by apply Hc|done|done|by apply credentials_match_some]|].
      split_and!; [done|done| |cbn; by rewrite <- app_assoc].
      apply (write_all_ok). exact Hw1.
    - exists s1. done. }
  destruct Hauth as (s2 & Hrun & I2 & E2 & W2 & O2).
  erewrite m_bind_run by exact Hrun. erewrite m_bind_run by (by eapply read_request_ok).
  rewrite bool_decide_eq_true_2 by done. cbn [negb]. eexists. split; [done|]. cbn. done.
Qed.
End frames.

(** ** No input makes a session panic *)
Section safety.
Context {E : Type} `{SessionError E}.

Lemma read_exact_safe n : m_safe (read_exact_timeout (E := E) n).
Proof. intros s. unfold read_exact_timeout. by destruct (_ <=? _)%nat. Qed.

Lemma write_all_safe data : m_safe (write_all_timeout (E := E) data).
Proof. intros s. unfold write_all_timeout. by destruct (head (s_faults s)) as [[[]|]|]. Qed.

Lemma try_reply_safe code : m_safe (try_reply (E := E) code).
Proof. intros s. unfold try_reply. by rewrite reply_bytes_ok. Qed.

(** What is read has the length asked for, so indexing it succeeds. *)
Lemma read_bind_safe {A} n (k : list u8 → SM E stream A) :
  (∀ l, length l = n → m_safe (k l)) → m_safe (m_bind (read_exact_timeout n) k).
Proof.
  intros Hk s. unfold m_bind. destruct (read_exact_timeout n s) as [[l|e|] s'] eqn:Hr; [|done|].
  - apply read_exact_inv in Hr as [Hl _]. by apply Hk.
  - pose proof (read_exact_safe n s) as Hs. by rewrite Hr in Hs.
Qed.

Lemma byte_at_safe l i : (i < length l)%nat → m_safe (byte_at (E := E) l i).
Proof.
  intros Hi s. destruct (lookup_lt_is_Some_2 l i Hi) as [b Hb]. by rewrite (byte_at_ok _ _ b).
Qed.
End safety.
#[export] Hint Resolve read_exact_safe write_all_safe try_reply_safe : safe.

Ltac safe_step :=
  match goal with
  | |- m_safe (m_bind (read_exact_timeout _) _) => apply read_bind_safe; intros ? ?
  | |- m_safe (m_bind (byte_at _ _) _) => apply m_safe_bind; [apply byte_at_safe; lia|intros ?]
  | |- m_safe (m_bind _ _) => apply m_safe_bind; [|intros ?]
  | |- m_safe (if ?b then _ else _) => destruct b
  | |- m_safe (let _ := _ in _) => cbv zeta
  | |- _ => solve [eauto with safe]
  end.

Section safe_sessions.
Context {E : Type} `{SessionError E}.

Lemma read_greeting_safe : m_safe (read_greeting (E := E)).
Proof.
  unfold read_greeting, GREETING_HEADER_LEN. repeat safe_step.
  apply m_safe_lift, map_err_not_panic, no_panic_run, no_panic_Greeting_parse.
Qed.

Lemma handle_user_pass_auth_safe auth : m_safe (handle_user_pass_auth (E := E) auth).
Proof. unfold handle_user_pass_auth. repeat safe_step. Qed.

Lemma Request_parse_not_panic buf : Request_parse buf ≠ Panic.
Proof. apply no_panic_run, no_panic_Request_parse. Qed.

Lemma addr_len_not_panic a d : addr_len a d ≠ Panic.
Proof. unfold addr_len. destruct d; repeat (case_match; try done). Qed.

Lemma read_request_safe : m_safe (read_request (E := E)).
Proof.
  unfold read_request, REQUEST_HEADER_LEN. repeat safe_step;
    try (apply m_safe_lift, map_err_not_panic, addr_len_not_panic).
  apply m_safe_lift. pose proof (Request_parse_not_panic) as Hp. unfold omap_ok.
  match goal with |- context [Request_parse ?b] => specialize (Hp b); by destruct (Request_parse b) end.
Qed.

Lemma accept_connect_safe auth : m_safe (accept_connect (E := E) auth).
Proof.
  unfold accept_connect. pose proof read_greeting_safe. pose proof handle_user_pass_auth_safe.
  pose proof read_request_safe. repeat safe_step.
Qed.
End safe_sessions.
#[export] Hint Resolve accept_connect_safe : safe.

(** ** Properties *)

(** (C35) The session preamble (greeting, sub-negotiation, request) reads
    neither more nor less than its frames: on a stream that accepts writes, a
    CONNECT request [r] is accepted and [rest] left to be read exactly when the
    input is a greeting that offers the configured method, then the configured
    credentials if there are any, then a well-formed frame of [r] (with any
    reserved byte), then [rest]; and what was answered by then is the method
    selection and, with credentials, the success status. *)
Theorem session_preamble_exact {E : Type} `{SessionError E} (auth : option (string * string))
    (s : stream) (r : Request) (rest : list u8) :
  can_write s →
  (∀ u p, auth = Some (u, p) → Credentials_ok {| username := u; password := p |} = true) →
  (∃ s', accept_connect (E := E) auth s = (Ok r, s') ∧ s_in s' = rest ∧
         s_out s' = s_out s ++ preamble_replies auth) ↔
  command r = Connect ∧ Request_ok r = true ∧
  ∃ g rsv, Greeting_ok g = true ∧ offered g (method_of auth) = true ∧
    s_in s = greeting_wire g ++ credentials_wire auth ++ request_wire rsv r ++ rest.
Proof.
  intros Hw Hc. split.
  - intros (s' & Hrun & <- & _). apply accept_connect_inv in Hrun as (? & ? & ? & _). done.
  - intros (Hcmd & Hok & g & rsv & Hg & Ho & Hin).
    destruct (accept_connect_ok (E := E) auth g rsv r rest s) as (s' & ? & ? & _ & _ & ?); [done..|].
    by exists s'.
Qed.

(** Reading a request from a stream and parsing it from a buffer agree:
    [read_request], which reads the header, then the length of a domain, then the
    rest, returns [r] and consumes [n] bytes exactly when [Request::parse] on the
    whole input returns [r] and [n]. *)
Theorem read_request_parses {E : Type} `{SessionError E} (s : stream) (r : Request) (n : nat) :
  read_request (E := E) s = (Ok r, with_in s (drop n (s_in s))) ∧ (n <= length (s_in s))%nat ↔
  Request_parse (s_in s) = Ok (r, n).
Proof.
  split.
  - intros [Hr Hn]. apply read_request_inv in Hr as (rsv & Hok & Hin & _). cbn [s_in with_in] in Hin.
    pose proof (Request_parse_of_wire rsv r (drop n (s_in s)) Hok) as Hp. rewrite <- Hin in Hp.
    rewrite Hp. do 2 f_equal. apply (f_equal length) in Hin. rewrite length_app, length_drop in Hin. lia.
  - intros Hp. apply Request_parse_ok_inv in Hp as (rsv & rest & Hin & Hok & ->). rewrite Hin.
    rewrite drop_app_exact by done. split; [by apply (read_request_ok rsv)|]. rewrite length_app. lia.
Qed.

#[local] Instance message_error : SessionError (message + IoError) :=
  {| e_protocol := inl; e_timeout := inl; e_io := inr |}.

Lemma session_preamble_exact_witness :
  ∃ s', accept_connect None
          (mkStream ([VERSION; Byte.x01; METHOD_NO_AUTH] ++ request_wire Byte.x00 example_request ++ [Byte.x47])
             true [] []) = (Ok example_request, s') ∧
    s_in s' = [Byte.x47] ∧ s_out s' = [VERSION; METHOD_NO_AUTH].
Proof.
  apply (session_preamble_exact None (mkStream _ true [] []) example_request [Byte.x47]);
    [constructor|discriminate|]. split; [reflexivity|split; [reflexivity|]].
  exists {| methods := [METHOD_NO_AUTH] |}, Byte.x00. repeat split.
Defined.
