(* ===== verification/Gateway.v ===== *)
(** * The SOCKS5 gateway

    [crates/gateway/src]: the per-connection handler ([handler.rs]), the client
    of the control plane ([proxy_client.rs]), the relay ([relay.rs]), the
    connection counters ([metrics.rs]) and the context the server builds from
    its configuration ([gateway.rs]). What the network does is given by
    [GatewayEnv]: the answer of the control plane, the result of dialing a
    node, and what [copy_bidirectional] transfers. *)

From stdpp Require Import base tactics decidable numbers list strings.
From Stdlib Require Import ZArith Lia Strings.Byte Strings.Ascii.
From S2P Require Import Prelude RustStd Config Client Constants Reader Host Request Handshake Auth Reply Session.

Inductive GatewayError : Type :=
| GProtocol (m : message)
| GTimeout (m : message)
| GNoNode
| GIo (e : IoError)
| GRelay (m : message).

#[export] Instance GatewayError_session : SessionError GatewayError := {|
  e_protocol := GProtocol;
  e_timeout := GTimeout;
  e_io := GIo
|}.

(** ** The client of the control plane *)

Definition select_url (c : ControlPlaneClient) : string := base_url c +:+ "/nodes/select".

Record RemoteNode : Type := mkRemoteNode { rn_id : string; rn_forward_address : string }.

(** The answer to the HTTP request: an error, or a status with the decoded
    [SelectResponse] when the body is one. *)
Inductive http_result : Type :=
| HttpError (detail : string)
| HttpResponse (status : Z) (body : option (string * string)).

Definition select_node (resp : http_result) : outcome GatewayError RemoteNode :=
  match resp with
  | HttpError e => Err (GRelay (WithText "control plane unreachable" e))
  | HttpResponse status body =>
      if status =? 503 then Err GNoNode
      else if negb (is_success status)
      then Err (GRelay (Text "control plane select failed with status"))
      else
        match body with
        | None => Err (GRelay (Text "invalid select response"))
        | Some (id, address) => Ok {| rn_id := id; rn_forward_address := address |}
        end
  end.

(** ** Contexts, counters and the network *)
Record GatewayContext : Type := mkGatewayContext {
  ctx_client : ControlPlaneClient;
  ctx_auth : option (string * string);
  ctx_connect_timeout : Z;
  ctx_idle_timeout : Z
}.

(** The context of [Gateway::new]. *)
Definition gateway_context (config : GatewayConfig) (client : ControlPlaneClient) : GatewayContext :=
  let auth := match socks_username config, socks_password config with
              | Some user, Some pass => Some (user, pass)
              | _, _ => None
              end in
  {| ctx_client := client; ctx_auth := auth;
     ctx_connect_timeout := gw_connect_timeout config;
     ctx_idle_timeout := gw_idle_timeout config |}.

Record Counters : Type := mkCounters {
  connections_total : Z;
  active_connections : Z;
  connection_errors_total : Z;
  bytes_up_total : Z;
  bytes_down_total : Z
}.

Definition record_connection_opened (c : Counters) : Counters :=
  {| connections_total := connections_total c + 1; active_connections := active_connections c + 1;
     connection_errors_total := connection_errors_total c; bytes_up_total := bytes_up_total c;
     bytes_down_total := bytes_down_total c |}.
Definition record_connection_closed (c : Counters) : Counters :=
  {| connections_total := connections_total c; active_connections := active_connections c - 1;
     connection_errors_total := connection_errors_total c; bytes_up_total := bytes_up_total c;
     bytes_down_total := bytes_down_total c |}.
Definition record_connection_error (c : Counters) : Counters :=
  {| connections_total := connections_total c; active_connections := active_connections c;
     connection_errors_total := connection_errors_total c + 1; bytes_up_total := bytes_up_total c;
     bytes_down_total := bytes_down_total c |}.
Definition record_bytes (up down : Z) (c : Counters) : Counters :=
  {| connections_total := connections_total c; active_connections := active_connections c;
     connection_errors_total := connection_errors_total c;
     bytes_up_total := bytes_up_total c + up; bytes_down_total := bytes_down_total c + down |}.

Class GatewayEnv : Type := {
  (** [timeout(dt, client.select_node())]: [None] when it times out *)
  cp_answer : option http_result;
  dial_node : string → dial_result;
  copy_bidirectional : stream → stream → copy_result * stream * stream
}.

(** The client stream, the node stream once there is one, and the addresses
    dialed so far. *)
Record gw_state : Type := mkGw {
  gw_client : stream;
  gw_node : option stream;
  gw_dialed : list string;
  gw_counters : Counters
}.

Abbreviation GW := (SM GatewayError gw_state).

Definition on_client {A} (c : SM GatewayError stream A) : GW A := λ s,
  let '(r, c') := c (gw_client s) in
  (r, {| gw_client := c'; gw_node := gw_node s; gw_dialed := gw_dialed s; gw_counters := gw_counters s |}).

(** Run on the node stream; there is one by then. *)
Definition on_node {A} (c : SM GatewayError stream A) : GW A := λ s,
  match gw_node s with
  | None => (Panic, s)
  | Some n =>
      let '(r, n') := c n in
      (r, {| gw_client := gw_client s; gw_node := Some n'; gw_dialed := gw_dialed s;
             gw_counters := gw_counters s |})
  end.

(** ** The handler *)
Section handler.
Context `{GatewayEnv}.

Definition dial (node_address : string) : GW unit := λ s,
  let logged n :=
    {| gw_client := gw_client s; gw_node := n; gw_dialed := gw_dialed s ++ [node_address];
       gw_counters := gw_counters s |} in
  match dial_node node_address with
  | Dialed n => (Ok tt, logged (Some n))
  | DialFailed e => (Err (GIo e), logged None)
  | DialTimedOut => (Err (GTimeout (WithText "node connect timed out" node_address)), logged None)
  end.

(** [connect_and_chain] after the dial. *)
Definition chain (dest : SocksAddr) : SM GatewayError stream unit :=
  let greeting := [VERSION; Byte.x01; Byte.x00] in
  let! _ := write_all_timeout greeting in
  let! sel := read_exact_timeout 2 in
  let! sel0 := byte_at sel 0 in
  if negb (u8_eqb sel0 VERSION) then m_err (GProtocol (WithByte "node selection version" sel0)) else
  let! sel1 := byte_at sel 1 in
  if negb (u8_eqb sel1 METHOD_NO_AUTH)
  then m_err (GProtocol (WithByte "node rejected NO_AUTH" sel1)) else
  let request := {| command := Connect; addr := dest |} in
  let! bytes := m_lift (Request_to_bytes request) in
  let! _ := write_all_timeout bytes in
  let! reply_buf := read_exact_timeout 4 in
  let! rb0 := byte_at reply_buf 0 in
  if negb (u8_eqb rb0 VERSION) then m_err (GProtocol (Text "node reply version mismatch")) else
  let! node_atyp := byte_at reply_buf 3 in
  let! node_addr_len :=
    if u8_eqb node_atyp ATYP_IPV4 then m_ret (4 + 2)%nat
    else if u8_eqb node_atyp ATYP_IPV6 then m_ret (16 + 2)%nat
    else if u8_eqb node_atyp ATYP_DOMAIN then
      let! dlen := read_exact_timeout 1 in
      let! dlen := byte_at dlen 0 in
      m_ret (1 + u8_nat dlen + 2)%nat
    else m_err (GProtocol (Text "unknown node reply ATYP")) in
  let! _ := read_exact_timeout node_addr_len in
  let! rep := byte_at reply_buf 1 in
  if negb (u8_eqb rep REPLY_SUCCESS)
  then m_err (GRelay (WithByte "node CONNECT failed" rep))
  else m_ret tt.

Definition connect_and_chain (node_address : string) (dest : SocksAddr) : GW unit :=
  let! _ := dial node_address in on_node (chain dest).

(** [relay::relay] *)
Definition relay : GW (Z * Z) := λ s,
  match gw_node s with
  | None => (Panic, s)
  | Some n =>
      let '(res, c', n') := copy_bidirectional (gw_client s) n in
      let s' := {| gw_client := c'; gw_node := Some n'; gw_dialed := gw_dialed s;
                   gw_counters := gw_counters s |} in
      match res with
      | Copied up down => (Ok (up, down), s')
      | CopyFailed e => (Err (GRelay (WithText "relay" e)), s')
      | CopyTimedOut => (Err (GTimeout (Text "relay idle timeout")), s')
      end
  end.

Definition count (f : Counters → Counters) : GW unit := λ s,
  (Ok tt, {| gw_client := gw_client s; gw_node := gw_node s; gw_dialed := gw_dialed s;
             gw_counters := f (gw_counters s) |}).

Definition run_with_ctx (ctx : GatewayContext) : GW unit :=
  let! request := on_client (accept_connect (ctx_auth ctx)) in
  let! node :=
    match cp_answer with
    | None =>
        let! _ := on_client (try_reply REPLY_HOST_UNREACHABLE) in
        m_err (GTimeout (Text "select node timed out"))
    | Some answer =>
        match select_node answer with
        | Ok n => m_ret n
        | Err e => let! _ := on_client (try_reply REPLY_HOST_UNREACHABLE) in m_err e
        | Panic => m_lift Panic
        end
    end in
  let! _ := connect_and_chain (rn_forward_address node) (addr request) in
  let! bytes := m_lift (reply_bytes REPLY_SUCCESS) in
  let! _ := on_client (write_all_timeout bytes) in
  let! stats := relay in
  count (record_bytes stats.1 stats.2).

Definition handle_connection (ctx : GatewayContext) (s : gw_state) : gw_state :=
  let s := (count record_connection_opened s).2 in
  let '(r, s) := run_with_ctx ctx s in
  match r with
  | Ok _ => (count record_connection_closed s).2
  | Err _ => (count record_connection_closed (count record_connection_error s).2).2
  | Panic => s
  end.
End handler.

(** ** Lemmas *)
Definition with_client (s : gw_state) (c : stream) : gw_state :=
  {| gw_client := c; gw_node := gw_node s; gw_dialed := gw_dialed s; gw_counters := gw_counters s |}.

Lemma on_client_run {A} (c : SM GatewayError stream A) s r c' :
  c (gw_client s) = (r, c') → on_client c s = (r, with_client s c').
Proof. unfold on_client. by intros ->. Qed.

Lemma on_client_dialed {A} (c : SM GatewayError stream A) s :
  gw_dialed (on_client c s).2 = gw_dialed s.
Proof. unfold on_client. by destruct (c (gw_client s)). Qed.

Lemma on_node_dialed {A} (c : SM GatewayError stream A) s :
  gw_dialed (on_node c s).2 = gw_dialed s.
Proof. unfold on_node. destruct (gw_node s); [by destruct (c _)|done]. Qed.

(** The ATYP byte of a non-domain reply announces its address length. *)
Lemma ip_reply_len a :
  SocksAddr_ok a = true → (∀ name, host a ≠ HostDomain name) →
  (if u8_eqb (SocksAddr_atyp a) ATYP_IPV4 then m_ret (4 + 2)%nat
   else if u8_eqb (SocksAddr_atyp a) ATYP_IPV6 then m_ret (16 + 2)%nat
   else if u8_eqb (SocksAddr_atyp a) ATYP_DOMAIN then
     let! dlen := read_exact_timeout 1 in
     let! dlen := byte_at dlen 0 in
     m_ret (1 + u8_nat dlen + 2)%nat
   else m_err (GProtocol (Text "unknown node reply ATYP"))) =
  (m_ret (length (addr_wire a)) : SM GatewayError stream nat).
Proof.
  intros Hok Hd. rewrite addr_wire_length by done.
  destruct a as [[[ip|ip]|name] p]; cbn [host] in Hd; [done|done|by destruct (Hd name)].
Qed.

(** What the gateway says to a node before the payload. *)
Definition chain_wire (dest : SocksAddr) : list u8 :=
  [VERSION; Byte.x01; Byte.x00] ++ request_wire Byte.x00 {| command := Connect; addr := dest |}.

Lemma chain_ok dest n rsv rep rest :
  SocksAddr_ok dest = true → SocksAddr_ok (bind_addr rep) = true →
  (∀ name, host (bind_addr rep) ≠ HostDomain name) → code rep = REPLY_SUCCESS → can_write n →
  s_in n = [VERSION; METHOD_NO_AUTH] ++ reply_wire rsv rep ++ rest →
  ∃ n', chain dest n = (Ok tt, n') ∧ s_in n' = rest ∧ s_eof n' = s_eof n ∧ can_write n' ∧
    s_out n' = s_out n ++ chain_wire dest.
Proof.
  intros Hdest Hrep Hip Hcode Hw Hin. unfold reply_wire in Hin. rewrite Hcode, <- !app_assoc in Hin.
  cbn [app] in Hin. unfold chain. cbv zeta.
  write_step Hw. set (n1 := wrote _ _) in *.
  assert (Hin1 : s_in n1 = s_in n) by done. rewrite Hin in Hin1.
  read_step [VERSION; METHOD_NO_AUTH]. byte_step. autorewrite with rust. cbn [negb].
  byte_step. autorewrite with rust. cbn [negb].
  erewrite m_bind_run by (unfold m_lift; by rewrite Request_to_bytes_ok).
  write_step Hcw. set (n2 := wrote _ _) in *.
  read_step [VERSION; REPLY_SUCCESS; rsv; SocksAddr_atyp (bind_addr rep)].
  byte_step. autorewrite with rust. cbn [negb]. byte_step.
  rewrite (ip_reply_len (bind_addr rep)) by done. erewrite m_bind_run by done.
  read_step (addr_wire (bind_addr rep)). byte_step. autorewrite with rust. cbn [negb].
  eexists. split; [done|]. split_and!; [done|done|done|].
  cbn. unfold chain_wire. by rewrite <- !app_assoc.
Qed.

(** A node that answers with a domain name: one byte too many is awaited. *)
Lemma chain_domain_short dest n rsv rep name :
  SocksAddr_ok dest = true → host (bind_addr rep) = HostDomain name →
  Host_encodable (HostDomain name) = true → can_write n → s_eof n = false →
  s_in n = [VERSION; METHOD_NO_AUTH] ++ reply_wire rsv rep →
  (chain dest n).1 = Err (GTimeout (Text "handshake read timed out")).
Proof.
  intros Hdest Hhost He Hw Heof Hin. cbn [Host_encodable] in He. apply Nat.ltb_lt in He.
  unfold reply_wire, addr_wire in Hin.
  assert (Hatyp : SocksAddr_atyp (bind_addr rep) = ATYP_DOMAIN) by (unfold SocksAddr_atyp; by rewrite Hhost).
  rewrite Hatyp, Hhost in Hin. cbn [app host_wire] in Hin. unfold chain. cbv zeta.
  write_step Hw. set (n1 := wrote _ _) in *.
  assert (Hin1 : s_in n1 = s_in n) by done. rewrite Hin in Hin1.
  read_step [VERSION; METHOD_NO_AUTH]. byte_step. autorewrite with rust. cbn [negb].
  byte_step. autorewrite with rust. cbn [negb].
  erewrite m_bind_run by (unfold m_lift; by rewrite Request_to_bytes_ok).
  write_step Hcw. set (n2 := wrote _ _) in *.
  read_step [VERSION; code rep; rsv; ATYP_DOMAIN]. byte_step. autorewrite with rust. cbn [negb]. byte_step.
  autorewrite with rust.
  erewrite (m_bind_run _ _ _ (1 + u8_nat (as_u8 (Z.of_nat (str_len name))) + 2)%nat).
  2:{ read_step [as_u8 (Z.of_nat (str_len name))]. byte_step. reflexivity. }
  rewrite as_u8_of_nat by lia. unfold m_bind at 1. rewrite read_exact_short.
  2:{ cbn [s_in with_in]. rewrite length_app. cbn. unfold str_len. lia. }
  cbn. by rewrite Heof.
Qed.

Section run.
Context `{EV : GatewayEnv}.

Lemma run_dials ctx s :
  gw_dialed (run_with_ctx ctx s).2 ≠ gw_dialed s →
  ∃ r c', accept_connect (ctx_auth ctx) (gw_client s) = (Ok r, c').
Proof.
  intros Hd. destruct (accept_connect (ctx_auth ctx) (gw_client s)) as [[r|e|] c'] eqn:Ha; [eauto|..];
    exfalso; apply Hd; unfold run_with_ctx, m_bind, on_client; by rewrite Ha.
Qed.

(** The run up to the dial. *)
Lemma run_prefix ctx s r c' node :
  accept_connect (ctx_auth ctx) (gw_client s) = (Ok r, c') →
  cp_answer = Some (HttpResponse 200 (Some (rn_id node, rn_forward_address node))) →
  run_with_ctx ctx s =
  (let! _ := connect_and_chain (rn_forward_address node) (addr r) in
   let! bytes := m_lift (reply_bytes REPLY_SUCCESS) in
   let! _ := on_client (write_all_timeout bytes) in
   let! stats := relay in
   count (record_bytes stats.1 stats.2)) (with_client s c').
Proof.
  intros Ha Hcp. unfold run_with_ctx.
  rewrite (m_bind_run _ _ _ _ _ (on_client_run _ _ _ _ Ha)), Hcp. cbn [select_node].
  change (200 =? 503) with false. change (negb (is_success 200)) with false. cbv iota.
  by erewrite m_bind_run by reflexivity.
Qed.
End run.

(** [copy_bidirectional] transfers everything each side sends to the other and
    counts it. *)
Class GatewayNetwork (EV : GatewayEnv) : Prop := {
  copy_complete c n up down c' n' :
    copy_bidirectional c n = (Copied up down, c', n') →
    s_out c' = s_out c ++ s_in n ∧ s_out n' = s_out n ++ s_in c ∧
    up = Z.of_nat (length (s_in c)) ∧ down = Z.of_nat (length (s_in n))
}.

(** A session that succeeds. *)
Lemma gateway_serves {EV : GatewayEnv} {NW : GatewayNetwork EV} (ctx : GatewayContext) (s : gw_state)
    (node : RemoteNode) (n : stream) (g : Greeting) (rsv rsv' : u8) (r : Request) (rep : Reply)
    (payload data : list u8) :
  Greeting_ok g = true → offered g (method_of (ctx_auth ctx)) = true →
  (∀ u p, ctx_auth ctx = Some (u, p) → Credentials_ok {| username := u; password := p |} = true) →
  command r = Connect → Request_ok r = true → can_write (gw_client s) →
  s_in (gw_client s) =
    greeting_wire g ++ credentials_wire (ctx_auth ctx) ++ request_wire rsv r ++ payload →
  cp_answer = Some (HttpResponse 200 (Some (rn_id node, rn_forward_address node))) →
  dial_node (rn_forward_address node) = Dialed n → can_write n →
  SocksAddr_ok (bind_addr rep) = true → (∀ name, host (bind_addr rep) ≠ HostDomain name) →
  code rep = REPLY_SUCCESS →
  s_in n = [VERSION; METHOD_NO_AUTH] ++ reply_wire rsv' rep ++ data →
  (∀ c n', ∃ up down c2 n2, copy_bidirectional c n' = (Copied up down, c2, n2)) →
  ∃ s', run_with_ctx ctx s = (Ok tt, s') ∧
    gw_dialed s' = gw_dialed s ++ [rn_forward_address node] ∧
    s_out (gw_client s') = s_out (gw_client s) ++ preamble_replies (ctx_auth ctx) ++
      reply_wire Byte.x00 reply_success ++ data ∧
    (∃ n', gw_node s' = Some n' ∧ s_out n' = s_out n ++ chain_wire (addr r) ++ payload) ∧
    gw_counters s' = record_bytes (Z.of_nat (length payload)) (Z.of_nat (length data)) (gw_counters s).
Proof.
  intros Hg Ho Hcred Hcmd Hok Hw Hin Hcp Hdial Hwn Hrep Hip Hcode Hnin Hcopy.
  destruct (accept_connect_ok (E := GatewayError) _ _ _ _ _ _ Hg Ho Hcred Hcmd Hok Hw Hin)
    as (c' & Ha & Ic & _ & Wc & Oc).
  rewrite (run_prefix _ _ _ _ _ Ha Hcp). apply Request_ok_inv in Hok as (Hdest & _).
  destruct (chain_ok (addr r) n rsv' rep data Hdest Hrep Hip Hcode Hwn Hnin)
    as (n' & Hchain & In & _ & _ & On).
  set (s1 := {| gw_client := c'; gw_node := Some n';
    gw_dialed := gw_dialed s ++ [rn_forward_address node]; gw_counters := gw_counters s |}).
  assert (Hcc : connect_and_chain (rn_forward_address node) (addr r) (with_client s c') = (Ok tt, s1)).
  { unfold connect_and_chain, dial, m_bind, on_node. rewrite Hdial. cbn. by rewrite Hchain. }
  rewrite (m_bind_run _ _ _ _ _ Hcc).
  erewrite m_bind_run by (unfold m_lift; by rewrite reply_bytes_ok).
  destruct (write_all_ok (E := GatewayError) (reply_wire Byte.x00 (simple_reply REPLY_SUCCESS)) c' Wc) as [Hwr _].
  rewrite (m_bind_run _ _ _ _ _ (on_client_run _ s1 _ _ Hwr)).
  destruct (Hcopy (wrote c' (reply_wire Byte.x00 (simple_reply REPLY_SUCCESS))) n') as (up & down & c2 & n2 & Hc).
  destruct (copy_complete _ _ _ _ _ _ Hc) as (Oc2 & On2 & -> & ->).
  erewrite m_bind_run
    by (unfold relay, s1, with_client; cbn [gw_node gw_client gw_dialed gw_counters]; by rewrite Hc).
  eexists. split; [done|]. cbn. split_and!; [done| | |].
  - rewrite Oc2. cbn. by rewrite Oc, In, <- !app_assoc.
  - exists n2. split; [done|]. by rewrite On2, On, <- app_assoc; cbn; rewrite Ic.
  - by rewrite Ic, In.
Qed.

(** ** A network for concrete runs *)
Definition copy_all (c n : stream) : copy_result * stream * stream :=
  (Copied (Z.of_nat (length (s_in c))) (Z.of_nat (length (s_in n))),
   {| s_in := []; s_eof := s_eof c; s_out := s_out c ++ s_in n; s_faults := s_faults c |},
   {| s_in := []; s_eof := s_eof n; s_out := s_out n ++ s_in c; s_faults := s_faults n |}).

Definition sample_net (answer : option http_result) (d : dial_result) : GatewayEnv :=
  {| cp_answer := answer; dial_node _ := d; copy_bidirectional := copy_all |}.

Lemma sample_network answer d : GatewayNetwork (sample_net answer d).
Proof. split. by intros c n up down c' n' [= <- <- <- <-]. Qed.

Definition fresh_stream (input : list u8) : stream :=
  {| s_in := input; s_eof := false; s_out := []; s_faults := [] |}.
Definition zero_counters : Counters := mkCounters 0 0 0 0 0.
Definition fresh_gw (input : list u8) : gw_state :=
  {| gw_client := fresh_stream input; gw_node := None; gw_dialed := []; gw_counters := zero_counters |}.

Definition sample_answer : option http_result := Some (HttpResponse 200 (Some ("n1", "node-1:20001"))).
Definition sample_ctx (auth : option (string * string)) : GatewayContext :=
  {| ctx_client := ControlPlaneClient_new "http://127.0.0.1:8080/" None; ctx_auth := auth;
     ctx_connect_timeout := 10; ctx_idle_timeout := 300 |}.

(** ** No session panics, and every session is counted *)
Section accounting.
Context `{EV : GatewayEnv}.

Lemma chain_safe dest : SocksAddr_ok dest = true → m_safe (chain dest).
Proof.
  intros Hdest. unfold chain. cbv zeta.
  repeat first [safe_step | apply m_safe_lift; by rewrite Request_to_bytes_ok | done].
Qed.

(** [connect_and_chain] leaves a node stream when it succeeds. *)
Lemma connect_and_chain_run addr dest s :
  SocksAddr_ok dest = true →
  (connect_and_chain addr dest s).1 ≠ Panic ∧
  gw_counters (connect_and_chain addr dest s).2 = gw_counters s ∧
  ((connect_and_chain addr dest s).1 = Ok tt → ∃ n, gw_node (connect_and_chain addr dest s).2 = Some n).
Proof.
  intros Hdest. unfold connect_and_chain, dial, m_bind, on_node.
  destruct (dial_node addr) as [n|io|]; [|done|done]. cbn [gw_node].
  pose proof (chain_safe dest Hdest n) as Hs. destruct (chain dest n) as [r n'].
  split_and!; [done|done|by exists n'].
Qed.

(** A step of the client side of a session. *)
Lemma on_client_counters {A} (c : SM GatewayError stream A) s :
  (on_client c s).1 = (c (gw_client s)).1 ∧ gw_counters (on_client c s).2 = gw_counters s ∧
  gw_node (on_client c s).2 = gw_node s.
Proof. unfold on_client. by destruct (c (gw_client s)). Qed.

Lemma on_client_safe {A} (c : SM GatewayError stream A) : m_safe c → m_safe (on_client c).
Proof. intros Hc s. destruct (on_client_counters c s) as [-> _]. apply Hc. Qed.

Lemma reject_run (e : GatewayError) code s :
  ∃ s', (let! _ := on_client (try_reply code) in m_err (A := RemoteNode) e) s = (Err e, s') ∧
    gw_counters s' = gw_counters s.
Proof.
  destruct (on_client_counters (try_reply code) s) as (Hr & Hc & _).
  pose proof (try_reply_safe (E := GatewayError) code (gw_client s)) as Hs. unfold m_bind.
  destruct (on_client (try_reply code) s) as [[u|e'|] s'] eqn:E; cbn [fst snd] in *;
    [by exists s'| |congruence].
  unfold try_reply in Hr. rewrite reply_bytes_ok in Hr. done.
Qed.

(** After the chained handshake: the reply and the relay. *)
Lemma finish_run s n :
  gw_node s = Some n →
  match (let! bytes := m_lift (reply_bytes REPLY_SUCCESS) in
         let! _ := on_client (write_all_timeout bytes) in
         let! stats := relay in
         count (record_bytes stats.1 stats.2)) s with
  | (Ok _, s') => ∃ up down, gw_counters s' = record_bytes up down (gw_counters s)
  | (Err _, s') => gw_counters s' = gw_counters s
  | (Panic, _) => False
  end.
Proof.
  intros Hn. erewrite m_bind_run by (unfold m_lift; by rewrite reply_bytes_ok).
  match goal with |- context [write_all_timeout ?b] => set (w := write_all_timeout b) end.
  destruct (on_client_counters w s) as (Hr & Hc & Hn').
  assert (Hs : m_safe w) by apply write_all_safe. specialize (Hs (gw_client s)). unfold m_bind at 1.
  destruct (on_client w s) as [[u|e|] s1]; cbn in Hr, Hc, Hn'; [|done|congruence].
  unfold m_bind, relay. rewrite Hn', Hn.
  destruct (copy_bidirectional (gw_client s1) n) as [[[up down|e|] c2] n2]; cbn; [|done|done].
  exists up, down. by rewrite Hc.
Qed.

(** A whole session: it does not panic; it counts bytes if it succeeds and
    nothing if it does not. *)
Lemma run_counts ctx s :
  match run_with_ctx ctx s with
  | (Ok _, s') => ∃ up down, gw_counters s' = record_bytes up down (gw_counters s)
  | (Err _, s') => gw_counters s' = gw_counters s
  | (Panic, _) => False
  end.
Proof.
  unfold run_with_ctx. destruct (on_client_counters (accept_connect (ctx_auth ctx)) s) as (Hr & Hc & _).
  pose proof (accept_connect_safe (E := GatewayError) (ctx_auth ctx) (gw_client s)) as Hs.
  unfold m_bind at 1. destruct (on_client _ s) as [[r|e|] s1] eqn:E1; cbn in Hr, Hc; [|done|congruence].
  assert (Hdest : SocksAddr_ok (addr r) = true).
  { destruct (accept_connect (ctx_auth ctx) (gw_client s)) as [r0 c0] eqn:Ha. cbn in Hr. subst r0.
    apply accept_connect_inv in Ha as (_ & Hok & _). by destruct (Request_ok_inv _ Hok). }
  assert (Hnode : ∀ node, match
      (let! _ := connect_and_chain (rn_forward_address node) (addr r) in
       let! bytes := m_lift (reply_bytes REPLY_SUCCESS) in
       let! _ := on_client (write_all_timeout bytes) in
       let! stats := relay in count (record_bytes stats.1 stats.2)) s1 with
    | (Ok _, s') => ∃ up down, gw_counters s' = record_bytes up down (gw_counters s)
    | (Err _, s') => gw_counters s' = gw_counters s
    | (Panic, _) => False
    end).
  { intros node. destruct (connect_and_chain_run (rn_forward_address node) (addr r) s1 Hdest) as (Hp & Hcc & Hn).
    unfold m_bind at 1. destruct (connect_and_chain _ _ s1) as [[[]|e|] s2]; cbn in Hp, Hcc, Hn; [|congruence|done].
    destruct (Hn eq_refl) as [n Hn2]. pose proof (finish_run s2 n Hn2) as Hf. rewrite Hcc, Hc in Hf. exact Hf. }
  assert (Hrej : ∀ e, ∃ s', (let! _ := on_client (try_reply REPLY_HOST_UNREACHABLE) in
      m_err (A := RemoteNode) e) s1 = (Err e, s') ∧ gw_counters s' = gw_counters s)
    by (intros e; rewrite <- Hc; apply reject_run).
  destruct cp_answer as [a|].
  - destruct (select_node a) as [node|e|] eqn:Hsel.
    + rewrite (m_bind_run _ _ _ node s1) by done. apply Hnode.
    + destruct (Hrej e) as (s' & Hx & Hy). by rewrite (m_bind_err _ _ _ _ _ Hx).
    + unfold select_node in Hsel. repeat (case_match; try done).
  - destruct (Hrej (GTimeout (Text "select node timed out"))) as (s' & Hx & Hy).
    by rewrite (m_bind_err _ _ _ _ _ Hx).
Qed.
End accounting.

(** ** Properties *)

(** Every session is accounted for: whatever the client, the control
    plane, the node and the network do, the handler does not panic, counts the
    connection once, leaves the gauge of active connections as it found it,
    counts an error exactly when the session fails, and then counts no bytes. *)
Theorem gateway_sessions_accounted (EV : GatewayEnv) (ctx : GatewayContext) (s : gw_state) :
  let opened := {| gw_client := gw_client s; gw_node := gw_node s; gw_dialed := gw_dialed s;
                   gw_counters := record_connection_opened (gw_counters s) |} in
  let c := gw_counters s in
  let c' := gw_counters (handle_connection ctx s) in
  connections_total c' = connections_total c + 1 ∧ active_connections c' = active_connections c ∧
  match (run_with_ctx ctx opened).1 with
  | Ok _ => connection_errors_total c' = connection_errors_total c
  | Err _ => connection_errors_total c' = connection_errors_total c + 1 ∧
             bytes_up_total c' = bytes_up_total c ∧ bytes_down_total c' = bytes_down_total c
  | Panic => False
  end.
Proof.
  cbv zeta. unfold handle_connection, count. cbn [snd gw_client gw_node gw_dialed gw_counters].
  match goal with |- context [run_with_ctx ctx ?o] => pose proof (run_counts ctx o) as Hr end.
  destruct (run_with_ctx ctx _) as [[u|e|] s']; cbn in *; [|rewrite Hr; cbn; split_and!; lia|done].
  destruct Hr as (up & down & ->). cbn. split_and!; lia.
Qed.

(** (C14) Authentication: when credentials are configured, the gateway dials
    nothing unless the client offered the username/password method, sent
    exactly these credentials, and then a well-formed CONNECT request. *)
Theorem gateway_requires_credentials (EV : GatewayEnv) (ctx : GatewayContext) (s : gw_state) (u p : string) :
  ctx_auth ctx = Some (u, p) → gw_dialed (run_with_ctx ctx s).2 ≠ gw_dialed s →
  ∃ g rsv r rest, offered g METHOD_USER_PASS = true ∧ Request_ok r = true ∧ command r = Connect ∧
    s_in (gw_client s) =
      greeting_wire g ++ UsernamePassword_to_vec {| username := u; password := p |} ++
      request_wire rsv r ++ rest.
Proof.
  intros Ha Hd. destruct (run_dials ctx s Hd) as (r & c' & Hr).
  apply accept_connect_inv in Hr as (Hc & Hok & (g & rsv & _ & Ho & Hin) & _). rewrite Ha in Ho, Hin.
  exists g, rsv, r, (s_in c'). done.
Qed.

Definition sample_client_bytes : list u8 :=
  greeting_wire {| methods := [METHOD_USER_PASS] |} ++
  UsernamePassword_to_vec example_credentials ++ request_wire Byte.x00 example_request ++ [Byte.x47].

Lemma gateway_requires_credentials_witness :
  ∃ g rsv r rest, offered g METHOD_USER_PASS = true ∧ Request_ok r = true ∧ command r = Connect ∧
    sample_client_bytes =
      greeting_wire g ++ UsernamePassword_to_vec {| username := "alice"; password := "s3cret" |} ++
      request_wire rsv r ++ rest.
Proof.
  apply (gateway_requires_credentials (sample_net sample_answer DialTimedOut)
    (sample_ctx (Some ("alice", "s3cret"))) (fresh_gw sample_client_bytes) "alice" "s3cret");
    [reflexivity|vm_compute; discriminate].
Defined.

(** (C13) The gateway proxies faithfully: for a client that sends what the
    configuration asks for and a CONNECT, a control plane that names a node, and
    a node that accepts, the session succeeds; the node is told exactly the
    client's destination and then gets exactly the client's payload, the client
    gets the method, a success reply and exactly the node's data, and the byte
    counters grow by these lengths. *)
Theorem gateway_proxies (EV : GatewayEnv) (NW : GatewayNetwork EV) (ctx : GatewayContext) (s : gw_state)
    (node : RemoteNode) (n : stream) (g : Greeting) (rsv rsv' : u8) (r : Request) (rep : Reply)
    (payload data : list u8) :
  Greeting_ok g = true → offered g (method_of (ctx_auth ctx)) = true →
  (∀ u p, ctx_auth ctx = Some (u, p) → Credentials_ok {| username := u; password := p |} = true) →
  command r = Connect → Request_ok r = true → can_write (gw_client s) →
  s_in (gw_client s) =
    greeting_wire g ++ credentials_wire (ctx_auth ctx) ++ request_wire rsv r ++ payload →
  cp_answer = Some (HttpResponse 200 (Some (rn_id node, rn_forward_address node))) →
  dial_node (rn_forward_address node) = Dialed n → can_write n →
  SocksAddr_ok (bind_addr rep) = true → (∀ name, host (bind_addr rep) ≠ HostDomain name) →
  code rep = REPLY_SUCCESS →
  s_in n = [VERSION; METHOD_NO_AUTH] ++ reply_wire rsv' rep ++ data →
  (∀ c n', ∃ up down c2 n2, copy_bidirectional c n' = (Copied up down, c2, n2)) →
  ∃ s', run_with_ctx ctx s = (Ok tt, s') ∧
    gw_dialed s' = gw_dialed s ++ [rn_forward_address node] ∧
    s_out (gw_client s') = s_out (gw_client s) ++ preamble_replies (ctx_auth ctx) ++
      reply_wire Byte.x00 reply_success ++ data ∧
    (∃ n', gw_node s' = Some n' ∧ s_out n' = s_out n ++ chain_wire (addr r) ++ payload) ∧
    gw_counters s' = record_bytes (Z.of_nat (length payload)) (Z.of_nat (length data)) (gw_counters s).
Proof. apply gateway_serves. Qed.

Definition sample_node_bytes : list u8 :=
  [VERSION; METHOD_NO_AUTH] ++ reply_wire Byte.x00 reply_success ++ [Byte.x48; Byte.x49].

Lemma gateway_proxies_witness :
  let env := sample_net sample_answer (Dialed (fresh_stream sample_node_bytes)) in
  ∃ s', @run_with_ctx env (sample_ctx (Some ("alice", "s3cret"))) (fresh_gw sample_client_bytes)
        = (Ok tt, s') ∧
    s_out (gw_client s') = preamble_replies (Some ("alice", "s3cret")) ++
      reply_wire Byte.x00 reply_success ++ [Byte.x48; Byte.x49].
Proof.
  destruct (gateway_proxies (sample_net sample_answer (Dialed (fresh_stream sample_node_bytes)))
    (sample_network _ _) (sample_ctx (Some ("alice", "s3cret"))) (fresh_gw sample_client_bytes)
    {| rn_id := "n1"; rn_forward_address := "node-1:20001" |} (fresh_stream sample_node_bytes)
    {| methods := [METHOD_USER_PASS] |} Byte.x00 Byte.x00 example_request reply_success
    [Byte.x47] [Byte.x48; Byte.x49]) as (s' & Hrun & _ & Hout & _);
    try reflexivity; try constructor.
  - intros u p Heq. injection Heq as <- <-. reflexivity.
  - discriminate.
  - repeat eexists.
  - exists s'. split; [exact Hrun|exact Hout].
Defined.

(** A node that cannot be reached is reported to nobody: when the dial
    fails or times out, the session ends with an error and the client has been
    sent nothing after the method selection (and the authentication status), in
    particular no SOCKS reply. *)
Theorem dial_failure_is_silent (EV : GatewayEnv) (ctx : GatewayContext) (s : gw_state) (r : Request)
    (c' : stream) (node : RemoteNode) :
  accept_connect (ctx_auth ctx) (gw_client s) = (Ok r, c') →
  cp_answer = Some (HttpResponse 200 (Some (rn_id node, rn_forward_address node))) →
  (∀ n, dial_node (rn_forward_address node) ≠ Dialed n) →
  ∃ e s', run_with_ctx ctx s = (Err e, s') ∧ gw_dialed s' = gw_dialed s ++ [rn_forward_address node] ∧
    s_out (gw_client s') = s_out (gw_client s) ++ preamble_replies (ctx_auth ctx).
Proof.
  intros Ha Hcp Hd. rewrite (run_prefix _ _ _ _ _ Ha Hcp).
  apply accept_connect_inv in Ha as (_ & _ & _ & Ho & _).
  unfold connect_and_chain, dial, m_bind.
  destruct (dial_node (rn_forward_address node)) as [n|io|] eqn:Hn; [by destruct (Hd n)|..];
    eexists _, _; (split; [done|]); done.
Qed.

Lemma dial_failure_is_silent_witness :
  ∃ e s', @run_with_ctx (sample_net sample_answer DialTimedOut) (sample_ctx (Some ("alice", "s3cret")))
            (fresh_gw sample_client_bytes) = (Err e, s') ∧
    gw_dialed s' = ["node-1:20001"] ∧ s_out (gw_client s') = preamble_replies (Some ("alice", "s3cret")).
Proof.
  eapply (dial_failure_is_silent (sample_net sample_answer DialTimedOut)
    (sample_ctx (Some ("alice", "s3cret"))) (fresh_gw sample_client_bytes) example_request _
    {| rn_id := "n1"; rn_forward_address := "node-1:20001" |});
    [vm_compute; reflexivity|reflexivity|discriminate].
Defined.

(** (C40) A defect in the chained handshake: a node that accepts the request
    and reports its bound address as a domain name (which RFC 1928 allows) is
    not understood. The length byte is read twice, once alone and once as part
    of the address, so the gateway waits for one byte more than the reply has
    and gives up when it does not come. *)
Theorem domain_reply_times_out (dest : SocksAddr) (n : stream) (rsv : u8) (rep : Reply) (name : string) :
  SocksAddr_ok dest = true → host (bind_addr rep) = HostDomain name →
  Host_encodable (HostDomain name) = true → code rep = REPLY_SUCCESS → can_write n → s_eof n = false →
  s_in n = [VERSION; METHOD_NO_AUTH] ++ reply_wire rsv rep →
  (chain dest n).1 = Err (GTimeout (Text "handshake read timed out")).
Proof. intros Hdest Hhost He _. by apply (chain_domain_short dest n rsv rep name). Qed.

Lemma domain_reply_times_out_witness :
  (chain example_addr (fresh_stream ([VERSION; METHOD_NO_AUTH] ++
     reply_wire Byte.x00 {| code := REPLY_SUCCESS;
       bind_addr := {| host := HostDomain "node-1"; port := 20001 |} |}))).1
  = Err (GTimeout (Text "handshake read timed out")).
Proof.
  apply (domain_reply_times_out example_addr _ Byte.x00 {| code := REPLY_SUCCESS;
       bind_addr := {| host := HostDomain "node-1"; port := 20001 |} |} "node-1");
    try reflexivity; constructor.
Defined.
