(* ===== verification/NodeHandler.v ===== *)
(** * The node agent's side of a session

    [crates/node/src/handler.rs], outside [handle_connection]: the reads and
    writes with a deadline and the code that accepts a [CONNECT], written out at
    the node's error type. The gateway has the same code; [accepted_as_shared]
    shows that [Session] covers both. *)

From stdpp Require Import base decidable numbers list strings.
From Stdlib Require Import ZArith Strings.Byte.
From S2P Require Import Prelude RustStd Constants Reader Host Request Handshake Auth Reply Session.

Inductive NodeError : Type :=
| NProtocol (m : message)
| NTimeout (m : message)
| NIo (e : IoError)
| NRelay (m : message).

#[export] Instance NodeError_session : SessionError NodeError := {|
  e_protocol := NProtocol;
  e_timeout := NTimeout;
  e_io := NIo
|}.

Abbreviation NIO := (SM NodeError stream).

(** ** Reads and writes *)
Definition node_read_exact_timeout (n : nat) : NIO (list u8) := λ s,
  if (n <=? length (s_in s))%nat then (Ok (take n (s_in s)), with_in s (drop n (s_in s)))
  else
    (Err (if s_eof s then NIo UnexpectedEof else NTimeout (Text "handshake read timed out")), with_in s []).

Definition node_write_all_timeout (data : list u8) : NIO unit := λ s,
  let written k :=
    {| s_in := s_in s; s_eof := s_eof s; s_out := s_out s ++ take k data; s_faults := tail (s_faults s) |} in
  match head (s_faults s) with
  | Some (Some (WIo k)) => (Err (NIo OtherIo), written k)
  | Some (Some (WTimeout k)) => (Err (NTimeout (Text "handshake write timed out")), written k)
  | _ => (Ok tt, written (length data))
  end.

Definition node_reply_bytes (code : u8) : outcome NodeError (list u8) := Reply_to_bytes (simple_reply code).

Definition node_try_reply (code : u8) : NIO unit := λ s,
  match node_reply_bytes code with
  | Ok bytes => (Ok tt, (node_write_all_timeout bytes s).2)
  | Err e => (Err e, s)
  | Panic => (Panic, s)
  end.

(** ** The messages of the gateway *)
Definition node_read_greeting : NIO Greeting :=
  let! hdr := node_read_exact_timeout GREETING_HEADER_LEN in
  let! n := byte_at hdr 1 in
  let nmethods := u8_nat n in
  if (nmethods =? 0)%nat then m_err (NProtocol (Text "greeting: no methods")) else
  let! methods := node_read_exact_timeout nmethods in
  let buf := hdr ++ methods in
  m_lift (map_err (λ e, NProtocol (OfProtocol e)) (Greeting_parse buf)).

Definition node_handle_user_pass_auth (auth : option (string * string)) : NIO unit :=
  let! ver := node_read_exact_timeout 1 in
  let! ver := byte_at ver 0 in
  if negb (u8_eqb ver AUTH_VERSION) then m_err (NProtocol (WithByte "auth frame version" ver)) else
  let! ulen := node_read_exact_timeout 1 in
  let! ulen := byte_at ulen 0 in
  let ulen := u8_nat ulen in
  if (ulen =? 0)%nat || (255 <? ulen)%nat
  then m_err (NProtocol (Text "invalid username length")) else
  let! uname := node_read_exact_timeout ulen in
  let! plen := node_read_exact_timeout 1 in
  let! plen := byte_at plen 0 in
  let plen := u8_nat plen in
  let! passwd := node_read_exact_timeout plen in
  let! username := m_lift (ok_or (from_utf8 uname) (NProtocol (Text "invalid utf-8 in username"))) in
  let! password := m_lift (ok_or (from_utf8 passwd) (NProtocol (Text "invalid utf-8 in password"))) in
  let ok := match auth with
            | Some (expected_user, expected_pass) =>
                String.eqb username expected_user && String.eqb password expected_pass
            | None => false
            end in
  let status := if ok then AUTH_STATUS_SUCCESS else AUTH_STATUS_FAILURE in
  let! _ := node_write_all_timeout (auth_reply_bytes status) in
  if negb ok then m_err (NProtocol (Text "authentication failed")) else m_ret tt.

Definition node_read_request : NIO Request :=
  let! hdr := node_read_exact_timeout REQUEST_HEADER_LEN in
  let! atyp := byte_at hdr 3 in
  let lift_len c := m_lift (map_err (λ e, NProtocol (OfProtocol e)) c) in
  let! lens :=
    if u8_eqb atyp ATYP_DOMAIN then
      let! len_byte := node_read_exact_timeout 1 in
      let! len := byte_at len_byte 0 in
      let! total := lift_len (addr_len atyp (Some len)) in
      m_ret ((total - 1)%nat, Some len)
    else
      let! total := lift_len (addr_len atyp None) in
      m_ret (total, None) in
  let addr_buf_len := lens.1 in
  let domain_len := lens.2 in
  let! addr_buf := node_read_exact_timeout addr_buf_len in
  let full := hdr ++ (match domain_len with Some len => [len] | None => [] end) ++ addr_buf in
  m_lift (omap_ok fst (map_err (λ e, NProtocol (OfProtocol e)) (Request_parse full))).

(** Steps 1 to 3 of [run_with_ctx]. *)
Definition node_accept_connect (auth : option (string * string)) : NIO Request :=
  let! greeting := node_read_greeting in
  let allow_no_auth := match auth with None => true | Some _ => false end in
  let allow_user_pass := match auth with None => false | Some _ => true end in
  let m := negotiate greeting allow_user_pass allow_no_auth in
  let! _ := node_write_all_timeout (MethodSelection_to_bytes m) in
  if u8_eqb (method m) METHOD_NO_ACCEPTABLE
  then m_err (NProtocol (Text "no acceptable authentication method")) else
  let! _ := if u8_eqb (method m) METHOD_USER_PASS
            then node_handle_user_pass_auth auth else m_ret tt in
  let! request := node_read_request in
  if negb (bool_decide (command request = Connect)) then
    let! _ := node_try_reply REPLY_COMMAND_NOT_SUPPORTED in
    m_err (NProtocol (Text "unsupported command (only CONNECT is supported)"))
  else m_ret request.

(** ** The shared code *)
Lemma written_as_shared data : node_write_all_timeout data = write_all_timeout data.
Proof. reflexivity. Qed.

Lemma replied_as_shared code : node_try_reply code = try_reply code.
Proof. reflexivity. Qed.

Lemma accepted_as_shared auth : node_accept_connect auth = accept_connect auth.
Proof. reflexivity. Qed.
