(* ===== verification/NodeAgent.v ===== *)
(** * The node agent

    [crates/node/src]: the per-connection handler ([handler.rs]), the statistics
    and the accept and heartbeat loops ([server.rs]), the payloads sent to the
    control plane ([cp_client.rs]) and the counters ([metrics.rs]). The accept
    loop, its connection tasks and the heartbeat loop run concurrently: the
    second half is their step relation, one step per atomic action. *)

From stdpp Require Import base tactics decidable numbers list relations strings.
From Stdlib Require Import ZArith Lia Strings.Byte.
From S2P Require Import Prelude RustStd Config Client Accept Constants Reader Host Display.
From S2P Require Import Request Handshake Auth Reply Session NodeHandler.

Record NodeContext : Type := mkNodeContext {
  nc_auth : option (string * string);
  nc_handshake_timeout : Z;
  nc_idle_timeout : Z
}.

(** The context [NodeServer::run] builds: no authentication. *)
Definition server_context : NodeContext :=
  {| nc_auth := None; nc_handshake_timeout := from_secs 10; nc_idle_timeout := from_secs 300 |}.

Record NodeCounters : Type := mkNodeCounters {
  node_connections_total : Z;
  node_active_connections : Z;
  node_connection_errors_total : Z;
  node_bytes_up_total : Z;
  node_bytes_down_total : Z;
  node_heartbeats_total : Z;
  node_heartbeat_errors_total : Z
}.

(** One counter or gauge of the recorder changes. *)
Definition bump (total active errors up down beats beat_errors : Z) (c : NodeCounters) : NodeCounters :=
  {| node_connections_total := node_connections_total c + total;
     node_active_connections := node_active_connections c + active;
     node_connection_errors_total := node_connection_errors_total c + errors;
     node_bytes_up_total := node_bytes_up_total c + up;
     node_bytes_down_total := node_bytes_down_total c + down;
     node_heartbeats_total := node_heartbeats_total c + beats;
     node_heartbeat_errors_total := node_heartbeat_errors_total c + beat_errors |}.

Definition record_connection_opened : NodeCounters → NodeCounters := bump 1 1 0 0 0 0 0.
Definition record_connection_closed : NodeCounters → NodeCounters := bump 0 (-1) 0 0 0 0 0.
Definition record_connection_error : NodeCounters → NodeCounters := bump 0 0 1 0 0 0 0.
Definition record_bytes (up down : Z) : NodeCounters → NodeCounters := bump 0 0 0 up down 0 0.
Definition record_heartbeat : NodeCounters → NodeCounters := bump 0 0 0 0 0 1 0.
Definition record_heartbeat_error : NodeCounters → NodeCounters := bump 0 0 0 0 0 0 1.

(** The network: dialing the text of an address, and the relay. *)
Class NodeEnv : Type := {
  dial_target : string → dial_result;
  node_copy : stream → stream → copy_result * stream * stream
}.

Record nd_state : Type := mkNd {
  nd_gw : stream;
  nd_target : option stream;
  nd_dialed : list string;
  nd_counters : NodeCounters
}.

Abbreviation ND := (SM NodeError nd_state).

Definition on_gw {A} (c : SM NodeError stream A) : ND A := λ s,
  let '(r, g') := c (nd_gw s) in
  (r, {| nd_gw := g'; nd_target := nd_target s; nd_dialed := nd_dialed s; nd_counters := nd_counters s |}).

Section handler.
Context `{NodeEnv}.

Definition count (f : NodeCounters → NodeCounters) : ND unit := λ s,
  (Ok tt, {| nd_gw := nd_gw s; nd_target := nd_target s; nd_dialed := nd_dialed s;
             nd_counters := f (nd_counters s) |}).

(** Step 4: connect to the target, or tell the gateway why not. *)
Definition connect_target (target : SocksAddr) : ND unit := λ s,
  let target_addr := SocksAddr_to_string target in
  let logged t :=
    {| nd_gw := nd_gw s; nd_target := t; nd_dialed := nd_dialed s ++ [target_addr];
       nd_counters := nd_counters s |} in
  match dial_target target_addr with
  | Dialed t => (Ok tt, logged (Some t))
  | DialFailed e =>
      let code := match e with
                  | ConnectionRefused => REPLY_CONNECTION_REFUSED
                  | _ => REPLY_NETWORK_UNREACHABLE
                  end in
      (let! _ := on_gw (node_try_reply code) in m_err (NIo e)) (logged None)
  | DialTimedOut =>
      (let! _ := on_gw (node_try_reply REPLY_TTL_EXPIRED) in
       m_err (NTimeout (Text "target connect timed out"))) (logged None)
  end.

(** Step 6: the relay; its errors are only logged. *)
Definition splice : ND unit := λ s,
  match nd_target s with
  | None => (Panic, s)
  | Some t =>
      let '(res, g', t') := node_copy (nd_gw s) t in
      let s' := {| nd_gw := g'; nd_target := Some t'; nd_dialed := nd_dialed s;
                   nd_counters := nd_counters s |} in
      match res with
      | Copied up down => count (record_bytes up down) s'
      | CopyFailed _ | CopyTimedOut => (Ok tt, s')
      end
  end.

Definition run_with_ctx (ctx : NodeContext) : ND unit :=
  let! request := on_gw (node_accept_connect (nc_auth ctx)) in
  let! _ := connect_target (addr request) in
  let! bytes := m_lift (node_reply_bytes REPLY_SUCCESS) in
  let! _ := on_gw (node_write_all_timeout bytes) in
  splice.

Definition handle_connection (ctx : NodeContext) (s : nd_state) : nd_state :=
  let s := (count record_connection_opened s).2 in
  let '(r, s) := run_with_ctx ctx s in
  match r with
  | Ok _ => (count record_connection_closed s).2
  | Err _ => (count record_connection_closed (count record_connection_error s).2).2
  | Panic => s
  end.
End handler.

(** ** The server *)
Record RegisterPayload : Type := mkRegisterPayload {
  rp_node_id : string;
  rp_address : string;
  rp_max_connections : Z;
  rp_bandwidth_limit : Z
}.

Record HeartbeatPayload : Type := mkHeartbeatPayload {
  hp_active_connections : Z;
  hp_bytes_up : Z;
  hp_bytes_down : Z;
  hp_latency_ms : Z;
  hp_available_bandwidth : Z
}.

(** The registration of [NodeServer::run]; [max_connections] is a [usize] cast
    to [u32]. *)
Definition register_payload (cfg : NodeConfig) : RegisterPayload :=
  {| rp_node_id := cfg_node_id cfg;
     rp_address := default (cfg_bind_addr cfg) (cfg_advertised_address cfg);
     rp_max_connections := as_u32 (Z.of_nat (cfg_max_connections cfg));
     rp_bandwidth_limit := cfg_bandwidth_limit cfg |}.

Record NodeStats : Type := mkStats { st_bytes_up : Z; st_bytes_down : Z; st_active : Z }.

Definition NodeStats_new : NodeStats := {| st_bytes_up := 0; st_bytes_down := 0; st_active := 0 |}.

Definition snapshot_and_reset (st : NodeStats) : (Z * Z * Z) * NodeStats :=
  ((st_bytes_up st, st_bytes_down st, st_active st),
   {| st_bytes_up := 0; st_bytes_down := 0; st_active := st_active st |}).

(** The payload of one turn of [heartbeat_loop]. *)
Definition heartbeat_payload (bandwidth_limit : Z) (st : NodeStats) : HeartbeatPayload * NodeStats :=
  let '((up, down, active), st') := snapshot_and_reset st in
  ({| hp_active_connections := active; hp_bytes_up := up; hp_bytes_down := down;
      hp_latency_ms := 0; hp_available_bandwidth := bandwidth_limit |}, st').

(** [AtomicU32::fetch_add] and [fetch_sub] wrap. *)
Definition add_active (d : Z) (st : NodeStats) : NodeStats :=
  {| st_bytes_up := st_bytes_up st; st_bytes_down := st_bytes_down st;
     st_active := as_u32 (st_active st + d) |}.

(** ** The calls to the control plane *)

(** The answer to an HTTP request: none, or a status and a body. *)
Inductive http_answer : Type := Unreachable (detail : string) | Answered (status : Z) (body : string).

(** The [anyhow] errors of the client. *)
Inductive ClientError : Type :=
| ControlPlaneUnreachable (detail : string)
| RequestFailed (what : string) (status : Z) (body : string).

Definition client_check (what : string) (resp : http_answer) : outcome ClientError unit :=
  match resp with
  | Unreachable e => Err (ControlPlaneUnreachable e)
  | Answered status body => if negb (is_success status) then Err (RequestFailed what status body) else Ok tt
  end.

Definition register_url (c : ControlPlaneClient) : string := base_url c +:+ "/nodes/register".
Definition heartbeat_url (c : ControlPlaneClient) (node_id : string) : string :=
  base_url c +:+ "/nodes/" +:+ node_id +:+ "/heartbeat".

(** A request as it leaves the client: URL, [Authorization] header, payload. *)
Record http_post (P : Type) : Type := mkPost { post_url : string; post_auth : option string; post_json : P }.
Arguments mkPost {P}.
Arguments post_url {P}.
Arguments post_auth {P}.
Arguments post_json {P}.

(** [register] and [heartbeat]: the request, and the result for its answer. *)
Definition client_register (c : ControlPlaneClient) (payload : RegisterPayload) :
  http_post RegisterPayload * (http_answer → outcome ClientError unit) :=
  (mkPost (register_url c) (authed c) payload, client_check "register").

Definition client_heartbeat (c : ControlPlaneClient) (node_id : string) (payload : HeartbeatPayload) :
  http_post HeartbeatPayload * (http_answer → outcome ClientError unit) :=
  (mkPost (heartbeat_url c node_id) (authed c) payload, client_check "heartbeat").

(** [NodeServer::new] *)
Definition node_client (cfg : NodeConfig) : ControlPlaneClient :=
  ControlPlaneClient_new (cfg_control_plane_url cfg) (cfg_api_token cfg).

(** One turn of [heartbeat_loop]: what is sent, and what the answer is counted
    as. *)
Definition heartbeat_turn (c : ControlPlaneClient) (node_id : string) (bandwidth_limit : Z)
    (st : NodeStats) : http_post HeartbeatPayload * NodeStats * (http_answer → NodeCounters → NodeCounters) :=
  let '(hb, st') := heartbeat_payload bandwidth_limit st in
  let '(post, judge) := client_heartbeat c node_id hb in
  (post, st', λ resp, match judge resp with Ok _ => record_heartbeat | _ => record_heartbeat_error end).

(** ** The accept loop and the heartbeat loop

    Tasks count themselves in the statistics; the heartbeat loop reads them. *)
Abbreviation node_server := (server NodeStats).

Inductive event : Type := EvInternal | EvHeartbeat (hb : HeartbeatPayload).

Section server.
Context (cfg : NodeConfig).

Abbreviation task_step := (accept_step (add_active 1) (add_active (-1))).

Definition node_init : node_server := server_init (cfg_max_connections cfg) NodeStats_new.

Inductive server_step : node_server → event → node_server → Prop :=
| ss_task s s' : task_step s s' → server_step s EvInternal s'
| ss_heartbeat s :
    server_step s (EvHeartbeat (heartbeat_payload (cfg_bandwidth_limit cfg) (sv_shared s)).1)
      {| sv_permits := sv_permits s;
         sv_shared := (heartbeat_payload (cfg_bandwidth_limit cfg) (sv_shared s)).2;
         sv_conns := sv_conns s; sv_cancelled := sv_cancelled s; sv_accepting := sv_accepting s |}.

Inductive server_reachable : node_server → Prop :=
| sr_init : server_reachable node_init
| sr_step s e s' : server_reachable s → server_step s e s' → server_reachable s'.

(** What the final loop of [run] polls. *)
Definition node_drained (s : node_server) : bool := st_active (sv_shared s) =? 0.
End server.

(** ** Lemmas on the handler *)
Definition with_gw (s : nd_state) (g : stream) : nd_state :=
  {| nd_gw := g; nd_target := nd_target s; nd_dialed := nd_dialed s; nd_counters := nd_counters s |}.

Lemma on_gw_run {A} (c : SM NodeError stream A) s r g' :
  c (nd_gw s) = (r, g') → on_gw c s = (r, with_gw s g').
Proof. unfold on_gw. by intros ->. Qed.

(** The handler in terms of the shared session code. *)
Lemma run_with_ctx_shared `{EV : NodeEnv} ctx :
  run_with_ctx ctx =
  (let! request := on_gw (accept_connect (nc_auth ctx)) in
   let! _ := connect_target (addr request) in
   let! bytes := m_lift (reply_bytes REPLY_SUCCESS) in
   let! _ := on_gw (write_all_timeout bytes) in
   splice).
Proof. reflexivity. Qed.

(** [copy_bidirectional], as in the gateway. *)
Class NodeNetwork (EV : NodeEnv) : Prop := {
  node_copy_complete g t up down g' t' :
    node_copy g t = (Copied up down, g', t') →
    s_out g' = s_out g ++ s_in t ∧ s_out t' = s_out t ++ s_in g ∧
    up = Z.of_nat (length (s_in g)) ∧ down = Z.of_nat (length (s_in t))
}.

Lemma node_serves {EV : NodeEnv} {NW : NodeNetwork EV} ctx s g rsv r payload t :
  Greeting_ok g = true → offered g (method_of (nc_auth ctx)) = true →
  (∀ u p, nc_auth ctx = Some (u, p) → Credentials_ok {| username := u; password := p |} = true) →
  command r = Connect → Request_ok r = true → can_write (nd_gw s) →
  s_in (nd_gw s) = greeting_wire g ++ credentials_wire (nc_auth ctx) ++ request_wire rsv r ++ payload →
  dial_target (SocksAddr_to_string (addr r)) = Dialed t →
  (∀ g t, ∃ up down g2 t2, node_copy g t = (Copied up down, g2, t2)) →
  ∃ s', run_with_ctx ctx s = (Ok tt, s') ∧ nd_dialed s' = nd_dialed s ++ [SocksAddr_to_string (addr r)] ∧
    s_out (nd_gw s') = s_out (nd_gw s) ++ preamble_replies (nc_auth ctx) ++
      reply_wire Byte.x00 reply_success ++ s_in t ∧
    (∃ t', nd_target s' = Some t' ∧ s_out t' = s_out t ++ payload) ∧
    nd_counters s' = record_bytes (Z.of_nat (length payload)) (Z.of_nat (length (s_in t))) (nd_counters s).
Proof.
  intros Hg Ho Hcred Hcmd Hok Hw Hin Hdial Hcopy.
  destruct (accept_connect_ok (E := NodeError) _ _ _ _ _ _ Hg Ho Hcred Hcmd Hok Hw Hin)
    as (g' & Ha & Ig & _ & Wg & Og).
  rewrite run_with_ctx_shared, (m_bind_run _ _ _ _ _ (on_gw_run _ _ _ _ Ha)).
  erewrite m_bind_run by (unfold connect_target; cbv zeta; by rewrite Hdial).
  erewrite m_bind_run by (unfold m_lift; by rewrite reply_bytes_ok).
  destruct (write_all_ok (E := NodeError) (reply_wire Byte.x00 (simple_reply REPLY_SUCCESS)) g' Wg) as [Hwr _].
  erewrite m_bind_run by (apply on_gw_run; exact Hwr).
  destruct (Hcopy (wrote g' (reply_wire Byte.x00 (simple_reply REPLY_SUCCESS))) t) as (up & down & g2 & t2 & Hc).
  destruct (node_copy_complete _ _ _ _ _ _ Hc) as (Og2 & Ot2 & -> & ->).
  unfold splice, with_gw. cbn [nd_target nd_gw]. rewrite Hc.
  eexists. split; [done|]. cbn. split_and!; [done| | |].
  - rewrite Og2. cbn. by rewrite Og, <- !app_assoc.
  - exists t2. split; [done|]. rewrite Ot2. cbn. by rewrite Ig.
  - by rewrite Ig.
Qed.

(** ** No session panics, and every session is counted *)
Section accounting.
Context `{EV : NodeEnv}.

Lemma on_gw_counters {A} (c : SM NodeError stream A) s :
  (on_gw c s).1 = (c (nd_gw s)).1 ∧ nd_counters (on_gw c s).2 = nd_counters s ∧
  nd_target (on_gw c s).2 = nd_target s.
Proof. unfold on_gw. by destruct (c (nd_gw s)). Qed.

Lemma reject_target_run (e : NodeError) code s :
  ∃ s', (let! _ := on_gw (node_try_reply code) in m_err (A := unit) e) s = (Err e, s') ∧
    nd_counters s' = nd_counters s.
Proof.
  rewrite replied_as_shared. destruct (on_gw_counters (try_reply code) s) as (Hr & Hc & _). unfold m_bind.
  unfold try_reply in Hr at 2. rewrite reply_bytes_ok in Hr.
  destruct (on_gw (try_reply code) s) as [[u|e'|] s']; cbn [fst snd] in *; [by exists s'|done|done].
Qed.

Lemma connect_target_run target s :
  match connect_target target s with
  | (Ok _, s') => nd_counters s' = nd_counters s ∧ is_Some (nd_target s')
  | (Err _, s') => nd_counters s' = nd_counters s
  | (Panic, _) => False
  end.
Proof.
  unfold connect_target. cbv zeta. destruct (dial_target (SocksAddr_to_string target)) as [t|e|]; [split; [done|by eexists]|..];
    (edestruct reject_target_run as (s' & -> & Hc); exact Hc).
Qed.

(** A whole session: it does not panic; it only ever counts bytes. *)
Lemma node_run_counts ctx s :
  match run_with_ctx ctx s with
  | (Ok _, s') => ∃ up down, nd_counters s' = record_bytes up down (nd_counters s)
  | (Err _, s') => nd_counters s' = nd_counters s
  | (Panic, _) => False
  end.
Proof.
  rewrite run_with_ctx_shared. destruct (on_gw_counters (accept_connect (nc_auth ctx)) s) as (Hr & Hc & _).
  pose proof (accept_connect_safe (E := NodeError) (nc_auth ctx) (nd_gw s)) as Hs. unfold m_bind at 1.
  destruct (on_gw _ s) as [[r|e|] s1]; cbn [fst snd] in *; [|done|congruence].
  pose proof (connect_target_run (addr r) s1) as Ht. unfold m_bind at 1.
  destruct (connect_target (addr r) s1) as [[[]|e|] s2]; [|by rewrite Ht, Hc|done].
  destruct Ht as [Hc2 [t Ht]]. erewrite m_bind_run by (unfold m_lift; by rewrite reply_bytes_ok).
  match goal with |- context [write_all_timeout ?b] => set (w := write_all_timeout b) end.
  destruct (on_gw_counters w s2) as (Hr3 & Hc3 & Ht3).
  assert (Hs3 : m_safe w) by apply write_all_safe. specialize (Hs3 (nd_gw s2)). unfold m_bind.
  destruct (on_gw w s2) as [[u|e|] s3]; cbn [fst snd] in *; [|congruence|congruence].
  unfold splice. rewrite Ht3, Ht.
  destruct (node_copy (nd_gw s3) t) as [[[up down|e|] g2] t2]; cbn.
  - exists up, down. congruence.
  - exists 0, 0. rewrite Hc3, Hc2, Hc. destruct (nd_counters s). unfold record_bytes, bump. cbn. f_equal; lia.
  - exists 0, 0. rewrite Hc3, Hc2, Hc. destruct (nd_counters s). unfold record_bytes, bump. cbn. f_equal; lia.
Qed.
End accounting.

(** ** The server invariant *)

(** Permits are conserved, the counter is the number of tasks in the handler,
    and nothing adds to the byte statistics. *)
Record server_inv (max : nat) (s : node_server) : Prop := {
  inv_permits : permits_inv max s;
  inv_active : st_active (sv_shared s) = Z.of_nat (sum_conns in_handler (sv_conns s));
  inv_bytes : st_bytes_up (sv_shared s) = 0 ∧ st_bytes_down (sv_shared s) = 0
}.

Lemma server_inv_active max s :
  server_inv max s → 0 <= st_active (sv_shared s) <= Z.of_nat max.
Proof.
  intros [Hp Ha _]. unfold permits_inv in Hp. pose proof (sum_conns_mono (sv_conns s)). lia.
Qed.

(** The counter follows the tasks into and out of the handler. *)
Lemma active_move (s : node_server) p st (i : nat) c c' :
  st_active (sv_shared s) = Z.of_nat (sum_conns in_handler (sv_conns s)) →
  sv_conns s !! i = Some c →
  st_active st + Z.of_nat (in_handler c) = st_active (sv_shared s) + Z.of_nat (in_handler c') →
  st_active (sv_shared (move s p st i c')) = Z.of_nat (sum_conns in_handler (sv_conns (move s p st i c'))).
Proof.
  intros Ha Hi Haa. pose proof (sum_conns_insert in_handler _ _ _ c' Hi).
  cbn [move sv_conns sv_shared]. lia.
Qed.

(** A task past the check holds a permit: the counter has room for it. *)
Lemma checked_room max s (i : nat) :
  server_inv max s → sv_conns s !! i = Some CChecked → st_active (sv_shared s) < Z.of_nat max.
Proof.
  intros [Hp Ha _] Hi. unfold permits_inv in Hp.
  pose proof (sum_conns_insert holds_permit _ _ _ CDone Hi).
  pose proof (sum_conns_insert in_handler _ _ _ CDone Hi).
  pose proof (sum_conns_mono (<[i := CDone]> (sv_conns s))). cbn in *. lia.
Qed.

Lemma active_positive max s (i : nat) :
  server_inv max s → sv_conns s !! i = Some CActive → 1 <= st_active (sv_shared s).
Proof.
  intros [_ Ha _] Hi. pose proof (sum_conns_insert in_handler _ _ _ CDone Hi) as Hx. cbn in Hx. lia.
Qed.

Lemma server_inv_step cfg s e s' :
  Z.of_nat (cfg_max_connections cfg) < U32_MOD →
  server_inv (cfg_max_connections cfg) s → server_step cfg s e s' → server_inv (cfg_max_connections cfg) s'.
Proof.
  intros Hmax Hinv Hs. pose proof (server_inv_active _ _ Hinv) as Hact.
  pose proof Hinv as [Hpm Ha Hb]. destruct Hs as [s s' Hs|s]; [|by split].
  split; [by eapply permits_step| |].
  - destruct Hs as [s _|s _|s _ _|s i p Hi _|s i Hi _|s i Hi _|s i Hi|s i Hi|s i Hi];
      try (eapply active_move; [done|done|cbn; lia]); try done.
    + cbn [sv_shared sv_conns]. rewrite sum_conns_app. cbn. lia.
    + eapply active_move; [done|done|]. pose proof (checked_room _ _ _ Hinv Hi).
      cbn. unfold as_u32. rewrite Z.mod_small; lia.
    + eapply active_move; [done|done|]. pose proof (active_positive _ _ _ Hinv Hi).
      cbn. unfold as_u32. rewrite Z.mod_small; lia.
  - by destruct Hs.
Qed.

Lemma server_inv_reachable cfg s :
  Z.of_nat (cfg_max_connections cfg) < U32_MOD → server_reachable cfg s →
  server_inv (cfg_max_connections cfg) s.
Proof.
  intros Hmax. induction 1 as [|s e s' _ IH Hs]; [split; [unfold permits_inv; cbn; lia|done|done]|].
  by eapply server_inv_step.
Qed.

(** ** Properties *)

(** Every session of the node is accounted for: whatever the gateway, the
    target and the network do, the handler does not panic, counts the connection
    once, leaves the gauge of active connections as it found it, and counts an
    error exactly when the session fails before the relay. *)
Theorem node_sessions_accounted (EV : NodeEnv) (ctx : NodeContext) (s : nd_state) :
  let opened := {| nd_gw := nd_gw s; nd_target := nd_target s; nd_dialed := nd_dialed s;
                   nd_counters := record_connection_opened (nd_counters s) |} in
  let c := nd_counters s in
  let c' := nd_counters (handle_connection ctx s) in
  node_connections_total c' = node_connections_total c + 1 ∧
  node_active_connections c' = node_active_connections c ∧
  match (run_with_ctx ctx opened).1 with
  | Ok _ => node_connection_errors_total c' = node_connection_errors_total c
  | Err _ => node_connection_errors_total c' = node_connection_errors_total c + 1 ∧
             node_bytes_up_total c' = node_bytes_up_total c ∧
             node_bytes_down_total c' = node_bytes_down_total c
  | Panic => False
  end.
Proof.
  cbv zeta. unfold handle_connection, count. cbn [snd nd_gw nd_target nd_dialed nd_counters].
  match goal with |- context [run_with_ctx ctx ?o] => pose proof (node_run_counts ctx o) as Hr end.
  destruct (run_with_ctx ctx _) as [[u|e|] s']; cbn in *; [|rewrite Hr; cbn; split_and!; lia|done].
  destruct Hr as (up & down & ->). cbn. split_and!; lia.
Qed.

(** The node agent's accept loop: under every interleaving of accepts,
    permits, shutdown, handler starts and ends and heartbeats, at most
    [max_connections] tasks are in the handler, and every heartbeat reports
    exactly their number (below the registered ceiling), no bytes, no latency
    and the configured bandwidth: the byte statistics are never written. *)
Theorem heartbeats_report_load (cfg : NodeConfig) (s s' : node_server) (hb : HeartbeatPayload) :
  is_u32 (Z.of_nat (cfg_max_connections cfg)) = true → server_reachable cfg s →
  server_step cfg s (EvHeartbeat hb) s' →
  hp_active_connections hb = Z.of_nat (sum_conns in_handler (sv_conns s)) ∧
  0 <= hp_active_connections hb <= rp_max_connections (register_payload cfg) ∧
  hp_bytes_up hb = 0 ∧ hp_bytes_down hb = 0 ∧ hp_latency_ms hb = 0 ∧
  hp_available_bandwidth hb = cfg_bandwidth_limit cfg.
Proof.
  unfold is_u32. rewrite andb_true_iff, Z.ltb_lt. intros [_ Hmax] Hr Hs.
  pose proof (server_inv_reachable cfg s Hmax Hr) as Hinv.
  pose proof (server_inv_active _ _ Hinv) as Hact. destruct Hinv as [_ Ha [Hu Hd]].
  inversion Hs; subst. cbn. unfold as_u32. rewrite Z.mod_small by lia.
  split_and!; done || lia.
Qed.

Definition sample_config : NodeConfig :=
  {| cfg_node_id := "n1"; cfg_control_plane_url := "http://control-plane:8080"; cfg_api_token := None;
     cfg_bind_addr := "0.0.0.0:20001"; cfg_advertised_address := Some "node-1:20001";
     cfg_bandwidth_limit := default_bandwidth_limit; cfg_max_connections := 2;
     cfg_heartbeat_interval := default_heartbeat_interval; cfg_upstream_timeout := default_upstream_timeout;
     cfg_logging := LoggingConfig_default |}.

Lemma heartbeats_report_load_witness :
  ∃ hb s', server_step sample_config
      {| sv_permits := 1; sv_shared := add_active 1 NodeStats_new; sv_conns := [CActive];
         sv_cancelled := false; sv_accepting := true |} (EvHeartbeat hb) s' ∧
    hp_active_connections hb = 1.
Proof.
  eexists _, _. split; [apply ss_heartbeat|].
  eapply (heartbeats_report_load sample_config {| sv_permits := 1; sv_shared := add_active 1 NodeStats_new;
    sv_conns := [CActive]; sv_cancelled := false; sv_accepting := true |});
    [reflexivity| |apply ss_heartbeat].
  eapply sr_step; [eapply sr_step; [eapply sr_step; [eapply sr_step; [apply sr_init|]|]|]|].
  - by apply ss_task, as_accept.
  - by apply ss_task, (as_acquire _ _ _ 0 1).
  - by apply ss_task, (as_check _ _ _ 0).
  - apply ss_task. exact (as_open _ _ {| sv_permits := 1; sv_shared := NodeStats_new; sv_conns := [CChecked];
      sv_cancelled := false; sv_accepting := true |} 0 eq_refl).
Defined.
