(* ===== verification/SameSession.v ===== *)
(** * The two handlers accept the same clients

    The gateway and the node agent each have a copy of the code that accepts a
    [CONNECT]. Their error types differ; [agree] relates two stateful
    computations that differ only in that, and is preserved by every
    construct the handlers are made of. *)

From stdpp Require Import base tactics decidable numbers list strings.
From Stdlib Require Import ZArith Lia Strings.Byte.
From S2P Require Import Prelude RustStd Constants Reader Host Request Handshake Auth Reply Session.
From S2P Require Import Gateway NodeHandler.

(** The same error, in the two types. *)
Inductive same_error : GatewayError → NodeError → Prop :=
| same_protocol m : same_error (GProtocol m) (NProtocol m)
| same_timeout m : same_error (GTimeout m) (NTimeout m)
| same_io e : same_error (GIo e) (NIo e).

Definition same_outcome {A} (o : outcome GatewayError A) (o' : outcome NodeError A) : Prop :=
  match o, o' with
  | Ok a, Ok a' => a = a'
  | Err e, Err e' => same_error e e'
  | Panic, Panic => True
  | _, _ => False
  end.

(** The same result, and the same effect on the stream. *)
Definition agree {A} (c : SM GatewayError stream A) (c' : SM NodeError stream A) : Prop :=
  ∀ s, same_outcome (c s).1 (c' s).1 ∧ (c s).2 = (c' s).2.

Create HintDb agree discriminated.

Lemma agree_ret {A} (a : A) : agree (m_ret a) (m_ret a).
Proof. done. Qed.

Lemma agree_protocol {A} m : agree (A := A) (m_err (e_protocol m)) (m_err (NProtocol m)).
Proof. split; [constructor|done]. Qed.

Lemma agree_bind {A B} (c : SM GatewayError stream A) c' (k : A → SM GatewayError stream B) k' :
  agree c c' → (∀ a, agree (k a) (k' a)) → agree (m_bind c k) (m_bind c' k').
Proof.
  intros Hc Hk s. destruct (Hc s) as [Ho Hs]. unfold m_bind.
  destruct (c s) as [[a|e|] s1], (c' s) as [[a'|e'|] s1']; cbn in *; subst; try done. by apply Hk.
Qed.

Lemma agree_if {A} (b : bool) (c d : SM GatewayError stream A) c' d' :
  agree c c' → agree d d' → agree (if b then c else d) (if b then c' else d').
Proof. by destruct b. Qed.

Lemma agree_lift {A} (o : outcome GatewayError A) o' : same_outcome o o' → agree (m_lift o) (m_lift o').
Proof. by split. Qed.

Lemma same_parse {A} (o : outcome ProtocolError A) :
  same_outcome (map_err (λ e, e_protocol (OfProtocol e)) o) (map_err (λ e, NProtocol (OfProtocol e)) o).
Proof. destruct o; [done|constructor|done]. Qed.

Lemma same_fst {A B} (o : outcome GatewayError (A * B)) o' :
  same_outcome o o' → same_outcome (omap_ok fst o) (omap_ok fst o').
Proof. destruct o, o'; cbn; try done. by intros ->. Qed.

Lemma same_ok_or {A} (o : option A) m :
  same_outcome (ok_or o (e_protocol m)) (ok_or o (NProtocol m)).
Proof. destruct o; [done|constructor]. Qed.

Lemma agree_byte l i : agree (byte_at l i) (byte_at l i).
Proof. apply agree_lift. unfold slice_index. by destruct (l !! i). Qed.

Lemma agree_read n : agree (read_exact_timeout n) (node_read_exact_timeout n).
Proof.
  intros s. unfold read_exact_timeout, node_read_exact_timeout. destruct (n <=? length (s_in s))%nat; [done|].
  destruct (s_eof s); split; try done; constructor.
Qed.

Lemma agree_write data : agree (write_all_timeout data) (node_write_all_timeout data).
Proof.
  intros s. unfold write_all_timeout, node_write_all_timeout.
  destruct (head (s_faults s)) as [[[]|]|]; split; try done; constructor.
Qed.

#[export] Hint Resolve agree_ret agree_protocol agree_bind agree_if agree_byte agree_read agree_write
  agree_lift same_parse same_fst same_ok_or : agree.

Lemma agree_try_reply code : agree (try_reply code) (node_try_reply code).
Proof.
  intros s. unfold try_reply, node_try_reply. unfold node_reply_bytes. rewrite reply_bytes_ok.
  change (Reply_to_bytes (simple_reply code)) with (reply_bytes (E := NodeError) code). rewrite reply_bytes_ok.
  split; [done|]. apply agree_write.
Qed.
#[export] Hint Resolve agree_try_reply : agree.

Lemma agree_greeting : agree read_greeting node_read_greeting.
Proof. unfold read_greeting, node_read_greeting. eauto 10 with agree. Qed.

Lemma agree_auth auth : agree (handle_user_pass_auth auth) (node_handle_user_pass_auth auth).
Proof. unfold handle_user_pass_auth, node_handle_user_pass_auth. eauto 40 with agree. Qed.

Lemma agree_request : agree read_request node_read_request.
Proof. unfold read_request, node_read_request. eauto 20 with agree. Qed.
#[export] Hint Resolve agree_greeting agree_auth agree_request : agree.

(** ** Properties *)

(** The gateway and the node treat a client alike: with the same
    credentials configured, on the same stream, they read and write the same
    bytes, and accept the same request or fail with the same error, whatever
    the client sends, closes or stalls and whichever writes fail. *)
Theorem handlers_accept_alike (auth : option (string * string)) (s : stream) :
  same_outcome (accept_connect (E := GatewayError) auth s).1 (node_accept_connect auth s).1 ∧
  (accept_connect (E := GatewayError) auth s).2 = (node_accept_connect auth s).2.
Proof.
  revert s. change (agree (accept_connect (E := GatewayError) auth) (node_accept_connect auth)).
  unfold accept_connect, node_accept_connect. eauto 20 with agree.
Qed.
