(* ===== verification/Chain.v ===== *)
(** * The proxy chain, end to end

    A client, a gateway, a node and a target. The gateway and the node are the
    two handlers; the streams between them are glued: what one writes is what
    the other reads. *)

From stdpp Require Import base tactics decidable numbers list strings.
From Stdlib Require Import ZArith Lia Strings.Byte.
From S2P Require Import Prelude RustStd Constants Reader Host Display Request Handshake Auth Reply Session.
From S2P Require Import Gateway NodeAgent.

(** What the gateway says is what the node expects. *)
Lemma chain_wire_frames dest :
  chain_wire dest = greeting_wire {| methods := [METHOD_NO_AUTH] |} ++ credentials_wire None ++
                    request_wire Byte.x00 {| command := Connect; addr := dest |}.
Proof. done. Qed.

Definition fresh_node (input : list u8) : nd_state :=
  {| nd_gw := fresh_stream input; nd_target := None; nd_dialed := [];
     nd_counters := mkNodeCounters 0 0 0 0 0 0 0 |}.

Definition fresh_session (input : list u8) : gw_state :=
  {| gw_client := fresh_stream input; gw_node := None; gw_dialed := [];
     gw_counters := zero_counters |}.

Lemma node_stage {NE : NodeEnv} {NN : NodeNetwork NE} dest payload t :
  Request_ok {| command := Connect; addr := dest |} = true → dial_target (SocksAddr_to_string dest) = Dialed t →
  (∀ g t, ∃ up down g2 t2, node_copy g t = (Copied up down, g2, t2)) →
  ∃ s', NodeAgent.run_with_ctx server_context (fresh_node (chain_wire dest ++ payload)) = (Ok tt, s') ∧
    nd_dialed s' = [SocksAddr_to_string dest] ∧
    s_out (nd_gw s') = [VERSION; METHOD_NO_AUTH] ++ reply_wire Byte.x00 reply_success ++ s_in t ∧
    ∃ t', nd_target s' = Some t' ∧ s_out t' = s_out t ++ payload.
Proof.
  intros Hok Hdial Hcopy.
  destruct (node_serves server_context (fresh_node (chain_wire dest ++ payload))
    {| methods := [METHOD_NO_AUTH] |} Byte.x00 {| command := Connect; addr := dest |} payload t)
    as (s' & Hrun & Hd & Ho & Ht & _); try done.
  - constructor.
  - exists s'. split_and!; [done|by rewrite Hd| |done]. rewrite Ho. done.
Qed.

(** ** Properties *)

(** (C1) End to end: a client that authenticates as configured and asks to
    connect to [dest] is connected to [dest]. The node dials exactly the
    destination the client named, the target receives exactly the payload the
    client sent after its request, and the client receives the handshake
    replies and then exactly the data the target sent; the bytes the gateway
    writes to the node are those the node was run on. *)
Theorem proxy_end_to_end (GE : GatewayEnv) (GN : GatewayNetwork GE) (NE : NodeEnv) (NN : NodeNetwork NE)
    (ctx : GatewayContext) (node : RemoteNode) (g : Greeting) (rsv : u8) (dest : SocksAddr)
    (payload : list u8) (t : stream) :
  let r := {| command := Connect; addr := dest |} in
  Greeting_ok g = true → offered g (method_of (ctx_auth ctx)) = true →
  (∀ u p, ctx_auth ctx = Some (u, p) → Credentials_ok {| username := u; password := p |} = true) →
  Request_ok r = true → dial_target (SocksAddr_to_string dest) = Dialed t →
  (∀ g t, ∃ up down g2 t2, node_copy g t = (Copied up down, g2, t2)) →
  (∀ c n, ∃ up down c2 n2, copy_bidirectional c n = (Copied up down, c2, n2)) →
  cp_answer = Some (HttpResponse 200 (Some (rn_id node, rn_forward_address node))) →
  ∃ sn, NodeAgent.run_with_ctx server_context (fresh_node (chain_wire dest ++ payload)) = (Ok tt, sn) ∧
    nd_dialed sn = [SocksAddr_to_string dest] ∧ (∃ t', nd_target sn = Some t' ∧ s_out t' = s_out t ++ payload) ∧
    (dial_node (rn_forward_address node) = Dialed (fresh_stream (s_out (nd_gw sn))) →
     ∃ sg, Gateway.run_with_ctx ctx
             (fresh_session (greeting_wire g ++ credentials_wire (ctx_auth ctx) ++ request_wire rsv r ++ payload))
           = (Ok tt, sg) ∧
       (∃ n, gw_node sg = Some n ∧ s_out n = chain_wire dest ++ payload) ∧
       s_out (gw_client sg) =
         preamble_replies (ctx_auth ctx) ++ reply_wire Byte.x00 reply_success ++ s_in t).
Proof.
  intros r Hg Ho Hcred Hok Hdial Hcn Hcg Hcp.
  destruct (node_stage dest payload t Hok Hdial Hcn) as (sn & Hrun & Hd & Hout & Ht).
  exists sn. split_and!; [done|done|done|]. intros Hdn.
  destruct (gateway_serves ctx (fresh_session (greeting_wire g ++ credentials_wire (ctx_auth ctx) ++
      request_wire rsv r ++ payload)) node (fresh_stream (s_out (nd_gw sn))) g rsv Byte.x00 r reply_success
      payload (s_in t)) as (sg & Hg1 & _ & Hcl & Hnode & _); try done; try constructor.
  exists sg. split_and!; [exact Hg1|exact Hnode|exact Hcl].
Qed.

(** A network in which the node and the target are as described. *)
Definition sample_target : stream := fresh_stream [Byte.x48; Byte.x49].
Definition sample_node_env : NodeEnv :=
  {| dial_target _ := Dialed sample_target; node_copy := copy_all |}.

Lemma sample_node_network : NodeNetwork sample_node_env.
Proof. split. by intros g t up down g' t' [= <- <- <- <-]. Qed.

Definition sample_reply_bytes : list u8 :=
  [VERSION; METHOD_NO_AUTH] ++ reply_wire Byte.x00 reply_success ++ [Byte.x48; Byte.x49].

Lemma proxy_end_to_end_witness :
  ∃ sg, @Gateway.run_with_ctx (sample_net sample_answer (Dialed (fresh_stream sample_reply_bytes)))
          (sample_ctx None)
          (fresh_session (greeting_wire {| methods := [METHOD_NO_AUTH] |} ++
             request_wire Byte.x00 example_request ++ [Byte.x47])) = (Ok tt, sg) ∧
    s_out (gw_client sg) =
      preamble_replies None ++ reply_wire Byte.x00 reply_success ++ [Byte.x48; Byte.x49].
Proof.
  destruct (proxy_end_to_end (sample_net sample_answer (Dialed (fresh_stream sample_reply_bytes)))
    (sample_network _ _) sample_node_env sample_node_network (sample_ctx None)
    {| rn_id := "n1"; rn_forward_address := "node-1:20001" |} {| methods := [METHOD_NO_AUTH] |} Byte.x00
    (addr example_request) [Byte.x47] sample_target) as (sn & Hrun & _ & _ & Hgw);
    [reflexivity|vm_compute; reflexivity|discriminate|vm_compute; reflexivity|reflexivity
    |intros c n; do 4 eexists; reflexivity|intros c n; do 4 eexists; reflexivity|reflexivity|].
  assert (Hsn : s_out (nd_gw sn) = sample_reply_bytes).
  { assert (E : sn = (@NodeAgent.run_with_ctx sample_node_env server_context
      (fresh_node (chain_wire (addr example_request) ++ [Byte.x47]))).2) by (rewrite Hrun; reflexivity).
    rewrite E. vm_compute. reflexivity. }
  destruct Hgw as (sg & H1 & _ & H2); [rewrite Hsn; reflexivity|].
  exists sg. split; [exact H1|exact H2].
Defined.
