(* ===== verification/Timed.v ===== *)
(** * Sessions and their deadlines

    Every wait of the two connection handlers is under a [tokio::time::timeout]:
    the reads and writes of the handshakes ([read_exact_timeout],
    [write_all_timeout]), the request to the control plane, the dials and the
    relay. [Session], [Gateway] and [NodeAgent] say how such a wait can end;
    here the handlers of [crates/gateway/src/handler.rs] and
    [crates/node/src/handler.rs] are written out with the deadline of each wait.
    A session is a tree of waits ([prog]). [prun] forgets the deadlines, and what
    is left is the handler of the other files ([erases]); [timed] says how long a
    run takes when each wait ends within its deadline; [within] is a budget of
    time with what may be left of it in the end. *)

From stdpp Require Import base tactics decidable numbers list strings.
From Stdlib Require Import ZArith Lia Strings.Byte.
From S2P Require Import Prelude RustStd Config Client Constants Reader Host Display Request Handshake Auth Reply Session.
From S2P Require Import Gateway NodeHandler NodeAgent Chain.

(** ** Programs with deadlines *)
Inductive prog (E S A : Type) : Type :=
| Done (o : outcome E A)
| Await {B : Type} (deadline : Z) (c : SM E S B) (k : outcome E B → prog E S A).
Arguments Done {E S A}.
Arguments Await {E S A B}.

Section prog.
Context {E S : Type}.

(** [let x = p.await?; f] *)
Fixpoint pbind {A B} (p : prog E S A) (f : A → prog E S B) : prog E S B :=
  match p with
  | Done (Ok a) => f a
  | Done (Err e) => Done (Err e)
  | Done Panic => Done Panic
  | Await d c k => Await d c (λ r, pbind (k r) f)
  end.

(** [timeout(deadline, c).await?] *)
Definition await_within {A} (deadline : Z) (c : SM E S A) : prog E S A := Await deadline c Done.

(** What a program does, the time apart. *)
Fixpoint prun {A} (p : prog E S A) (s : S) : outcome E A * S :=
  match p with
  | Done o => (o, s)
  | Await _ c k => let '(r, s') := c s in prun (k r) s'
  end.

(** How long it takes: each wait ends within its deadline, and computation in
    between takes no time. *)
Inductive timed {A} : prog E S A → S → Z → outcome E A * S → Prop :=
| t_done o s : timed (Done o) s 0 (o, s)
| t_await B d (c : SM E S B) k s dt t res :
    0 <= dt <= d → timed (k (c s).1) (c s).2 t res → timed (Await d c k) s (dt + t) res.

(** The time of a run in which each wait takes all of its deadline. *)
Fixpoint longest {A} (p : prog E S A) (s : S) : Z :=
  match p with
  | Done _ => 0
  | Await d c k => d + let '(r, s') := c s in longest (k r) s'
  end.

(** From a budget of [t], whatever the waits return, a run that ends in [o]
    leaves a budget that [Q o] allows. *)
Fixpoint within {A} (p : prog E S A) (t : Z) (Q : outcome E A → Z → Prop) : Prop :=
  match p with
  | Done o => Q o t
  | Await d _ k => 0 <= d ∧ ∀ r, within (k r) (t - d) Q
  end.

Lemma timed_run {A} (p : prog E S A) s t res : timed p s t res → res = prun p s.
Proof. induction 1 as [|B d c k s dt t res _ _ IH]; [done|]. cbn. by destruct (c s). Qed.

Lemma timed_within {A} (p : prog E S A) s t res T :
  timed p s t res → within p T (λ _ left, 0 <= left) → 0 <= t <= T.
Proof.
  intros Ht. revert T. induction Ht as [o s|B d c k s dt t res Hd _ IH]; intros T HT; [done|].
  destruct HT as [_ HT]. specialize (IH _ (HT _)). lia.
Qed.

(** A program within a budget can be run to its end, and [longest] is the time
    the slowest run takes. *)
Lemma timed_longest {A} (p : prog E S A) s T Q : within p T Q → timed p s (longest p s) (prun p s).
Proof.
  revert s T. induction p as [o|B d c k IH]; intros s T Hp; [constructor|]. destruct Hp as [Hd Hk].
  specialize (IH (c s).1 (c s).2 _ (Hk _)). cbn. destruct (c s) as [r s'] eqn:Hc. cbn in IH.
  constructor; [lia|]. by rewrite Hc.
Qed.

Lemma timed_le_longest {A} (p : prog E S A) s t res : timed p s t res → t <= longest p s.
Proof. induction 1 as [|B d c k s dt t res Hd _ IH]; [done|]. cbn. destruct (c s). cbn in IH. lia. Qed.

Lemma within_mono {A} (p : prog E S A) t (Q Q' : outcome E A → Z → Prop) :
  within p t Q → (∀ o t', Q o t' → Q' o t') → within p t Q'.
Proof.
  revert t. induction p as [o|B d c k IH]; intros t Hp HQ; cbn in *; [auto|].
  destruct Hp as [Hd Hk]. split; [done|]. intros r. by apply IH.
Qed.

(** What follows a program has what the program leaves. *)
Definition and_then {A B} (f : A → prog E S B) (Q : outcome E B → Z → Prop) (o : outcome E A) (t : Z) : Prop :=
  match o with
  | Ok a => within (f a) t Q
  | Err e => Q (Err e) t
  | Panic => Q Panic t
  end.

Lemma within_bind {A B} (p : prog E S A) (f : A → prog E S B) t Q :
  within p t (and_then f Q) → within (pbind p f) t Q.
Proof.
  revert t. induction p as [[a|e|]|C d c k IH]; intros t Hp; cbn in *; try done.
  destruct Hp as [Hd Hk]. split; [done|]. auto.
Qed.

Lemma within_if {A} (b : bool) (p q : prog E S A) t Q :
  within p t Q → within q t Q → within (if b then p else q) t Q.
Proof. by destruct b. Qed.

(** ** Erasing the deadlines *)
Definition erases {A} (p : prog E S A) (c : SM E S A) : Prop := ∀ s, prun p s = c s.

Lemma erases_done {A} (o : outcome E A) : erases (Done o) (m_lift o).
Proof. done. Qed.

Lemma erases_await {A} d (c : SM E S A) : erases (await_within d c) c.
Proof. intros s. cbn. by destruct (c s). Qed.

Lemma prun_bind {A B} (p : prog E S A) (f : A → prog E S B) s :
  prun (pbind p f) s = m_bind (prun p) (λ a, prun (f a)) s.
Proof.
  unfold m_bind. revert s. induction p as [[a|e|]|C d c k IH]; intros s; cbn; try done. destruct (c s). apply IH.
Qed.

Lemma erases_bind {A B} p (c : SM E S A) (f : A → prog E S B) k :
  erases p c → (∀ a, erases (f a) (k a)) → erases (pbind p f) (m_bind c k).
Proof.
  intros Hp Hf s. rewrite prun_bind. unfold m_bind. rewrite Hp. destruct (c s) as [[a| |] s']; [apply Hf|done..].
Qed.

Lemma erases_if {A} (b : bool) (p q : prog E S A) c d :
  erases p c → erases q d → erases (if b then p else q) (if b then c else d).
Proof. by destruct b. Qed.
End prog.

(** [let^ x := p in k] is [let x = p.await?; k], with the deadlines of [p]. *)
Notation "'let^' x ':=' p 'in' k" := (pbind p (λ x, k))
  (at level 10, x name, p at level 200, k at level 200) : rust_scope.

Create HintDb erases discriminated.
#[export] Hint Resolve erases_done erases_await erases_bind erases_if : erases.
#[export] Hint Extern 1 (erases (Done (Ok _)) (m_ret _)) => apply erases_done : erases.
#[export] Hint Extern 1 (erases (Done (Err _)) (m_err _)) => apply erases_done : erases.
#[export] Hint Extern 1 (erases (Done _) (byte_at _ _)) => apply erases_done : erases.

(** ** Waiting on a part of the state *)
Section lift.
Context {E S T : Type} (lift : ∀ B, SM E S B → SM E T B) (P : T → Prop).

(** [lift] runs code on a part of the state that is there in the states of [P]. *)
Class Lifts : Prop := {
  lift_done {B} (o : outcome E B) t : P t → lift B (λ s, (o, s)) t = (o, t);
  lift_seq {B C} (c : SM E S B) (k : outcome E B → SM E S C) t :
    P t → lift C (λ s, let '(r, s') := c s in k r s') t = let '(r, t') := lift B c t in lift C (k r) t';
  lift_keeps {B} (c : SM E S B) t : P t → P (lift B c t).2;
  lift_ext {B} (c c' : SM E S B) t : (∀ s, c s = c' s) → lift B c t = lift B c' t
}.

Fixpoint plift {A} (p : prog E S A) : prog E T A :=
  match p with
  | Done o => Done o
  | Await d c k => Await d (lift _ c) (λ r, plift (k r))
  end.

Lemma plift_within {A} (p : prog E S A) t Q : within p t Q → within (plift p) t Q.
Proof. revert t. induction p as [o|B d c k IH]; intros t Hp; cbn in *; [done|]. destruct Hp. split; auto. Qed.

Lemma plift_run `{Lifts} {A} (p : prog E S A) t : P t → prun (plift p) t = lift A (prun p) t.
Proof.
  revert t. induction p as [o|B d c k IH]; intros t Ht; cbn; [by rewrite lift_done|].
  rewrite lift_seq by done. pose proof (lift_keeps c t Ht) as Hk. destruct (lift B c t) as [r t']. by apply IH.
Qed.

Lemma plift_erases `{Lifts} {A} (p : prog E S A) c t : erases p c → P t → prun (plift p) t = lift A c t.
Proof. intros Hp Ht. rewrite plift_run by done. by apply lift_ext. Qed.
End lift.

Ltac spend := cbn [within pbind await_within and_then plift].

(** A budget, step by step: a wait takes its deadline, a test goes both ways. *)
Ltac budget :=
  repeat first
    [ progress spend
    | match goal with
      | |- _ ∧ _ => split
      | |- ∀ _, _ => intros ?
      | |- context [match ?x with _ => _ end] => destruct x
      | |- within (pbind _ _) _ _ => apply within_bind
      end
    | lia | done ].

(** ** Accepting a client

    The code the two handlers share, with its [deadline] arguments. *)
Section session.
Context {E : Type} `{SessionError E} (dt : Z).

Abbreviation TIO := (prog E stream).

Definition timed_read (n : nat) : TIO (list u8) := await_within dt (read_exact_timeout n).
Definition timed_write (data : list u8) : TIO unit := await_within dt (write_all_timeout data).

(** [let _ = write_all_timeout(..).await] *)
Definition timed_try_reply (code : u8) : TIO unit :=
  let^ bytes := Done (reply_bytes code) in
  Await dt (write_all_timeout bytes) (λ _, Done (Ok tt)).

Definition timed_read_greeting : TIO Greeting :=
  let^ hdr := timed_read GREETING_HEADER_LEN in
  let^ n := Done (slice_index hdr 1) in
  let nmethods := u8_nat n in
  if (nmethods =? 0)%nat then Done (Err (e_protocol (Text "greeting: no methods"))) else
  let^ methods := timed_read nmethods in
  let buf := hdr ++ methods in
  Done (map_err (λ e, e_protocol (OfProtocol e)) (Greeting_parse buf)).

Definition timed_handle_user_pass_auth (auth : option (string * string)) : TIO unit :=
  let^ ver := timed_read 1 in
  let^ ver := Done (slice_index ver 0) in
  if negb (u8_eqb ver AUTH_VERSION) then Done (Err (e_protocol (WithByte "auth frame version" ver))) else
  let^ ulen := timed_read 1 in
  let^ ulen := Done (slice_index ulen 0) in
  let ulen := u8_nat ulen in
  if (ulen =? 0)%nat || (255 <? ulen)%nat
  then Done (Err (e_protocol (Text "invalid username length"))) else
  let^ uname := timed_read ulen in
  let^ plen := timed_read 1 in
  let^ plen := Done (slice_index plen 0) in
  let plen := u8_nat plen in
  let^ passwd := timed_read plen in
  let^ username := Done (ok_or (from_utf8 uname) (e_protocol (Text "invalid utf-8 in username"))) in
  let^ password := Done (ok_or (from_utf8 passwd) (e_protocol (Text "invalid utf-8 in password"))) in
  let ok := credentials_match auth username password in
  let status := if ok then AUTH_STATUS_SUCCESS else AUTH_STATUS_FAILURE in
  let^ _ := timed_write (auth_reply_bytes status) in
  if negb ok then Done (Err (e_protocol (Text "authentication failed"))) else Done (Ok tt).

Definition timed_read_request : TIO Request :=
  let^ hdr := timed_read REQUEST_HEADER_LEN in
  let^ atyp := Done (slice_index hdr 3) in
  let lift_len c := Done (map_err (λ e, e_protocol (OfProtocol e)) c) in
  let^ lens :=
    if u8_eqb atyp ATYP_DOMAIN then
      let^ len_byte := timed_read 1 in
      let^ len := Done (slice_index len_byte 0) in
      let^ total := lift_len (addr_len atyp (Some len)) in
      Done (Ok ((total - 1)%nat, Some len))
    else
      let^ total := lift_len (addr_len atyp None) in
      Done (Ok (total, None)) in
  let addr_buf_len := lens.1 in
  let domain_len := lens.2 in
  let^ addr_buf := timed_read addr_buf_len in
  let full := hdr ++ (match domain_len with Some len => [len] | None => [] end) ++ addr_buf in
  Done (omap_ok fst (map_err (λ e, e_protocol (OfProtocol e)) (Request_parse full))).

(** Steps 1 to 3 of [run_with_ctx]. *)
Definition timed_accept_connect (auth : option (string * string)) : TIO Request :=
  let^ greeting := timed_read_greeting in
  let allow_no_auth := match auth with None => true | Some _ => false end in
  let allow_user_pass := match auth with None => false | Some _ => true end in
  let m := negotiate greeting allow_user_pass allow_no_auth in
  let^ _ := timed_write (MethodSelection_to_bytes m) in
  if u8_eqb (method m) METHOD_NO_ACCEPTABLE
  then Done (Err (e_protocol (Text "no acceptable authentication method"))) else
  let^ _ := if u8_eqb (method m) METHOD_USER_PASS
            then timed_handle_user_pass_auth auth else Done (Ok tt) in
  let^ request := timed_read_request in
  if negb (bool_decide (command request = Connect)) then
    let^ _ := timed_try_reply REPLY_COMMAND_NOT_SUPPORTED in
    Done (Err (e_protocol (Text "unsupported command (only CONNECT is supported)")))
  else Done (Ok request).

Lemma try_reply_erases code : erases (timed_try_reply code) (try_reply code).
Proof. intros s. unfold timed_try_reply, try_reply. destruct (reply_bytes code); cbn; try done. by destruct (write_all_timeout _ s). Qed.
Hint Resolve try_reply_erases : erases.

Lemma accept_erases auth : erases (timed_accept_connect auth) (accept_connect auth).
Proof.
  unfold timed_accept_connect, accept_connect, timed_read_greeting, read_greeting, timed_handle_user_pass_auth,
    handle_user_pass_auth, timed_read_request, read_request, timed_read, timed_write, byte_at.
  cbv zeta. auto 60 with erases.
Qed.

Lemma greeting_takes t : 0 <= dt → within timed_read_greeting t (λ _ left, t - 2 * dt <= left).
Proof. intros Hd. unfold timed_read_greeting, timed_read. budget. Qed.

Lemma auth_takes auth t : 0 <= dt → within (timed_handle_user_pass_auth auth) t (λ _ left, t - 6 * dt <= left).
Proof. intros Hd. unfold timed_handle_user_pass_auth, timed_read, timed_write. budget. Qed.

Lemma request_takes t : 0 <= dt → within timed_read_request t (λ _ left, t - 3 * dt <= left).
Proof. intros Hd. unfold timed_read_request, timed_read. budget. Qed.

(** How many waits there are before a request. *)
Definition handshake_waits (auth : option (string * string)) : Z :=
  match auth with None => 6 | Some _ => 12 end.

(** Without credentials the username/password method is never chosen. *)
Lemma open_negotiation g : method (negotiate g false true) ≠ METHOD_USER_PASS.
Proof. unfold negotiate. by repeat case_match. Qed.

(** Six waits to a request, twelve with credentials, one more to refuse a
    command. *)
Lemma accept_takes auth t :
  0 <= dt →
  within (timed_accept_connect auth) t
    (λ o left, t - (handshake_waits auth + 1) * dt <= left ∧
       match o with Ok _ => t - handshake_waits auth * dt <= left | _ => True end).
Proof.
  intros Hd. unfold timed_accept_connect, timed_write. cbv zeta.
  assert (Hn : 6 <= handshake_waits auth) by (unfold handshake_waits; by destruct auth).
  apply within_bind. eapply within_mono; [by apply greeting_takes|]. intros [g| |] t1 H1; spend; [|nia..].
  split; [done|]. intros [u| |]; spend; [|nia..].
  set (m := negotiate _ _ _). apply within_if; [spend; nia|].
  apply within_bind. apply (within_mono _ _ (λ _ left, t1 - dt - (handshake_waits auth - 6) * dt <= left)).
  { destruct (u8_eqb (method m) METHOD_USER_PASS) eqn:Hm; [|spend; nia]. destruct auth as [c|].
    - by apply auth_takes.
    - apply u8_eqb_eq in Hm. by destruct (open_negotiation g). }
  intros [u'| |] t2 H2; spend; [|nia..].
  apply within_bind. eapply within_mono; [by apply request_takes|]. intros [r| |] t3 H3; spend; [|nia..].
  unfold timed_try_reply. apply within_if; [|spend; nia]. destruct (reply_bytes _); spend; try nia.
  split; [done|]. intros _. split; [nia|done].
Qed.
End session.

#[export] Hint Resolve try_reply_erases accept_erases : erases.

(** ** The gateway *)
Definition gw_client_lifts : Lifts (@on_client) (λ _, True).
Proof.
  split; unfold on_client.
  - by intros B o [].
  - intros B C c k [cl nd di co] _. cbn. by destruct (c cl).
  - done.
  - intros B c c' t Hc. by rewrite Hc.
Qed.

Definition gw_node_lifts : Lifts (@on_node) (λ s, is_Some (gw_node s)).
Proof.
  split; unfold on_node.
  - intros B o [cl nd di co] [n ?]. by simplify_eq/=.
  - intros B C c k [cl nd di co] [n ?]. simplify_eq/=. by destruct (c n).
  - intros B c [cl nd di co] [n ?]. simplify_eq/=. by destruct (c n).
  - intros B c c' t Hc. destruct (gw_node t); [by rewrite Hc|done].
Qed.
#[export] Existing Instances gw_client_lifts gw_node_lifts.

Section gateway.
Context `{GatewayEnv}.

Abbreviation TGW := (prog GatewayError gw_state).

Definition timed_chain (dest : SocksAddr) (dt : Z) : prog GatewayError stream unit :=
  let greeting := [VERSION; Byte.x01; Byte.x00] in
  let^ _ := timed_write dt greeting in
  let^ sel := timed_read dt 2 in
  let^ sel0 := Done (slice_index sel 0) in
  if negb (u8_eqb sel0 VERSION) then Done (Err (GProtocol (WithByte "node selection version" sel0))) else
  let^ sel1 := Done (slice_index sel 1) in
  if negb (u8_eqb sel1 METHOD_NO_AUTH)
  then Done (Err (GProtocol (WithByte "node rejected NO_AUTH" sel1))) else
  let request := {| command := Connect; addr := dest |} in
  let^ bytes := Done (Request_to_bytes request) in
  let^ _ := timed_write dt bytes in
  let^ reply_buf := timed_read dt 4 in
  let^ rb0 := Done (slice_index reply_buf 0) in
  if negb (u8_eqb rb0 VERSION) then Done (Err (GProtocol (Text "node reply version mismatch"))) else
  let^ node_atyp := Done (slice_index reply_buf 3) in
  let^ node_addr_len :=
    if u8_eqb node_atyp ATYP_IPV4 then Done (Ok (4 + 2)%nat)
    else if u8_eqb node_atyp ATYP_IPV6 then Done (Ok (16 + 2)%nat)
    else if u8_eqb node_atyp ATYP_DOMAIN then
      let^ dlen := timed_read dt 1 in
      let^ dlen := Done (slice_index dlen 0) in
      Done (Ok (1 + u8_nat dlen + 2)%nat)
    else Done (Err (GProtocol (Text "unknown node reply ATYP"))) in
  let^ _ := timed_read dt node_addr_len in
  let^ rep := Done (slice_index reply_buf 1) in
  if negb (u8_eqb rep REPLY_SUCCESS)
  then Done (Err (GRelay (WithByte "node CONNECT failed" rep)))
  else Done (Ok tt).

Definition timed_connect_and_chain (node_address : string) (dest : SocksAddr) (dt : Z) : TGW unit :=
  let^ _ := await_within dt (dial node_address) in
  plift (@on_node) (timed_chain dest dt).

(** Step 4. *)
Definition timed_select (dt : Z) : TGW RemoteNode :=
  let refuse {A} (e : GatewayError) : TGW A :=
    let^ _ := plift (@on_client) (timed_try_reply dt REPLY_HOST_UNREACHABLE) in Done (Err e) in
  let^ answer := await_within dt (m_ret cp_answer) in
  match answer with
  | None => refuse (GTimeout (Text "select node timed out"))
  | Some answer =>
      match select_node answer with
      | Ok n => Done (Ok n)
      | Err e => refuse e
      | Panic => Done Panic
      end
  end.

(** [dt] is the connection timeout of the configuration. *)
Definition timed_run_with_ctx (ctx : GatewayContext) : TGW unit :=
  let dt := ctx_connect_timeout ctx in
  let^ request := plift (@on_client) (timed_accept_connect dt (ctx_auth ctx)) in
  let^ node := timed_select dt in
  let^ _ := timed_connect_and_chain (rn_forward_address node) (addr request) dt in
  let^ bytes := Done (reply_bytes REPLY_SUCCESS) in
  let^ _ := plift (@on_client) (timed_write dt bytes) in
  let^ stats := await_within (ctx_idle_timeout ctx) relay in
  await_within 0 (Gateway.count (Gateway.record_bytes stats.1 stats.2)).

Lemma on_client_erases {A} (p : prog GatewayError stream A) c :
  erases p c → erases (plift (@on_client) p) (on_client c).
Proof. intros Hp s. by apply (plift_erases _ (λ _, True)). Qed.
Hint Resolve on_client_erases : erases.

Lemma chain_erases dest dt : erases (timed_chain dest dt) (chain dest).
Proof. unfold timed_chain, chain, timed_read, timed_write, byte_at. cbv zeta. auto 60 with erases. Qed.

Lemma connect_erases a dest dt : erases (timed_connect_and_chain a dest dt) (connect_and_chain a dest).
Proof.
  intros s. unfold timed_connect_and_chain, connect_and_chain, m_bind. rewrite prun_bind. unfold m_bind.
  rewrite erases_await. unfold dial. destruct (dial_node a); [|done..].
  apply (plift_erases _ (λ s, is_Some (gw_node s))); [apply chain_erases|by eexists].
Qed.
Hint Resolve connect_erases : erases.

(** Without its deadlines the session is that of [Gateway]. *)
Lemma gateway_erases ctx : erases (timed_run_with_ctx ctx) (Gateway.run_with_ctx ctx).
Proof.
  unfold timed_run_with_ctx, Gateway.run_with_ctx, timed_select. cbv zeta. apply erases_bind; [auto with erases|]. intros r.
  apply erases_bind.
  - intros s. rewrite prun_bind. unfold m_bind at 1. rewrite erases_await. cbn.
    assert (Hr : ∀ e, erases (A := RemoteNode)
      (let^ _ := plift (@on_client) (timed_try_reply (ctx_connect_timeout ctx) REPLY_HOST_UNREACHABLE) in Done (Err e))
      (let! _ := on_client (try_reply REPLY_HOST_UNREACHABLE) in m_err e)) by auto with erases.
    destruct cp_answer as [answer|]; [|apply Hr]. destruct (select_node answer); [done|apply Hr|done].
  - unfold timed_write. auto 60 with erases.
Qed.

Lemma chain_takes dest dt t : 0 <= dt → within (timed_chain dest dt) t (λ _ left, t - 6 * dt <= left).
Proof. intros Hd. unfold timed_chain, timed_read, timed_write. budget. Qed.

Lemma select_takes dt t :
  0 <= dt →
  within (timed_select dt) t
    (λ o left, t - 2 * dt <= left ∧ match o with Ok _ => t - dt <= left | _ => True end).
Proof. intros Hd. unfold timed_select, timed_try_reply. budget. Qed.

(** Nine more waits of the connection timeout, then the relay. *)
Lemma gateway_within ctx :
  0 <= ctx_connect_timeout ctx → 0 <= ctx_idle_timeout ctx →
  within (timed_run_with_ctx ctx) ((handshake_waits (ctx_auth ctx) + 9) * ctx_connect_timeout ctx + ctx_idle_timeout ctx) (λ _ left, 0 <= left).
Proof.
  intros Hd Hi. unfold timed_run_with_ctx. set (dt := ctx_connect_timeout ctx) in *. cbv zeta.
  apply within_bind, plift_within. eapply within_mono; [by apply accept_takes|].
  intros [r| |] t1 [H1 H1']; spend; [|lia..].
  apply within_bind. eapply within_mono; [by apply select_takes|]. intros [n| |] t2 [H2 H2']; spend; [|lia..].
  split; [done|]. intros [u| |]; spend; [|lia..].
  apply within_bind, plift_within. eapply within_mono; [by apply chain_takes|]. intros [v| |] t3 H3; spend; [|lia..].
  unfold timed_write. budget.
Qed.
End gateway.

(** ** The node agent *)
Definition nd_gw_lifts : Lifts (@on_gw) (λ _, True).
Proof.
  split; unfold on_gw.
  - by intros B o [].
  - intros B C c k [gw tg di co] _. cbn. by destruct (c gw).
  - done.
  - intros B c c' t Hc. by rewrite Hc.
Qed.
#[export] Existing Instance nd_gw_lifts.

Section node.
Context `{NodeEnv}.

Abbreviation TND := (prog NodeError nd_state).

(** [timeout(dt, TcpStream::connect(&target_addr))] *)
Definition dial_once (target_addr : string) : ND dial_result := λ s,
  let target := match dial_target target_addr with Dialed t => Some t | _ => None end in
  (Ok (dial_target target_addr),
   {| nd_gw := nd_gw s; nd_target := target; nd_dialed := nd_dialed s ++ [target_addr];
      nd_counters := nd_counters s |}).

(** Step 4. *)
Definition timed_connect_target (target : SocksAddr) (dt : Z) : TND unit :=
  let refuse (code : u8) (e : NodeError) : TND unit :=
    let^ _ := plift (@on_gw) (timed_try_reply dt code) in Done (Err e) in
  let^ dialed := await_within dt (dial_once (SocksAddr_to_string target)) in
  match dialed with
  | Dialed _ => Done (Ok tt)
  | DialFailed e =>
      let code := match e with
                  | ConnectionRefused => REPLY_CONNECTION_REFUSED
                  | _ => REPLY_NETWORK_UNREACHABLE
                  end in
      refuse code (NIo e)
  | DialTimedOut => refuse REPLY_TTL_EXPIRED (NTimeout (Text "target connect timed out"))
  end.

(** [dt] is the handshake timeout of the context. *)
Definition timed_node_session (ctx : NodeContext) : TND unit :=
  let dt := nc_handshake_timeout ctx in
  let^ request := plift (@on_gw) (timed_accept_connect dt (nc_auth ctx)) in
  let^ _ := timed_connect_target (addr request) dt in
  let^ bytes := Done (node_reply_bytes REPLY_SUCCESS) in
  let^ _ := plift (@on_gw) (timed_write dt bytes) in
  await_within (nc_idle_timeout ctx) splice.

Lemma on_gw_erases {A} (p : prog NodeError stream A) c : erases p c → erases (plift (@on_gw) p) (on_gw c).
Proof. intros Hp s. by apply (plift_erases _ (λ _, True)). Qed.
Hint Resolve on_gw_erases : erases.

Lemma connect_target_erases target dt : erases (timed_connect_target target dt) (connect_target target).
Proof.
  intros s. unfold timed_connect_target, connect_target. rewrite prun_bind. unfold m_bind at 1.
  rewrite erases_await. unfold dial_once.
  assert (Hr : ∀ code e, erases (A := unit)
    (let^ _ := plift (@on_gw) (timed_try_reply dt code) in Done (Err e))
    (let! _ := on_gw (node_try_reply code) in m_err e)).
  { intros code e. rewrite replied_as_shared. auto with erases. }
  destruct (dial_target _); [done|apply Hr|apply Hr].
Qed.

(** Without its deadlines the session is that of [NodeAgent]. *)
Lemma node_erases ctx : erases (timed_node_session ctx) (NodeAgent.run_with_ctx ctx).
Proof.
  unfold timed_node_session, NodeAgent.run_with_ctx. cbv zeta. rewrite accepted_as_shared.
  apply erases_bind; [auto with erases|]. intros r. apply erases_bind; [apply connect_target_erases|]. intros u.
  apply erases_bind; [auto with erases|]. intros bytes. rewrite written_as_shared. unfold timed_write.
  auto with erases.
Qed.

Lemma connect_target_takes target dt t :
  0 <= dt →
  within (timed_connect_target target dt) t
    (λ o left, t - 2 * dt <= left ∧ match o with Ok _ => t - dt <= left | _ => True end).
Proof. intros Hd. unfold timed_connect_target, timed_try_reply. budget. Qed.

(** Two more waits of the handshake timeout, then the relay. *)
Lemma node_within ctx :
  0 <= nc_handshake_timeout ctx → 0 <= nc_idle_timeout ctx →
  within (timed_node_session ctx) ((handshake_waits (nc_auth ctx) + 2) * nc_handshake_timeout ctx + nc_idle_timeout ctx) (λ _ left, 0 <= left).
Proof.
  intros Hd Hi. unfold timed_node_session. set (dt := nc_handshake_timeout ctx) in *. cbv zeta.
  apply within_bind, plift_within. eapply within_mono; [by apply accept_takes|].
  intros [r| |] t1 [H1 H1']; spend; [|lia..].
  apply within_bind. eapply within_mono; [by apply connect_target_takes|]. intros [n| |] t2 [H2 H2']; spend; [|lia..].
  unfold timed_write. budget.
Qed.
End node.

(** ** Every session ends *)

(** A session within a budget ends as the handler does and in time. *)
Lemma session_bounded {E S A} (p : prog E S A) c s T :
  erases p c → within p T (λ _ left, 0 <= left) →
  (∀ t res, timed p s t res → res = c s ∧ 0 <= t <= T) ∧ ∃ t, timed p s t (c s).
Proof.
  intros He Hw. split.
  - intros t res Ht. split; [rewrite <- He; by apply timed_run in Ht|by eapply timed_within].
  - exists (longest p s). rewrite <- He. by eapply timed_longest.
Qed.

(** (C15) No client, node or control plane holds a connection of the gateway for
    ever: whatever they do, a session comes to an end, it ends as [run_with_ctx]
    says, and it has lasted at most fifteen times [connect_timeout], twenty-one
    times with credentials configured, the waits of the handshakes, plus once
    [idle_timeout], the relay. The relay has no more than that even while bytes
    are being transferred. *)
Theorem gateway_session_bounded (EV : GatewayEnv) (ctx : GatewayContext) (s : gw_state) :
  0 <= ctx_connect_timeout ctx → 0 <= ctx_idle_timeout ctx →
  (∀ t res, timed (timed_run_with_ctx ctx) s t res →
     res = Gateway.run_with_ctx ctx s ∧ 0 <= t <= (handshake_waits (ctx_auth ctx) + 9) * ctx_connect_timeout ctx + ctx_idle_timeout ctx) ∧
  ∃ t, timed (timed_run_with_ctx ctx) s t (Gateway.run_with_ctx ctx s).
Proof. intros Hd Hi. apply session_bounded; [apply gateway_erases|by apply gateway_within]. Qed.

(** A session with every wait there can be: credentials, a domain to connect to
    and a node that answers with one. *)
Definition slow_client_bytes : list u8 :=
  greeting_wire {| methods := [METHOD_USER_PASS] |} ++ UsernamePassword_to_vec example_credentials ++
  request_wire Byte.x00 example_request.
Definition slow_node_bytes : list u8 :=
  [VERSION; METHOD_NO_AUTH] ++
  reply_wire Byte.x00 {| code := REPLY_SUCCESS; bind_addr := {| host := HostDomain "node-1"; port := 20001 |} |} ++
  [Byte.x00].

Lemma gateway_session_bounded_witness :
  let env := sample_net sample_answer (Dialed (fresh_stream slow_node_bytes)) in
  let ctx := sample_ctx (Some ("alice", "s3cret")) in
  let s := fresh_gw slow_client_bytes in
  ∃ t, timed (@timed_run_with_ctx env ctx) s t (@Gateway.run_with_ctx env ctx s) ∧ t <= 21 * 10 + 300 ∧
    longest (@timed_run_with_ctx env ctx) s = 21 * 10 + 300.
Proof.
  intros env ctx s. destruct (gateway_session_bounded env ctx s) as [Hb [t Ht]]; [done|done|].
  exists t. split; [exact Ht|]. split; [apply (Hb _ _ Ht)|vm_compute; reflexivity].
Defined.

(** (C16) A connection to a node agent is served for at most 380 seconds,
    whatever the gateway and the target do: the session comes to an end, it ends
    as [run_with_ctx] says, and with the context of [NodeServer::run] it has
    lasted at most eight handshake waits of 10 seconds and a relay of 300. *)
Theorem node_session_bounded (EV : NodeEnv) (s : nd_state) :
  (∀ t res, timed (timed_node_session server_context) s t res →
     res = NodeAgent.run_with_ctx server_context s ∧ 0 <= t <= from_secs 380) ∧
  ∃ t, timed (timed_node_session server_context) s t (NodeAgent.run_with_ctx server_context s).
Proof. apply session_bounded; [apply node_erases|by apply (node_within server_context)]. Qed.

Lemma node_session_bounded_witness :
  let s := fresh_node (greeting_wire {| methods := [METHOD_NO_AUTH] |} ++ request_wire Byte.x00 example_request) in
  ∃ t, timed (@timed_node_session sample_node_env server_context) s t
         (@NodeAgent.run_with_ctx sample_node_env server_context s) ∧ t <= from_secs 380 ∧
    longest (@timed_node_session sample_node_env server_context) s = from_secs 380.
Proof.
  intros s. destruct (node_session_bounded sample_node_env s) as [Hb [t Ht]].
  exists t. split; [exact Ht|]. split; [apply (Hb _ _ Ht)|vm_compute; reflexivity].
Defined.
