(* ===== verification/Loadgen.v ===== *)
(** * The load generator

    [crates/rustproxy-bin/examples/loadgen.rs]: the SOCKS5 client that opens
    sessions through a gateway, streams a payload for a while and reports. Its
    reads and writes are those of [Session] without a deadline: where [Session]
    times out, this client waits for ever ([LNever]). Clock readings are
    arguments: [pump] is given the elapsed times its loop test reads. *)

From stdpp Require Import base tactics decidable numbers list strings.
From Stdlib Require Import ZArith Lia Strings.Byte.
From S2P Require Import Prelude RustStd Config Constants Reader Host Display SocketText Request Handshake Auth Reply F64 Limiter.
From S2P Require Import Session Gateway.

(** How an operation of the client ends other than well; [LNever] stands for an
    operation that does not end. *)
Inductive LoadError : Type :=
| LIo (e : IoError)
| LOther (m : message)
| LNever.

#[export] Instance LoadError_session : SessionError LoadError :=
  {| e_protocol := LOther; e_timeout _ := LNever; e_io := LIo |}.

Abbreviation LG := (SM LoadError stream).

Definition CHUNK_SIZE : nat := 64 * 1024.

(** [assert_eq!] *)
Definition assert_eq (a b : u8) : LG unit := if u8_eqb a b then m_ret tt else m_lift Panic.

(** [connect_through_proxy] on the connection to the gateway. *)
Definition connect_through_proxy (target : SocketAddr) : LG unit :=
  let! _ := write_all_timeout [VERSION; Byte.x01; METHOD_NO_AUTH] in
  let! sel := read_exact_timeout 2 in
  let! sel0 := byte_at sel 0 in
  let! _ := assert_eq sel0 VERSION in
  let! sel1 := byte_at sel 1 in
  let! _ := assert_eq sel1 METHOD_NO_AUTH in
  let addr := {| host := HostIp (sa_ip target); port := sa_port target |} in
  let req := {| command := Connect; addr := addr |} in
  let! bytes := m_lift (Request_to_bytes req) in
  let! _ := write_all_timeout bytes in
  let! reply := read_exact_timeout 10 in
  let! code := byte_at reply 1 in
  if negb (u8_eqb code REPLY_SUCCESS)
  then m_err (LOther (WithByte "proxy CONNECT failed" code))
  else m_ret tt.

(** [pump]: write the payload while the elapsed time is below [duration]. The
    addition is checked, as in a debug build. *)
Fixpoint pump (payload : list u8) (duration : Z) (elapsed : list Z) (bytes : Z) : LG Z :=
  match elapsed with
  | [] => m_err LNever
  | t :: elapsed =>
      if t <? duration then
        let! _ := write_all_timeout payload in
        match checked_add_u64 bytes (Z.of_nat (length payload)) with
        | Some bytes => pump payload duration elapsed bytes
        | None => m_lift Panic
        end
      else m_ret bytes
  end.

(** The task of one connection, after [TcpStream::connect] ended in [d]. *)
Definition session (target : SocketAddr) (payload : list u8) (duration : Z) (elapsed : list Z)
    (d : dial_result) : outcome LoadError Z * option stream :=
  match d with
  | Dialed s =>
      let '(r, s) :=
        (let! _ := connect_through_proxy target in pump payload duration elapsed 0) s in
      (r, Some s)
  | DialFailed e => (Err (LIo e), None)
  | DialTimedOut => (Err LNever, None)
  end.

(** ** The counters and the report *)
Record LoadCounters : Type := mkLoad { ok_count : Z; fail_count : Z; total_bytes : Z }.

(** What a finished task adds; one that panicked adds nothing. *)
Definition count_session (r : outcome LoadError Z) (c : LoadCounters) : LoadCounters :=
  match r with
  | Ok b => {| ok_count := as_u64 (ok_count c + 1); fail_count := fail_count c;
               total_bytes := as_u64 (total_bytes c + b) |}
  | Err _ => {| ok_count := ok_count c; fail_count := as_u64 (fail_count c + 1);
                total_bytes := total_bytes c |}
  | Panic => c
  end.

Record Report : Type := mkReport {
  rp_connections : Z; rp_ok : Z; rp_failed : Z; rp_bytes : Z; rp_throughput : f64; rp_success : f64
}.

Definition mib : f64 := f64_of_Z (1024 * 1024).

(** The end of [main]: [results] in the order in which the tasks ended. *)
Definition report (conns : Z) (results : list (outcome LoadError Z)) (elapsed_ns : Z) : Report :=
  let c := foldl (λ c r, count_session r c) {| ok_count := 0; fail_count := 0; total_bytes := 0 |} results in
  let ok := ok_count c in
  let fail := fail_count c in
  let mi_b := f64_div (f64_of_Z (total_bytes c)) mib in
  let success :=
    if 0 <? ok + fail
    then f64_div (f64_mul f64_100 (f64_of_Z ok)) (f64_of_Z (ok + fail))
    else f64_0 in
  {| rp_connections := conns; rp_ok := ok; rp_failed := fail; rp_bytes := total_bytes c;
     rp_throughput := f64_div mi_b (as_secs_f64 elapsed_ns); rp_success := success |}.

(** ** The command line *)
Record Args : Type := mkArgs {
  arg_gateway : SocketAddr;
  arg_target : SocketAddr;
  arg_conns : Z;
  arg_duration_secs : Z
}.

(** The options seen so far. *)
Record Options : Type := mkOptions {
  opt_gateway : option SocketAddr;
  opt_target : option SocketAddr;
  opt_conns : option Z;
  opt_duration_secs : option Z
}.

(** [it.next().map(|s| s.parse().unwrap())]: the value, if there is one, and
    what is left. *)
Definition next_value {A} (parse : string → option A) (it : list string) : outcome Empty_set (option A) * list string :=
  match it with
  | [] => (Ok None, [])
  | s :: it => (match parse s with Some a => Ok (Some a) | None => Panic end, it)
  end.

(** The loop over the arguments; a turn takes at least one of them. *)
Fixpoint parse_loop (fuel : nat) (it : list string) (o : Options) : outcome Empty_set Options :=
  match fuel, it with
  | O, _ | _, [] => Ok o
  | S fuel, arg :: it =>
      if String.eqb arg "--gateway" then
        let '(v, it) := next_value parse_socket_addr it in
        let? v := v in
        parse_loop fuel it (mkOptions v (opt_target o) (opt_conns o) (opt_duration_secs o))
      else if String.eqb arg "--target" then
        let '(v, it) := next_value parse_socket_addr it in
        let? v := v in
        parse_loop fuel it (mkOptions (opt_gateway o) v (opt_conns o) (opt_duration_secs o))
      else if String.eqb arg "--conns" then
        let '(v, it) := next_value (parse_unsigned U64_MOD) it in
        let? v := v in
        parse_loop fuel it (mkOptions (opt_gateway o) (opt_target o) v (opt_duration_secs o))
      else if String.eqb arg "--duration" then
        let '(v, it) := next_value (parse_unsigned U64_MOD) it in
        let? v := v in
        parse_loop fuel it (mkOptions (opt_gateway o) (opt_target o) (opt_conns o) v)
      else Panic
  end.

Definition parse_args (argv : list string) : outcome Empty_set Args :=
  let? o := parse_loop (length argv) argv (mkOptions None None None None) in
  match opt_gateway o, opt_target o with
  | Some gateway, Some target =>
      Ok {| arg_gateway := gateway; arg_target := target;
            arg_conns := default 32 (opt_conns o); arg_duration_secs := default 5 (opt_duration_secs o) |}
  | _, _ => Panic
  end.

(** [main]: one session per connection; [net i] is how the [i]-th dial of the
    gateway ends, and [clock i] what its loop reads. *)
Definition load_main (argv : list string) (net : nat → SocketAddr → dial_result) (clock : nat → list Z)
    (elapsed_ns : Z) : outcome Empty_set Report :=
  let? args := parse_args argv in
  let payload := replicate CHUNK_SIZE (Byte.xab : u8) in
  let results :=
    (λ i, (session (arg_target args) payload (from_secs (arg_duration_secs args)) (clock i)
             (net i (arg_gateway args))).1) <$> seq 0 (Z.to_nat (arg_conns args)) in
  Ok (report (arg_conns args) results elapsed_ns).

(** A turn of the loop for every argument is enough. *)
Lemma next_value_length {A} (parse : string → option A) it : (length (next_value parse it).2 <= length it)%nat.
Proof. destruct it; cbn; lia. Qed.

Lemma parse_loop_enough fuel : ∀ it o, (length it <= fuel)%nat → parse_loop (S fuel) it o = parse_loop fuel it o.
Proof.
  induction fuel as [|fuel IH]; intros [|arg it] o Hl; try done; [cbn in Hl; lia|].
  cbn [length] in Hl. apply le_S_n in Hl.
  assert (Hturn : ∀ A (parse : string → option A) (f : option A → Options),
    (let '(v, it) := next_value parse it in let? v := v in parse_loop (S fuel) it (f v)) =
    (let '(v, it) := next_value parse it in let? v := v in parse_loop fuel it (f v))).
  { intros A parse g. pose proof (next_value_length parse it) as Hn.
    destruct (next_value parse it) as [[v|[]|] it'] eqn:E; [|done]. cbn [obind]. apply IH. cbn in Hn. lia. }
  change (parse_loop (S (S fuel)) (arg :: it) o) with
    (if String.eqb arg "--gateway" then let '(v, it) := next_value parse_socket_addr it in
       let? v := v in parse_loop (S fuel) it (mkOptions v (opt_target o) (opt_conns o) (opt_duration_secs o))
     else if String.eqb arg "--target" then let '(v, it) := next_value parse_socket_addr it in
       let? v := v in parse_loop (S fuel) it (mkOptions (opt_gateway o) v (opt_conns o) (opt_duration_secs o))
     else if String.eqb arg "--conns" then let '(v, it) := next_value (parse_unsigned U64_MOD) it in
       let? v := v in parse_loop (S fuel) it (mkOptions (opt_gateway o) (opt_target o) v (opt_duration_secs o))
     else if String.eqb arg "--duration" then let '(v, it) := next_value (parse_unsigned U64_MOD) it in
       let? v := v in parse_loop (S fuel) it (mkOptions (opt_gateway o) (opt_target o) (opt_conns o) v)
     else Panic).
  by rewrite !Hturn.
Qed.

(** The documented command line is read back. *)
Lemma parse_args_text g gp t tp conns secs :
  0 <= gp < 65536 → 0 <= tp < 65536 → 0 <= conns < U64_MOD → 0 <= secs < U64_MOD →
  parse_args ["--gateway"; Ipv4Addr_to_string g +:+ ":" +:+ dec gp; "--target"; Ipv4Addr_to_string t +:+ ":" +:+ dec tp;
              "--conns"; dec conns; "--duration"; dec secs]
  = Ok {| arg_gateway := socket_addr (V4 g) gp; arg_target := socket_addr (V4 t) tp;
          arg_conns := conns; arg_duration_secs := secs |}.
Proof.
  intros Hg Ht Hc Hs. unfold parse_args. cbn -[parse_socket_addr parse_unsigned dec].
  rewrite !parse_v4_text by done. cbn -[parse_unsigned dec]. by rewrite !parse_unsigned_dec.
Qed.

(** ** A session that works *)
Definition dest_of (target : SocketAddr) : SocksAddr :=
  {| host := HostIp (sa_ip target); port := sa_port target |}.

(** The client says to the gateway what the gateway says to a node. *)
Lemma connect_ok target s rest :
  SocksAddr_ok (dest_of target) = true → can_write s →
  s_in s = [VERSION; METHOD_NO_AUTH] ++ reply_wire Byte.x00 reply_success ++ rest →
  ∃ s', connect_through_proxy target s = (Ok tt, s') ∧ s_in s' = rest ∧ can_write s' ∧
    s_out s' = s_out s ++ chain_wire (dest_of target).
Proof.
  intros Hok Hw Hin. unfold connect_through_proxy. cbv zeta.
  write_step Hw. set (s1 := wrote _ _) in *.
  assert (Hin1 : s_in s1 = s_in s) by done. rewrite Hin in Hin1. cbn [app] in Hin1.
  read_step [VERSION; METHOD_NO_AUTH]. byte_step. erewrite m_bind_run by reflexivity.
  byte_step. erewrite m_bind_run by reflexivity.
  erewrite m_bind_run by (unfold m_lift; by rewrite Request_to_bytes_ok).
  write_step Hcw. set (s2 := wrote _ _) in *.
  read_step (reply_wire Byte.x00 reply_success). byte_step.
  eexists. split; [done|]. split_and!; [done|done|]. cbn. by rewrite <- app_assoc.
Qed.

(** The number of chunks written before the time is up. *)
Fixpoint rounds (duration : Z) (elapsed : list Z) : option nat :=
  match elapsed with
  | [] => None
  | t :: elapsed => if t <? duration then S <$> rounds duration elapsed else Some 0%nat
  end.

Lemma pump_ok payload duration elapsed : ∀ bytes k s,
  rounds duration elapsed = Some k → can_write s → 0 <= bytes →
  bytes + Z.of_nat (k * length payload) < U64_MOD →
  ∃ s', pump payload duration elapsed bytes s = (Ok (bytes + Z.of_nat (k * length payload)), s') ∧
    s_in s' = s_in s ∧ s_out s' = s_out s ++ concat (replicate k payload).
Proof.
  induction elapsed as [|t elapsed IH]; intros bytes k s Hk Hw Hb Hlt; cbn [rounds pump] in *; [done|].
  destruct (t <? duration) eqn:Ht.
  - destruct (rounds duration elapsed) as [j|] eqn:Ej; [|done]. injection Hk as <-.
    rewrite Nat.mul_succ_l in Hlt |- *. write_step Hw. unfold checked_add_u64. rewrite (proj2 (Z.ltb_lt _ _)) by lia.
    destruct (IH (bytes + Z.of_nat (length payload)) j (wrote s payload)) as (s' & Hr & Hi & Ho);
      [done|done|lia|lia|].
    exists s'. rewrite Hr. split_and!; [do 2 f_equal; lia|by rewrite Hi|].
    rewrite Ho. cbn. by rewrite <- app_assoc.
  - injection Hk as <-. exists s. unfold m_ret. split_and!; [do 2 f_equal; cbn; lia|done|by rewrite app_nil_r].
Qed.

(** ** The report *)
Definition finished_ok (r : outcome LoadError Z) : bool := match r with Ok _ => true | _ => false end.
Definition finished_err (r : outcome LoadError Z) : bool := match r with Err _ => true | _ => false end.
Definition amount (r : outcome LoadError Z) : Z := match r with Ok b => b | _ => 0 end.
Definition counted (f : outcome LoadError Z → bool) (l : list (outcome LoadError Z)) : Z :=
  Z.of_nat (length (filter (λ r, f r = true) l)).
Definition amounts (l : list (outcome LoadError Z)) : Z := foldr (λ r t, amount r + t) 0 l.

Lemma counted_snoc f l r : counted f (l ++ [r]) = counted f l + (if f r then 1 else 0).
Proof.
  unfold counted. rewrite filter_app, length_app, filter_cons, filter_nil.
  destruct (f r); [rewrite decide_True by done|rewrite decide_False by done]; cbn [length]; lia.
Qed.

Lemma amounts_snoc l r : amounts (l ++ [r]) = amounts l + amount r.
Proof. unfold amounts. induction l as [|x l IH]; cbn; lia. Qed.

Lemma counted_partition l :
  counted finished_ok l + counted finished_err l + counted is_panic l = Z.of_nat (length l).
Proof.
  induction l as [|r l IH] using rev_ind; [done|]. rewrite !counted_snoc, length_app.
  destruct r; cbn [finished_ok finished_err is_panic length]; lia.
Qed.

Lemma counters_exact l :
  Z.of_nat (length l) < U64_MOD →
  foldl (λ c r, count_session r c) {| ok_count := 0; fail_count := 0; total_bytes := 0 |} l =
  {| ok_count := counted finished_ok l; fail_count := counted finished_err l;
     total_bytes := as_u64 (amounts l) |}.
Proof.
  induction l as [|r l IH] using rev_ind; intros Hl; [done|]. rewrite length_app in Hl. cbn [length] in Hl.
  rewrite foldl_app, IH by lia. cbn [foldl]. rewrite !counted_snoc, amounts_snoc.
  pose proof (counted_partition l). unfold counted in *.
  destruct r as [b|e|]; cbn [count_session ok_count fail_count total_bytes finished_ok finished_err amount];
    rewrite ?Z.add_0_r; try done; f_equal; unfold as_u64;
    rewrite ?Zplus_mod_idemp_l; rewrite ?Z.mod_small by lia; done.
Qed.

(** ** Properties *)

(** The load generator against a gateway: if the control plane names a
    node that accepts the chained connection, and the clock passes the duration
    after [k] rounds, a session through an open gateway ends well and counts
    exactly the [k] chunks it sent. The bytes the client writes are the ones
    the gateway was run on, the node receives all of them, and what the target
    sent is left for the client to read. *)
Theorem loadgen_through_gateway (EV : GatewayEnv) (NW : GatewayNetwork EV) (ctx : GatewayContext)
    (node : RemoteNode) (n : stream) (target : SocketAddr) (payload data : list u8)
    (duration : Z) (elapsed : list Z) (k : nat) :
  let sent := chain_wire (dest_of target) ++ concat (replicate k payload) in
  let r := {| command := Connect; addr := dest_of target |} in
  ctx_auth ctx = None → Request_ok r = true →
  cp_answer = Some (HttpResponse 200 (Some (rn_id node, rn_forward_address node))) →
  dial_node (rn_forward_address node) = Dialed n → can_write n →
  s_in n = [VERSION; METHOD_NO_AUTH] ++ reply_wire Byte.x00 reply_success ++ data →
  (∀ c n', ∃ up down c2 n2, copy_bidirectional c n' = (Copied up down, c2, n2)) →
  rounds duration elapsed = Some k → Z.of_nat (k * length payload) < U64_MOD →
  ∃ sg, Gateway.run_with_ctx ctx (fresh_gw sent) = (Ok tt, sg) ∧
    (∃ n', gw_node sg = Some n' ∧ s_out n' = s_out n ++ sent) ∧
    ∃ c, session target payload duration elapsed (Dialed (fresh_stream (s_out (gw_client sg))))
         = (Ok (Z.of_nat (k * length payload)), Some c) ∧
      s_out c = sent ∧ s_in c = data.
Proof.
  intros sent r Hauth Hok Hcp Hdial Hwn Hnin Hcopy Hk Hlen.
  destruct (gateway_serves ctx (fresh_gw sent) node n {| methods := [METHOD_NO_AUTH] |} Byte.x00 Byte.x00 r
    reply_success (concat (replicate k payload)) data) as (sg & Hrun & _ & Hout & Hnode & _);
    rewrite ?Hauth in *; try done; try constructor.
  exists sg. split_and!; [done|by rewrite <- (app_assoc (chain_wire _)) || done|].
  destruct (connect_ok target (fresh_stream (s_out (gw_client sg))) data) as (s1 & H1 & I1 & W1 & O1);
    [by apply Request_ok_inv in Hok as []|constructor|by rewrite Hout|].
  destruct (pump_ok payload duration elapsed 0 k s1) as (s2 & H2 & I2 & O2); [done|done|lia|lia|].
  exists s2. unfold session. rewrite (m_bind_run _ _ _ _ _ H1), H2. split_and!; [done| |by rewrite I2].
  by rewrite O2, O1.
Qed.

Definition sample_addr : SocketAddr := socket_addr (V4 (mkIpv4 Byte.x0a Byte.x00 Byte.x00 Byte.x07)) 9001.

(** Two rounds of a two-byte payload before the second is over. *)
Lemma loadgen_through_gateway_witness :
  ∃ sg c,
    @Gateway.run_with_ctx (sample_net sample_answer (Dialed (fresh_stream sample_node_bytes))) (sample_ctx None)
      (fresh_gw (chain_wire (dest_of sample_addr) ++ [Byte.xab; Byte.xab; Byte.xab; Byte.xab])) = (Ok tt, sg) ∧
    session sample_addr [Byte.xab; Byte.xab] 1000 [0; 600; 1200]
      (Dialed (fresh_stream (s_out (gw_client sg)))) = (Ok 4, Some c) ∧ s_in c = [Byte.x48; Byte.x49].
Proof.
  destruct (loadgen_through_gateway (sample_net sample_answer (Dialed (fresh_stream sample_node_bytes)))
    (sample_network _ _) (sample_ctx None) {| rn_id := "n1"; rn_forward_address := "node-1:20001" |}
    (fresh_stream sample_node_bytes) sample_addr [Byte.xab; Byte.xab] [Byte.x48; Byte.x49] 1000 [0; 600; 1200] 2)
    as (sg & Hrun & _ & c & Hs & _ & Hc);
    [reflexivity|vm_compute; reflexivity|reflexivity|reflexivity|constructor|reflexivity
    |intros c n; do 4 eexists; reflexivity|reflexivity|unfold U64_MOD; cbn; lia|].
  exists sg, c. split; [exact Hrun|]. split; [exact Hs|exact Hc].
Defined.

(** The report counts every session that ended: those that succeeded, with
    exactly the bytes they sent, and those that failed; the sessions it misses
    are those that panicked. *)
Theorem report_accounts (results : list (outcome LoadError Z)) (elapsed_ns : Z) :
  Z.of_nat (length results) < U64_MOD →
  let rp := report (Z.of_nat (length results)) results elapsed_ns in
  rp_ok rp = counted finished_ok results ∧ rp_failed rp = counted finished_err results ∧
  rp_ok rp + rp_failed rp + counted is_panic results = rp_connections rp ∧
  rp_bytes rp = as_u64 (amounts results).
Proof.
  intros Hl rp. unfold rp, report. rewrite counters_exact by done.
  cbn [rp_ok rp_failed rp_bytes rp_connections ok_count fail_count total_bytes].
  split_and!; try done. apply counted_partition.
Qed.

Lemma report_accounts_witness :
  let rp := report 4 [Ok 10; Err (LIo UnexpectedEof); Panic; Ok 20] 1000000000 in
  rp_ok rp = 2 ∧ rp_failed rp = 1 ∧ rp_bytes rp = 30 ∧ rp_ok rp + rp_failed rp + 1 = rp_connections rp.
Proof.
  destruct (report_accounts [Ok 10; Err (LIo UnexpectedEof); Panic; Ok 20] 1000000000) as (H1 & H2 & H3 & H4);
    [unfold U64_MOD; cbn; lia|].
  split; [exact H1|]. split; [exact H2|]. split; [exact H4|exact H3].
Defined.

(** A gateway that asks for credentials refuses the only method this client
    offers; the client panics, and the session is in neither count. *)
Theorem refused_session_is_uncounted target payload duration elapsed rest s m :
  m ≠ METHOD_NO_AUTH → can_write s → s_in s = [VERSION; m] ++ rest →
  (session target payload duration elapsed (Dialed s)).1 = Panic.
Proof.
  intros Hm Hw Hin. assert (Hc : ∃ s', connect_through_proxy target s = (Panic, s')).
  { unfold connect_through_proxy. cbv zeta. write_step Hw. set (s1 := wrote _ _) in *.
    assert (Hin1 : s_in s1 = s_in s) by done. rewrite Hin in Hin1. cbn [app] in Hin1.
    read_step [VERSION; m]. byte_step. erewrite m_bind_run by reflexivity. byte_step.
    eexists. unfold m_bind at 1, assert_eq. destruct (u8_eqb m METHOD_NO_AUTH) eqn:E; [|done].
    by apply u8_eqb_eq in E. }
  destruct Hc as [s' Hc]. unfold session, m_bind. by rewrite Hc.
Qed.
