(* ===== verification/Api.v ===== *)
(** * The HTTP API of the control plane

    [crates/control-plane/src/api.rs] and [app_state] of [server.rs]: the
    authentication policy, validation and the handlers. A request reaches a
    handler after routing and JSON decoding; the header map is read through
    [header_str], which stands for [headers.get(name).and_then(to_str)], and
    [display] for the text of an [anyhow] error. *)

From stdpp Require Import base tactics decidable numbers list strings gmap.
From Stdlib Require Import ZArith Lia Strings.Ascii Strings.Byte.
From S2P Require Import Prelude RustStd F64 Model Health Bandwidth Routing Registry Service.

Inductive Auth : Type := AuthNone | AuthBearer (token : string).

(** [app_state]: an empty token means no authentication. *)
Definition app_auth (api_token : option string) : Auth :=
  match api_token with
  | Some token => if String.eqb token "" then AuthNone else AuthBearer token
  | None => AuthNone
  end.

Record ApiError : Type := mkApiError { ae_status : Z; ae_message : string }.

Definition BAD_REQUEST : Z := 400.
Definition UNAUTHORIZED : Z := 401.
Definition NOT_FOUND : Z := 404.
Definition INTERNAL_SERVER_ERROR : Z := 500.
Definition SERVICE_UNAVAILABLE : Z := 503.

Definition bad_request (msg : string) : ApiError := {| ae_status := BAD_REQUEST; ae_message := msg |}.
Definition not_found (msg : string) : ApiError := {| ae_status := NOT_FOUND; ae_message := msg |}.
Definition internal (msg : string) : ApiError :=
  {| ae_status := INTERNAL_SERVER_ERROR; ae_message := msg |}.

(** [str::strip_prefix] *)
Fixpoint strip_prefix (p s : string) : option string :=
  match p, s with
  | EmptyString, _ => Some s
  | String a p', String b s' => if Ascii.eqb a b then strip_prefix p' s' else None
  | String _ _, EmptyString => None
  end.

(** [s.trim().is_empty()]: every character is Unicode white space. *)
Fixpoint all_white (l : list u8) : bool :=
  match l with
  | [] => true
  | b :: l1 =>
      if u8_in 0x09 0x0D b || u8_in 0x20 0x20 b then all_white l1
      else
        match l1 with
        | [] => false
        | c :: l2 =>
            if u8_in 0xC2 0xC2 b && (u8_in 0x85 0x85 c || u8_in 0xA0 0xA0 c) then all_white l2
            else
              match l2 with
              | [] => false
              | d :: l3 =>
                  if u8_in 0xE1 0xE1 b && u8_in 0x9A 0x9A c && u8_in 0x80 0x80 d
                     || u8_in 0xE2 0xE2 b && u8_in 0x80 0x80 c &&
                        (u8_in 0x80 0x8A d || u8_in 0xA8 0xA9 d || u8_in 0xAF 0xAF d)
                     || u8_in 0xE2 0xE2 b && u8_in 0x81 0x81 c && u8_in 0x9F 0x9F d
                     || u8_in 0xE3 0xE3 b && u8_in 0x80 0x80 c && u8_in 0x80 0x80 d
                  then all_white l3 else false
              end
        end
  end.

Definition is_blank (s : string) : bool := all_white (as_bytes s).

Definition validate_register (req : RegisterRequest) : outcome ApiError unit :=
  if is_blank (rr_node_id req) then Err (bad_request "node_id must not be empty")
  else if is_blank (rr_address req) then Err (bad_request "address must not be empty")
  else if rr_max_connections req =? 0 then Err (bad_request "max_connections must be > 0")
  else if rr_bandwidth_limit req =? 0 then Err (bad_request "bandwidth_limit must be > 0")
  else Ok tt.

Definition validate_heartbeat (hb : Heartbeat) : outcome ApiError unit :=
  if is_blank (hb_node_id hb) then Err (bad_request "node_id must not be empty") else Ok tt.

Record NodeResponse : Type := mkNodeResponse {
  nr_id : string;
  nr_address : string;
  nr_state : NodeState;
  nr_last_heartbeat : option Z;
  nr_max_connections : Z;
  nr_active_connections : Z;
  nr_bandwidth_limit : Z;
  nr_available_bandwidth : Z;
  nr_bytes_up : Z;
  nr_bytes_down : Z;
  nr_latency_ms : Z
}.

Definition from_node (n : Node) (available_bandwidth : Z) : NodeResponse :=
  {| nr_id := n_id n; nr_address := n_address n; nr_state := n_state n;
     nr_last_heartbeat := n_last_heartbeat n; nr_max_connections := n_max_connections n;
     nr_active_connections := n_active_connections n; nr_bandwidth_limit := n_bandwidth_limit n;
     nr_available_bandwidth := available_bandwidth; nr_bytes_up := n_bytes_up n;
     nr_bytes_down := n_bytes_down n; nr_latency_ms := n_latency_ms n |}.

Definition with_node_id (hb : Heartbeat) (id : string) : Heartbeat :=
  {| hb_node_id := id; hb_active_connections := hb_active_connections hb;
     hb_bytes_up := hb_bytes_up hb; hb_bytes_down := hb_bytes_down hb;
     hb_latency_ms := hb_latency_ms hb; hb_available_bandwidth := hb_available_bandwidth hb |}.

Section api.
Context {HeaderMap : Type} (header_str : HeaderMap → string → option string).
Context (display : Error → string).
Context {R : Type} `{NodeRepository R}.

Abbreviation S := (ControlPlaneService R).
Abbreviation Handler := (SM ApiError S).

Definition authorize (headers : HeaderMap) (auth : Auth) : outcome ApiError unit :=
  match auth with
  | AuthNone => Ok tt
  | AuthBearer expected =>
      let? provided := ok_or (header_str headers "authorization" ≫= strip_prefix "Bearer ")
        {| ae_status := UNAUTHORIZED; ae_message := "missing bearer token" |} in
      if String.eqb provided expected then Ok tt
      else Err {| ae_status := UNAUTHORIZED; ae_message := "invalid bearer token" |}
  end.

(** [service.op().await.map_err(..)] *)
Definition call {A} (c : M S A) (on_error : Error → ApiError) : Handler A := λ s,
  let '(r, s') := c s in (map_err on_error r, s').

Definition internal_error (e : Error) : ApiError := internal (display e).

Definition health : Handler string :=
  let! _ := call list_nodes (λ _, internal "storage unavailable") in m_ret "ok"%string.

Definition api_list_nodes : Handler (list NodeResponse) :=
  let! nodes := call list_nodes internal_error in
  m_ret ((λ n, from_node n (n_bandwidth_limit n)) <$> nodes).

Definition not_found_node (id : string) : ApiError :=
  not_found ("node '" +:+ id +:+ "' not found").

Definition get_node (id : string) : Handler NodeResponse :=
  let! found := call (get id) internal_error in
  let! node := m_lift (ok_or found (not_found_node id)) in
  m_ret (from_node node (n_bandwidth_limit node)).

Definition api_select_node : Handler NodeResponse :=
  let! found := call select internal_error in
  let! node := m_lift (ok_or found
    {| ae_status := SERVICE_UNAVAILABLE; ae_message := "no healthy node available" |}) in
  m_ret (from_node node (n_bandwidth_limit node)).

Definition register_node (auth : Auth) (headers : HeaderMap) (req : RegisterRequest) : Handler NodeResponse :=
  let! _ := m_lift (authorize headers auth) in
  let! _ := m_lift (validate_register req) in
  let! node := call (register req) internal_error in
  m_ret (from_node node (n_bandwidth_limit node)).

Definition heartbeat_node (auth : Auth) (headers : HeaderMap) (id : string) (hb : Heartbeat) : Handler string :=
  let! _ := m_lift (authorize headers auth) in
  let hb := with_node_id hb id in
  let! _ := m_lift (validate_heartbeat hb) in
  let! _ := call (heartbeat hb) internal_error in
  m_ret "ok"%string.

Definition drain_node (auth : Auth) (headers : HeaderMap) (id : string) : Handler NodeResponse :=
  let! _ := m_lift (authorize headers auth) in
  let! found := call (drain id) internal_error in
  let! node := m_lift (ok_or found (not_found_node id)) in
  m_ret (from_node node (n_bandwidth_limit node)).

(** [router]: one handler per route. *)
Inductive ApiRequest : Type :=
| GetHealth
| GetNodes
| PostSelect
| GetNode (id : string)
| PostRegister (headers : HeaderMap) (req : RegisterRequest)
| PostHeartbeat (headers : HeaderMap) (id : string) (hb : Heartbeat)
| PostDrain (headers : HeaderMap) (id : string).

Inductive ApiBody : Type :=
| HealthResponse (status : string)
| NodeListResponse (nodes : list NodeResponse)
| NodeBody (node : NodeResponse).

Definition respond {A} (wrap : A → ApiBody) (c : Handler A) : Handler ApiBody :=
  let! a := c in m_ret (wrap a).

Definition router (auth : Auth) (r : ApiRequest) : Handler ApiBody :=
  match r with
  | GetHealth => respond HealthResponse health
  | GetNodes => respond NodeListResponse api_list_nodes
  | PostSelect => respond NodeBody api_select_node
  | GetNode id => respond NodeBody (get_node id)
  | PostRegister headers req => respond NodeBody (register_node auth headers req)
  | PostHeartbeat headers id hb => respond HealthResponse (heartbeat_node auth headers id hb)
  | PostDrain headers id => respond NodeBody (drain_node auth headers id)
  end.
End api.

(** ** The sweep task *)

(** [spawn_health_sweep]: the loop takes ticks until the shutdown token is
    cancelled; a failed sweep is logged and the loop goes on. *)
Inductive sweep_event : Type := SweepTick (now : Z) | SweepShutdown.

Fixpoint health_sweep {R : Type} `{NodeRepository R} `{Chrono} (es : list sweep_event)
    (s : ControlPlaneService R) : ControlPlaneService R :=
  match es with
  | [] => s
  | SweepShutdown :: _ => s
  | SweepTick now :: es => health_sweep es (mark_stale_offline now s).2
  end.

(** ** What a request does to the service *)
Section theory.
Context {HeaderMap : Type} (header_str : HeaderMap → string → option string).
Context (display : Error → string).
Context {R : Type} `{RL : RepositoryLaws R} `{C : Chrono}.

Abbreviation S := (ControlPlaneService R).
Abbreviation serve := (router header_str display).

(** The checks a request passes before the service is called. *)
Definition guard (auth : Auth) (r : ApiRequest) : outcome ApiError unit :=
  match r with
  | PostRegister headers req =>
      let? _ := authorize header_str headers auth in validate_register req
  | PostHeartbeat headers id hb =>
      let? _ := authorize header_str headers auth in validate_heartbeat (with_node_id hb id)
  | PostDrain headers _ => authorize header_str headers auth
  | _ => Ok tt
  end.

Definition operation (r : ApiRequest (HeaderMap := HeaderMap)) : sv_op :=
  match r with
  | GetHealth | GetNodes => SvList
  | PostSelect => SvSelect
  | GetNode id => SvGet id
  | PostRegister _ req => SvRegister req
  | PostHeartbeat _ id hb => SvHeartbeat (with_node_id hb id)
  | PostDrain _ id => SvDrain id
  end.

Lemma strip_prefix_spec p t u : strip_prefix p t = Some u ↔ t = (p +:+ u)%string.
Proof.
  revert t. induction p as [|a p IH]; intros t; cbn.
  - split; [by intros [= ->]|by intros ->].
  - destruct t as [|b t]; cbn; [split; [done|discriminate]|].
    destruct (Ascii.eqb_spec a b) as [->|Hne]; [rewrite IH|]; (split; [try done|by intros [=]]).
    by intros ->.
Qed.

(** The header a client has to send. *)
Definition presents (headers : HeaderMap) (token : string) : Prop :=
  header_str headers "authorization" = Some ("Bearer " +:+ token)%string.

#[export] Instance presents_dec headers token : Decision (presents headers token).
Proof. unfold presents. apply _. Defined.

Lemma authorize_bearer headers token :
  if decide (presents headers token)
  then authorize header_str headers (AuthBearer token) = Ok tt
  else ∃ m, authorize header_str headers (AuthBearer token)
            = Err {| ae_status := UNAUTHORIZED; ae_message := m |}.
Proof.
  destruct (decide _) as [Hp|Hp]; unfold presents in Hp; unfold authorize.
  - rewrite Hp. cbn [mbind option_bind]. rewrite (proj2 (strip_prefix_spec _ _ _) eq_refl).
    cbn. by rewrite String.eqb_refl.
  - destruct (header_str headers "authorization") as [v|]; cbn [mbind option_bind]; [|by eexists].
    destruct (strip_prefix "Bearer " v) as [u|] eqn:E; cbn [ok_or obind]; [|by eexists].
    apply strip_prefix_spec in E as ->. destruct (String.eqb_spec u token) as [->|_]; [done|by eexists].
Qed.

Lemma authorize_total headers auth :
  authorize header_str headers auth = Ok tt ∨
  ∃ m, authorize header_str headers auth = Err {| ae_status := UNAUTHORIZED; ae_message := m |}.
Proof.
  destruct auth as [|token]; [by left|]. pose proof (authorize_bearer headers token) as Hb.
  destruct (decide _); [by left|by right].
Qed.

Lemma bind_call_state {A B} (c : M S A) on_error (k : A → SM ApiError S B) s :
  (∀ a s', (k a s').2 = s') → (m_bind (call c on_error) k s).2 = (c s).2.
Proof.
  intros Hk. unfold m_bind, call. destruct (c s) as [[a|e|] s']; cbn; [apply Hk|done|done].
Qed.

Lemma respond_state {A} (wrap : A → ApiBody) (c : SM ApiError S A) s :
  (respond wrap c s).2 = (c s).2.
Proof. unfold respond, m_bind. by destruct (c s) as [[a|e|] s']. Qed.

Lemma respond_err {A} (wrap : A → ApiBody) (c : SM ApiError S A) s e s' :
  c s = (Err e, s') → respond wrap c s = (Err e, s').
Proof. apply m_bind_err. Qed.

Lemma answer_state {A} (found : option A) (e : ApiError) (f : A → NodeResponse) (s : S) :
  (m_bind (m_lift (ok_or found e)) (λ n, m_ret (f n)) s).2 = s.
Proof. by destruct found. Qed.

(** A request the checks refuse is answered with the check's error and changes
    nothing; any other runs exactly one operation of the service. *)
Lemma serve_refines auth r s :
  match guard auth r with
  | Ok _ => (serve auth r s).2 = sv_step (operation r) s
  | Err e => serve auth r s = (Err e, s)
  | Panic => False
  end.
Proof.
  destruct r as [| | |id|headers req|headers id hb|headers id]; cbn [guard operation router sv_step].
  - rewrite respond_state. by apply bind_call_state.
  - rewrite respond_state. by apply bind_call_state.
  - rewrite respond_state. apply bind_call_state. intros; apply answer_state.
  - rewrite respond_state. apply bind_call_state. intros; apply answer_state.
  - destruct (authorize header_str headers auth) as [[]|e|] eqn:Ha; cbn [obind].
    + destruct (validate_register req) as [[]|e|] eqn:Hv.
      * rewrite respond_state. unfold register_node. rewrite Ha, Hv. by apply bind_call_state.
      * apply respond_err. unfold register_node. by rewrite Ha, Hv.
      * unfold validate_register in Hv. split_tests; done.
    + apply respond_err. unfold register_node. by rewrite Ha.
    + destruct (authorize_total headers auth) as [H'|[m H']]; congruence.
  - destruct (authorize header_str headers auth) as [[]|e|] eqn:Ha; cbn [obind].
    + destruct (validate_heartbeat (with_node_id hb id)) as [[]|e|] eqn:Hv.
      * rewrite respond_state. unfold heartbeat_node. rewrite Ha, Hv. by apply bind_call_state.
      * apply respond_err. unfold heartbeat_node. by rewrite Ha, Hv.
      * unfold validate_heartbeat in Hv. split_tests; done.
    + apply respond_err. unfold heartbeat_node. by rewrite Ha.
    + destruct (authorize_total headers auth) as [H'|[m H']]; congruence.
  - destruct (authorize header_str headers auth) as [[]|e|] eqn:Ha.
    + rewrite respond_state. unfold drain_node. rewrite Ha. apply bind_call_state.
      intros; apply answer_state.
    + apply respond_err. unfold drain_node. by rewrite Ha.
    + destruct (authorize_total headers auth) as [H'|[m H']]; congruence.
Qed.

(** What the API requires of a node: a name, an address and positive limits. *)
Definition admissible (n : Node) : bool :=
  negb (is_blank (n_id n)) && negb (is_blank (n_address n)) &&
  negb (n_max_connections n =? 0) && negb (n_bandwidth_limit n =? 0).

(** Every node of [m'] is a node of [m] with the same address and limits. *)
Definition inherits (m m' : Nodes) : Prop :=
  ∀ id n', m' !! id = Some n' → ∃ n, m !! id = Some n ∧
    (n_id n', n_address n', n_max_connections n', n_bandwidth_limit n') =
    (n_id n, n_address n, n_max_connections n, n_bandwidth_limit n).

Lemma inherits_refl m : inherits m m.
Proof. intros id n Hn. by exists n. Qed.

Lemma inherits_insert m id n n' :
  m !! id = Some n →
  (n_id n', n_address n', n_max_connections n', n_bandwidth_limit n') =
  (n_id n, n_address n, n_max_connections n, n_bandwidth_limit n) →
  inherits m (<[id := n']> m).
Proof.
  intros Hn Heq j k. destruct (decide (id = j)) as [<-|Hne].
  - rewrite lookup_insert_eq. intros [= <-]. by exists n.
  - rewrite lookup_insert_ne by done. intros Hk. by exists k.
Qed.

Lemma inherits_set_state m id st t : inherits m (spec_set_state id st t m).
Proof.
  intros j k. unfold spec_set_state. destruct (decide (id = j)) as [<-|Hne].
  - rewrite lookup_alter_eq. destruct (m !! id) as [n|]; cbn; [|done]. intros [= <-]. by exists n.
  - rewrite lookup_alter_ne by done. intros Hk. by exists k.
Qed.

Lemma inherits_swept p now b ids m m' : swept p now b ids m m' → inherits m m'.
Proof.
  intros Hsw j k Hk. specialize (Hsw j). destruct (m !! j) as [n|]; [|congruence].
  exists n. split; [done|]. destruct Hsw as [(t & _ & _ & Hj)|[_ Hj]];
    rewrite Hj in Hk; injection Hk as <-; done.
Qed.

Lemma inherits_admissible m m' :
  inherits m m' → map_Forall (λ _ n, admissible n = true) m →
  map_Forall (λ _ n, admissible n = true) m'.
Proof.
  intros Hin Hm id n' Hn'. destruct (Hin _ _ Hn') as (n & Hn & Heq). injection Heq as H1 H2 H3 H4.
  unfold admissible. rewrite H1, H2, H3, H4. exact (Hm _ _ Hn).
Qed.

Lemma step_inherits op s :
  sinv s → sv_op_ok op = true → (∀ req, op ≠ SvRegister req) →
  inherits (sview s) (sview (sv_step op s)).
Proof.
  intros Hinv Hok Hop. destruct op as [req|hb| |id|id| |sp|now]; cbn [sv_step sv_op_ok] in *.
  - by destruct (Hop req).
  - pose proof (heartbeat_spec hb s Hinv Hok) as (_ & _ & _ & HQ).
    destruct (heartbeat hb s).1 as [n|e|]; [| |done].
    + destruct (sview s !! hb_node_id hb) as [n'|] eqn:Hn; [|rewrite HQ; apply inherits_refl].
      destruct HQ as (t & t' & ->). by eapply inherits_insert.
    + destruct HQ as [_ [-> |(n & t & t' & st & Hn & _ & ->)]]; [apply inherits_refl|].
      by eapply inherits_insert.
  - pose proof (list_spec s Hinv) as ((_ & -> & _) & _). apply inherits_refl.
  - pose proof (get_spec id s Hinv) as ((_ & -> & _) & _). apply inherits_refl.
  - pose proof (drain_spec id s Hinv) as (_ & _ & _ & HQ).
    destruct (drain id s).1 as [n|e|]; [destruct HQ as [-> _]; apply inherits_set_state| |done].
    destruct HQ as [_ [-> | ->]]; [apply inherits_refl|apply inherits_set_state].
  - pose proof (select_quiet s Hinv) as ((_ & -> & _) & _). apply inherits_refl.
  - destruct (select_bandwidth_view sp s Hinv) as [_ ->]. apply inherits_refl.
  - pose proof (mark_stale_offline_spec now s Hinv) as (_ & _ & _ & HQ).
    destruct (mark_stale_offline now s).1 as [n|e|]; [| |done].
    + destruct HQ as [_ (ids & _ & Hsw)]. by eapply inherits_swept.
    + destruct HQ as [_ (ids & Hsw)]. by eapply inherits_swept.
Qed.

Lemma validate_register_spec req :
  (validate_register req = Ok tt ∧
     is_blank (rr_node_id req) = false ∧ is_blank (rr_address req) = false ∧
     rr_max_connections req ≠ 0 ∧ rr_bandwidth_limit req ≠ 0) ∨
  (∃ m, validate_register req = Err (bad_request m)) ∧
    (is_blank (rr_node_id req) = true ∨ is_blank (rr_address req) = true ∨
     rr_max_connections req = 0 ∨ rr_bandwidth_limit req = 0).
Proof.
  unfold validate_register.
  destruct (is_blank (rr_node_id req)); [right; eauto|].
  destruct (is_blank (rr_address req)); [right; eauto|].
  destruct (Z.eqb_spec (rr_max_connections req) 0); [right; eauto 6|].
  destruct (Z.eqb_spec (rr_bandwidth_limit req) 0); [right; eauto 6|left; auto].
Qed.

Lemma registered_admissible req t (m : Nodes) :
  map_Forall (λ _ n, admissible n = true) m → (∀ id n, m !! id = Some n → n_id n = id) →
  validate_register req = Ok tt →
  map_Forall (λ _ n, admissible n = true) (<[rr_node_id req := registered req t (m !! rr_node_id req)]> m).
Proof.
  intros Hm Hid Hv. destruct (validate_register_spec req) as [(_ & H1 & H2 & H3%Z.eqb_neq & H4%Z.eqb_neq)|[[? ?] _]];
    [|congruence].
  apply map_Forall_insert_2; [|done]. unfold admissible.
  destruct (m !! rr_node_id req) as [n|] eqn:E; cbn; [rewrite (Hid _ _ E)|]; by rewrite H1, H2, H3, H4.
Qed.

(** Requests and sweeps, in the order they are served. *)
Definition event_step (auth : Auth) (s : S) (e : ApiRequest (HeaderMap := HeaderMap) + Z) : S :=
  match e with
  | inl r => (serve auth r s).2
  | inr now => sv_step (SvSweep now) s
  end.
Definition events_run (auth : Auth) (s : S) (es : list (ApiRequest + Z)) : S :=
  foldl (event_step auth) s es.

Definition event_ok (e : ApiRequest (HeaderMap := HeaderMap) + Z) : bool :=
  match e with inl r => sv_op_ok (operation r) | inr _ => true end.

Lemma serve_inv auth r s : sinv s → sv_op_ok (operation r) = true → sinv (serve auth r s).2.
Proof.
  intros Hinv Hok. pose proof (serve_refines auth r s) as Hs.
  destruct (guard auth r) as [[]|e|]; [rewrite Hs; by apply sv_step_evolves|by rewrite Hs|done].
Qed.

Lemma serve_admissible auth r s :
  sinv s → sv_op_ok (operation r) = true → map_Forall (λ _ n, admissible n = true) (sview s) →
  map_Forall (λ _ n, admissible n = true) (sview (serve auth r s).2).
Proof.
  intros Hinv Hok Hm. pose proof (serve_refines auth r s) as Hs.
  destruct (guard auth r) as [[]|e|] eqn:Hg; [rewrite Hs|by rewrite Hs|done].
  destruct r as [| | |id|headers req|headers id hb|headers id];
    try (eapply inherits_admissible; [by apply step_inherits|done]).
  cbn [operation sv_step guard sv_op_ok] in *. inv_ok. destruct v.
  pose proof (register_spec req s Hinv Hok) as (_ & _ & _ & HQ).
  assert (Hid : ∀ id n, sview s !! id = Some n → n_id n = id)
    by (intros id n Hn; by destruct (view_typed _ _ _ Hinv Hn)).
  destruct (register req s).1 as [n|e|]; [destruct HQ as [-> ->]| |done].
  - by apply registered_admissible.
  - destruct HQ as [_ [-> | ->]]; [done|by apply registered_admissible].
Qed.

(** The headers of a request that asks for a change. *)
Definition change_headers (r : ApiRequest (HeaderMap := HeaderMap)) : option HeaderMap :=
  match r with
  | PostRegister headers _ | PostHeartbeat headers _ _ | PostDrain headers _ => Some headers
  | _ => None
  end.

Lemma unauthorized_refused token r headers s :
  change_headers r = Some headers → ¬ presents headers token →
  ∃ m, serve (AuthBearer token) r s = (Err {| ae_status := UNAUTHORIZED; ae_message := m |}, s).
Proof.
  intros Hr Hp. pose proof (authorize_bearer headers token) as Hb. rewrite decide_False in Hb by done.
  destruct Hb as [m Hb]. exists m. pose proof (serve_refines (AuthBearer token) r s) as Hs.
  destruct r; try done; injection Hr as ->; cbn [guard] in Hs; rewrite Hb in Hs; done.
Qed.

Lemma reading_keeps_view auth r s :
  sinv s → change_headers r = None →
  sinv (serve auth r s).2 ∧ sview (serve auth r s).2 = sview s.
Proof.
  intros Hinv Hr. pose proof (serve_refines auth r s) as Hs.
  destruct r as [| | |id|headers req|headers id hb|headers id]; try done; cbn [guard operation sv_step] in Hs;
    rewrite Hs.
  - by pose proof (list_spec s Hinv) as ((Hi & Hv & _) & _).
  - by pose proof (list_spec s Hinv) as ((Hi & Hv & _) & _).
  - by pose proof (select_quiet s Hinv) as ((Hi & Hv & _) & _).
  - by pose proof (get_spec id s Hinv) as ((Hi & Hv & _) & _).
Qed.

Lemma unauthorized_step token r s :
  sinv s → (∀ headers, change_headers r = Some headers → ¬ presents headers token) →
  sinv (serve (AuthBearer token) r s).2 ∧ sview (serve (AuthBearer token) r s).2 = sview s.
Proof.
  intros Hinv Hp. destruct (change_headers r) as [headers|] eqn:Hr; [|by apply reading_keeps_view].
  destruct (unauthorized_refused token r headers s Hr (Hp _ eq_refl)) as [m ->]. done.
Qed.

(** ** Responses *)

(** The nodes a response tells about. *)
Definition body_nodes (b : ApiBody) : list NodeResponse :=
  match b with
  | HealthResponse _ => []
  | NodeListResponse nodes => nodes
  | NodeBody node => [node]
  end.

(** [r] shows a registered node, field by field; the bandwidth it offers is the
    node's limit. *)
Definition describes (m : Nodes) (r : NodeResponse) : Prop :=
  ∃ n, m !! nr_id r = Some n ∧ Node_ok n = true ∧
    nr_id r = n_id n ∧ nr_address r = n_address n ∧ nr_state r = n_state n ∧
    nr_last_heartbeat r = n_last_heartbeat n ∧
    nr_max_connections r = n_max_connections n ∧ nr_active_connections r = n_active_connections n ∧
    nr_bandwidth_limit r = n_bandwidth_limit n ∧ nr_available_bandwidth r = n_bandwidth_limit n ∧
    nr_bytes_up r = n_bytes_up n ∧ nr_bytes_down r = n_bytes_down n ∧ nr_latency_ms r = n_latency_ms n.

Lemma describes_node (s : S) n :
  sinv s → sview s !! n_id n = Some n → describes (sview s) (from_node n (n_bandwidth_limit n)).
Proof. intros Hinv Hn. exists n. destruct (view_typed _ _ _ Hinv Hn) as [_ Ht]. by split_and!. Qed.

(** A successful response comes from a successful operation. *)
Lemma call_ok {A B} (c : M S A) on_error (k : A → SM ApiError S B) s b s' :
  m_bind (call c on_error) k s = (Ok b, s') → ∃ a s1, c s = (Ok a, s1) ∧ k a s1 = (Ok b, s').
Proof.
  unfold m_bind, call. destruct (c s) as [[a|e|] s1]; cbn; [|done|done]. eauto.
Qed.

Lemma answer_ok {A} (found : option A) (e : ApiError) (f : A → NodeResponse) (s : S) b s' :
  m_bind (m_lift (ok_or found e)) (λ n, m_ret (f n)) s = (Ok b, s') →
  ∃ n, found = Some n ∧ b = f n ∧ s' = s.
Proof. destruct found as [n|]; cbn; [|done]. intros [= <- <-]. eauto. Qed.

Lemma lookup_self (s : S) id n : sinv s → sview s !! id = Some n → sview s !! n_id n = Some n.
Proof. intros Hinv Hn. destruct (view_typed _ _ _ Hinv Hn) as [<- _]. done. Qed.

Lemma serve_describes auth r s b s' :
  sinv s → sv_op_ok (operation r) = true → serve auth r s = (Ok b, s') →
  Forall (describes (sview s')) (body_nodes b).
Proof.
  intros Hinv Hok Hr.
  destruct r as [| | |id|headers req|headers id hb|headers id]; cbn [router operation sv_op_ok] in *; unfold respond in Hr;
    apply m_bind_ok in Hr as (a & s1 & Hr & Hb); injection Hb as <- <-; cbn [body_nodes].
  - done.
  - apply call_ok in Hr as (l & s2 & Hl & Ha). injection Ha as <- <-.
    pose proof (list_spec s Hinv) as HQ. unfold wp in HQ. rewrite Hl in HQ. cbn in HQ.
    destruct HQ as ((Hi & Hv & _) & _ & _ & Hin). apply Forall_fmap, Forall_forall. intros n Hn.
    apply describes_node; [done|]. rewrite Hv. by apply Hin.
  - apply call_ok in Hr as (found & s2 & Hf & Ha). apply answer_ok in Ha as (n & -> & -> & ->).
    pose proof (select_quiet s Hinv) as HQ. unfold wp in HQ. rewrite Hf in HQ. cbn in HQ.
    destruct HQ as ((Hi & Hv & _) & l & (_ & _ & Hin) & Hsel). constructor; [|done].
    apply describes_node; [done|]. rewrite Hv. apply Hin. by apply selector_select_elem in Hsel as [_ [_ Hn]%list_elem_of_filter].
  - apply call_ok in Hr as (found & s2 & Hf & Ha). apply answer_ok in Ha as (n & -> & -> & ->).
    pose proof (get_spec id s Hinv) as HQ. unfold wp in HQ. rewrite Hf in HQ. cbn in HQ.
    destruct HQ as ((Hi & Hv & _) & Hn). constructor; [|done].
    apply describes_node; [done|]. eapply lookup_self; [done|]. by rewrite Hv.
  - unfold register_node in Hr. do 2 apply m_bind_ok in Hr as (? & ? & [_ ->]%m_lift_ok & Hr).
    apply call_ok in Hr as (n & s2 & Hf & Ha). injection Ha as <- <-.
    pose proof (register_spec req s Hinv Hok) as HQ. unfold wp in HQ. rewrite Hf in HQ. cbn in HQ.
    destruct HQ as (Hi & _ & _ & _ & Hv). constructor; [|done].
    apply describes_node; [done|]. eapply lookup_self; [done|]. rewrite Hv. apply lookup_insert_eq.
  - done.
  - unfold drain_node in Hr. apply m_bind_ok in Hr as (? & ? & [_ ->]%m_lift_ok & Hr).
    apply call_ok in Hr as (found & s2 & Hf & Ha). apply answer_ok in Ha as (n & -> & -> & ->).
    pose proof (drain_spec id s Hinv) as HQ. unfold wp in HQ. rewrite Hf in HQ. cbn in HQ.
    destruct HQ as (Hi & _ & _ & _ & Hn). constructor; [|done].
    apply describes_node; [done|]. by eapply lookup_self.
Qed.
End theory.

(** ** Properties *)
Section properties.
Context {HeaderMap : Type} (header_str : HeaderMap → string → option string).
Context (display : Error → string).
Context {R : Type} `{RL : RepositoryLaws R} `{C : Chrono}.

Abbreviation S := (ControlPlaneService R).
Abbreviation serve := (router header_str display).

(** (C28) With a bearer token configured, clients that do not present it
    cannot change the registry: a registration, heartbeat or drain without it
    is answered with 401 and leaves the whole service as it was, and after any
    sequence of requests none of which carries the token on a change the
    registry is what it was before. *)
Theorem unauthorized_requests_change_nothing (token : string) (rs : list ApiRequest) (s : S) :
  sinv s →
  Forall (λ r, ∀ headers, change_headers r = Some headers → ¬ presents header_str headers token) rs →
  sview (events_run header_str display (AuthBearer token) s (inl <$> rs)) = sview s ∧
  Forall (λ r, is_Some (change_headers r) →
            ∃ m, serve (AuthBearer token) r s
                 = (Err {| ae_status := UNAUTHORIZED; ae_message := m |}, s)) rs.
Proof.
  intros Hinv Hrs. split.
  - revert s Hinv. induction Hrs as [|r rs Hr Hrs IH]; intros s Hinv; [done|].
    destruct (unauthorized_step header_str display token r s Hinv Hr) as [Hi Hv].
    rewrite <- Hv. by apply IH.
  - eapply Forall_impl; [exact Hrs|]. intros r Hr [headers Hh].
    by apply (unauthorized_refused _ _ _ _ headers); [|apply Hr].
Qed.

(** The registry only ever holds usable nodes: if every node has a
    non-blank id and address, at least one slot and some bandwidth, the same
    holds after any sequence of requests and sweeps, whoever sent them and
    whatever the storage did. *)
Theorem registry_stays_admissible (auth : Auth) (es : list (ApiRequest + Z)) (s : S) :
  sinv s → Forall (λ e, event_ok (HeaderMap := HeaderMap) e = true) es →
  map_Forall (λ _ n, admissible n = true) (sview s) →
  map_Forall (λ _ n, admissible n = true) (sview (events_run header_str display auth s es)).
Proof.
  intros Hinv Hes. revert s Hinv. induction Hes as [|[r|now] es He Hes IH]; intros s Hinv Hm; [done| |].
  - by apply IH; [apply serve_inv|apply serve_admissible].
  - apply IH; [by apply (sv_step_evolves (SvSweep now))|].
    eapply inherits_admissible; [by apply (step_inherits (SvSweep now))|done].
Qed.

(** Responses are about the registry: every node in a successful response
    to any request is, field by field, the node registered under that id after
    the request, and its fields fit their types. *)
Theorem responses_describe_registry (auth : Auth) (r : ApiRequest) (s s' : S) (b : ApiBody) :
  sinv s → sv_op_ok (operation (HeaderMap := HeaderMap) r) = true → serve auth r s = (Ok b, s') →
  Forall (describes (sview s')) (body_nodes b).
Proof. apply serve_describes. Qed.

(** The routing endpoint: while the storage works it answers 503 exactly
    when no registered node is selectable; otherwise it answers with a
    registered, selectable node of maximal score. It needs no token and
    changes nothing in the registry. *)
Theorem select_endpoint (auth : Auth) (s : S) :
  sinv s → sreliable s → sv_weights s = ScoreWeights_default →
  sview (serve auth PostSelect s).2 = sview s ∧
  match (serve auth PostSelect s).1 with
  | Ok (NodeBody b) => ∃ n, b = from_node n (n_bandwidth_limit n) ∧
      sview s !! n_id n = Some n ∧ is_selectable n = true ∧
      ∀ id n', sview s !! id = Some n' → is_selectable n' = true → f64_ge (dscore n) (dscore n') = true
  | Err e => ae_status e = SERVICE_UNAVAILABLE ∧
      ∀ id n, sview s !! id = Some n → is_selectable n = false
  | _ => False
  end.
Proof.
  intros Hinv Hr Hw. destruct (select_serves s Hinv Hr Hw) as [_ HQ].
  split; [by apply reading_keeps_view|].
  unfold serve, respond, api_select_node, call, m_bind, m_lift, m_ret.
  destruct (select s) as [[[n|]|e|] s']; cbn in *; [by exists n|done|done|done].
Qed.
End properties.

(** ** Witnesses *)

#[local] Existing Instance reference_env.

(** Headers as an association list. *)
Definition sample_header (h : list (string * string)) (name : string) : option string :=
  match list_find (λ e, e.1 = name) h with Some (_, e) => Some e.2 | None => None end.

Lemma healthy_view id n :
  @sview _ _ reference_laws healthy_service !! id = Some n →
  id = "n1" ∧ n = node_of "n1" (sample_row "healthy" (Some 90) 1 100).
Proof.
  change (@sview _ _ reference_laws healthy_service)
    with (table_view {[ "n1" := sample_row "healthy" (Some 90) 1 100 ]}).
  rewrite table_view_lookup. destruct (decide (id = "n1")) as [->|Hne].
  - rewrite lookup_singleton_eq. by intros [= <-].
  - by rewrite lookup_singleton_ne.
Qed.

Lemma unauthorized_requests_change_nothing_witness :
  @sview _ _ reference_laws (events_run sample_header (λ _, "") (AuthBearer "secret") healthy_service
     (inl <$> [PostDrain [("authorization", "Bearer guess")] "n1"; PostSelect; PostRegister [] sample_request]))
  = @sview _ _ reference_laws healthy_service.
Proof.
  apply (@unauthorized_requests_change_nothing _ sample_header (λ _, "") Sqlite _ reference_laws
           chrono_reference "secret"); [sample|].
  repeat constructor; intros h [= <-]; vm_compute; discriminate.
Defined.

Lemma registry_stays_admissible_witness :
  map_Forall (λ _ n, admissible n = true)
    (@sview _ _ reference_laws (events_run sample_header (λ _, "") AuthNone healthy_service
       [inl (PostRegister [] sample_request); inr (200 * NANOS); inl (PostHeartbeat [] "n1" (sample_heartbeat 3))])).
Proof.
  apply (@registry_stays_admissible _ sample_header (λ _, "") Sqlite _ reference_laws chrono_reference);
    [sample|repeat constructor|].
  intros id n [_ ->]%healthy_view. vm_compute. reflexivity.
Defined.

Lemma responses_describe_registry_witness :
  ∃ b s', router sample_header (λ _, "") AuthNone (PostRegister [] sample_request) healthy_service = (Ok b, s') ∧
    Forall (@describes (@sview _ _ reference_laws s')) (body_nodes b).
Proof.
  destruct (router sample_header (λ _, "") AuthNone (PostRegister [] sample_request) healthy_service)
    as [[b|e|] s'] eqn:E; [|vm_compute in E; discriminate|vm_compute in E; discriminate].
  exists b, s'. split; [reflexivity|].
  apply (@responses_describe_registry _ sample_header (λ _, "") Sqlite _ reference_laws AuthNone
    (PostRegister [] sample_request) healthy_service); [sample|reflexivity|exact E].
Defined.

Lemma select_endpoint_witness :
  match (router sample_header (λ _, "") (AuthBearer "secret") PostSelect healthy_service).1 with
  | Ok (NodeBody b) => nr_id b = "n1"
  | _ => False
  end.
Proof.
  pose proof (@select_endpoint _ sample_header (λ _, "") Sqlite _ reference_laws chrono_reference
    (AuthBearer "secret") healthy_service ltac:(sample) ltac:(sample) eq_refl) as [_ H].
  destruct (router _ _ _ PostSelect healthy_service).1 as [[| |b]|e|]; [exact H|exact H| |exfalso|exact H].
  - destruct H as (n & -> & Hn & _). cbn.
    by apply healthy_view in Hn as [-> _].
  - destruct H as [_ H].
    specialize (H "n1" (node_of "n1" (sample_row "healthy" (Some 90) 1 100)) eq_refl). discriminate H.
Defined.
