(* ===== verification/Http.v ===== *)
(** * HTTP between the services

    What lies between the clients of the control plane
    ([crates/node/src/cp_client.rs], [crates/gateway/src/proxy_client.rs]) and its
    handlers and is not ours: the URL parser of [reqwest], and the way of the
    [Authorization] header from [bearer_auth] to [HeaderValue::to_str]. They are
    the class [Http]; [HttpLaws] is what is documented of them: the path of a URL
    of plain segments is that path (dot segments are removed, and a query or a
    fragment is no part of it), and a header value of printable ASCII arrives,
    without the spaces around it. *)

From stdpp Require Import base tactics decidable numbers list strings.
From Stdlib Require Import ZArith Lia Strings.Ascii.
From S2P Require Import Prelude RustStd Client SocketText Api.

(** ** Texts *)
Fixpoint all_chars (P : ascii → bool) (s : string) : bool :=
  match s with EmptyString => true | String c s' => P c && all_chars P s' end.

(** The unreserved characters of RFC 3986, which a URL carries as they are. *)
Definition unreserved (c : ascii) : bool :=
  let n := nat_of_ascii c in
  ((48 <=? n) && (n <=? 57) || (65 <=? n) && (n <=? 90) || (97 <=? n) && (n <=? 122) ||
   (n =? 45) || (n =? 46) || (n =? 95) || (n =? 126))%nat.
Definition url_safe (s : string) : bool := all_chars unreserved s.

(** A segment the parser leaves alone. *)
Definition plain_segment (s : string) : bool :=
  url_safe s && negb (String.eqb s "") && negb (String.eqb s ".") && negb (String.eqb s "..").

(** A path of segments. *)
Fixpoint path_of (segs : list string) : string :=
  match segs with [] => EmptyString | s :: segs => "/" +:+ s +:+ path_of segs end.

(** [http://host:port] or [https://host:port], with nothing after it. *)
Definition authority_char (c : ascii) : bool :=
  unreserved c || Ascii.eqb c ":" || Ascii.eqb c "[" || Ascii.eqb c "]".
Definition authority (s : string) : bool := negb (String.eqb s "") && all_chars authority_char s.
Definition is_origin (s : string) : bool :=
  match strip_prefix "http://" s with
  | Some a => authority a
  | None => match strip_prefix "https://" s with Some a => authority a | None => false end
  end.

(** Printable ASCII, and printable ASCII without the space. *)
Definition printable (s : string) : bool :=
  all_chars (λ c, (32 <=? nat_of_ascii c) && (nat_of_ascii c <=? 126))%nat s.
Definition graphic (s : string) : bool :=
  all_chars (λ c, (33 <=? nat_of_ascii c) && (nat_of_ascii c <=? 126))%nat s.

Fixpoint last_char (s : string) : option ascii :=
  match s with
  | EmptyString => None
  | String c EmptyString => Some c
  | String _ s' => last_char s'
  end.
(** No space at either end. *)
Definition trimmed (s : string) : bool :=
  match s with String c _ => negb (Ascii.eqb c " ") | EmptyString => true end &&
  match last_char s with Some c => negb (Ascii.eqb c " ") | None => true end.

(** ** The transport *)
Class Http (HeaderMap : Type) : Type := {
  (** the path a server sees of a request to this URL; [None] if it is no URL *)
  url_path : string → option string;
  (** the headers that arrive when this [Authorization] header, or none, is given
      to the request; [None] if it cannot be sent *)
  send_headers : option string → option HeaderMap;
  (** [headers.get(name).and_then(|v| v.to_str().ok())] *)
  header_text : HeaderMap → string → option string
}.

Class HttpLaws (HeaderMap : Type) `{Http HeaderMap} : Prop := {
  law_path base segs :
    is_origin base = true → url_path base = Some "/" → segs ≠ [] → Forall (λ s, plain_segment s = true) segs →
    url_path (base +:+ path_of segs) = Some (path_of segs);
  law_no_header : ∃ hs, send_headers None = Some hs ∧ header_text hs "authorization" = None;
  law_header v :
    printable v = true →
    ∃ hs, send_headers (Some v) = Some hs ∧ (trimmed v = true → header_text hs "authorization" = Some v)
}.

(** ** Lemmas *)
Lemma all_chars_app P s t : all_chars P (s +:+ t) = all_chars P s && all_chars P t.
Proof.
  induction s as [|c s IH]; [done|]. change (String c s +:+ t) with (String c (s +:+ t)). cbn. by rewrite IH, andb_assoc.
Qed.

Lemma all_chars_impl (P Q : ascii → bool) s :
  (∀ c, P c = true → Q c = true) → all_chars P s = true → all_chars Q s = true.
Proof.
  intros HPQ. induction s as [|c s IH]; [done|]. cbn. intros [Hc Hs]%andb_prop. by rewrite (HPQ _ Hc), (IH Hs).
Qed.

Lemma plain_segment_inv s :
  plain_segment s = true → url_safe s = true ∧ s ≠ ""%string ∧ s ≠ "."%string ∧ s ≠ ".."%string.
Proof.
  unfold plain_segment. intros [[[H1 H2]%andb_prop H3]%andb_prop H4]%andb_prop.
  apply negb_true_iff in H2, H3, H4. by rewrite <- !String.eqb_neq.
Qed.

(** The bearer header of a token of graphic characters. *)
Lemma bearer_printable t : graphic t = true → printable ("Bearer " +:+ t) = true.
Proof.
  intros Ht. unfold printable. rewrite all_chars_app. apply andb_true_intro. split; [done|]. eapply all_chars_impl; [|exact Ht].
  intros c. rewrite !andb_true_iff, !Nat.leb_le. lia.
Qed.

Lemma last_char_app s t : t ≠ ""%string → last_char (s +:+ t) = last_char t.
Proof.
  intros Ht. induction s as [|c s IH]; [done|]. change (String c s +:+ t) with (String c (s +:+ t)).
  rewrite <- IH. by destruct s, t.
Qed.

Lemma last_char_all P s c : all_chars P s = true → last_char s = Some c → P c = true.
Proof.
  induction s as [|a s IH]; [done|]. cbn [all_chars]. intros [Ha Hs]%andb_prop. destruct s as [|b s].
  - by intros [= ->].
  - intros Hc. by apply IH.
Qed.

Lemma bearer_trimmed t : graphic t = true → t ≠ ""%string → trimmed ("Bearer " +:+ t) = true.
Proof.
  intros Hg Ht. unfold trimmed. rewrite last_char_app by done.
  change ("Bearer " +:+ t) with (String "B" ("earer " +:+ t)). cbn [negb andb].
  destruct (last_char t) as [c|] eqn:Hc; [|done]. apply (last_char_all _ t c Hg) in Hc.
  destruct (Ascii.eqb_spec c " ") as [->|]; [discriminate Hc|done].
Qed.

(** ** A transport

    URLs with dot segments removed and without query and fragment; headers that
    lose the spaces around them, and are text if they are ASCII. *)

(** The longest prefix of characters in [P], and the rest. *)
Fixpoint span (P : ascii → bool) (s : string) : string * string :=
  match s with
  | EmptyString => (EmptyString, EmptyString)
  | String c s' => if P c then let '(h, t) := span P s' in (String c h, t) else (EmptyString, s)
  end.

(** [s.split('/')] *)
Fixpoint split_path (s : string) : list string :=
  match s with
  | EmptyString => [EmptyString]
  | String c s' =>
      if Ascii.eqb c "/" then EmptyString :: split_path s'
      else match split_path s' with
           | [] => [String c EmptyString]
           | t :: ts => String c t :: ts
           end
  end.

(** Dot segments, with the segments before in reverse; at the end they leave an
    empty one. *)
Fixpoint remove_dots (done segs : list string) : list string :=
  match segs with
  | [] => rev done
  | s :: segs =>
      if String.eqb s "." then match segs with [] => rev (EmptyString :: done) | _ => remove_dots done segs end
      else if String.eqb s ".." then
        match segs with [] => rev (EmptyString :: tail done) | _ => remove_dots (tail done) segs end
      else remove_dots (s :: done) segs
  end.

Definition reference_path (tail : string) : string :=
  let path := (span (λ c, negb (Ascii.eqb c "?" || Ascii.eqb c "#")) tail).1 in
  match path with
  | EmptyString => "/"
  | String _ path => path_of (remove_dots [] (split_path path))
  end.

Definition reference_url_path (url : string) : option string :=
  let after rest :=
    let '(a, tail) := span authority_char rest in
    if authority a then Some (reference_path tail) else None in
  match strip_prefix "http://" url with
  | Some rest => after rest
  | None => match strip_prefix "https://" url with Some rest => after rest | None => None end
  end.

Fixpoint trim_spaces_end (s : string) : string :=
  match s with
  | EmptyString => EmptyString
  | String c s' =>
      match trim_spaces_end s' with
      | EmptyString => if Ascii.eqb c " " then EmptyString else String c EmptyString
      | t => String c t
      end
  end.
Definition trim_spaces (s : string) : string := trim_spaces_end (span (Ascii.eqb " ") s).2.

#[local] Instance reference_http : Http (option string) := {|
  url_path := reference_url_path;
  send_headers h :=
    match h with
    | None => Some None
    | Some v =>
        if all_chars (λ c, (32 <=? nat_of_ascii c) && negb (nat_of_ascii c =? 127))%nat v
        then Some (Some (trim_spaces v)) else None
    end;
  header_text hs name :=
    if String.eqb name "authorization" then
      match hs with Some v => if printable v then Some v else None | None => None end
    else None
|}.

Lemma span_all P s t :
  all_chars P s = true → match t with String c _ => P c = false | EmptyString => True end → span P (s +:+ t) = (s, t).
Proof.
  intros Hs Ht. induction s as [|c s IH].
  - change (("" +:+ t)%string) with t. destruct t as [|c t]; [done|]. cbn. by rewrite Ht.
  - cbn [all_chars] in Hs. apply andb_prop in Hs as [Hc Hs]. change (String c s +:+ t) with (String c (s +:+ t)).
    cbn [span]. by rewrite Hc, (IH Hs).
Qed.

Lemma split_path_nonempty s : split_path s ≠ [].
Proof. destruct s as [|c s]; [done|]. cbn. destruct (Ascii.eqb c "/"); [done|]. by destruct (split_path s). Qed.

Lemma split_path_slash s t : split_path (s +:+ String "/" t) = split_path s ++ split_path t.
Proof.
  induction s as [|c s IH]; [done|]. change (String c s +:+ String "/" t) with (String c (s +:+ String "/" t)).
  cbn [split_path]. rewrite IH. destruct (Ascii.eqb c "/"); [done|].
  pose proof (split_path_nonempty s). by destruct (split_path s).
Qed.

Lemma split_path_safe s : url_safe s = true → split_path s = [s].
Proof.
  induction s as [|c s IH]; [done|]. cbn. intros [Hc Hs]%andb_prop. rewrite (IH Hs).
  destruct (Ascii.eqb_spec c "/") as [->|]; [discriminate|done].
Qed.

(** Plain segments are split where they were joined. *)
Lemma split_path_of s segs :
  plain_segment s = true → Forall (λ s, plain_segment s = true) segs → split_path (s +:+ path_of segs) = s :: segs.
Proof.
  intros Hs Hsegs. revert s Hs. induction Hsegs as [|t segs Ht _ IH]; intros s Hs;
    apply plain_segment_inv in Hs as [Hs _]; cbn [path_of].
  - rewrite append_nil_r. by apply split_path_safe.
  - change ("/" +:+ t +:+ path_of segs) with (String "/" (t +:+ path_of segs)).
    by rewrite split_path_slash, (split_path_safe _ Hs), (IH t Ht).
Qed.

Lemma remove_dots_plain acc segs :
  Forall (λ s, plain_segment s = true) segs → remove_dots acc segs = rev acc ++ segs.
Proof.
  intros Hs. revert acc. induction Hs as [|s segs Hs _ IH]; intros acc; [by rewrite app_nil_r|].
  apply plain_segment_inv in Hs as (_ & _ & H1%String.eqb_neq & H2%String.eqb_neq). cbn [remove_dots].
  rewrite H1, H2, IH. cbn [rev]. by rewrite <- app_assoc.
Qed.

(** Plain paths have no query and no fragment. *)
Lemma path_of_chars segs :
  Forall (λ s, plain_segment s = true) segs →
  all_chars (λ c, negb (Ascii.eqb c "?" || Ascii.eqb c "#")) (path_of segs) = true.
Proof.
  induction 1 as [|s segs Hs _ IH]; [done|]. apply plain_segment_inv in Hs as [Hs _]. cbn [path_of].
  rewrite !all_chars_app, IH, andb_true_r. apply andb_true_intro. split; [done|].
  eapply all_chars_impl; [|exact Hs]. intros c Hc.
  destruct (Ascii.eqb_spec c "?") as [->|_]; [discriminate Hc|].
  by destruct (Ascii.eqb_spec c "#") as [->|_]; [discriminate Hc|].
Qed.

Lemma reference_path_of segs :
  segs ≠ [] → Forall (λ s, plain_segment s = true) segs → reference_path (path_of segs) = path_of segs.
Proof.
  intros Hne Hs. unfold reference_path. pose proof (path_of_chars segs Hs) as Hc.
  pose proof (span_all _ (path_of segs) "" Hc I) as Hspan. rewrite append_nil_r in Hspan. rewrite Hspan. cbn [fst].
  destruct Hs as [|s segs Hs Hsegs]; [done|]. cbn [path_of].
  change ("/" +:+ s +:+ path_of segs) with (String "/" (s +:+ path_of segs)).
  cbv iota. rewrite split_path_of, remove_dots_plain by (done || by constructor). done.
Qed.

Lemma reference_url base segs :
  is_origin base = true → segs ≠ [] → Forall (λ s, plain_segment s = true) segs →
  reference_url_path (base +:+ path_of segs) = Some (path_of segs).
Proof.
  intros Hb Hne Hs. unfold is_origin in Hb.
  assert (Hafter : ∀ a, authority a = true → span authority_char (a +:+ path_of segs) = (a, path_of segs)).
  { intros a [_ Ha]%andb_prop. apply span_all; [done|]. by destruct Hs. }
  unfold reference_url_path. destruct (strip_prefix "http://" base) as [a|] eqn:H1.
  - apply strip_prefix_spec in H1 as ->. rewrite append_assoc, (proj2 (strip_prefix_spec _ _ _) eq_refl).
    by rewrite Hafter, Hb, reference_path_of.
  - destruct (strip_prefix "https://" base) as [a|] eqn:H2; [|done]. apply strip_prefix_spec in H2 as ->.
    rewrite append_assoc. change (strip_prefix "http://" ("https://" +:+ a +:+ path_of segs)) with (@None string).
    cbv iota. rewrite (proj2 (strip_prefix_spec _ _ _) eq_refl). by rewrite Hafter, Hb, reference_path_of.
Qed.

Lemma trim_end_id s : match last_char s with Some c => negb (Ascii.eqb c " ") | None => true end = true → trim_spaces_end s = s.
Proof.
  induction s as [|c s IH]; [done|]. intros Hc. cbn [trim_spaces_end]. destruct s as [|d s].
  - cbn in Hc |- *. by apply negb_true_iff in Hc as ->.
  - by rewrite (IH Hc).
Qed.

Lemma trim_id s : trimmed s = true → trim_spaces s = s.
Proof.
  unfold trimmed, trim_spaces. intros [H1 H2]%andb_prop. assert ((span (Ascii.eqb " ") s).2 = s) as ->.
  { destruct s as [|c s]; [done|]. cbn [span]. apply negb_true_iff in H1. rewrite Ascii.eqb_sym in H1. by rewrite H1. }
  by apply trim_end_id.
Qed.

Lemma reference_http_laws : HttpLaws (option string).
Proof.
  split; cbn [url_path send_headers header_text reference_http].
  - intros base segs Hb _ Hne Hs. by apply reference_url.
  - by exists None.
  - intros v Hv. exists (Some (trim_spaces v)). split.
    + rewrite (all_chars_impl _ _ v) with (2 := Hv); [done|]. intros c [H1%Nat.leb_le H2%Nat.leb_le]%andb_prop.
      apply andb_true_intro. split; [by apply Nat.leb_le|]. apply negb_true_iff, Nat.eqb_neq. lia.
    + intros Ht. rewrite (trim_id v Ht), Hv. done.
Qed.

Example reference_paths :
  reference_url_path "http://127.0.0.1:8080/nodes/./heartbeat" = Some "/nodes/heartbeat" ∧
  reference_url_path "http://127.0.0.1:8080/nodes/a/../b/heartbeat" = Some "/nodes/b/heartbeat" ∧
  reference_url_path "http://127.0.0.1:8080/nodes/a/heartbeat?/heartbeat" = Some "/nodes/a/heartbeat" ∧
  reference_url_path "http://[::1]:8080" = Some "/" ∧ reference_url_path "127.0.0.1:8080" = None.
Proof. vm_compute. done. Qed.
