(* ===== verification/Concurrent.v ===== *)
(** * The control plane under concurrency

    [crates/control-plane/src/server.rs], [run]: requests are served
    concurrently, beside the sweep task. A handler is interrupted at each
    [.await] on the repository; between two of them other handlers and the sweep
    run. A task is what is left of a handler: the next repository call, and what
    the handler remembers. [advance] makes that call and runs the handler up to
    its next one. A handler whose client goes away is dropped where it stands.
    Run alone, a task is the handler of [Api] ([task_alone]). *)

From stdpp Require Import base tactics decidable numbers list relations strings gmap.
From Stdlib Require Import ZArith Lia SpecFloat.
From S2P Require Import Prelude F64 Model Health Bandwidth Routing Registry Service Api.

(** What is left of a handler: [register] before the insertion and before the
    read back; [heartbeat] before its first read, with the node it read, after
    the update, and after the change of state; and so on. *)
Inductive handler_task : Type :=
| TRegister (req : RegisterRequest)
| TRegistered (req : RegisterRequest)
| TBeat (hb : Heartbeat)
| TBeatRead (hb : Heartbeat) (n : Node)
| TBeatApplied (hb : Heartbeat) (n : Node)
| TBeatStated (hb : Heartbeat)
| TDrain (id : string)
| TDrained (id : string)
| TGet (id : string)
| TList (health : bool)
| TSelect
| TDone (r : outcome ApiError ApiBody)
| TDropped.

(** The sweep task: waiting for a tick, about to list the nodes, in the loop
    over them, or stopped. *)
Inductive sweeper : Type :=
| SwIdle
| SwList (now : Z)
| SwMark (now : Z) (nodes : list Node)
| SwStopped.

Section tasks.
Context {HeaderMap : Type} (header_str : HeaderMap → string → option string).
Context (display : Error → string).
Context {R : Type} `{NodeRepository R} `{C : Chrono}.

Abbreviation S := (ControlPlaneService R).

(** The beginning of a handler: its checks, up to the first repository call. *)
Definition start (auth : Auth) (r : ApiRequest (HeaderMap := HeaderMap)) : handler_task :=
  match guard header_str auth r with
  | Ok _ =>
      match r with
      | GetHealth => TList true
      | GetNodes => TList false
      | PostSelect => TSelect
      | GetNode id => TGet id
      | PostRegister _ req => TRegister req
      | PostHeartbeat _ id hb => TBeat (with_node_id hb id)
      | PostDrain _ id => TDrain id
      end
  | Err e => TDone (Err e)
  | Panic => TDone Panic
  end.

(** One repository call, and the code after it. *)
Definition await {A} (c : M R A) (on_error : Error → ApiError) (k : A → S → handler_task * S) (s : S) : handler_task * S :=
  match on_repo c s with
  | (Ok a, s') => k a s'
  | (Err e, s') => (TDone (Err (on_error e)), s')
  | (Panic, s') => (TDone Panic, s')
  end.

Abbreviation failed := (internal_error display).

Definition described (n : Node) : handler_task := TDone (Ok (NodeBody (from_node n (n_bandwidth_limit n)))).

(** The end of [heartbeat]: read the node back for its gauges. *)
Definition read_back (id : string) : S → handler_task * S :=
  await (repo_get id) failed (λ found s,
    (TDone (Ok (HealthResponse "ok")),
     match found with Some n => (metrics_record_node n s).2 | None => s end)).

(** The end of [get] and [drain]. *)
Definition answer (id : string) : S → handler_task * S :=
  await (repo_get id) failed (λ found s,
    match found with
    | Some n => (described n, (metrics_record_node n s).2)
    | None => (TDone (Err (not_found_node id)), s)
    end).

Definition advance (t : handler_task) (s : S) : handler_task * S :=
  match t with
  | TRegister req => await (repo_register req) failed (λ _ s, (TRegistered req, s)) s
  | TRegistered req =>
      await (repo_get (rr_node_id req)) failed (λ found s,
        match found with
        | Some n => (described n, (metrics_record_node n s).2)
        | None => (TDone (Err (failed Disappeared)), s)
        end) s
  | TBeat hb =>
      await (repo_get (hb_node_id hb)) failed (λ found s,
        match found with
        | Some n => (TBeatRead hb n, s)
        | None => (TDone (Ok (HealthResponse "ok")), s)
        end) s
  | TBeatRead hb n => await (repo_apply_heartbeat hb) failed (λ _ s, (TBeatApplied hb n, s)) s
  | TBeatApplied hb n =>
      let next := reclassify_after_heartbeat (n_state n) (hb_active_connections hb)
                    (n_max_connections n) (sv_policy s) in
      if decide (next = n_state n) then read_back (hb_node_id hb) s
      else await (repo_set_state (hb_node_id hb) next) failed (λ _ s, (TBeatStated hb, s)) s
  | TBeatStated hb => read_back (hb_node_id hb) s
  | TDrain id => await (repo_set_draining id) failed (λ _ s, (TDrained id, s)) s
  | TDrained id => answer id s
  | TGet id => answer id s
  | TList is_health =>
      await repo_list (if is_health then λ _, internal "storage unavailable" else failed)
        (λ nodes s,
           (TDone (Ok (if is_health then HealthResponse "ok"
                       else NodeListResponse ((λ n, from_node n (n_bandwidth_limit n)) <$> nodes))),
            (record_all nodes s).2)) s
  | TSelect =>
      await repo_list failed (λ nodes s,
        match node_select (HealthAwareSelector_new (sv_weights s))
                (filter (λ n, is_selectable n = true) nodes) with
        | Some n => (described n, s)
        | None => (TDone (Err {| ae_status := SERVICE_UNAVAILABLE;
                                 ae_message := "no healthy node available" |}), s)
        end) s
  | TDone _ | TDropped => (t, s)
  end.

(** One step of the sweep: list the nodes, or treat the next one; an error ends
    the sweep, and the task waits for the next tick; a panic ends the task. *)
Definition sweep_advance (w : sweeper) (s : S) : sweeper * S :=
  match w with
  | SwList now =>
      match on_repo repo_list s with
      | (Ok nodes, s') => (SwMark now nodes, s')
      | (Err _, s') => (SwIdle, s')
      | (Panic, s') => (SwStopped, s')
      end
  | SwMark now (n :: nodes) =>
      if is_live n && is_stale (n_last_heartbeat n) now (sv_policy s) then
        match on_repo (repo_mark_offline (n_id n)) s with
        | (Ok _, s') => (SwMark now nodes, s')
        | (Err _, s') => (SwIdle, s')
        | (Panic, s') => (SwStopped, s')
        end
      else (SwMark now nodes, s)
  | SwMark _ [] => (SwIdle, s)
  | _ => (w, s)
  end.

Definition finished (t : handler_task) : bool := match t with TDone _ | TDropped => true | _ => false end.
Definition sweeping (w : sweeper) : bool := match w with SwList _ | SwMark _ _ => true | _ => false end.

(** ** The server *)
Record cp_server : Type := mkCp {
  cs_service : S;
  cs_tasks : list handler_task;
  cs_sweeper : sweeper;
  cs_cancelled : bool;
  cs_accepting : bool
}.

Definition cp_init (s : S) : cp_server :=
  {| cs_service := s; cs_tasks := []; cs_sweeper := SwIdle; cs_cancelled := false; cs_accepting := true |}.

(** The server with another service and tasks, or another sweep task. *)
Definition with_tasks (c : cp_server) (s : S) (ts : list handler_task) : cp_server :=
  {| cs_service := s; cs_tasks := ts; cs_sweeper := cs_sweeper c; cs_cancelled := cs_cancelled c;
     cs_accepting := cs_accepting c |}.
Definition with_sweeper (c : cp_server) (s : S) (w : sweeper) : cp_server :=
  {| cs_service := s; cs_tasks := cs_tasks c; cs_sweeper := w; cs_cancelled := cs_cancelled c;
     cs_accepting := cs_accepting c |}.

(** Arrivals and ticks come from outside; everything else is the server's own. *)
Inductive cp_label : Type := LRequest (r : ApiRequest (HeaderMap := HeaderMap)) | LTick (now : Z) | LOwn.

Inductive cp_step (auth : Auth) : cp_label → cp_server → cp_server → Prop :=
| cs_request c r :
    cs_accepting c = true → sv_op_ok (operation r) = true →
    cp_step auth (LRequest r) c (with_tasks c (cs_service c) (cs_tasks c ++ [start auth r]))
| cs_tick c now :
    cs_sweeper c = SwIdle →
    cp_step auth (LTick now) c (with_sweeper c (cs_service c) (SwList now))
| cs_run c i t :
    cs_tasks c !! i = Some t → finished t = false →
    cp_step auth LOwn c (with_tasks c (advance t (cs_service c)).2
                           (<[i := (advance t (cs_service c)).1]> (cs_tasks c)))
| cs_gone c i t :
    cs_tasks c !! i = Some t → finished t = false →
    cp_step auth LOwn c (with_tasks c (cs_service c) (<[i := TDropped]> (cs_tasks c)))
| cs_sweep c :
    sweeping (cs_sweeper c) = true →
    cp_step auth LOwn c (with_sweeper c (sweep_advance (cs_sweeper c) (cs_service c)).2
                           (sweep_advance (cs_sweeper c) (cs_service c)).1)
| cs_cancel c :
    cs_cancelled c = false →
    cp_step auth LOwn c {| cs_service := cs_service c; cs_tasks := cs_tasks c; cs_sweeper := cs_sweeper c;
                           cs_cancelled := true; cs_accepting := cs_accepting c |}
| cs_close c :
    cs_cancelled c = true → cs_accepting c = true →
    cp_step auth LOwn c {| cs_service := cs_service c; cs_tasks := cs_tasks c; cs_sweeper := cs_sweeper c;
                           cs_cancelled := true; cs_accepting := false |}
| cs_sweep_stop c :
    cs_cancelled c = true → cs_sweeper c = SwIdle →
    cp_step auth LOwn c (with_sweeper c (cs_service c) SwStopped).

(** Any interleaving. *)
Definition cp_runs (auth : Auth) : relation cp_server := rtc (λ c c', ∃ l, cp_step auth l c c').

(** [run] returns: nothing is accepted or in flight, and the sweep task ended. *)
Definition cp_down (c : cp_server) : bool :=
  negb (cs_accepting c) && forallb finished (cs_tasks c) &&
  match cs_sweeper c with SwStopped => true | _ => false end.

(** A task run without interruption. *)
Fixpoint alone (k : nat) (t : handler_task) (s : S) : handler_task * S :=
  match k with
  | O => (t, s)
  | Datatypes.S k => let '(t, s) := advance t s in alone k t s
  end.

(** Where the sweep task is after a sweep that ended with [r]. *)
Definition sweep_end (r : outcome Error Z) : sweeper := match r with Panic => SwStopped | _ => SwIdle end.

(** A sweep run without interruption. *)
Fixpoint sweep_alone (k : nat) (w : sweeper) (s : S) : sweeper * S :=
  match k with
  | O => (w, s)
  | Datatypes.S k => let '(w, s) := sweep_advance w s in sweep_alone k w s
  end.
End tasks.

(** ** A task alone is its handler *)
Section handlers.
Context {HeaderMap : Type} (header_str : HeaderMap → string → option string).
Context (display : Error → string).
Context {R : Type} `{NodeRepository R}.

Abbreviation S := (ControlPlaneService R).
Abbreviation handler_result := (λ (h : SM ApiError S ApiBody) (s : S), (TDone (h s).1, (h s).2)).

Lemma alone_done k r (s : S) : alone display k (TDone r) s = (TDone r, s).
Proof. by induction k. Qed.

Lemma record_all_ok nodes (s : S) : ∃ s', record_all nodes s = (Ok tt, s').
Proof.
  revert s. induction nodes as [|n nodes IH]; intros s; [by eexists|]. cbn [record_all]. unfold m_bind. cbn. apply IH.
Qed.

(** A repository call leaves the configuration alone. *)
Lemma on_repo_config {A} (c : M R A) (s s' : S) r :
  on_repo c s = (r, s') → sv_policy s' = sv_policy s ∧ sv_weights s' = sv_weights s.
Proof. unfold on_repo. destruct (c (sv_repo s)). by intros [= <- <-]. Qed.

(** Run both sides to the next repository call and split on its result. *)
Ltac next_call :=
  match goal with
  | |- context [@on_repo R ?A ?c ?s] => destruct (@on_repo R A c s) as [[?|?|] ?] eqn:?
  end.
Ltac evaluate :=
  unfold respond, health, api_list_nodes, api_select_node, get_node, register_node, heartbeat_node, drain_node,
    call, register, heartbeat, heartbeat_after, drain, get, record_found, list_nodes, select, metrics_record_node,
    get_policy, m_bind, m_lift, m_ret, m_err;
  cbv beta iota zeta delta [alone advance read_back answer await fst snd map_err ok_or].

Ltac by_found := match goal with o : option Node |- _ => destruct o; done end.
Ltac listing :=
  evaluate; next_call; cbv beta iota; [|done|done];
  match goal with |- context [record_all ?l ?s] => destruct (record_all_ok l s) as [? ->] end; done.

Lemma task_alone auth r (s : S) :
  let h := router header_str display auth r s in
  alone display 4 (start header_str auth r) s = (TDone h.1, h.2).
Proof.
  cbv zeta. unfold start. destruct r as [| | |id|headers req|headers id hb|headers id]; cbn [guard router].
  - listing.
  - listing.
  - evaluate. next_call; cbv beta iota; [|done|done].
    destruct (on_repo_config _ _ _ _ Heqp) as [_ ->]. by destruct (node_select _ _).
  - evaluate. next_call; cbv beta iota; [|done|done]. by_found.
  - destruct (authorize header_str headers auth) as [[]|e|] eqn:Ha; cbn [obind].
    + destruct (validate_register req) as [[]|e|] eqn:Hv; evaluate; rewrite Ha, Hv; cbv beta iota; [|done..].
      next_call; cbv beta iota; [|done|done]. next_call; cbv beta iota; [|done|done]. by_found.
    + evaluate. by rewrite Ha.
    + evaluate. by rewrite Ha.
  - destruct (authorize header_str headers auth) as [[]|e|] eqn:Ha; cbn [obind].
    + evaluate. rewrite Ha. cbv beta iota. generalize (with_node_id hb id). clear hb id. intros hb.
      destruct (validate_heartbeat hb) as [[]|e|]; cbv beta iota; [|done..].
      next_call; cbv beta iota; [|done|done]. match goal with o : option Node |- _ => destruct o as [n|]; [|done] end.
      next_call; cbv beta iota; [|done|done].
      destruct (decide _) as [Hd|Hd]; cbv beta iota.
      * next_call; cbv beta iota; [|done|done]. by_found.
      * next_call; cbv beta iota; [|done|done]. next_call; cbv beta iota; [|done|done]. by_found.
    + evaluate. by rewrite Ha.
    + evaluate. by rewrite Ha.
  - destruct (authorize header_str headers auth) as [[]|e|] eqn:Ha; evaluate; rewrite Ha; cbv beta iota; [|done..].
    next_call; cbv beta iota; [|done|done]. next_call; cbv beta iota; [|done|done]. by_found.
Qed.

Lemma sweep_loop_alone `{Chrono} now nodes : ∀ marked (s : S),
  ∃ k, sweep_alone k (SwMark now nodes) s = (sweep_end (sweep now nodes marked s).1, (sweep now nodes marked s).2).
Proof.
  induction nodes as [|n nodes IH]; intros marked s; [by exists 1%nat|].
  cbn [sweep]. unfold get_policy, m_bind. cbv beta iota.
  destruct (is_live n && is_stale (n_last_heartbeat n) now (sv_policy s)) eqn:He.
  2:{ destruct (IH marked s) as [k Hk]. exists (Datatypes.S k). cbn [sweep_alone sweep_advance]. by rewrite He. }
  destruct (on_repo (repo_mark_offline (n_id n)) s) as [[u|e|] s'] eqn:E.
  - destruct (IH (marked + 1) s') as [k Hk]. exists (Datatypes.S k).
    cbn [sweep_alone sweep_advance]. by rewrite He, E.
  - exists 1%nat. cbn [sweep_alone sweep_advance]. by rewrite He, E.
  - exists 1%nat. cbn [sweep_alone sweep_advance]. by rewrite He, E.
Qed.

Lemma sweep_task_alone `{Chrono} now (s : S) :
  ∃ k, sweep_alone k (SwList now) s = (sweep_end (mark_stale_offline now s).1, (mark_stale_offline now s).2).
Proof.
  unfold mark_stale_offline, m_bind. destruct (on_repo repo_list s) as [[nodes|e|] s'] eqn:E.
  - destruct (sweep_loop_alone now nodes 0 s') as [k Hk]. exists (Datatypes.S k).
    cbn [sweep_alone sweep_advance]. by rewrite E.
  - exists 1%nat. cbn [sweep_alone sweep_advance]. by rewrite E.
  - exists 1%nat. cbn [sweep_alone sweep_advance]. by rewrite E.
Qed.
End handlers.

(** ** One step of a task *)

(** The update of the registry a task makes next. *)
Definition action (p : HealthPolicy) (t : handler_task) (stamp : Z) (m m' : Nodes) : Prop :=
  match t with
  | TRegister req => m' = spec_register req stamp m
  | TBeatRead hb _ => m' = spec_heartbeat hb stamp m
  | TBeatApplied hb n =>
      let next := reclassify_after_heartbeat (n_state n) (hb_active_connections hb) (n_max_connections n) p in
      next ≠ n_state n ∧ m' = spec_set_state (hb_node_id hb) next stamp m
  | TDrain id => m' = spec_set_state id Draining stamp m
  | _ => False
  end.

(** What is left of a task after a step in a registry [m]. *)
Definition follows (t : handler_task) (m : Nodes) (t' : handler_task) : Prop :=
  finished t' = true ∨
  match t with
  | TRegister req => t' = TRegistered req
  | TBeat hb => ∃ n, t' = TBeatRead hb n ∧ m !! hb_node_id hb = Some n
  | TBeatRead hb n => t' = TBeatApplied hb n
  | TBeatApplied hb _ => t' = TBeatStated hb
  | TDrain id => t' = TDrained id
  | _ => False
  end.

(** The requests of a task are typed and validated. *)
Definition task_ok (t : handler_task) : bool :=
  match t with
  | TRegister req => RegisterRequest_ok req && match validate_register req with Ok _ => true | _ => false end
  | TBeat hb | TBeatRead hb _ => Heartbeat_ok hb
  | _ => true
  end.

Definition task_left (t : handler_task) : nat :=
  match t with
  | TBeat _ => 4
  | TBeatRead _ _ => 3
  | TRegister _ | TBeatApplied _ _ | TDrain _ => 2
  | TRegistered _ | TBeatStated _ | TDrained _ | TGet _ | TList _ | TSelect => 1
  | TDone _ | TDropped => 0
  end.

Section steps.
Context {HeaderMap : Type} (header_str : HeaderMap → string → option string).
Context (display : Error → string).
Context {R : Type} `{RL : RepositoryLaws R} `{C : Chrono}.

Abbreviation S := (ControlPlaneService R).

Definition advanced (t : handler_task) (s : S) (r : handler_task * S) : Prop :=
  sinv r.2 ∧ sv_policy r.2 = sv_policy s ∧ follows t (sview s) r.1 ∧
  (sview r.2 = sview s ∨ ∃ stamp, action (sv_policy s) t stamp (sview s) (sview r.2)).

Lemma await_update (c : M R unit) f on_error k s (Q : handler_task * S → Prop) :
  updates repo_inv repo_view repo_stamp repo_reliable c f (sv_repo s) →
  (∀ s', sinv s' → sv_policy s' = sv_policy s → sview s' = f (repo_stamp (sv_repo s)) (sview s) → Q (k tt s')) →
  (∀ e s', sinv s' → sv_policy s' = sv_policy s → sview s' = sview s → Q (TDone (Err e), s')) →
  Q (await c on_error k s).
Proof.
  unfold await. intros Hu HOk HErr.
  pose proof (wp_update c f s (λ r s', Q (match r with
    | Ok a => k a s' | Err e => (TDone (Err (on_error e)), s') | Panic => (TDone Panic, s') end)) Hu) as Hw.
  unfold wp in Hw. destruct (on_repo c s) as [[[]|e|] s'] eqn:E; apply Hw; clear Hw; intros.
  all: apply HOk || apply HErr; done.
Qed.

Lemma await_read {A} (c : M R A) P on_error k s (Q : handler_task * S → Prop) :
  reads repo_inv repo_view repo_reliable c P (sv_repo s) →
  (∀ a s', sinv s' → sv_policy s' = sv_policy s → sview s' = sview s → P (sview s) a → Q (k a s')) →
  (∀ e s', sinv s' → sv_policy s' = sv_policy s → sview s' = sview s → Q (TDone (Err (on_error e)), s')) →
  Q (await c on_error k s).
Proof.
  unfold await. intros Hr HOk HErr.
  pose proof (wp_read c P s (λ r s', Q (match r with
    | Ok a => k a s' | Err e => (TDone (Err (on_error e)), s') | Panic => (TDone Panic, s') end)) Hr) as Hw.
  unfold wp in Hw. destruct (on_repo c s) as [[a|e|] s'] eqn:E; apply Hw; clear Hw; intros.
  all: apply HOk || apply HErr; done.
Qed.

(** A failed call, and a call after which the handler only answers. *)
Lemma advanced_end t s r s' :
  sinv s' → sv_policy s' = sv_policy s → sview s' = sview s → advanced t s (TDone r, s').
Proof. intros Hi Hp Hv. split_and!; [done|done|by left|by left]. Qed.

Lemma advanced_read_back t id s : sinv s → advanced t s (read_back display id s).
Proof.
  intros Hinv. unfold read_back. apply (await_read _ (λ m r, r = m !! id)); [by apply law_get| |intros; by apply advanced_end].
  intros a s' Hi Hp Hv _. destruct a; by apply advanced_end.
Qed.

Lemma advanced_answer t id s : sinv s → advanced t s (answer display id s).
Proof.
  intros Hinv. unfold answer. apply (await_read _ (λ m r, r = m !! id)); [by apply law_get| |intros; by apply advanced_end].
  intros a s' Hi Hp Hv _. destruct a; by apply advanced_end.
Qed.

(** The gauges are no part of the registry. *)
Lemma record_all_keeps nodes (s : S) :
  sv_repo (record_all nodes s).2 = sv_repo s ∧ sv_policy (record_all nodes s).2 = sv_policy s.
Proof.
  revert s. induction nodes as [|n nodes IH]; intros s; [done|]. cbn [record_all]. unfold m_bind. cbn.
  by rewrite !(proj1 (IH _)), !(proj2 (IH _)).
Qed.

Lemma advance_spec t s : sinv s → task_ok t = true → advanced t s (advance display t s).
Proof.
  intros Hinv Hok. destruct t as [req|req|hb|hb n|hb n|hb|id|id|id|hl| |r|]; cbn [advance task_ok] in *.
  - apply andb_prop in Hok as [Hok _].
    apply (await_update _ (spec_register req)); [by apply law_register| |intros; by apply advanced_end].
    intros s' Hi Hp Hv. split_and!; [done|done|by right|right]. by eexists.
  - apply (await_read _ (λ m r, r = m !! rr_node_id req)); [by apply law_get| |intros; by apply advanced_end].
    intros a s' Hi Hp Hv _. destruct a; by apply advanced_end.
  - apply (await_read _ (λ m r, r = m !! hb_node_id hb)); [by apply law_get| |intros; by apply advanced_end].
    intros a s' Hi Hp Hv ->. destruct (sview s !! hb_node_id hb) as [n|] eqn:E; [|by apply advanced_end].
    split_and!; [done|done|right; by exists n|by left].
  - apply (await_update _ (spec_heartbeat hb)); [by apply law_heartbeat| |intros; by apply advanced_end].
    intros s' Hi Hp Hv. split_and!; [done|done|by right|right]. by eexists.
  - destruct (decide _) as [He|Hne]; [by apply advanced_read_back|].
    apply (await_update _ (spec_set_state (hb_node_id hb) (reclassify_after_heartbeat (n_state n)
      (hb_active_connections hb) (n_max_connections n) (sv_policy s))));
      [by apply law_set_state| |intros; by apply advanced_end].
    intros s' Hi Hp Hv. split_and!; [done|done|by right|right]. eexists. by split.
  - by apply advanced_read_back.
  - apply (await_update _ (spec_set_state id Draining)); [by apply law_draining| |intros; by apply advanced_end].
    intros s' Hi Hp Hv. split_and!; [done|done|by right|right]. by eexists.
  - by apply advanced_answer.
  - by apply advanced_answer.
  - apply (await_read _ lists); [by apply law_list| |intros; by apply advanced_end].
    intros l s' Hi Hp Hv _. destruct (record_all_keeps l s') as [Hr Hq].
    apply advanced_end; unfold sinv, sview in *; by rewrite ?Hr, ?Hq.
  - apply (await_read _ lists); [by apply law_list| |intros; by apply advanced_end].
    intros l s' Hi Hp Hv _. destruct (node_select _ _); by apply advanced_end.
  - by apply advanced_end.
  - split_and!; [done|done|by left|by left].
Qed.

(** A handler that completes has just read the registry, and its answer is about
    what it read. *)
Definition completed (t : handler_task) (s : S) (r : handler_task * S) : Prop :=
  match r.1 with
  | TDone (Ok b) =>
      sinv r.2 ∧ sview r.2 = sview s ∧ Forall (describes (sview r.2)) (body_nodes b) ∧
      (t = TSelect → ∃ r n, b = NodeBody r ∧ sview s !! nr_id r = Some n ∧ is_selectable n = true)
  | TDone (Err e) =>
      sview r.2 = sview s ∧
      (t = TSelect → ae_status e = SERVICE_UNAVAILABLE → ∀ id n, sview s !! id = Some n → is_selectable n = false)
  | TDone Panic => False
  | _ => True
  end.

Lemma completed_node t id n s s' :
  t ≠ TSelect → sinv s' → sview s' = sview s → sview s !! id = Some n →
  completed t s (described n, (metrics_record_node n s').2).
Proof.
  intros Ht Hi Hv Hn. cbn. split_and!; [done|done| |done]. constructor; [|constructor].
  apply describes_node; [done|]. apply (lookup_self s' id); [done|]. by rewrite Hv.
Qed.

Lemma advance_completes t s :
  sinv s → task_ok t = true → finished t = false → completed t s (advance display t s).
Proof.
  intros Hinv Hok Hf.
  assert (Hfail : t ≠ TSelect → ∀ e s', sview s' = sview s → completed t s (TDone (Err e), s')) by (by intros ? ? ? ?).
  assert (Hget : ∀ id e, t ≠ TSelect → completed t s
    (await (repo_get id) (internal_error display) (λ found s', match found with
      | Some n => (described n, (metrics_record_node n s').2) | None => (TDone (Err e), s') end) s)).
  { intros id e Ht. apply (await_read _ (λ m r, r = m !! id)); [by apply law_get| |by auto].
    intros a s' Hi Hp Hv ->. destruct (sview s !! id) as [n|] eqn:En; [|by apply Hfail]. by apply (completed_node t id). }
  assert (Hback : ∀ id, t ≠ TSelect → completed t s (read_back display id s)).
  { intros id Ht. unfold read_back. apply (await_read _ (λ m r, r = m !! id)); [by apply law_get| |by auto].
    intros a s' Hi Hp Hv _. destruct a; cbn; split_and!; done || constructor. }
  destruct t as [req|req|hb|hb n|hb n|hb|id|id|id|hl| |r|]; cbn [advance task_ok] in *; try done.
  - apply andb_prop in Hok as [Hok _]. apply (await_update _ (spec_register req)); [by apply law_register|done|done].
  - by apply Hget.
  - apply (await_read _ (λ m r, r = m !! hb_node_id hb)); [by apply law_get| |by auto].
    intros a s' Hi Hp Hv _. destruct a; [done|]. cbn. split_and!; done || constructor.
  - apply (await_update _ (spec_heartbeat hb)); [by apply law_heartbeat|done|done].
  - destruct (decide _); [by apply Hback|].
    eapply await_update; [by apply law_set_state|done|done].
  - by apply Hback.
  - apply (await_update _ (spec_set_state id Draining)); [by apply law_draining|done|done].
  - by apply Hget.
  - by apply Hget.
  - apply (await_read _ lists); [by apply law_list| |by auto].
    intros l s' Hi Hp Hv (_ & _ & Hin). destruct (record_all_keeps l s') as [Hr _].
    assert (Hview : sview (record_all l s').2 = sview s) by (unfold sview; by rewrite Hr).
    assert (Hinv' : sinv (record_all l s').2) by (unfold sinv; by rewrite Hr).
    split_and!; [done|done| |done]. destruct hl; [constructor|]. cbn.
    apply Forall_fmap, Forall_forall. intros n Hn. apply describes_node; [done|]. rewrite Hview. by apply Hin.
  - apply (await_read _ lists); [by apply law_list| |intros e s' _ _ Hv; by split; [|intros _ ?]].
    intros l s' Hi Hp Hv (_ & _ & Hin). destruct (node_select _ _) as [n|] eqn:Es.
    + symmetry in Es. apply selector_select_elem in Es as [Hs [_ Hn]%list_elem_of_filter].
      assert (Hr : sview s !! n_id n = Some n) by (by apply Hin).
      split_and!; [done|done| |intros _; by exists (from_node n (n_bandwidth_limit n)), n]. constructor; [|constructor].
      apply describes_node; [done|]. change (sview s' !! n_id n = Some n). rewrite Hv. by apply Hin.
    + split; [done|]. intros _ _ id n Hn. destruct (is_selectable n) eqn:Hs; [|done]. exfalso.
      assert (Hl : n ∈ filter (λ n, is_selectable n = true) l).
      { apply list_elem_of_filter. split; [done|]. apply Hin. by apply (lookup_self s id). }
      change (selector_select (HealthAwareSelector_new (sv_weights s')) (filter (λ n, is_selectable n = true) l) = None) in Es.
      unfold selector_select, max_by in Es.
      destruct (filter _ (filter (λ n, is_selectable n = true) l)) as [|x k] eqn:Ef; [|done].
      assert (Hx : n ∈ filter (λ n, is_selectable n = true) (filter (λ n, is_selectable n = true) l))
        by (by apply list_elem_of_filter). rewrite Ef in Hx. by apply not_elem_of_nil in Hx.
Qed.

Lemma follows_ok t m t' : follows t m t' → task_ok t = true → task_ok t' = true.
Proof.
  intros [Hf|Hf] Hok; [by destruct t'|].
  destruct t; try done; try (by rewrite Hf); by destruct Hf as (n & -> & _).
Qed.

Lemma follows_decreases t m t' : follows t m t' → finished t = false → (task_left t' < task_left t)%nat.
Proof.
  intros [Hf|Hf] Ht.
  - destruct t', t; try done; cbn; lia.
  - destruct t; try done; try (rewrite Hf; cbn; lia); destruct Hf as (n & -> & _); cbn; lia.
Qed.

Lemma start_ok auth r :
  sv_op_ok (operation r) = true → task_ok (start header_str auth r) = true.
Proof.
  intros Hok. unfold start. destruct (guard header_str auth r) as [u|e|] eqn:Hg; [|done|done].
  destruct r as [| | |id|headers req|headers id hb|headers id]; try done.
  cbn [guard operation sv_op_ok task_ok] in *. inv_ok. by rewrite Hok, Hg.
Qed.

(** ** One step of the sweep task *)
Definition swept_once (w : sweeper) (s : S) (r : sweeper * S) : Prop :=
  sinv r.2 ∧ sv_policy r.2 = sv_policy s ∧
  (r.1 = SwIdle ∨
   match w with
   | SwList now => ∃ nodes, r.1 = SwMark now nodes ∧ lists (sview s) nodes
   | SwMark now (_ :: nodes) => r.1 = SwMark now nodes
   | SwMark _ [] => False
   | _ => r.1 = w
   end) ∧
  (sview r.2 = sview s ∨
   ∃ stamp now n nodes, w = SwMark now (n :: nodes) ∧ expired (sv_policy s) now n = true ∧
     sview r.2 = spec_set_state (n_id n) Offline stamp (sview s)).

Lemma sweep_advance_spec w s : sinv s → swept_once w s (sweep_advance w s).
Proof.
  intros Hinv. destruct w as [|now|now [|n nodes]|]; cbn [sweep_advance].
  - split_and!; [done|done|by left|by left].
  - pose proof (wp_read repo_list lists s (λ r s', swept_once (SwList now) s
      (match r with Ok nodes => (SwMark now nodes, s') | Err _ => (SwIdle, s') | Panic => (SwStopped, s') end)) (law_list _ Hinv)) as Hw.
    unfold wp in Hw. destruct (on_repo repo_list s) as [[l|e|] s']; apply Hw; intros;
      (split_and!; [done|done|eauto|by left]).
  - split_and!; [done|done|by left|by left].
  - fold (expired (sv_policy s) now n). destruct (expired (sv_policy s) now n) eqn:He.
    2:{ split_and!; [done|done|by right|by left]. }
    pose proof (wp_update (repo_mark_offline (n_id n)) (spec_set_state (n_id n) Offline) s
      (λ r s', swept_once (SwMark now (n :: nodes)) s
        (match r with Ok _ => (SwMark now nodes, s') | Err _ => (SwIdle, s') | Panic => (SwStopped, s') end)) (law_offline _ _ Hinv)) as Hw.
    unfold wp in Hw. destruct (on_repo (repo_mark_offline (n_id n)) s) as [[[]|e|] s']; apply Hw; intros;
      (split_and!; [done|done|by auto|]); try by left.
    all: right; eexists _, now, n, nodes; split_and!; done.
  - split_and!; [done|done|by right|by left].
Qed.
End steps.

(** ** The server *)
Section server.
Context {HeaderMap : Type} (header_str : HeaderMap → string → option string).
Context (display : Error → string).
Context {R : Type} `{RL : RepositoryLaws R} `{C : Chrono}.

Abbreviation S := (ControlPlaneService R).
Abbreviation step := (cp_step header_str display).
Abbreviation runs := (cp_runs header_str display).

(** What a step does to the registry: nothing, the next action of some task, or
    the marking of a node by the sweep task. *)
Inductive change (c : cp_server (R := R)) : Nodes → Prop :=
| ch_none : change c (sview (cs_service c))
| ch_task i t stamp m' :
    cs_tasks c !! i = Some t → action (sv_policy (cs_service c)) t stamp (sview (cs_service c)) m' → change c m'
| ch_sweep stamp now n nodes :
    cs_sweeper c = SwMark now (n :: nodes) → expired (sv_policy (cs_service c)) now n = true →
    change c (spec_set_state (n_id n) Offline stamp (sview (cs_service c))).

Record cp_inv (c : cp_server (R := R)) : Prop := {
  ci_registry : sinv (cs_service c);
  ci_tasks : Forall (λ t, task_ok t = true) (cs_tasks c)
}.

Lemma step_change auth l c c' :
  cp_inv c → step auth l c c' →
  cp_inv c' ∧ sv_policy (cs_service c') = sv_policy (cs_service c) ∧ change c (sview (cs_service c')).
Proof.
  intros [Hi Ht] Hs.
  destruct Hs as [c r Ha Hok|c now Hw|c i t Hit Hf|c i t Hit Hf|c Hw|c Hc|c Hc Ha|c Hc Hw];
    try (split_and!; [by split|done|exact (ch_none c)]).
  - split_and!; [|done|exact (ch_none c)]. split; [done|]. cbn. apply Forall_app_2; [done|].
    constructor; [by apply start_ok|constructor].
  - pose proof (Forall_lookup_1 _ _ _ _ Ht Hit) as Hok.
    destruct (advance_spec display t (cs_service c) Hi Hok) as (Hi' & Hp & Hfo & Hv). split_and!; [|done|].
    + split; [done|]. cbn. apply Forall_insert; [done|]. by eapply follows_ok.
    + cbn. destruct Hv as [->|[stamp Hv]]; [exact (ch_none c)|by eapply ch_task].
  - split_and!; [|done|exact (ch_none c)]. split; [done|]. cbn. by apply Forall_insert.
  - destruct (sweep_advance_spec (cs_sweeper c) (cs_service c) Hi) as (Hi' & Hp & _ & Hv).
    split_and!; [by split|done|]. cbn.
    destruct Hv as [->|(stamp & now & n & nodes & Hwn & He & ->)]; [exact (ch_none c)|by eapply ch_sweep].
Qed.

(** Every registered node stays registered. *)
Lemma change_keeps c m' id n :
  change c m' → sview (cs_service c) !! id = Some n → ∃ n', m' !! id = Some n'.
Proof.
  intros Hch Hn.
  assert (Halter : ∀ f k, ∃ n', alter f k (sview (cs_service c)) !! id = Some n').
  { intros f k. destruct (decide (k = id)) as [->|Hne];
      [rewrite lookup_alter_eq, Hn|rewrite lookup_alter_ne, Hn by done]; by eexists. }
  destruct Hch as [|i t stamp m' Hi Ha|stamp now k nodes _ _]; [by exists n| |apply Halter].
  destruct t; cbn in Ha; try done; try (rewrite Ha; apply Halter).
  - rewrite Ha. unfold spec_register. destruct (decide (rr_node_id req = id)) as [<-|Hne];
      [rewrite lookup_insert_eq|rewrite lookup_insert_ne, Hn by done]; by eexists.
  - destruct Ha as [_ ->]. apply Halter.
Qed.

Lemma inherits_heartbeat hb stamp m : inherits m (spec_heartbeat hb stamp m).
Proof.
  intros j k. unfold spec_heartbeat. destruct (decide (hb_node_id hb = j)) as [<-|Hne].
  - rewrite lookup_alter_eq. destruct (m !! hb_node_id hb) as [n|]; cbn; [|done]. intros [= <-]. by exists n.
  - rewrite lookup_alter_ne by done. intros Hk. by exists k.
Qed.

Abbreviation all_admissible := (map_Forall (λ (_ : string) n, admissible n = true)).

Lemma change_admissible c m' :
  cp_inv c → all_admissible (sview (cs_service c)) → change c m' → all_admissible m'.
Proof.
  intros [Hi Ht] Hadm Hch. destruct Hch as [|i t stamp m' Hit Ha|stamp now n nodes _ _]; [done| |].
  2:{ eapply inherits_admissible; [apply inherits_set_state|done]. }
  pose proof (Forall_lookup_1 _ _ _ _ Ht Hit) as Hok.
  destruct t; cbn in Ha, Hok; try done.
  - apply andb_prop in Hok as [_ Hv]. rewrite Ha. apply registered_admissible; [done| |].
    + intros id n Hn. by destruct (view_typed _ _ _ Hi Hn).
    + by destruct (validate_register req) as [[]| |].
  - rewrite Ha. eapply inherits_admissible; [apply inherits_heartbeat|done].
  - destruct Ha as [_ ->]. eapply inherits_admissible; [apply inherits_set_state|done].
  - rewrite Ha. eapply inherits_admissible; [apply inherits_set_state|done].
Qed.

(** An invariant of single steps, along a run. *)
Lemma runs_preserve auth (P : cp_server → Prop) c c' :
  (∀ l c c', P c → step auth l c c' → P c') → runs auth c c' → P c → P c'.
Proof. intros Hstep Hr. induction Hr as [|x y z [l Hxy] _ IH]; [done|]. intros Hx. by eapply IH, Hstep. Qed.

Lemma reachable_inv auth s c : sinv s → runs auth (cp_init s) c → cp_inv c.
Proof.
  intros Hi Hr. eapply (runs_preserve auth cp_inv); [|exact Hr|by split].
  intros l x y Hx Hs. by destruct (step_change auth l x y Hx Hs).
Qed.

Lemma runs_sound auth c c' :
  runs auth c c' → cp_inv c → all_admissible (sview (cs_service c)) →
  cp_inv c' ∧ all_admissible (sview (cs_service c')) ∧
  ∀ id n, sview (cs_service c) !! id = Some n → ∃ n', sview (cs_service c') !! id = Some n'.
Proof.
  intros Hr Hi Ha. eapply (runs_preserve auth (λ c', cp_inv c' ∧ all_admissible (sview (cs_service c')) ∧
    ∀ id n, sview (cs_service c) !! id = Some n → ∃ n', sview (cs_service c') !! id = Some n')); [|exact Hr|].
  - intros l x y (Hix & Hax & Hkx) Hs. destruct (step_change auth l x y Hix Hs) as (Hiy & _ & Hch).
    split_and!; [done|by apply (change_admissible x)|].
    intros id n Hn. destruct (Hkx id n Hn) as [n' Hn']. by apply (change_keeps x _ id n').
  - split_and!; [done|done|]. intros id n Hn. by exists n.
Qed.

(** ** Draining *)

(** A task that read node [id] before it was drained and may still change its
    state. *)
Definition stale_read (id : string) (t : handler_task) : bool :=
  match t with
  | TBeatRead hb n | TBeatApplied hb n =>
      String.eqb (hb_node_id hb) id && negb (bool_decide (n_state n = Draining))
  | _ => false
  end.

(** A sweep that listed node [id] as live and may still mark it. *)
Definition stale_sweep (id : string) (w : sweeper) : bool :=
  match w with
  | SwMark _ nodes => existsb (λ n, String.eqb (n_id n) id && is_live n) nodes
  | _ => false
  end.

Record drained (id : string) (c : cp_server (R := R)) : Prop := {
  dr_state : ∃ n, sview (cs_service c) !! id = Some n ∧ n_state n = Draining;
  dr_tasks : Forall (λ t, stale_read id t = false) (cs_tasks c);
  dr_sweep : stale_sweep id (cs_sweeper c) = false
}.

Lemma drained_change id c m' :
  drained id c → change c m' → ∃ n, m' !! id = Some n ∧ n_state n = Draining.
Proof.
  intros [(n & Hn & Hs) Ht Hw] Hch.
  destruct Hch as [|i t stamp m' Hit Ha|stamp now k nodes Hk He]; [by exists n| |].
  - pose proof (Forall_lookup_1 _ _ _ _ Ht Hit) as Hst. destruct t; cbn in Ha, Hst; try done.
    + rewrite Ha. unfold spec_register. destruct (decide (rr_node_id req = id)) as [<-|Hne].
      * rewrite lookup_insert_eq, Hn. eexists. split; [done|]. cbn. by rewrite Hs.
      * rewrite lookup_insert_ne by done. by exists n.
    + rewrite Ha. unfold spec_heartbeat. destruct (decide (hb_node_id hb = id)) as [<-|Hne].
      * rewrite lookup_alter_eq, Hn. eexists. split; [done|]. done.
      * rewrite lookup_alter_ne by done. by exists n.
    + destruct Ha as [Hnext ->]. unfold spec_set_state.
      destruct (decide (hb_node_id hb = id)) as [<-|Hne]; [|rewrite lookup_alter_ne by done; by exists n].
      rewrite String.eqb_refl in Hst. cbn in Hst. apply negb_false_iff, bool_decide_eq_true in Hst.
      rewrite Hst in Hnext. done.
    + rewrite Ha. unfold spec_set_state. destruct (decide (id0 = id)) as [<-|Hne].
      * rewrite lookup_alter_eq, Hn. eexists. split; [done|]. done.
      * rewrite lookup_alter_ne by done. by exists n.
  - unfold spec_set_state. destruct (decide (n_id k = id)) as [<-|Hne]; [|rewrite lookup_alter_ne by done; by exists n].
    rewrite Hk in Hw. cbn in Hw. rewrite String.eqb_refl in Hw. unfold expired in He.
    apply andb_prop in He as [Hl _]. by rewrite Hl in Hw.
Qed.

Lemma drained_step auth l id c c' :
  cp_inv c → drained id c → step auth l c c' → drained id c'.
Proof.
  intros Hinv Hd Hs. destruct (step_change auth l c c' Hinv Hs) as (_ & _ & Hch).
  pose proof (drained_change id c _ Hd Hch) as Hst. destruct Hinv as [Hi Hok]. destruct Hd as [(n & Hn & Hns) Ht Hw].
  destruct Hs as [c r Ha Ho|c now Hx|c i t Hit Hf|c i t Hit Hf|c Hx|c Hc|c Hc Ha|c Hc Hx]; split; try done.
  - cbn. apply Forall_app_2; [done|]. constructor; [|constructor]. unfold start.
    destruct (guard header_str auth r); [destruct r|..]; done.
  - cbn. apply Forall_insert; [done|].
    pose proof (Forall_lookup_1 _ _ _ _ Ht Hit) as Hst'. pose proof (Forall_lookup_1 _ _ _ _ Hok Hit) as Hot.
    destruct (advance_spec display t (cs_service c) Hi Hot) as (_ & _ & Hfo & _).
    destruct Hfo as [Hfin|Hfo]; [by destruct (advance display t (cs_service c)).1|].
    destruct t; try done; try (by rewrite Hfo).
    destruct Hfo as (k & -> & Hk). cbn. destruct (String.eqb_spec (hb_node_id hb) id) as [He|]; [|done].
    rewrite He in Hk. simplify_eq. by rewrite bool_decide_eq_true_2.
  - cbn. by apply Forall_insert.
  - cbn. destruct (sweep_advance_spec (cs_sweeper c) (cs_service c) Hi) as (_ & _ & Hfo & _).
    destruct Hfo as [->|Hfo]; [done|]. destruct (cs_sweeper c) as [|now|now [|k nodes]|]; try done; try (by rewrite Hfo).
    + destruct Hfo as (nodes & -> & Hl). cbn.
      destruct (existsb _ nodes) eqn:Hex; [|done]. apply existsb_exists in Hex as (k & Hk & [He Hlive]%andb_prop).
      apply String.eqb_eq in He. apply list_elem_of_In in Hk. destruct Hl as (_ & _ & Hin). apply Hin in Hk.
      rewrite He in Hk. simplify_eq. unfold is_live in Hlive. by rewrite Hns in Hlive.
    + rewrite Hfo. cbn in Hw |- *. by apply orb_false_elim in Hw as [_ ->].
Qed.

Lemma drained_runs auth id c c' :
  runs auth c c' → cp_inv c → drained id c → cp_inv c' ∧ drained id c'.
Proof.
  intros Hr Hi Hd. eapply (runs_preserve auth (λ c, cp_inv c ∧ drained id c)); [|exact Hr|done].
  intros l x y [Hix Hdx] Hs. destruct (step_change auth l x y Hix Hs) as (Hiy & _). split; [done|exact (drained_step auth l id x y Hix Hdx Hs)].
Qed.
End server.

(** ** Shutdown *)
Section shutdown.
Context {HeaderMap : Type} (header_str : HeaderMap → string → option string).
Context (display : Error → string).
Context {R : Type} `{RL : RepositoryLaws R} `{C : Chrono}.

Abbreviation own auth := (cp_step header_str display auth LOwn).

(** How far the server is from being down: a sweep that has yet to list the
    nodes counts apart, since the list has no bound in advance. *)
Definition before_list (c : cp_server (R := R)) : nat :=
  match cs_sweeper c with SwList _ => 1 | _ => 0 end.
Definition sweep_left (w : sweeper) : nat :=
  match w with SwMark _ nodes => 2 + length nodes | SwIdle => 1 | _ => 0 end.
Definition flag (b : bool) : nat := if b then 1 else 0.
Definition work_left (c : cp_server (R := R)) : nat :=
  sum_list_with task_left (cs_tasks c) + sweep_left (cs_sweeper c) +
  flag (negb (cs_cancelled c)) + flag (cs_accepting c).

Lemma sum_insert (l : list handler_task) i t t' :
  l !! i = Some t → (task_left t' < task_left t)%nat →
  (sum_list_with task_left (<[i := t']> l) < sum_list_with task_left l)%nat.
Proof.
  revert i. induction l as [|x l IH]; intros [|i] Hi Hlt; cbn in *; [done|done|simplify_eq; lia|].
  apply Nat.add_lt_mono_l. by apply IH.
Qed.

Lemma own_decreases auth c c' :
  cp_inv c → own auth c c' →
  (before_list c' < before_list c)%nat ∨
  (before_list c' = before_list c ∧ (work_left c' < work_left c)%nat).
Proof.
  intros [Hi Hok] Hs. unfold before_list, work_left.
  inversion Hs as [| |x i t Hit Hf|x i t Hit Hf|x Hw|x Hc|x Hc Ha|x Hc Hw]; subst; cbn.
  - right. split; [done|]. pose proof (Forall_lookup_1 _ _ _ _ Hok Hit) as Hot.
    destruct (advance_spec display t (cs_service c) Hi Hot) as (_ & _ & Hfo & _).
    pose proof (sum_insert _ _ _ _ Hit (follows_decreases _ _ _ Hfo Hf)). lia.
  - right. split; [done|]. assert (Hlt : (task_left TDropped < task_left t)%nat) by (destruct t; cbn in *; discriminate || lia).
    pose proof (sum_insert _ _ _ _ Hit Hlt). lia.
  - destruct (sweep_advance_spec (cs_sweeper c) (cs_service c) Hi) as (_ & _ & Hfo & _).
    destruct (cs_sweeper c) as [|now|now [|n nodes]|]; try done;
      (destruct Hfo as [Hfo|Hfo]; [rewrite Hfo; cbn; lia|]); try done.
    + destruct Hfo as (nodes & -> & _). cbn. lia.
    + rewrite Hfo. cbn. lia.
  - right. rewrite Hc. cbn. lia.
  - right. rewrite Hc, Ha. cbn. lia.
  - right. rewrite Hw. cbn. lia.
Qed.

(** No interleaving of the server's own steps goes on for ever. *)
Lemma own_terminates auth c : cp_inv c → Acc (λ x y, own auth y x) c.
Proof.
  remember (before_list c) as a eqn:Ea. revert c Ea. induction a as [a IHa] using lt_wf_ind. intros c.
  remember (work_left c) as b eqn:Eb. revert c Eb. induction b as [b IHb] using lt_wf_ind. intros c Eb Ea Hinv.
  constructor. intros c' Hs. destruct (step_change _ _ _ _ _ _ Hinv Hs) as (Hinv' & _).
  destruct (own_decreases auth c c' Hinv Hs) as [Hlt|[Heq Hlt]].
  - eapply IHa; [|reflexivity|done]. lia.
  - eapply IHb; [|reflexivity|lia|done]. lia.
Qed.

(** A server that is shutting down and not down can go on. *)
Lemma own_progress auth c :
  cs_cancelled c = true → cs_accepting c = false → cp_down c = false → ∃ c', own auth c c'.
Proof.
  intros Hc Ha Hd. destruct (forallb finished (cs_tasks c)) eqn:Hf.
  - destruct (cs_sweeper c) as [|now|now nodes|] eqn:Hw.
    + eexists. by apply cs_sweep_stop.
    + eexists. apply cs_sweep. by rewrite Hw.
    + eexists. apply cs_sweep. by rewrite Hw.
    + unfold cp_down in Hd. by rewrite Ha, Hf, Hw in Hd.
  - assert (Hex : ∃ i t, cs_tasks c !! i = Some t ∧ finished t = false).
    { clear -Hf. induction (cs_tasks c) as [|t l IH]; cbn in Hf; [done|].
      destruct (finished t) eqn:Ht; [|by exists 0%nat, t]. destruct (IH Hf) as (i & u & ? & ?). by exists (1 + i)%nat, u. }
    destruct Hex as (i & t & Hi & Ht). eexists. by eapply cs_run.
Qed.

Lemma own_keeps_flags auth c c' :
  own auth c c' → cs_cancelled c = true → cs_accepting c = false →
  cs_cancelled c' = true ∧ cs_accepting c' = false.
Proof. intros Hs Hc Ha. inversion Hs; subst; cbn; auto. Qed.

Lemma own_finishes auth c :
  cp_inv c → cs_cancelled c = true → cs_accepting c = false → ∃ c', rtc (own auth) c c' ∧ cp_down c' = true.
Proof.
  intros Hinv. pose proof (own_terminates auth c Hinv) as Hacc.
  induction Hacc as [c _ IH]. intros Hc Ha. destruct (cp_down c) eqn:Hd; [by exists c|].
  destruct (own_progress auth c Hc Ha Hd) as [c1 Hs].
  destruct (own_keeps_flags auth c c1 Hs Hc Ha) as [Hc1 Ha1].
  destruct (step_change _ _ _ _ _ _ Hinv Hs) as (Hinv1 & _).
  destruct (IH c1 Hs Hinv1 Hc1 Ha1) as (c' & Hr & Hd'). exists c'. split; [by eapply rtc_l|done].
Qed.

(** ** Runs of one task *)
Lemma alone_runs auth k : ∀ c i t,
  cs_tasks c !! i = Some t →
  cp_runs header_str display auth c
    (with_tasks c (alone display k t (cs_service c)).2
       (<[i := (alone display k t (cs_service c)).1]> (cs_tasks c))).
Proof.
  induction k as [|k IH]; intros c i t Hi; cbn [alone].
  { cbn [fst snd]. rewrite list_insert_id by done. destruct c. apply rtc_refl. }
  destruct (finished t) eqn:Hf.
  { assert (advance display t (cs_service c) = (t, cs_service c)) as -> by (by destruct t). by apply IH. }
  eapply rtc_l; [eexists; by apply cs_run|].
  destruct (advance display t (cs_service c)) as [t' s'] eqn:E. cbn [fst snd].
  assert (Hlen : (i < length (cs_tasks c))%nat) by (by eapply lookup_lt_Some).
  pose proof (IH (with_tasks c s' (<[i := t']> (cs_tasks c))) i t') as Hr. cbn in Hr.
  rewrite list_lookup_insert_eq, list_insert_insert_eq in Hr by done. by apply Hr.
Qed.
End shutdown.

(** ** A sweep that is overtaken *)
Section overtaken.
Context {HeaderMap : Type} (header_str : HeaderMap → string → option string).
Context (display : Error → string).
Context {R : Type} `{RL : RepositoryLaws R} `{C : Chrono}.

Abbreviation runs := (cp_runs header_str display).

(** One step of the sweep task, nothing else moving. *)
Definition sweeps (c c' : cp_server (R := R)) : Prop :=
  sweeping (cs_sweeper c) = true ∧
  c' = with_sweeper c (sweep_advance (cs_sweeper c) (cs_service c)).2 (sweep_advance (cs_sweeper c) (cs_service c)).1.

(** One marking, while the storage works. *)
Lemma mark_runs c now n nodes :
  sinv (cs_service c) → sreliable (cs_service c) → cs_sweeper c = SwMark now (n :: nodes) →
  ∃ s' stamp, sweeps c (with_sweeper c s' (SwMark now nodes)) ∧ sinv s' ∧ sreliable s' ∧
    sv_policy s' = sv_policy (cs_service c) ∧
    sview s' = if expired (sv_policy (cs_service c)) now n
               then spec_set_state (n_id n) Offline stamp (sview (cs_service c)) else sview (cs_service c).
Proof.
  intros Hi Hr Hw.
  assert (Hstep : sweeps c (with_sweeper c (sweep_advance (cs_sweeper c) (cs_service c)).2
                              (sweep_advance (cs_sweeper c) (cs_service c)).1)) by (split; [by rewrite Hw|done]).
  rewrite Hw in Hstep. cbn [sweep_advance] in Hstep. fold (expired (sv_policy (cs_service c)) now n) in Hstep.
  destruct (expired (sv_policy (cs_service c)) now n) eqn:He; [|by exists (cs_service c), 0].
  pose proof (wp_update (repo_mark_offline (n_id n)) (spec_set_state (n_id n) Offline) (cs_service c)
    (λ r s', r = Ok tt ∧ sinv s' ∧ sreliable s' ∧ sv_policy s' = sv_policy (cs_service c) ∧
       sview s' = spec_set_state (n_id n) Offline (repo_stamp (sv_repo (cs_service c))) (sview (cs_service c)))
    (law_offline _ _ Hi)) as Hu.
  unfold wp in Hu. destruct (on_repo (repo_mark_offline (n_id n)) (cs_service c)) as [r s'] eqn:E.
  cbn [fst snd] in Hu. destruct Hu as (-> & Hi' & Hr' & Hp & Hv).
  { intros r' Hi' Hr' Hv. split_and!; [done|done|by apply Hr'|done|done]. }
  { by intros e r' _ Hr'. }
  exists s', (repo_stamp (sv_repo (cs_service c))). by split_and!.
Qed.

(** The rest of a sweep marks the nodes it listed as expired, whatever became
    of them since. *)
Lemma marks_run now id nodes : ∀ c,
  sinv (cs_service c) → sreliable (cs_service c) → cs_sweeper c = SwMark now nodes →
  ∃ s', rtc sweeps c (with_sweeper c s' SwIdle) ∧ sinv s' ∧
    ∀ m, sview (cs_service c) !! id = Some m → ∃ m', sview s' !! id = Some m' ∧
      (m' = m ∨ ∃ t, m' = with_state Offline t m) ∧
      ((∃ k, k ∈ nodes ∧ n_id k = id ∧ expired (sv_policy (cs_service c)) now k = true) →
       n_state m' = Offline).
Proof.
  induction nodes as [|n nodes IH]; intros c Hi Hr Hw.
  { exists (cs_service c). split_and!; [|done|].
    - apply rtc_once. split; [by rewrite Hw|]. by rewrite Hw.
    - intros m Hm. exists m. split_and!; [done|by left|]. intros (k & Hk & _). by apply not_elem_of_nil in Hk. }
  destruct (mark_runs c now n nodes Hi Hr Hw) as (s1 & stamp & Hrun & Hi1 & Hr1 & Hp1 & Hv1).
  destruct (IH (with_sweeper c s1 (SwMark now nodes)) Hi1 Hr1 eq_refl) as (s' & Hrun' & Hi' & Hm').
  exists s'. split_and!; [by eapply rtc_l|done|]. intros m Hm. cbn in Hm'. rewrite Hp1 in Hm'.
  assert (Hm1 : ∃ m1, sview s1 !! id = Some m1 ∧ (m1 = m ∨ ∃ t, m1 = with_state Offline t m) ∧
    (n_id n = id → expired (sv_policy (cs_service c)) now n = true → n_state m1 = Offline)).
  { rewrite Hv1. destruct (expired _ now n) eqn:He; [|exists m; split_and!; [done|by left|done]].
    unfold spec_set_state. destruct (decide (n_id n = id)) as [Hid|Hid].
    - rewrite <- Hid, lookup_alter_eq, Hid, Hm. eexists. split_and!; [done|right; by eexists|done].
    - rewrite lookup_alter_ne by done. exists m. split_and!; [done|by left|done]. }
  destruct Hm1 as (m1 & Hl1 & Hc1 & Ho1). destruct (Hm' m1 Hl1) as (m' & Hl' & Hc' & Ho'). exists m'. split_and!; [done| |].
  - destruct Hc' as [->|[t ->]], Hc1 as [->|[t' ->]]; [by left|right; by eexists..].
  - intros (k & [->|Hk]%elem_of_cons & Hid & He); [|apply Ho'; eauto].
    specialize (Ho1 Hid He). destruct Hc' as [->|[t ->]]; [done|done].
Qed.

(** The sweep lists the nodes. *)
Lemma listing_runs auth now s :
  sinv s → sreliable s →
  ∃ s1 nodes, runs auth (cp_init s) (with_sweeper (cp_init s) s1 (SwMark now nodes)) ∧ lists (sview s) nodes ∧
    sinv s1 ∧ sreliable s1 ∧ sv_policy s1 = sv_policy s ∧ sview s1 = sview s.
Proof.
  intros Hi Hr.
  pose proof (wp_read repo_list lists s (λ r s', ∃ l, r = Ok l ∧ lists (sview s) l ∧ sinv s' ∧ sreliable s' ∧
    sv_policy s' = sv_policy s ∧ sview s' = sview s) (law_list _ Hi)) as Hl.
  unfold wp in Hl. destruct (on_repo repo_list s) as [r s1] eqn:El. cbn [fst snd] in Hl. destruct Hl as (nodes & -> & Hl).
  { intros l r' Hi' Hr' Hv HP. exists l. split_and!; [done|done|done|by apply Hr'|done|done]. }
  { by intros e r' _ Hr'. }
  exists s1, nodes. split; [|done].
  eapply rtc_l; [eexists; by apply (cs_tick header_str display auth (cp_init s) now)|].
  apply rtc_once. eexists.
  pose proof (cs_sweep header_str display auth (with_sweeper (cp_init s) s (SwList now)) eq_refl) as Hs.
  cbn in Hs. rewrite El in Hs. exact Hs.
Qed.

(** A heartbeat is served, the sweep standing still. *)
Lemma beat_runs auth headers hb c n :
  cs_tasks c = [] → cs_accepting c = true → sinv (cs_service c) → sreliable (cs_service c) →
  sview (cs_service c) !! n_id n = Some n →
  guard header_str auth (PostHeartbeat headers (n_id n) hb) = Ok tt →
  Heartbeat_ok (with_node_id hb (n_id n)) = true →
  ∃ s' t t1, runs auth c (with_tasks c s' [TDone (Ok (HealthResponse "ok"))]) ∧ sinv s' ∧ sreliable s' ∧
    sv_policy s' = sv_policy (cs_service c) ∧
    sview s' !! n_id n = Some (beaten (sv_policy (cs_service c)) (with_node_id hb (n_id n)) t t1 n).
Proof.
  intros Htasks Hacc Hi Hr Hn Hg Hhb. set (h := with_node_id hb (n_id n)) in *. set (s1 := cs_service c) in *.
  set (req := PostHeartbeat headers (n_id n) hb).
  assert (Hst : start header_str auth req = TBeat h) by (unfold start, req; by rewrite Hg).
  assert (Hc2 : runs auth c (with_tasks c s1 [TBeat h])).
  { apply rtc_once. exists (LRequest req). pose proof (cs_request header_str display auth c req Hacc Hhb) as Hs.
    rewrite Hst, Htasks in Hs. exact Hs. }
  pose proof (task_alone header_str display auth req s1) as Hal. cbv zeta in Hal. rewrite Hst in Hal.
  pose proof (alone_runs header_str display auth 4 (with_tasks c s1 [TBeat h]) 0 (TBeat h) eq_refl) as Hc3.
  cbn [cs_service cs_tasks with_tasks] in Hc3. rewrite Hal in Hc3. cbn [fst snd] in Hc3.
  pose proof (heartbeat_spec h s1 Hi Hhb) as (Hi3 & Hrel3 & Hp3 & HQ).
  assert (Hok : (heartbeat h s1).1 = Ok tt) by (destruct (heartbeat h s1).1 as [[]|e|]; [done|by destruct HQ|done]).
  assert (Hsv : (router header_str display auth req s1).1 = Ok (HealthResponse "ok") ∧
                (router header_str display auth req s1).2 = (heartbeat h s1).2).
  { unfold req in *. cbn [guard router] in *. inv_ok. destruct v. fold h in Hg.
    unfold respond, heartbeat_node, call, m_bind, m_lift, m_ret. fold h. rewrite E, Hg.
    destruct (heartbeat h s1) as [r3 s3]. cbn in Hok. rewrite Hok. done. }
  destruct Hsv as (Hr3 & Hs3). rewrite Hr3, Hs3 in Hc3. rewrite Hok in HQ.
  change (hb_node_id h) with (n_id n) in HQ. rewrite Hn in HQ. destruct HQ as (t & t1 & Hv3).
  exists (heartbeat h s1).2, t, t1. split_and!; [by etrans|done|by apply Hrel3|done|]. by rewrite Hv3, lookup_insert_eq.
Qed.

(** A heartbeat leaves a live node live. *)
Lemma beaten_live p hb t t1 n : is_live n = true → is_live (beaten p hb t t1 n) = true.
Proof.
  unfold is_live. cbn. unfold reclassify_after_heartbeat. destruct (n_state n); try done; by destruct (f64_ge _ _).
Qed.
End overtaken.

(** ** Properties *)
Section properties.
Context {HeaderMap : Type} (header_str : HeaderMap → string → option string).
Context (display : Error → string).
Context {R : Type} `{RL : RepositoryLaws R} `{C : Chrono}.

Abbreviation S := (ControlPlaneService R).
Abbreviation runs := (cp_runs header_str display).
Abbreviation own auth := (cp_step header_str display auth LOwn).

(** (C3) However requests, client disconnections and sweeps interleave, and
    whatever the storage does, the registry stays well formed, every node in it
    keeps a non-blank id and address, a slot and some bandwidth, and no
    registered node is ever lost. *)
Theorem registry_sound_under_concurrency (auth : Auth) (s : S) (c : cp_server) :
  sinv s → map_Forall (λ _ n, admissible n = true) (sview s) → runs auth (cp_init s) c →
  sinv (cs_service c) ∧
  map_Forall (λ _ n, admissible n = true) (sview (cs_service c)) ∧
  ∀ id n, sview s !! id = Some n → ∃ n', sview (cs_service c) !! id = Some n'.
Proof.
  intros Hi Ha Hr. destruct (runs_sound _ _ auth _ _ Hr) as ([Hi' _] & Ha' & Hk); [by split|done|done].
Qed.

(** (C4) A response is true when it is given: the repository call with which a
    handler completes, with a response or with an error, among whatever else is in
    flight, changes nothing in the registry and does not panic; every node in a
    successful response shows, field by field, the node then registered under its
    id, its offered bandwidth being the node's limit, and is of the right types; a
    node offered to a gateway is selectable, and a gateway is told that there is
    none only if there is none. *)
Theorem responses_hold_when_given (auth : Auth) (s s' : S) (c : cp_server) (i : nat) (t : handler_task)
    (r : outcome ApiError ApiBody) :
  sinv s → runs auth (cp_init s) c → cs_tasks c !! i = Some t → finished t = false →
  advance display t (cs_service c) = (TDone r, s') →
  match r with
  | Ok b =>
      sview s' = sview (cs_service c) ∧ Forall (describes (sview s')) (body_nodes b) ∧
      (t = TSelect → ∃ r n, b = NodeBody r ∧ sview (cs_service c) !! nr_id r = Some n ∧ is_selectable n = true)
  | Err e =>
      sview s' = sview (cs_service c) ∧
      (t = TSelect → ae_status e = SERVICE_UNAVAILABLE →
       ∀ id n, sview (cs_service c) !! id = Some n → is_selectable n = false)
  | Panic => False
  end.
Proof.
  intros Hi Hr Hit Hf Ha. destruct (reachable_inv _ _ auth s c Hi Hr) as [Hic Htc].
  pose proof (Forall_lookup_1 _ _ _ _ Htc Hit) as Hok.
  pose proof (advance_completes display t (cs_service c) Hic Hok Hf) as Hc. rewrite Ha in Hc. cbn in Hc.
  destruct r as [b|e|]; [|done|done]. by destruct Hc as (_ & ? & ? & ?).
Qed.

(** (C5) A drained node gets no traffic, as long as no operation that read it
    before overtakes the drain: once it is draining, no heartbeat in flight has
    read it in another state and no sweep in flight has listed it as live, it
    is draining and not selectable ever after, however the later requests and
    sweeps interleave. *)
Theorem drain_holds_unless_overtaken (auth : Auth) (id : string) (s : S) (c c' : cp_server) :
  sinv s → runs auth (cp_init s) c → drained id c → runs auth c c' →
  ∃ n, sview (cs_service c') !! id = Some n ∧ n_state n = Draining ∧ is_selectable n = false.
Proof.
  intros Hi Hr Hd Hr'.
  pose proof (reachable_inv _ _ auth s c Hi Hr) as Hc.
  destruct (drained_runs header_str display auth id c c' Hr' Hc Hd) as [_ [(n & Hn & Hs) _ _]].
  exists n. split_and!; [done|done|]. unfold is_selectable. by rewrite Hs.
Qed.

(** (C6) Shutdown ends: after the cancellation, whatever is in flight, there is
    no infinite interleaving of the server's own steps; where they stop the
    server is down, with every handler finished or dropped and the sweep task
    ended, and such a state is reached. *)
Theorem shutdown_completes (auth : Auth) (s : S) (c : cp_server) :
  sinv s → runs auth (cp_init s) c → cs_cancelled c = true →
  Acc (λ x y, own auth y x) c ∧
  (∀ c', rtc (own auth) c c' → (¬ ∃ c'', own auth c' c'') → cp_down c' = true) ∧
  ∃ c', rtc (own auth) c c' ∧ cp_down c' = true.
Proof.
  intros Hi Hr Hc.
  pose proof (reachable_inv _ _ auth s c Hi Hr) as Hinv.
  split_and!; [exact (own_terminates header_str display auth c Hinv)| |].
  - intros c' Hr' Hstuck.
    assert (Hc' : cs_cancelled c' = true).
    { clear Hr Hinv Hstuck. induction Hr' as [|x y z Hs _ IH]; [done|]. apply IH. inversion Hs; subst; by cbn. }
    destruct (cs_accepting c') eqn:Ha; [destruct Hstuck; eexists; by apply cs_close|].
    destruct (cp_down c') eqn:Hd; [done|]. destruct Hstuck. exact (own_progress header_str display auth c' Hc' Ha Hd).
  - destruct (cs_accepting c) eqn:Ha; [|exact (own_finishes header_str display auth c Hinv Hc Ha)].
    pose proof (cs_close header_str display auth c Hc Ha) as Hs.
    destruct (step_change header_str display auth _ c _ Hinv Hs) as (Hinv1 & _).
    destruct (own_finishes header_str display auth _ Hinv1 eq_refl eq_refl) as (c' & Hr' & Hd).
    exists c'. split; [by eapply rtc_l|done].
Qed.

(** (C39) The sweep can overtake a heartbeat. From any registry with a node whose
    heartbeat is late there is this run: the sweep lists the nodes; before it has
    marked any of them a heartbeat of the node is served to its end, answered with
    ok, and leaves the node live, with a new heartbeat time that is not late (the
    timeout being positive and the time not before the sweep's); then the sweep
    alone goes on, and marks the node offline all the same. *)
Theorem sweep_overtakes_heartbeat `{L : !ChronoLaws C} (auth : Auth) (headers : HeaderMap) (hb : Heartbeat) (now : Z)
    (s : S) (n : Node) :
  sinv s → sreliable s → sview s !! n_id n = Some n → expired (sv_policy s) now n = true →
  guard header_str auth (PostHeartbeat headers (n_id n) hb) = Ok tt →
  Heartbeat_ok (with_node_id hb (n_id n)) = true →
  ∃ c1 c2 c3 nodes t t1 t2 beat,
    (* the sweep has listed the node and not yet marked any *)
    runs auth (cp_init s) c1 ∧ cs_tasks c1 = [] ∧ cs_sweeper c1 = SwMark now nodes ∧ n ∈ nodes ∧
    sview (cs_service c1) = sview s ∧
    (* the heartbeat was served, and the sweep is where it was *)
    runs auth c1 c2 ∧ cs_tasks c2 = [TDone (Ok (HealthResponse "ok"))] ∧ cs_sweeper c2 = SwMark now nodes ∧
    beat = beaten (sv_policy s) (with_node_id hb (n_id n)) t t1 n ∧
    sview (cs_service c2) !! n_id n = Some beat ∧ is_live beat = true ∧ n_last_heartbeat beat = Some t ∧
    (0 < offline_timeout (sv_policy s) → now <= t → is_stale (n_last_heartbeat beat) now (sv_policy s) = false) ∧
    (* and only the sweep goes on *)
    rtc sweeps c2 c3 ∧ cs_sweeper c3 = SwIdle ∧
    sview (cs_service c3) !! n_id n = Some (with_state Offline t2 beat).
Proof.
  intros Hi Hr Hn He Hg Hok.
  destruct (listing_runs header_str display auth now s Hi Hr) as (s1 & nodes & Hc1 & Hl & Hi1 & Hr1 & Hp1 & Hv1).
  set (c1 := with_sweeper (cp_init s) s1 (SwMark now nodes)) in *.
  destruct (beat_runs header_str display auth headers hb c1 n eq_refl eq_refl Hi1 Hr1) as (s2 & t & t1 & Hc2 & Hi2 & Hr2 & Hp2 & Hv2);
    [cbn; by rewrite Hv1|done|done|]. cbn in Hp2. change (cs_service c1) with s1 in Hv2. rewrite Hp1 in Hv2.
  set (c2 := with_tasks c1 s2 [TDone (Ok (HealthResponse "ok"))]) in *. set (beat := beaten _ _ _ _ n) in *.
  destruct (marks_run now (n_id n) nodes c2 Hi2 Hr2 eq_refl) as (s3 & Hc3 & _ & Hm).
  destruct (Hm beat Hv2) as (m' & Hm' & Hcase & Hoff).
  assert (Hlive : is_live beat = true) by (apply beaten_live; unfold expired in He; by apply andb_prop in He as [? _]).
  assert (Ho : n_state m' = Offline).
  { apply Hoff. exists n. cbn. rewrite Hp2, Hp1. split_and!; [by apply Hl|done|done]. }
  destruct Hcase as [->|[t2 ->]]; [unfold is_live in Hlive; by rewrite Ho in Hlive|].
  exists c1, c2, (with_sweeper c2 s3 SwIdle), nodes, t, t1, t2, beat. split_and!; try done; [by apply Hl|].
  intros Htimeout Hnow. destruct (is_stale _ _ _) eqn:Hst; [|done].
  apply is_stale_iff in Hst as (ts & [= <-] & Hle). lia.
Qed.
End properties.

(** ** Witnesses *)

#[local] Existing Instance reference_env.
#[local] Existing Instance chrono_reference.

Abbreviation sample_runs := (cp_runs (R := Sqlite) sample_header (λ _, "") AuthNone).
Abbreviation sample_beat := (PostHeartbeat ([] : list (string * string)) "n1" (sample_heartbeat 3)).

(** A heartbeat of node n1, served without interruption. *)
Definition beat_served (s : ControlPlaneService Sqlite) : cp_server :=
  let t := start sample_header AuthNone sample_beat in
  with_tasks (cp_init s) (alone (λ _, "") 4 t s).2 [(alone (λ _, "") 4 t s).1].

Lemma beat_served_runs s : sample_runs (cp_init s) (beat_served s).
Proof.
  eapply rtc_l; [eexists; by apply (cs_request sample_header (λ _, "") AuthNone (cp_init s) sample_beat)|].
  exact (alone_runs sample_header (λ _, "") AuthNone 4
    (with_tasks (cp_init s) s [start sample_header AuthNone sample_beat]) 0 _ eq_refl).
Qed.

Lemma registry_sound_under_concurrency_witness :
  ∃ n', @sview _ _ reference_laws (cs_service (beat_served healthy_service)) !! "n1" = Some n'.
Proof.
  destruct (@registry_sound_under_concurrency _ sample_header (λ _, "") Sqlite _ reference_laws chrono_reference
    AuthNone healthy_service (beat_served healthy_service)) as (_ & _ & H); [sample| |apply beat_served_runs|].
  - intros id n [_ ->]%healthy_view. vm_compute. reflexivity.
  - by apply (H "n1" (node_of "n1" (sample_row "healthy" (Some 90) 1 100))).
Defined.

Lemma drain_holds_unless_overtaken_witness :
  ∃ n, @sview _ _ reference_laws (cs_service (beat_served draining_service)) !! "n1" = Some n ∧
    n_state n = Draining ∧ is_selectable n = false.
Proof.
  apply (@drain_holds_unless_overtaken _ sample_header (λ _, "") Sqlite _ reference_laws chrono_reference
    AuthNone "n1" draining_service (cp_init draining_service)); [sample|apply rtc_refl| |apply beat_served_runs].
  split; [|constructor|reflexivity].
  exists (node_of "n1" (sample_row "draining" (Some 90) 1 100)). by split.
Defined.

Lemma responses_hold_when_given_witness :
  match advance (λ _, "") TSelect healthy_service with
  | (TDone (Ok b), s') => Forall (describes (@sview _ _ reference_laws s')) (body_nodes b)
  | _ => False
  end.
Proof.
  destruct (advance (λ _, "") TSelect healthy_service) as [[| | | | | | | | | | |[b|e|]|] s'] eqn:E;
    try (vm_compute in E; discriminate E).
  apply (@responses_hold_when_given _ sample_header (λ _, "") Sqlite _ reference_laws chrono_reference AuthNone
    healthy_service s' (with_tasks (cp_init healthy_service) healthy_service [TSelect]) 0 TSelect (Ok b));
    [sample| |reflexivity|reflexivity|exact E].
  apply rtc_once. eexists. by apply (cs_request sample_header (λ _, "") AuthNone (cp_init healthy_service) PostSelect).
Defined.

(** Shutdown while a heartbeat is in flight. *)
Definition cancelled_server : cp_server :=
  {| cs_service := healthy_service; cs_tasks := [start sample_header AuthNone sample_beat];
     cs_sweeper := SwIdle; cs_cancelled := true; cs_accepting := true |}.

Lemma shutdown_completes_witness :
  ∃ c', rtc (cp_step sample_header (λ _, "") AuthNone LOwn) cancelled_server c' ∧ cp_down c' = true.
Proof.
  apply (@shutdown_completes _ sample_header (λ _, "") Sqlite _ reference_laws chrono_reference
    AuthNone healthy_service cancelled_server); [sample| |reflexivity].
  eapply rtc_l; [eexists; by apply (cs_request sample_header (λ _, "") AuthNone (cp_init healthy_service) sample_beat)|].
  apply rtc_once. eexists. by apply cs_cancel.
Defined.

(** Node n1 last beat at 90 s, and the sweep runs at 200 s. *)
Lemma sweep_overtakes_heartbeat_witness :
  ∃ c2 c3 nodes n2 n3, sample_runs (cp_init healthy_service) c2 ∧ cs_sweeper c2 = SwMark (200 * NANOS) nodes ∧
    @sview _ _ reference_laws (cs_service c2) !! "n1" = Some n2 ∧ is_live n2 = true ∧
    rtc sweeps c2 c3 ∧ @sview _ _ reference_laws (cs_service c3) !! "n1" = Some n3 ∧ n_state n3 = Offline.
Proof.
  destruct (@sweep_overtakes_heartbeat _ sample_header (λ _, "") Sqlite _ reference_laws chrono_reference
    chrono_reference_laws AuthNone [] (sample_heartbeat 3) (200 * NANOS) healthy_service
    (node_of "n1" (sample_row "healthy" (Some 90) 1 100)))
    as (c1 & c2 & c3 & nodes & t & t1 & t2 & b & Hr1 & _ & _ & _ & _ & Hr2 & _ & Hw & _ & Hv2 & Hl & _ & _ & Hs & _ & Hv3).
  - sample.
  - sample.
  - reflexivity.
  - vm_compute. reflexivity.
  - vm_compute. reflexivity.
  - vm_compute. reflexivity.
  - exists c2, c3, nodes, b. eexists. split; [etrans; [exact Hr1|exact Hr2]|].
    split_and!; [exact Hw|exact Hv2|exact Hl|exact Hs|exact Hv3|reflexivity].
Defined.
