(* ===== verification/Telemetry.v ===== *)
(** * Metrics and their endpoints

    [metrics.rs] of the three services, [crates/gateway/src/metrics_server.rs],
    and the [/metrics] handler and error responses of
    [crates/control-plane/src/api.rs]. Metrics go through the global recorder
    of the [metrics] crate, which [init] installs. The crate and its Prometheus
    exporter are the class [Facade]; [FacadeLaws] is what their documentation
    promises: before a recorder is installed emissions do nothing, and only one
    can be installed in a process. *)

From stdpp Require Import base tactics decidable numbers list strings gmap.
From Stdlib Require Import ZArith Lia SpecFloat.
From S2P Require Import Gateway.
From S2P Require Import Prelude RustStd Config F64 Model Limiter Service Api.

(** ** The recorder *)

(** One call of a macro of the [metrics] crate. A gauge has a [node_id] label
    or none. *)
Inductive emission : Type :=
| DescribeCounter (name text : string)
| DescribeGauge (name text : string)
| CounterIncrement (name : string) (n : Z)
| GaugeIncrement (name : string) (d : f64)
| GaugeDecrement (name : string) (d : f64)
| GaugeSet (name node_id : string) (v : f64).

Abbreviation gauge_key := (string * option string)%type.

Class Facade (G : Type) : Type := {
  install_recorder : G → bool * G;
  emit : emission → G → G;
  exposition : G → string;
  recording : G → bool;
  counter_value : G → string → Z;
  gauge_value : G → gauge_key → f64
}.

(** What an emission does to a counter and to a gauge. *)
Definition counted (e : emission) (name : string) (v : Z) : Z :=
  match e with
  | CounterIncrement k n => if decide (k = name) then (v + n) mod U64_MOD else v
  | _ => v
  end.
Definition gauged (e : emission) (key : gauge_key) (v : f64) : f64 :=
  match e with
  | GaugeIncrement k d => if decide ((k, None) = key) then f64_add v d else v
  | GaugeDecrement k d => if decide ((k, None) = key) then f64_sub v d else v
  | GaugeSet k id w => if decide ((k, Some id) = key) then w else v
  | _ => v
  end.

Class FacadeLaws (G : Type) `{Facade G} : Prop := {
  law_install g : recording g = false →
    (install_recorder g).1 = true ∧ recording (install_recorder g).2 = true ∧
    (∀ name, counter_value (install_recorder g).2 name = 0) ∧
    (∀ key, gauge_value (install_recorder g).2 key = f64_0);
  law_install_again g : recording g = true → install_recorder g = (false, g);
  law_unrecorded e g : recording g = false → emit e g = g;
  law_recording e g : recording (emit e g) = recording g;
  law_counter e g name : recording g = true → counter_value (emit e g) name = counted e name (counter_value g name);
  law_gauge e g key : recording g = true → gauge_value (emit e g) key = gauged e key (gauge_value g key)
}.

(** ** What the services emit *)
Definition gateway_descriptions : list emission :=
  [DescribeCounter "proxy_connections_total" "Total proxy connections opened.";
   DescribeGauge "proxy_active_connections" "Currently active proxy connections.";
   DescribeCounter "proxy_connection_errors_total" "Proxy connection failures.";
   DescribeCounter "proxy_bytes_up_total" "Bytes upstream (client -> target).";
   DescribeCounter "proxy_bytes_down_total" "Bytes downstream (target -> client)."].

(** The calls a session of the gateway makes. *)
Inductive gateway_call : Type := Opened | Closed | Failed | Bytes (up down : Z).

Definition gateway_emissions (c : gateway_call) : list emission :=
  match c with
  | Opened => [CounterIncrement "proxy_connections_total" 1; GaugeIncrement "proxy_active_connections" f64_1]
  | Closed => [GaugeDecrement "proxy_active_connections" f64_1]
  | Failed => [CounterIncrement "proxy_connection_errors_total" 1]
  | Bytes up down => [CounterIncrement "proxy_bytes_up_total" up; CounterIncrement "proxy_bytes_down_total" down]
  end.

(** The functions of [Gateway] these calls stand for. *)
Definition recorded (c : gateway_call) : Gateway.Counters → Gateway.Counters :=
  match c with
  | Opened => Gateway.record_connection_opened
  | Closed => Gateway.record_connection_closed
  | Failed => Gateway.record_connection_error
  | Bytes up down => Gateway.record_bytes up down
  end.

Definition cp_descriptions : list emission :=
  [DescribeCounter "proxy_connections_total" "Total number of proxy connections handled (opened).";
   DescribeGauge "proxy_active_connections" "Currently active proxy connections.";
   DescribeCounter "proxy_connection_errors_total" "Total number of proxy connection failures.";
   DescribeCounter "proxy_bytes_up_total" "Bytes upstream (client -> target).";
   DescribeCounter "proxy_bytes_down_total" "Bytes downstream (target -> client).";
   DescribeGauge "proxy_node_health" "Per-node health: 1 healthy, 0.5 degraded, 0 otherwise.";
   DescribeGauge "proxy_node_latency_ms" "Per-node reported latency in ms.";
   DescribeGauge "proxy_bandwidth_utilization" "Per-node bandwidth utilization in [0,1]."].

(** The connection functions of the control plane's [metrics.rs], which it never
    calls: those of the gateway. *)
Definition cp_emissions (c : gateway_call) : list emission :=
  match c with
  | Opened => [CounterIncrement "proxy_connections_total" 1; GaugeIncrement "proxy_active_connections" f64_1]
  | Closed => [GaugeDecrement "proxy_active_connections" f64_1]
  | Failed => [CounterIncrement "proxy_connection_errors_total" 1]
  | Bytes up down => [CounterIncrement "proxy_bytes_up_total" up; CounterIncrement "proxy_bytes_down_total" down]
  end.

Lemma cp_emissions_shared c : cp_emissions c = gateway_emissions c.
Proof. by destruct c. Qed.

(** [record_node] *)
Definition node_gauges (node : Node) : list emission :=
  [GaugeSet "proxy_node_health" (n_id node) (health_gauge_value (n_state node));
   GaugeSet "proxy_node_latency_ms" (n_id node) (f64_of_Z (n_latency_ms node));
   GaugeSet "proxy_bandwidth_utilization" (n_id node) (bandwidth_utilization node)].

Definition node_descriptions : list emission :=
  [DescribeCounter "node_connections_total" "Total connections handled.";
   DescribeGauge "node_active_connections" "Currently active connections.";
   DescribeCounter "node_connection_errors_total" "Connection failures.";
   DescribeCounter "node_bytes_up_total" "Bytes upstream (target -> client).";
   DescribeCounter "node_bytes_down_total" "Bytes downstream (client -> target).";
   DescribeCounter "node_heartbeats_total" "Total heartbeats sent.";
   DescribeCounter "node_heartbeat_errors_total" "Failed heartbeat attempts."].

(** ** The process *)

(** The services, each with a [static HANDLE : OnceLock]. *)
Inductive service : Type := SGateway | SControlPlane | SNode.
#[export] Instance service_eq_dec : EqDecision service.
Proof. solve_decision. Defined.

Definition service_descriptions (k : service) : list emission :=
  match k with
  | SGateway => gateway_descriptions
  | SControlPlane => cp_descriptions
  | SNode => node_descriptions
  end.

Record process (G : Type) : Type := mkProcess { handles : list service; facade : G }.
Arguments mkProcess {G}.
Arguments handles {G}.
Arguments facade {G}.

Inductive json : Type := JString (s : string) | JObject (fields : list (string * json)).
Inductive http_body : Type := TextBody (s : string) | JsonBody (j : json).
Record response : Type := mkResponse { rs_status : Z; rs_content_type : string; rs_body : http_body }.

Definition OK : Z := 200.
Definition METHOD_NOT_ALLOWED : Z := 405.

Section endpoints.
Context {G : Type} `{Facade G}.

Abbreviation P := (process G).

Definition emit_all (es : list emission) (g : G) : G := fold_left (λ g e, emit e g) es g.

Definition record (es : list emission) (p : P) : P :=
  {| handles := handles p; facade := emit_all es (facade p) |}.

(** [init]: [HANDLE.get_or_init], whose closure panics when another recorder is
    installed and then leaves the cell empty. *)
Definition init (k : service) : SM Empty_set P unit := λ p,
  if decide (k ∈ handles p) then (Ok tt, p)
  else
    match install_recorder (facade p) with
    | (true, g) => (Ok tt, {| handles := k :: handles p; facade := emit_all (service_descriptions k) g |})
    | (false, g) => (Panic, {| handles := handles p; facade := g |})
    end.

Definition render (k : service) : SM Empty_set P string :=
  let! _ := init k in λ p, (Ok (exposition (facade p)), p).

(** [metrics_endpoint] of the gateway; the control plane has the same. *)
Definition metrics_endpoint (k : service) : SM Empty_set P response :=
  let! body := render k in
  m_ret {| rs_status := OK; rs_content_type := "text/plain; version=0.0.4"; rs_body := TextBody body |}.

Definition api_metrics : SM Empty_set P response := metrics_endpoint SControlPlane.

Definition json_response (status : Z) (j : json) : response :=
  {| rs_status := status; rs_content_type := "application/json"; rs_body := JsonBody j |}.

Definition health_endpoint : SM Empty_set P response :=
  m_ret (json_response OK (JObject [("status", JString "ok")])).

(** [ApiError::into_response] *)
Definition ApiError_into_response (e : ApiError) : response :=
  json_response (ae_status e) (JObject [("error", JString (ae_message e))]).

Inductive method : Type := GET | HEAD | OtherMethod.

(** A response to [HEAD]: [axum]'s [get] runs the handler and drops the body. *)
Definition without_body (r : response) : response :=
  {| rs_status := rs_status r; rs_content_type := rs_content_type r; rs_body := TextBody "" |}.

(** [metrics_router]; [axum] answers 404 off the routes, serves [HEAD] with the
    handler of [get], and answers 405 to another method. *)
Definition metrics_routes : list (string * SM Empty_set P response) :=
  [("/metrics", metrics_endpoint SGateway); ("/health", health_endpoint)].

Definition metrics_router (m : method) (path : string) : SM Empty_set P response :=
  match list_find (λ r, r.1 = path) metrics_routes with
  | None => m_ret {| rs_status := NOT_FOUND; rs_content_type := ""; rs_body := TextBody "" |}
  | Some (_, (_, handler)) =>
      match m with
      | GET => handler
      | HEAD => let! r := handler in m_ret (without_body r)
      | OtherMethod => m_ret {| rs_status := METHOD_NOT_ALLOWED; rs_content_type := ""; rs_body := TextBody "" |}
      end
  end.

(** ** A gateway and its scrapes

    What happens to the metrics of a gateway: its sessions record, and requests
    reach the metrics server, if one is configured and its port was free
    ([metrics_server::run] gives up otherwise, and the gateway goes on). *)
Inductive act : Type := Act (c : gateway_call) | Http (m : method) (path : string).

Definition serving (config : GatewayConfig) (bound : bool) : bool :=
  match gw_metrics_bind_addr config with Some _ => bound | None => false end.

Definition gateway_act (config : GatewayConfig) (bound : bool) (a : act) (p : P) : P :=
  match a with
  | Act c => record (gateway_emissions c) p
  | Http m path => if serving config bound then (metrics_router m path p).2 else p
  end.

Definition gateway_acts (config : GatewayConfig) (bound : bool) (acts : list act) (p : P) : P :=
  fold_left (λ p a, gateway_act config bound a p) acts p.

(** A scrape: a request that runs [render]. *)
Definition scrape (a : act) : bool :=
  match a with Http (GET | HEAD) path => String.eqb path "/metrics" | _ => false end.
End endpoints.

(** ** The gauge as an integer

    Adding and subtracting 1.0 is exact on the integers below 2^53 in size,
    negative ones included. *)
Lemma round_opp m e : binary_round 53 1024 true m e = SFopp (binary_round 53 1024 false m e).
Proof.
  unfold binary_round. destruct (shl_align _ _ _) as [mz ez]. unfold binary_round_aux.
  destruct (shr_fexp _ _ _ _ _) as [mrs e1]. destruct (shr_fexp _ _ _ _ _) as [mrs' e2].
  destruct (shr_m mrs'); [done| |done]. by destruct (_ <=? _).
Qed.

Lemma normalize_opp z e :
  z ≠ 0 → binary_normalize 53 1024 (- z) e false = SFopp (binary_normalize 53 1024 z e false).
Proof. intros Hz. destruct z as [|p|p]; [done|apply round_opp|].
  change (binary_round 53 1024 false p e = SFopp (binary_round 53 1024 true p e)). rewrite round_opp.
  by destruct (binary_round _ _ _ _ _) as [[]|[]| |[]].
Qed.

Lemma of_Z_opp n : n ≠ 0 → f64_of_Z (- n) = SFopp (f64_of_Z n).
Proof. exact (normalize_opp n 0). Qed.

Lemma one_of_Z : f64_1 = f64_of_Z 1.
Proof. by vm_compute. Qed.

Lemma of_Z_succ n : 0 <= n < P53 - 1 → f64_add (f64_of_Z n) f64_1 = f64_of_Z (n + 1).
Proof.
  intros Hn. rewrite one_of_Z. apply rep_exact; [|lia].
  apply rep_add; [lia|lia|apply rep_of_Z; unfold U64_MOD; lia|left; rewrite <- one_of_Z; eapply rng_weaken; [| |exact rng_1]; lia].
Qed.


Lemma gauge_up n : - P53 < n < P53 - 1 → f64_add (f64_of_Z n) f64_1 = f64_of_Z (n + 1).
Proof.
  intros Hn. destruct (Z.leb_spec 0 n); [apply of_Z_succ; lia|].
  destruct (decide (n = -1)) as [->|Hn1]; [by vm_compute|].
  pose proof (of_Z_sub (- n) 1 ltac:(lia) ltac:(lia)) as Hs. rewrite <- one_of_Z in Hs.
  destruct (f64_of_Z_nf (- n)) as (m & e & [E _] & _); [unfold U64_MOD; lia|].
  destruct (f64_of_Z_nf (- n - 1)) as (m' & e' & [E' _] & _); [unfold U64_MOD; lia|].
  replace n with (- - n) at 1 by lia. rewrite (of_Z_opp (- n)) by lia. replace (n + 1) with (- (- n - 1)) by lia.
  rewrite (of_Z_opp (- n - 1)), <- Hs by lia. rewrite E in *. rewrite E' in Hs.
  with_strategy transparent [f64_add f64_sub] (unfold f64_add, f64_sub, f64_1, SFadd, SFsub in *).
  cbn [SFopp cond_Zopp negb] in *.
  rewrite <- normalize_opp; [f_equal; lia|]. intros Hz. rewrite Hz in Hs. done.
Qed.

Lemma gauge_down n : - P53 + 1 < n < P53 → f64_sub (f64_of_Z n) f64_1 = f64_of_Z (n - 1).
Proof.
  intros Hn. destruct (Z.ltb_spec 0 n); [rewrite one_of_Z; apply of_Z_sub; lia|].
  destruct (decide (n = 0)) as [->|Hn1]; [by vm_compute|].
  pose proof (of_Z_succ (- n) ltac:(lia)) as Hs.
  destruct (f64_of_Z_nf (- n)) as (m & e & [E _] & _); [unfold U64_MOD; lia|].
  replace n with (- - n) at 1 by lia. rewrite (of_Z_opp (- n)) by lia. replace (n - 1) with (- (- n + 1)) by lia.
  rewrite (of_Z_opp (- n + 1)), <- Hs by lia. rewrite E in *.
  with_strategy transparent [f64_add f64_sub] (unfold f64_add, f64_sub, f64_1, SFadd, SFsub in *).
  cbn [SFopp cond_Zopp negb] in *.
  rewrite <- normalize_opp by lia. by f_equal.
Qed.

(** ** Lemmas *)
Section laws.
Context {G : Type} `{FL : FacadeLaws G}.

Lemma emit_all_cons e es (g : G) : emit_all (e :: es) g = emit_all es (emit e g).
Proof. done. Qed.

Lemma emit_all_unrecorded es (g : G) : recording g = false → emit_all es g = g.
Proof.
  intros Hg. unfold emit_all. induction es as [|e es IH]; [done|]. cbn. by rewrite law_unrecorded.
Qed.

Lemma emit_all_recording es (g : G) : recording (emit_all es g) = recording g.
Proof. revert g. induction es as [|e es IH]; intros g; [done|]. by rewrite emit_all_cons, IH, law_recording. Qed.

Lemma emit_all_counter es name (g : G) :
  recording g = true →
  counter_value (emit_all es g) name = fold_left (λ v e, counted e name v) es (counter_value g name).
Proof.
  revert g. induction es as [|e es IH]; intros g Hg; [done|].
  by rewrite emit_all_cons, IH, law_counter by (by rewrite ?law_recording).
Qed.

Lemma emit_all_gauge es key (g : G) :
  recording g = true →
  gauge_value (emit_all es g) key = fold_left (λ v e, gauged e key v) es (gauge_value g key).
Proof.
  revert g. induction es as [|e es IH]; intros g Hg; [done|].
  by rewrite emit_all_cons, IH, law_gauge by (by rewrite ?law_recording).
Qed.

(** A gateway nobody scraped, and one that was. *)
Definition fresh (p : process G) : Prop := handles p = [] ∧ recording (facade p) = false.
Definition scraped (p : process G) : Prop := handles p = [SGateway] ∧ recording (facade p) = true.

Definition ACTIVE : gauge_key := ("proxy_active_connections", None).

(** The counters of the recorder are those of [Gateway], modulo 2^64. *)
Definition reports (p : process G) (c : Counters) : Prop :=
  counter_value (facade p) "proxy_connections_total" = as_u64 (connections_total c) ∧
  counter_value (facade p) "proxy_connection_errors_total" = as_u64 (connection_errors_total c) ∧
  counter_value (facade p) "proxy_bytes_up_total" = as_u64 (bytes_up_total c) ∧
  counter_value (facade p) "proxy_bytes_down_total" = as_u64 (bytes_down_total c).

Definition act_counters (a : act) (c : Counters) : Counters :=
  match a with Act k => recorded k c | Http _ _ => c end.
Definition act_active (a : act) (v : f64) : f64 :=
  match a with Act Opened => f64_add v f64_1 | Act Closed => f64_sub v f64_1 | _ => v end.

(** A request other than a scrape has no effect. *)
Lemma router_no_scrape m path (p : process G) :
  scrape (Http m path) = false → (metrics_router m path p).2 = p.
Proof.
  unfold metrics_router, metrics_routes, scrape. cbn. intros Hs.
  destruct (decide ("/metrics" = path)) as [<-|Hne]; cbn.
  - by destruct m.
  - destruct (decide ("/health" = path)); cbn; [by destruct m|done].
Qed.

(** A scrape runs the handler. *)
Lemma router_scrape m path (p : process G) :
  scrape (Http m path) = true →
  (metrics_router m path p).2 = (metrics_endpoint SGateway p).2 ∧
  (∀ r, (metrics_endpoint SGateway p).1 = Ok r →
     ∃ r', (metrics_router m path p).1 = Ok r' ∧ rs_status r' = rs_status r).
Proof.
  unfold scrape. intros Hs. destruct m; [|..|done]; apply String.eqb_eq in Hs as ->.
  - split; [done|]. intros r Hr. by exists r.
  - change (metrics_router HEAD "/metrics" p) with ((let! r := metrics_endpoint SGateway in m_ret (without_body r)) p).
    unfold m_bind. destruct (metrics_endpoint SGateway p) as [[r|e|] p']; cbn [fst snd]; (split; [done|]); intros r' Hr;
      [|done|done]. injection Hr as ->. by eexists.
Qed.

Lemma fresh_act config bound a (p : process G) :
  fresh p → scrape a = false → gateway_act config bound a p = p.
Proof.
  intros [_ Hr] Hs. destruct a as [c|m path]; cbn.
  - unfold record. rewrite emit_all_unrecorded by done. by destruct p.
  - destruct (serving config bound); [|done]. by apply router_no_scrape.
Qed.

Lemma fresh_acts config bound acts (p : process G) :
  fresh p → Forall (λ a, scrape a = false) acts → gateway_acts config bound acts p = p.
Proof.
  intros Hp Ha. unfold gateway_acts. induction Ha as [|a acts Hs _ IH]; [done|]. cbn. by rewrite fresh_act.
Qed.

Lemma described_counter k name v :
  fold_left (λ v e, counted e name v) (service_descriptions k) v = v.
Proof. by destruct k. Qed.
Lemma described_gauge k key v : fold_left (λ v e, gauged e key v) (service_descriptions k) v = v.
Proof. by destruct k. Qed.

(** The first scrape installs the recorder, with everything at zero. *)
Lemma first_scrape k (p : process G) :
  fresh p → ∃ r p', metrics_endpoint k p = (Ok r, p') ∧ rs_status r = OK ∧
    handles p' = [k] ∧ recording (facade p') = true ∧
    (∀ name, counter_value (facade p') name = 0) ∧ (∀ key, gauge_value (facade p') key = f64_0).
Proof.
  intros [Hh Hr]. unfold metrics_endpoint, render, init, m_bind, m_ret. rewrite Hh.
  destruct (decide _) as [Hin|_]; [by apply not_elem_of_nil in Hin|].
  destruct (law_install _ Hr) as (Hok & Hrec & Hc & Hg). destruct (install_recorder (facade p)) as [b g].
  cbn [fst snd] in *. subst b. do 2 eexists. split; [done|].
  cbn [handles facade]. split_and!; [done|done|by rewrite emit_all_recording| |].
  - intros name. by rewrite emit_all_counter, described_counter, Hc.
  - intros key. by rewrite emit_all_gauge, described_gauge, Hg.
Qed.

(** Likewise at the control plane: what is reported of a node is what was
    recorded of it after the first scrape. *)
Lemma node_health_from_first_scrape n n' (p : process G) :
  fresh p → n_id n' = n_id n →
  let key := ("proxy_node_health", Some (n_id n)) in
  let scraped := (api_metrics (record (node_gauges n) p)).2 in
  gauge_value (facade scraped) key = f64_0 ∧
  gauge_value (facade (record (node_gauges n') scraped)) key = health_gauge_value (n_state n').
Proof.
  intros Hp Hid key scraped. assert (Hf : record (node_gauges n) p = p).
  { destruct Hp as [_ Hr]. unfold record. rewrite emit_all_unrecorded by done. by destruct p. }
  destruct (first_scrape SControlPlane p Hp) as (r & p' & He & _ & _ & Hrec & _ & Hg).
  assert (Hs : scraped = p') by (unfold scraped, api_metrics; by rewrite Hf, He). rewrite Hs. split; [done|].
  unfold record. cbn [facade]. rewrite emit_all_gauge by done. unfold key. cbn -[decide f64_of_Z bandwidth_utilization].
  rewrite Hid. repeat (case_decide; try done).
Qed.

(** A later scrape changes nothing. *)
Lemma later_scrape (p : process G) : scraped p → (metrics_endpoint SGateway p).2 = p.
Proof.
  intros [Hh _]. unfold metrics_endpoint, render, init, m_bind, m_ret. rewrite Hh.
  by rewrite decide_True by (by left).
Qed.

Lemma add_counter v n : (as_u64 v + n) mod U64_MOD = as_u64 (v + n).
Proof. unfold as_u64. apply Zplus_mod_idemp_l. Qed.

Lemma scraped_act config bound a (p : process G) c v :
  scraped p → reports p c → gauge_value (facade p) ACTIVE = v →
  let p' := gateway_act config bound a p in
  scraped p' ∧ reports p' (act_counters a c) ∧ gauge_value (facade p') ACTIVE = act_active a v.
Proof.
  intros Hp Hc Hv. destruct a as [k|m path]; cbn [gateway_act act_counters].
  - destruct Hp as [Hh Hr], Hc as (H1 & H2 & H3 & H4). split; [|split].
    + split; [done|]. unfold record. cbn [facade]. by rewrite emit_all_recording.
    + unfold reports, record. cbn [facade]. rewrite !emit_all_counter by done.
      destruct k; cbn; rewrite ?H1, ?H2, ?H3, ?H4, ?add_counter; split_and!; repeat (case_decide; try done); by rewrite ?add_counter.
    + unfold record. cbn [facade]. rewrite emit_all_gauge by done. rewrite Hv. by destruct k.
  - assert (Heq : (if serving config bound then (metrics_router m path p).2 else p) = p).
    { destruct (serving config bound); [|done]. destruct (scrape (Http m path)) eqn:Hs; [|by apply router_no_scrape].
      destruct (router_scrape m path p Hs) as [-> _]. by apply later_scrape. }
    rewrite Heq. split_and!; [done|done|]. by destruct p.
Qed.

Lemma scraped_acts config bound acts : ∀ (p : process G) c v,
  scraped p → reports p c → gauge_value (facade p) ACTIVE = v →
  let p' := gateway_acts config bound acts p in
  scraped p' ∧ reports p' (fold_left (λ c a, act_counters a c) acts c) ∧
  gauge_value (facade p') ACTIVE = fold_left (λ v a, act_active a v) acts v.
Proof.
  induction acts as [|a acts IH]; intros p c v Hp Hc Hv; [done|].
  destruct (scraped_act config bound a p c v Hp Hc Hv) as (Hp' & Hc' & Hv'). by apply IH.
Qed.

(** ** Properties *)

(** (C30) The gateway's metrics count from the first scrape. Whatever sessions
    and requests came before it, the first [GET] or [HEAD] of [/metrics] is
    answered with 200 and installs the recorder; from then on the four counters
    read what the sessions recorded since, modulo 2^64, and the gauge of active
    connections is the sum of the openings and closings since. Before it nothing
    is recorded, whatever else is requested. *)
Theorem metrics_count_from_first_scrape (config : GatewayConfig) (g : G) (before after : list act)
    (m : method) (path : string) :
  recording g = false → serving config true = true → Forall (λ a, scrape a = false) before →
  scrape (Http m path) = true →
  let start := {| handles := []; facade := g |} in
  let p := gateway_acts config true (before ++ Http m path :: after) start in
  gateway_acts config true before start = start ∧
  (∃ r, (metrics_router m path (gateway_acts config true before start)).1 = Ok r ∧ rs_status r = OK) ∧
  reports p (fold_left (λ c a, act_counters a c) after zero_counters) ∧
  gauge_value (facade p) ACTIVE = fold_left (λ v a, act_active a v) after f64_0.
Proof.
  intros Hg Hsv Hb Hm start p.
  assert (Hf : fresh start) by done. pose proof (fresh_acts config true before start Hf Hb) as Hbefore.
  destruct (first_scrape SGateway start Hf) as (r & p1 & He & Hok & Hh1 & Hr1 & Hc1 & Hv1).
  destruct (router_scrape m path start Hm) as [H2 H1]. rewrite He in H1, H2. cbn [fst snd] in H1, H2.
  assert (Hc : reports p1 zero_counters) by (unfold reports; by rewrite !Hc1).
  split_and!; [done|rewrite Hbefore; destruct (H1 r eq_refl) as (r' & Hr' & Hst); exists r'; by rewrite Hst| |].
  all: assert (Hp : p = gateway_acts config true after p1) by
    (unfold p, gateway_acts; rewrite fold_left_app; fold (gateway_acts config true before start); rewrite Hbefore;
     cbn [fold_left gateway_act]; rewrite Hsv, H2; done).
  all: rewrite Hp; by apply (scraped_acts config true after p1 zero_counters f64_0 (conj Hh1 Hr1) Hc (Hv1 ACTIVE)).
Qed.
End laws.

(** ** Witnesses *)

(** A recorder, if installed, is its counters and gauges. *)
Abbreviation recorder := (option (gmap string Z * gmap gauge_key f64)).

#[local] Instance reference_facade : Facade recorder := {|
  install_recorder g := match g with None => (true, Some (∅, ∅)) | Some _ => (false, g) end;
  emit e g := match g with
              | None => None
              | Some (c, v) => Some
                  (match e with
                   | CounterIncrement k _ => <[k := counted e k (default 0 (c !! k))]> c
                   | _ => c
                   end,
                   match e with
                   | GaugeIncrement k _ | GaugeDecrement k _ =>
                       <[(k, None) := gauged e (k, None) (default f64_0 (v !! (k, None)))]> v
                   | GaugeSet k id _ => <[(k, Some id) := gauged e (k, Some id) f64_0]> v
                   | _ => v
                   end)
              end;
  exposition _ := "";
  recording g := match g with None => false | Some _ => true end;
  counter_value g name := match g with None => 0 | Some (c, _) => default 0 (c !! name) end;
  gauge_value g key := match g with None => f64_0 | Some (_, v) => default f64_0 (v !! key) end
|}.

Lemma reference_facade_laws : FacadeLaws recorder.
Proof.
  split.
  - by intros [|] [=].
  - by intros [|] [=].
  - by intros e [|] [=].
  - by intros e [[]|].
  - intros e [[c v]|] name [=]. cbn. destruct e; try done. cbn.
    destruct (decide (name0 = name)) as [<-|Hne]; [|by rewrite lookup_insert_ne].
    by rewrite lookup_insert_eq, decide_True.
  - intros e [[c v]|] key [=]. cbn. destruct e; try done; cbn;
      (destruct (decide (_ = key)) as [<-|Hne]; [by rewrite lookup_insert_eq, decide_True|by rewrite lookup_insert_ne]).
Qed.

Definition sample_gateway_config : GatewayConfig :=
  {| gw_bind_addr := "0.0.0.0:1080"; gw_control_plane_url := "http://control-plane:8080"; gw_api_token := None;
     socks_username := None; socks_password := None; gw_max_connections := 16;
     gw_connect_timeout := default_connect_timeout; gw_idle_timeout := default_idle_timeout;
     gw_metrics_bind_addr := Some "0.0.0.0:19090"; gw_logging := LoggingConfig_default |}.

(** Two sessions are open at the first scrape, a [HEAD]; one ends, with 7 bytes
    up: the counters know of no connection, and the gauge reads -1. *)
Lemma metrics_count_from_first_scrape_witness :
  let p := gateway_acts sample_gateway_config true
             [Act Opened; Act Opened; Http GET "/health"; Http OtherMethod "/metrics"; Http HEAD "/metrics";
              Act (Bytes 7 9); Act Closed; Http GET "/metrics"]
             {| handles := []; facade := None : recorder |} in
  reports p {| connections_total := 0; active_connections := -1; connection_errors_total := 0;
               bytes_up_total := 7; bytes_down_total := 9 |} ∧
  gauge_value (facade p) ACTIVE = f64_sub f64_0 f64_1.
Proof.
  destruct (@metrics_count_from_first_scrape recorder _ reference_facade_laws sample_gateway_config None
    [Act Opened; Act Opened; Http GET "/health"; Http OtherMethod "/metrics"]
    [Act (Bytes 7 9); Act Closed; Http GET "/metrics"] HEAD "/metrics") as (_ & _ & H1 & H2).
  - reflexivity.
  - reflexivity.
  - repeat constructor.
  - reflexivity.
  - split; [exact H1|exact H2].
Defined.
