(* ===== verification/GatewayRun.v ===== *)
(** * The gateway from start to end

    [Gateway::new] and [Gateway::run] of [crates/gateway/src/gateway.rs] as one
    transition system: the bind, the metrics server it spawns
    ([metrics_server::run]) and the requests it gets, the accept loop of [Accept]
    with the sessions of [Gateway] in its tasks, and the wait and the abort at
    the end. Each accepted connection brings its client stream and the network
    its session meets. What sessions count goes through the recorder of
    [Telemetry], one call of a macro of [metrics] at a time. *)

From stdpp Require Import base tactics decidable numbers list relations strings gmap.
From Stdlib Require Import ZArith Lia.
From S2P Require Import Limiter.
From S2P Require Import Prelude RustStd Config Client F64 Accept Session Gateway Telemetry.

(** ** [Gateway::new] *)

(** [Semaphore::new] panics above [Semaphore::MAX_PERMITS]. *)
Definition MAX_PERMITS : Z := USIZE_MAX / 8.
Definition semaphore_new (permits : nat) : outcome Empty_set nat :=
  if MAX_PERMITS <? Z.of_nat permits then Panic else Ok permits.

Definition Gateway_new (config : GatewayConfig) (client : ControlPlaneClient) :
  outcome Empty_set (GatewayContext * nat) :=
  let? sem := semaphore_new (gw_max_connections config) in
  Ok (gateway_context config client, sem).

(** ** The session of a task *)

(** A client: its stream and the network. *)
Record peer : Type := mkPeer { pr_env : GatewayEnv; pr_stream : stream }.

Definition peer_start (p : peer) : gw_state :=
  {| gw_client := pr_stream p; gw_node := None; gw_dialed := []; gw_counters := zero_counters |}.

(** What [handle_connection] records after [record_connection_opened]: the bytes
    if the session succeeds, the error if it fails, and the end. *)
Definition session_calls (ctx : GatewayContext) (p : peer) : list gateway_call :=
  match @run_with_ctx (pr_env p) ctx (count record_connection_opened (peer_start p)).2 with
  | (Ok _, s) => [Bytes (bytes_up_total (gw_counters s)) (bytes_down_total (gw_counters s)); Closed]
  | (Err _, _) => [Failed; Closed]
  | (Panic, _) => []
  end.

(** The calls a task makes once it is past the shutdown check, in order. *)
Definition handler_emissions (ctx : GatewayContext) (p : peer) : list emission :=
  concat (gateway_emissions <$> Opened :: session_calls ctx p).

(** They are what the handler of [Gateway] counts. *)
Lemma session_calls_counted ctx p :
  gw_counters (@handle_connection (pr_env p) ctx (peer_start p)) =
  fold_left (λ c k, recorded k c) (Opened :: session_calls ctx p) zero_counters.
Proof.
  unfold handle_connection, session_calls. destruct p as [EV str]. cbn [pr_env].
  set (s1 := (count record_connection_opened (peer_start _)).2).
  pose proof (run_counts (EV := EV) ctx s1) as Hr.
  destruct (run_with_ctx ctx s1) as [[u|e|] s']; [|by cbn; rewrite Hr|done].
  destruct Hr as (up & down & Hr). cbn. by rewrite Hr.
Qed.

(** ** [Gateway::run] *)
Inductive gw_phase : Type := GBind | GServing | GDraining | GReturned (error : option string).

(** The metrics task: not spawned, binding, serving, ended or aborted. *)
Inductive metrics_task : Type := MTNone | MTBinding | MTServing | MTEnded | MTAborted.

(** [gr_pending]: per task the calls its session still makes, if it gets to the
    handler. *)
Record gateway_server (G : Type) : Type := mkGatewayServer {
  gr_phase : gw_phase;
  gr_metrics : metrics_task;
  gr_server : server unit;
  gr_pending : list (list emission);
  gr_process : process G
}.
Arguments mkGatewayServer {G}.
Arguments gr_phase {G}.
Arguments gr_metrics {G}.
Arguments gr_server {G}.
Arguments gr_pending {G}.
Arguments gr_process {G}.

(** [h.abort()] *)
Definition abort (m : metrics_task) : metrics_task :=
  match m with MTBinding => MTEnded | MTServing => MTAborted | _ => m end.

(** Where a task is after a call: the gauge counts the sessions in the handler. *)
Definition after (e : emission) (c : conn) : conn :=
  match e with
  | GaugeIncrement _ _ => CActive
  | GaugeDecrement _ _ => CFinished
  | _ => c
  end.

(** What a task does before and after its handler: the permit, the shutdown
    check, and the permit back; with the free permits before and after. *)
Inductive task_move (cancelled : bool) : nat → conn → nat → conn → Prop :=
| tm_acquire p : task_move cancelled (S p) CWaiting p CPermit
| tm_refuse p : cancelled = true → task_move cancelled p CPermit (S p) CDone
| tm_check p : cancelled = false → task_move cancelled p CPermit p CChecked
| tm_release p : task_move cancelled p CFinished (S p) CDone.

Section run.
Context {G : Type} `{FL : FacadeLaws G}.
Context (config : GatewayConfig) (ctx : GatewayContext) (sem : nat) (start : process G).

Abbreviation accepts := (accept_step (T := unit) id id).
Abbreviation state := (gateway_server G).

Definition set_phase (s : state) (p : gw_phase) (m : metrics_task) : state :=
  {| gr_phase := p; gr_metrics := m; gr_server := gr_server s; gr_pending := gr_pending s; gr_process := gr_process s |}.
Definition set_server (s : state) (sv : server unit) (ps : list (list emission)) (p : process G) : state :=
  {| gr_phase := gr_phase s; gr_metrics := gr_metrics s; gr_server := sv; gr_pending := ps; gr_process := p |}.

Definition gateway_init : state :=
  {| gr_phase := GBind; gr_metrics := MTNone; gr_server := server_init sem tt; gr_pending := []; gr_process := start |}.

(** Tasks run while the loop accepts and while [run] waits for them. *)
Definition tasks_run (s : state) : Prop := gr_phase s = GServing ∨ gr_phase s = GDraining.

Definition cancel (sv : server unit) : server unit :=
  {| sv_permits := sv_permits sv; sv_shared := sv_shared sv; sv_conns := sv_conns sv; sv_cancelled := true;
     sv_accepting := sv_accepting sv |}.

Definition spawn (sv : server unit) : server unit :=
  {| sv_permits := sv_permits sv; sv_shared := sv_shared sv; sv_conns := sv_conns sv ++ [CWaiting];
     sv_cancelled := sv_cancelled sv; sv_accepting := true |}.
Definition stop (sv : server unit) : server unit :=
  {| sv_permits := sv_permits sv; sv_shared := sv_shared sv; sv_conns := sv_conns sv; sv_cancelled := true;
     sv_accepting := false |}.

Definition moved (s : state) (permits : nat) (i : nat) (c : conn) : server unit :=
  move (gr_server s) permits (sv_shared (gr_server s)) i c.

Inductive gateway_step : state → state → Prop :=
| gr_bind s :
    gr_phase s = GBind →
    gateway_step s
      (set_phase s GServing (match gw_metrics_bind_addr config with Some _ => MTBinding | None => MTNone end))
| gr_bind_error s e :
    gr_phase s = GBind → gateway_step s (set_phase s (GReturned (Some e)) (gr_metrics s))
| gr_metrics_bind s (ok : bool) :
    gr_metrics s = MTBinding → gateway_step s (set_phase s (gr_phase s) (if ok then MTServing else MTEnded))
| gr_metrics_stop s :
    gr_metrics s = MTServing → sv_cancelled (gr_server s) = true →
    gateway_step s (set_phase s (gr_phase s) MTEnded)
| gr_http s m path :
    (* a request to the metrics server; an abort leaves its open connections *)
    gr_metrics s = MTServing ∨ gr_metrics s = MTAborted →
    gateway_step s (set_server s (gr_server s) (gr_pending s) (metrics_router m path (gr_process s)).2)
| gr_cancel s :
    sv_cancelled (gr_server s) = false →
    gateway_step s (set_server s (cancel (gr_server s)) (gr_pending s) (gr_process s))
| gr_accept s p :
    gr_phase s = GServing →
    gateway_step s
      (set_server s (spawn (gr_server s)) (gr_pending s ++ [handler_emissions ctx p]) (gr_process s))
| gr_stop s :
    (* the branch of [select!] that breaks the loop *)
    gr_phase s = GServing → sv_cancelled (gr_server s) = true →
    gateway_step s
      {| gr_phase := GDraining; gr_metrics := gr_metrics s;
         gr_server := stop (gr_server s);
         gr_pending := gr_pending s; gr_process := gr_process s |}
| gr_task s i c c' permits :
    (* a task outside its handler *)
    tasks_run s → sv_conns (gr_server s) !! i = Some c →
    task_move (sv_cancelled (gr_server s)) (sv_permits (gr_server s)) c permits c' →
    gateway_step s (set_server s (moved s permits i c') (gr_pending s) (gr_process s))
| gr_emit s i c e es :
    (* the next call of a task past the shutdown check *)
    tasks_run s → sv_conns (gr_server s) !! i = Some c → c = CChecked ∨ c = CActive →
    gr_pending s !! i = Some (e :: es) →
    gateway_step s
      (set_server s (moved s (sv_permits (gr_server s)) i (after e c)) (<[i := es]> (gr_pending s))
         (record [e] (gr_process s)))
| gr_return s (deadline_passed : bool) :
    gr_phase s = GDraining → gateway_drained (gr_server s) || deadline_passed = true →
    gateway_step s (set_phase s (GReturned None) (abort (gr_metrics s))).

Definition gateway_reachable (s : state) : Prop := rtc gateway_step gateway_init s.

(** ** Tasks and their calls *)
Abbreviation TOTAL := (CounterIncrement "proxy_connections_total" 1).
Abbreviation INC := (GaugeIncrement "proxy_active_connections" f64_1).
Abbreviation DEC := (GaugeDecrement "proxy_active_connections" f64_1).
Abbreviation ERR := (CounterIncrement "proxy_connection_errors_total" 1).

(** What is left of a session in the handler. *)
Inductive ending : list emission → Prop :=
| end_closed : ending [DEC]
| end_failed : ending [ERR; DEC]
| end_down n : ending [CounterIncrement "proxy_bytes_down_total" n; DEC]
| end_bytes u n : ending [CounterIncrement "proxy_bytes_up_total" u; CounterIncrement "proxy_bytes_down_total" n; DEC].

Inductive stage : conn → list emission → Prop :=
| stage_new c es : c = CWaiting ∨ c = CPermit ∨ c = CChecked ∨ c = CDone → ending es → stage c (TOTAL :: INC :: es)
| stage_counted es : ending es → stage CChecked (INC :: es)
| stage_active es : ending es → stage CActive es
| stage_finished c : c = CFinished ∨ c = CDone → stage c [].

Lemma handler_stage p : stage CWaiting (handler_emissions ctx p).
Proof.
  unfold handler_emissions. rewrite fmap_cons. cbn [concat gateway_emissions app]. apply stage_new; [auto|].
  unfold session_calls. destruct p as [EV str]. cbn [pr_env].
  match goal with |- context [run_with_ctx ctx ?o] => pose proof (run_counts (EV := EV) ctx o) as Hr end.
  destruct (run_with_ctx ctx _) as [[u|e|] s']; [|constructor|done]. cbn. constructor.
Qed.

(** Errors a session can still add, its opening being counted. *)
Definition is_open (e : emission) : bool :=
  match e with CounterIncrement k _ => String.eqb k "proxy_connections_total" | _ => false end.
Definition is_error (e : emission) : bool :=
  match e with CounterIncrement k _ => String.eqb k "proxy_connection_errors_total" | _ => false end.
Definition owed (es : list emission) : nat :=
  if existsb is_open es then 0 else if existsb is_error es then 1 else 0.

(** Whether the opening of a session was counted. *)
Definition begun (es : list emission) : nat := if existsb is_open es then 0 else 1.

(** Tasks past the shutdown check and not done. *)
Definition past_check (c : conn) : nat := match c with CChecked | CActive => 1 | _ => 0 end.

Lemma stage_owed c es : stage c es → (owed es <= past_check c)%nat.
Proof. destruct 1 as [c es Hc He|es He|es He|c Hc]; try destruct He; cbn; lia. Qed.

(** A call takes a task from one stage to the next, in step with the gauge. *)
Lemma stage_emit c e es :
  stage c (e :: es) → c = CChecked ∨ c = CActive →
  stage (after e c) es ∧
  (owed es + (if is_error e then 1 else 0) <= owed (e :: es) + (if is_open e then 1 else 0))%nat ∧
  begun es = (begun (e :: es) + (if is_open e then 1 else 0))%nat ∧
  ((e = INC ∧ c = CChecked) ∨ (e = DEC ∧ c = CActive) ∨ ∃ k n, e = CounterIncrement k n ∧ (e = ERR ∨ e = TOTAL ∨ ¬ is_error e ∧ ¬ is_open e)).
Proof.
  intros Hs Hc. inversion Hs as [c' es' Hc' He|es' He|es' He|]; subst.
  - destruct Hc as [->| ->]; [|by destruct Hc' as [?|[?|[?|?]]]]. split_and!; [by apply stage_counted|destruct He; cbn; lia|by destruct He|right; right; eauto 6].
  - split_and!; [by apply stage_active|by destruct He|by destruct He|by auto].
  - destruct Hc as [?| _]; [done|]. inversion He; subst.
    + split_and!; [apply stage_finished; auto|cbn; lia|done|by auto].
    + split_and!; [apply stage_active; constructor|cbn; lia|done|right; right; eauto 6].
    + split_and!; [apply stage_active; constructor|cbn; lia|done|right; right; do 2 eexists; split; [done|]; cbn; tauto].
    + split_and!; [apply stage_active; constructor|cbn; lia|done|right; right; do 2 eexists; split; [done|]; cbn; tauto].
Qed.

(** ** The invariant *)

(** Where [run] is decides what is accepted and whether metrics are served. *)
Definition phase_ok (s : state) : Prop :=
  match gr_phase s with
  | GBind | GReturned (Some _) =>
      sv_accepting (gr_server s) = true ∧ sv_conns (gr_server s) = [] ∧ gr_metrics s = MTNone ∧
      gr_process s = start
  | GServing => sv_accepting (gr_server s) = true
  | GDraining => stopped (gr_server s)
  | GReturned None => stopped (gr_server s) ∧ gr_metrics s ≠ MTBinding ∧ gr_metrics s ≠ MTServing
  end.

Record gw_inv (s : state) : Prop := {
  gi_permits : permits_inv sem (gr_server s);
  gi_phase : phase_ok s;
  gi_stages : Forall2 stage (sv_conns (gr_server s)) (gr_pending s)
}.

Lemma phase_moved s permits i c ps p :
  tasks_run s → phase_ok s → phase_ok (set_server s (moved s permits i c) ps p).
Proof. intros [Hp|Hp] Hok; unfold phase_ok in *; cbn in *; rewrite Hp in *; done. Qed.

Lemma init_inv : gw_inv gateway_init.
Proof. split; [unfold permits_inv; cbn; lia|done|by constructor]. Qed.

(** A step of a task outside the handler. *)
Lemma task_move_stage cancelled p c p' c' es : task_move cancelled p c p' c' → stage c es → stage c' es.
Proof.
  intros Hm Hs. destruct Hm; inversion Hs; subst; try by (destruct_or?; try done; constructor; auto).
Qed.

Lemma task_move_counts cancelled p c p' c' :
  task_move cancelled p c p' c' → in_handler c = in_handler c' ∧ (p' + holds_permit c' = p + holds_permit c)%nat.
Proof. destruct 1; cbn; lia. Qed.

Lemma stages_insert s i c c' es es' :
  gw_inv s → sv_conns (gr_server s) !! i = Some c → gr_pending s !! i = Some es → stage c' es' →
  Forall2 stage (<[i := c']> (sv_conns (gr_server s))) (<[i := es']> (gr_pending s)).
Proof. intros [_ _ Hs] Hi Hp Hst. by apply Forall2_insert. Qed.

Lemma stage_lookup s i c :
  gw_inv s → sv_conns (gr_server s) !! i = Some c → ∃ es, gr_pending s !! i = Some es ∧ stage c es.
Proof. intros [_ _ Hs] Hi. by eapply Forall2_lookup_l. Qed.

Lemma task_inv s i c c' permits :
  gw_inv s → tasks_run s → sv_conns (gr_server s) !! i = Some c →
  task_move (sv_cancelled (gr_server s)) (sv_permits (gr_server s)) c permits c' →
  gw_inv (set_server s (moved s permits i c') (gr_pending s) (gr_process s)).
Proof.
  intros Hinv Hr Hi Hm. destruct (stage_lookup s i c Hinv Hi) as (es & Hes & Hst).
  destruct (task_move_counts _ _ _ _ _ Hm) as [_ Hp]. split.
  - by eapply permits_move; [apply Hinv| |].
  - apply phase_moved; [done|apply Hinv].
  - cbn. rewrite <- (list_insert_id (gr_pending s) i es) by done.
    eapply stages_insert; [done..|]. by eapply task_move_stage.
Qed.

Lemma emit_inv s i c e es :
  gw_inv s → tasks_run s → sv_conns (gr_server s) !! i = Some c → c = CChecked ∨ c = CActive →
  gr_pending s !! i = Some (e :: es) →
  gw_inv (set_server s (moved s (sv_permits (gr_server s)) i (after e c)) (<[i := es]> (gr_pending s))
            (record [e] (gr_process s))).
Proof.
  intros Hinv Hr Hi Hc Hp. destruct (stage_lookup s i c Hinv Hi) as (es' & Hes & Hst).
  rewrite Hp in Hes. injection Hes as <-. destruct (stage_emit c e es Hst Hc) as (Hst' & _ & _ & _). split.
  - eapply permits_move; [apply Hinv|done|]. destruct Hc as [-> | ->], e; done.
  - apply phase_moved; [done|apply Hinv].
  - by eapply stages_insert.
Qed.

Lemma step_inv s s' : gw_inv s → gateway_step s s' → gw_inv s'.
Proof.
  intros Hinv Hs. pose proof Hinv as [Hp Hph Hst]. unfold phase_ok in Hph.
  destruct Hs as [s Hg|s e Hg|s ok Hm|s Hm Hc|s m path Hm|s Hc|s p Hg|s Hg Hc|s i c c' permits Hr Hi Hs
    |s i c e es Hr Hi Hc Hpi|s dl Hg Hd].
  - rewrite Hg in Hph. split; [done|apply Hph|done].
  - rewrite Hg in Hph. by split.
  - split; [done| |done]. unfold phase_ok. cbn. rewrite Hm in Hph.
    destruct (gr_phase s) as [| | |[e|]]; naive_solver.
  - split; [done| |done]. unfold phase_ok. cbn. rewrite Hm in Hph.
    destruct (gr_phase s) as [| | |[e|]]; naive_solver.
  - split; [done| |done]. unfold phase_ok. cbn.
    destruct (gr_phase s) as [| | |[e|]]; try done; destruct Hph as (_ & _ & Hx & _), Hm; congruence.
  - split; [done| |done]. unfold phase_ok, stopped in *. cbn.
    destruct (gr_phase s) as [| | |[e|]]; naive_solver.
  - rewrite Hg in Hph. split.
    + eapply (permits_step id id); [exact Hp|]. by apply as_accept.
    + unfold phase_ok. cbn. by rewrite Hg.
    + cbn. apply Forall2_app; [done|]. constructor; [apply handler_stage|constructor].
  - split; [|done|done]. rewrite Hg in Hph. eapply (permits_step id id); [exact Hp|]. by apply as_stop.
  - by eapply task_inv.
  - by eapply emit_inv.
  - split; [done| |done]. rewrite Hg in Hph. unfold phase_ok. cbn. split; [done|]. by destruct (gr_metrics s).
Qed.

Lemma gateway_reachable_inv s : gateway_reachable s → gw_inv s.
Proof.
  unfold gateway_reachable. intros Hr. assert (Hi : gw_inv gateway_init) by apply init_inv. revert Hi.
  induction Hr; eauto using step_inv.
Qed.

(** ** What the recorder says *)

(** Sessions in the handler, sessions counted, and errors these can add. *)
Definition handled (s : state) : Z := Z.of_nat (sum_conns in_handler (sv_conns (gr_server s))).
Definition sessions (s : state) : Z := Z.of_nat (sum_list_with begun (gr_pending s)).
Definition debts (s : state) : Z := Z.of_nat (sum_list_with owed (gr_pending s)).

Definition emission_counters (e : emission) (c : Counters) : Counters :=
  let inc k v := match e with CounterIncrement k' n => if decide (k' = k) then v + n else v | _ => v end in
  {| connections_total := inc "proxy_connections_total" (connections_total c);
     active_connections := active_connections c;
     connection_errors_total := inc "proxy_connection_errors_total" (connection_errors_total c);
     bytes_up_total := inc "proxy_bytes_up_total" (bytes_up_total c);
     bytes_down_total := inc "proxy_bytes_down_total" (bytes_down_total c) |}.

Lemma emission_reports e (p : process G) c :
  recording (facade p) = true → reports p c → reports (record [e] p) (emission_counters e c).
Proof.
  intros Hr (H1 & H2 & H3 & H4). unfold reports, record. cbn [facade]. rewrite !emit_all_counter by done.
  cbn [fold_left]. rewrite H1, H2, H3, H4. unfold emission_counters, counted.
  destruct e; cbn [connections_total connection_errors_total bytes_up_total bytes_down_total];
    split_and!; repeat case_decide; try done; apply add_counter.
Qed.

(** The recorder of [s] since the first scrape, in [first]. *)
Definition since (first s : state) (c : Counters) : Prop :=
  scraped (gr_process s) ∧ reports (gr_process s) c ∧
  gauge_value (facade (gr_process s)) ACTIVE = f64_of_Z (handled s - handled first) ∧
  connections_total c = sessions s - sessions first ∧
  0 <= connection_errors_total c ∧ connection_errors_total c + debts s <= connections_total c + debts first.

Lemma since_same first s s' c :
  gr_process s' = gr_process s → handled s' = handled s → debts s' = debts s → sessions s' = sessions s →
  since first s c → since first s' c.
Proof. intros Hp Hh Hd Hn (? & ? & ? & ? & ? & ?). unfold since. by rewrite Hp, Hh, Hd, Hn. Qed.

Lemma handled_bound s : gw_inv s → 0 <= handled s <= Z.of_nat sem.
Proof.
  intros [Hp _ _]. unfold permits_inv in Hp. unfold handled. pose proof (sum_conns_mono (sv_conns (gr_server s))). lia.
Qed.

Lemma pending_sum_insert (f : list emission → nat) (l : list (list emission)) (i : nat) es es' :
  l !! i = Some es → (sum_list_with f (<[i := es']> l) + f es = sum_list_with f l + f es')%nat.
Proof.
  revert i. induction l as [|x l IH]; intros [|i] Hi; try done.
  - injection Hi as ->. cbn. lia.
  - change (sum_list_with f (<[S i := es']> (x :: l))) with (f x + sum_list_with f (<[i := es']> l))%nat.
    change (sum_list_with f (x :: l)) with (f x + sum_list_with f l)%nat. specialize (IH i Hi). lia.
Qed.

Lemma since_emit first s i c e es cs :
  Z.of_nat sem < P53 - 1 → gw_inv first → gw_inv s →
  sv_conns (gr_server s) !! i = Some c → c = CChecked ∨ c = CActive → gr_pending s !! i = Some (e :: es) →
  since first s cs →
  since first (set_server s (moved s (sv_permits (gr_server s)) i (after e c)) (<[i := es]> (gr_pending s))
                 (record [e] (gr_process s))) (emission_counters e cs).
Proof.
  intros Hsem Hf Hs Hi Hc Hp ([Hh Hr] & Hrep & Hg & Hn & He0 & He).
  destruct (stage_lookup s i c Hs Hi) as (es' & Hes & Hst). rewrite Hp in Hes. injection Hes as <-.
  destruct (stage_emit c e es Hst Hc) as (_ & Hdebt & Hbegun & Hkind).
  pose proof (sum_conns_insert in_handler _ _ _ (after e c) Hi) as Hin.
  pose proof (pending_sum_insert owed _ _ _ es Hp) as Hdi. pose proof (pending_sum_insert begun _ _ _ es Hp) as Hbi. pose proof (handled_bound first Hf). pose proof (handled_bound s Hs).
  unfold since, handled, debts, sessions. cbn [gr_process gr_server gr_pending set_server moved move sv_conns].
  split_and!; [split; [done|unfold record; cbn [facade]; by rewrite emit_all_recording]|by apply emission_reports|..].
  - unfold record. cbn [facade]. rewrite emit_all_gauge, Hg by done. cbn [fold_left]. unfold handled in *.
    destruct Hkind as [[-> ->]|[[-> ->]|(k & n & -> & _)]]; cbn in Hin; cbn [gauged].
    + rewrite decide_True by done. rewrite gauge_up by lia. f_equal. cbn. lia.
    + rewrite decide_True by done. rewrite gauge_down by lia. f_equal. cbn. lia.
    + f_equal. cbn. lia.
  - unfold sessions in Hn. revert Hbegun Hbi.
    generalize (begun (e :: es)). generalize (begun es). intros b1 b2 Hb1 Hb2.
    destruct Hkind as [[-> _]|[[-> _]|(k & n & -> & Hk)]]; cbn in Hb1, Hb2 |- *; [lia|lia|].
    destruct Hk as [[= -> ->]|[[= -> ->]|[Hk1 Hk2]]]; cbn in *.
    + rewrite decide_False by done. lia.
    + rewrite decide_True by done. lia.
    + rewrite decide_False by (intros ->; by apply Hk2). apply Is_true_false in Hk2. rewrite Hk2 in Hb1. lia.
  - destruct Hkind as [[-> _]|[[-> _]|(k & n & -> & Hk)]]; cbn; [done|done|].
    case_decide; [|done]. destruct Hk as [[= -> ->]|[[= -> ->]|[Hk _]]]; [lia|done|]. subst k. by destruct Hk.
  - unfold debts in He. clear Hp Hst Hbegun Hbi.
    generalize dependent (owed (e :: es)). generalize dependent (owed es). intros o1 o2 Hd1 Hd2.
    destruct Hkind as [[-> _]|[[-> _]|(k & n & -> & Hk)]]; cbn in Hd1, Hd2 |- *; [lia|lia|].
    destruct Hk as [[= -> ->]|[[= -> ->]|[Hk1 Hk2]]]; cbn in *.
    + rewrite decide_True, decide_False by done. lia.
    + rewrite decide_False, decide_True by done. lia.
    + rewrite !decide_False by (intros ->; by apply Hk1 || by apply Hk2).
      apply Is_true_false in Hk1, Hk2. rewrite Hk1, Hk2 in Hd1. lia.
Qed.

(** The step of the first scrape. *)
Definition scrapes (s s' : state) : Prop :=
  ∃ m path, scrape (Http m path) = true ∧ (gr_metrics s = MTServing ∨ gr_metrics s = MTAborted) ∧
    s' = set_server s (gr_server s) (gr_pending s) (metrics_router m path (gr_process s)).2.

(** Nobody scraped yet, or somebody did and the recorder counts since. *)
Definition seen (s : state) : Prop :=
  gr_process s = start ∨
  ∃ first s1 c, gateway_reachable first ∧ gr_process first = start ∧ scrapes first s1 ∧
    rtc gateway_step s1 s ∧ since first s c.

Lemma seen_same s s' :
  gateway_step s s' → gr_process s' = gr_process s → handled s' = handled s → debts s' = debts s →
  sessions s' = sessions s → seen s → seen s'.
Proof.
  intros Hs Hp Hh Hd Hn [Hf|(first & s1 & c & H1 & H2 & H3 & H4 & H5)]; [left; congruence|right].
  exists first, s1, c. split_and!; [done|done|done|by eapply rtc_r|by eapply since_same].
Qed.

Lemma since_first s s' : fresh start → gr_process s = start → scrapes s s' → ∃ c, since s s' c.
Proof.
  intros Hf Hs (m & path & Hm & _ & ->). destruct (first_scrape SGateway start Hf) as (r & p & He & _ & Hh & Hr & Hc & Hg).
  destruct (router_scrape m path (gr_process s) Hm) as [Hp _]. rewrite Hs, He in Hp. cbn [snd] in Hp.
  exists zero_counters. unfold since, reports, handled, debts, sessions. cbn [gr_process set_server gr_server gr_pending].
  rewrite Hs, Hp, !Hc, Hg, Z.sub_diag, of_Z_0. cbn. split_and!; done || lia.
Qed.

Lemma seen_http s m path :
  fresh start → gateway_reachable s → gr_metrics s = MTServing ∨ gr_metrics s = MTAborted → seen s →
  seen (set_server s (gr_server s) (gr_pending s) (metrics_router m path (gr_process s)).2).
Proof.
  intros Hf Hr Hm [Hs|(first & s1 & c & H1 & H2 & H3 & H4 & H5)].
  - destruct (scrape (Http m path)) eqn:Hsc; [right|left; cbn; by rewrite router_no_scrape].
    assert (Hx : scrapes s (set_server s (gr_server s) (gr_pending s) (metrics_router m path (gr_process s)).2))
      by (by exists m, path).
    destruct (since_first _ _ Hf Hs Hx) as [c Hc]. exists s. do 2 eexists. split_and!; [done|done|done|apply rtc_refl|done].
  - right. exists first, s1, c. split_and!; [done|done|done|by eapply rtc_r; [|apply gr_http]|].
    apply (since_same first s); [|done..]. cbn. destruct H5 as [Hsc _].
    destruct (scrape (Http m path)) eqn:Hx; [|by apply router_no_scrape].
    destruct (router_scrape m path (gr_process s) Hx) as [-> _]. by apply later_scrape.
Qed.

Lemma sum_accept f (s : state) p :
  f (handler_emissions ctx p) = 0%nat →
  sum_list_with f (gr_pending s ++ [handler_emissions ctx p]) = sum_list_with f (gr_pending s).
Proof. intros Hf. rewrite sum_list_with_app. cbn [sum_list_with]. rewrite Hf. lia. Qed.

Lemma seen_step s s' :
  Z.of_nat sem < P53 - 1 → fresh start → gateway_reachable s → gateway_step s s' → seen s → seen s'.
Proof.
  intros Hsem Hf Hr Hs Hseen. pose proof Hs as Hstep. pose proof (gateway_reachable_inv s Hr) as Hinv.
  destruct Hs as [s Hg|s e Hg|s ok Hm|s Hm Hc|s m path Hm|s Hc|s p Hg|s Hg Hc|s i c c' permits Ht Hi Hs
    |s i c e es Ht Hi Hc Hpi|s dl Hg Hd]; try by eapply seen_same.
  - by apply seen_http.
  - eapply seen_same; [done|done| | | |done]; unfold handled, debts, sessions;
      cbn [gr_server gr_pending set_server spawn sv_conns]; [|f_equal; by apply sum_accept..].
    rewrite sum_conns_app. cbn. lia.
  - eapply seen_same; [done|done| |done|done|done]. destruct (task_move_counts _ _ _ _ _ Hs) as [Hh _].
    pose proof (sum_conns_insert in_handler _ _ _ c' Hi). unfold handled. cbn. lia.
  - destruct Hseen as [Hst|(first & s1 & cs & H1 & H2 & H3 & H4 & H5)].
    + left. cbn. unfold record. destruct Hf as [_ Hf]. rewrite Hst, emit_all_unrecorded by done. by destruct start.
    + right. exists first, s1, (emission_counters e cs). split_and!; [done..|by eapply rtc_r|].
      apply since_emit; [done|by apply gateway_reachable_inv|done..].
Qed.

Lemma gateway_reachable_seen s :
  Z.of_nat sem < P53 - 1 → fresh start → gateway_reachable s → seen s.
Proof.
  intros Hsem Hf Hr. revert Hr. unfold gateway_reachable.
  apply (rtc_ind_r (λ s, seen s) gateway_init); [by left|]. intros s1 s2 Hr1 Hs IH. by eapply seen_step.
Qed.

Lemma debts_bound s : gw_inv s → debts s <= Z.of_nat (sum_conns past_check (sv_conns (gr_server s))).
Proof.
  intros [_ _ Hs]. unfold debts. induction Hs as [|c es cs ess Hst _ IH]; [done|].
  pose proof (stage_owed _ _ Hst). cbn [sum_list_with sum_conns]. lia.
Qed.

(** ** The end *)

(** A task past the shutdown check can get to the end of its session. *)
Lemma emit_step s i c e es :
  gr_phase s = GDraining → sv_conns (gr_server s) !! i = Some c → c = CChecked ∨ c = CActive →
  gr_pending s !! i = Some (e :: es) →
  ∃ s', gateway_step s s' ∧ gr_phase s' = GDraining ∧ gr_pending s' !! i = Some es ∧
    gr_server s' = moved s (sv_permits (gr_server s)) i (after e c).
Proof.
  intros Hg Hi Hc Hp. eexists. split; [eapply gr_emit; [by right|done..]|]. split_and!; [done| |done].
  cbn. apply list_lookup_insert_eq. by eapply lookup_lt_Some.
Qed.

Lemma moved_same sv (i : nat) c :
  sv_conns sv !! i = Some c → move (T := unit) sv (sv_permits sv) (sv_shared sv) i c = sv.
Proof. intros Hi. unfold move. rewrite list_insert_id by done. by destruct sv. Qed.

Lemma ending_cons es :
  ending es → es = [DEC] ∨ ∃ k n es', es = CounterIncrement k n :: es' ∧ ending es'.
Proof. destruct 1; [by left|right; do 3 eexists; (split; [done|constructor])..]. Qed.

Lemma active_finishes i es : ∀ s,
  ending es → gr_phase s = GDraining → sv_conns (gr_server s) !! i = Some CActive → gr_pending s !! i = Some es →
  ∃ s', rtc gateway_step s s' ∧ gr_phase s' = GDraining ∧
    gr_server s' = moved s (sv_permits (gr_server s)) i CFinished.
Proof.
  induction es as [|e es IH]; intros s He Hg Hi Hp; [by destruct (ending_cons _ He) as [?|(? & ? & ? & ? & _)]|].
  destruct (emit_step s i CActive e es Hg Hi (or_intror eq_refl) Hp) as (s1 & Hs1 & Hg1 & Hp1 & Hsv).
  destruct (ending_cons _ He) as [[= -> ->]|(k & n & es' & [= -> ->] & He')].
  - exists s1. split; [by apply rtc_once|done].
  - cbn [after] in Hsv. unfold moved in Hsv. rewrite moved_same in Hsv by done.
    destruct (IH s1 He' Hg1) as (s2 & Hs2 & Hg2 & Hsv2); [by rewrite Hsv|done|].
    exists s2. split; [by eapply rtc_l|]. unfold moved in *. by rewrite <- Hsv.
Qed.

Lemma checked_opens s i :
  gr_phase s = GDraining → gw_inv s → sv_conns (gr_server s) !! i = Some CChecked →
  ∃ s', rtc gateway_step s s' ∧ gr_phase s' = GDraining ∧
    gr_server s' = moved s (sv_permits (gr_server s)) i CActive.
Proof.
  intros Hg Hinv Hi. destruct (stage_lookup s i _ Hinv Hi) as (es & Hp & Hst).
  inversion Hst as [c es' Hc He|es' He|es' He|c Hc]; subst; [| |destruct Hc; done].
  - destruct (emit_step s i CChecked _ _ Hg Hi (or_introl eq_refl) Hp) as (s1 & Hs1 & Hg1 & Hp1 & Hsv).
    cbn [after] in Hsv. unfold moved in Hsv. rewrite moved_same in Hsv by done.
    destruct (emit_step s1 i CChecked _ _ Hg1 ltac:(by rewrite Hsv) (or_introl eq_refl) Hp1) as (s2 & Hs2 & Hg2 & _ & Hsv2).
    exists s2. split; [eapply rtc_l; [done|by apply rtc_once]|]. unfold moved in *. by rewrite <- Hsv.
  - destruct (emit_step s i CChecked _ _ Hg Hi (or_introl eq_refl) Hp) as (s1 & Hs1 & Hg1 & _ & Hsv).
    exists s1. split; [by apply rtc_once|done].
Qed.

Lemma task_run s i c c' permits :
  gr_phase s = GDraining → sv_conns (gr_server s) !! i = Some c →
  task_move (sv_cancelled (gr_server s)) (sv_permits (gr_server s)) c permits c' →
  ∃ s', rtc gateway_step s s' ∧ gr_phase s' = GDraining ∧ gr_server s' = moved s permits i c'.
Proof. intros Hg Hi Hm. eexists. split; [apply rtc_once; eapply gr_task; [by right|done..]|done]. Qed.

(** While [run] waits, what a task can do the gateway can. *)
Lemma draining_step s sv' :
  gr_phase s = GDraining → gw_inv s → accepts (gr_server s) sv' →
  ∃ s', rtc gateway_step s s' ∧ gr_phase s' = GDraining ∧ gr_server s' = sv'.
Proof.
  intros Hg Hinv Hs. pose proof (gi_phase s Hinv) as Hph. unfold phase_ok in Hph. rewrite Hg in Hph. destruct Hph as [Hc Hacc].
  remember (gr_server s) as sv eqn:Hsv.
  destruct Hs as [sv Hx|sv Hx|sv _ Hx|sv i p Hi Hp|sv i Hi _|sv i Hi Hx|sv i Hi|sv i Hi|sv i Hi]; try congruence; subst sv.
  - apply (task_run s i CWaiting); [done|done|]. rewrite Hp. constructor.
  - apply (task_run s i CPermit); [done|done|by constructor].
  - by apply checked_opens.
  - destruct (stage_lookup s i _ Hinv Hi) as (es & Hp & Hst).
    inversion Hst as [c es' Hc' He|es' He|es' He|c Hc']; subst; [by destruct_or! Hc'| |by destruct_or! Hc'].
    by eapply active_finishes.
  - apply (task_run s i CFinished); [done|done|constructor].
Qed.

Lemma draining_steps sv sv' : rtc accepts sv sv' → ∀ s,
  gr_server s = sv → gr_phase s = GDraining → gw_inv s →
  ∃ s', rtc gateway_step s s' ∧ gr_phase s' = GDraining ∧ gr_server s' = sv'.
Proof.
  induction 1 as [sv|sv sv1 sv' Hs _ IH]; intros s <- Hg Hinv; [by exists s|].
  destruct (draining_step s sv1 Hg Hinv Hs) as (s1 & Hs1 & Hg1 & <-).
  assert (Hinv1 : gw_inv s1) by (clear -Hinv Hs1 FL; induction Hs1; eauto using step_inv).
  destruct (IH s1 eq_refl Hg1 Hinv1) as (s' & ? & ? & ?). exists s'. split; [by etrans|done].
Qed.

(** Once shut down, the gateway can finish its sessions and return. *)
Lemma gateway_returns s :
  (0 < sem)%nat → gw_inv s → tasks_run s → sv_cancelled (gr_server s) = true →
  ∃ s', rtc gateway_step s s' ∧ gr_phase s' = GReturned None ∧ Forall (λ c, c = CDone) (sv_conns (gr_server s')).
Proof.
  intros Hsem Hinv Hr Hc.
  assert (Hd : ∃ s1, rtc gateway_step s s1 ∧ gr_phase s1 = GDraining ∧ gw_inv s1).
  { destruct Hr as [Hg|Hg]; [|by exists s].
    assert (Hs : gateway_step s _) by by apply gr_stop. eexists. split; [by apply rtc_once|].
    split; [done|by eapply step_inv]. }
  destruct Hd as (s1 & Hs1 & Hg1 & Hinv1). pose proof (gi_phase _ Hinv1) as Hst. unfold phase_ok in Hst. rewrite Hg1 in Hst.
  destruct (stopped_finishes id id sem (gr_server s1) Hsem (gi_permits _ Hinv1) Hst) as (sv & Hsv & Hdone & Hp).
  destruct (draining_steps _ _ Hsv s1 eq_refl Hg1 Hinv1) as (s2 & Hs2 & Hg2 & <-).
  exists (set_phase s2 (GReturned None) (abort (gr_metrics s2))). split; [|done].
  etrans; [exact Hs1|]. eapply rtc_r; [exact Hs2|]. apply (gr_return s2 false); [done|].
  by destruct (done_permits sem (gr_server s2) Hp Hdone) as [_ ->].
Qed.
End run.

(** ** Properties *)


(** ** Witness

    One client is being served when the metrics are scraped for the first time;
    a second one is served after it, and then the gateway is shut down. *)
Definition run_config : GatewayConfig :=
  {| gw_bind_addr := "0.0.0.0:1080"; gw_control_plane_url := "http://127.0.0.1:8080"; gw_api_token := None;
     socks_username := None; socks_password := None; gw_max_connections := 2;
     gw_connect_timeout := default_connect_timeout; gw_idle_timeout := default_idle_timeout;
     gw_metrics_bind_addr := Some "0.0.0.0:19090"; gw_logging := LoggingConfig_default |}.
Definition run_client : ControlPlaneClient := ControlPlaneClient_new "http://127.0.0.1:8080" None.
Definition run_ctx : GatewayContext := gateway_context run_config run_client.
Definition run_peer : peer :=
  {| pr_env := sample_net sample_answer DialTimedOut; pr_stream := fresh_stream sample_client_bytes |}.
Definition run_start : process recorder := {| handles := []; facade := None |}.

#[local] Existing Instance reference_facade.
#[local] Existing Instance reference_facade_laws.

Definition run_state (conns : list conn) (permits : nat) (cancelled : bool) (pending : list (list emission))
    (p : process recorder) : gateway_server recorder :=
  {| gr_phase := GServing; gr_metrics := MTServing;
     gr_server := {| sv_permits := permits; sv_shared := tt; sv_conns := conns; sv_cancelled := cancelled;
                     sv_accepting := true |};
     gr_pending := pending; gr_process := p |}.

Definition run_scraped : process recorder := (metrics_router GET "/metrics" run_start).2.
Definition run_calls : list emission := drop 2 (handler_emissions run_ctx run_peer).
Definition run_opened : list emission := gateway_emissions Opened.
Definition shut_down_state : gateway_server recorder :=
  run_state [CActive; CActive] 0 true [run_calls; run_calls] (record (drop 1 run_opened) (record (take 1 run_opened) run_scraped)).

Ltac task_to i c c' p := eapply rtc_l; [apply (gr_task _ _ _ i c c' p); [by left|reflexivity|by constructor]|]; cbn.
Ltac call i := eapply rtc_l; [eapply (gr_emit _ _ _ i CChecked); [by left|reflexivity|by left|reflexivity]|]; cbn.

Lemma two_clients p es :
  handler_emissions run_ctx p = run_opened ++ es →
  gateway_reachable run_config run_ctx 2 run_start
    (run_state [CActive; CActive] 0 true [es; es] (record (drop 1 run_opened) (record (take 1 run_opened) run_scraped))).
Proof.
  intros Hes. eapply rtc_l; [by apply gr_bind|]. eapply rtc_l; [by apply (gr_metrics_bind _ _ _ true)|].
  eapply rtc_l; [by apply (gr_accept _ _ _ p)|]. rewrite Hes. cbn.
  task_to 0%nat CWaiting CPermit 1%nat. task_to 0%nat CPermit CChecked 1%nat. call 0%nat. call 0%nat.
  eapply rtc_l; [apply (gr_http _ _ _ GET "/metrics"); by left|]. cbn.
  eapply rtc_l; [by apply (gr_accept _ _ _ p)|]. rewrite Hes. cbn.
  task_to 1%nat CWaiting CPermit 0%nat. task_to 1%nat CPermit CChecked 0%nat. call 1%nat. call 1%nat.
  eapply rtc_l; [by apply gr_cancel|]. apply rtc_refl.
Qed.

Lemma shut_down_reachable : gateway_reachable run_config run_ctx 2 run_start shut_down_state.
Proof. apply (two_clients run_peer). vm_compute. reflexivity. Qed.

