(* ===== verification/Main.v ===== *)
(** * Starting the services

    The command line ([crates/common/src/cli.rs]), the loading of a
    configuration ([config.rs], with the errors of [error.rs]) and what [main]
    ([crates/rustproxy-bin/src/main.rs]) builds from it. Reading a file, parsing
    TOML (see [Startup]), opening and migrating the database and binding a socket
    are parameters; the services themselves run in [Accept], [Gateway],
    [NodeAgent] and [Api], where the cancellation of the shutdown token is a step
    of its own. *)

From stdpp Require Import base tactics decidable numbers list strings gmap.
From Stdlib Require Import ZArith Lia.
From S2P Require Import Prelude Config Client Health Registry Service Api Session Gateway NodeAgent.

Inductive CommonError : Type :=
| IoFailure (detail : string)
| Serde (detail : string)
| Protocol (detail : string)
| ConfigError (detail : string)
| ControlPlaneFailure (detail : string)
| Other.

Record ServiceArgs : Type := mkServiceArgs { sa_config : string; sa_log_level : option LogLevel }.

Inductive Command : Type :=
| CmdGateway (args : ServiceArgs)
| CmdNode (args : ServiceArgs)
| CmdControlPlane (args : ServiceArgs)
| CmdMigrate (args : ServiceArgs).

(** [config::load]; [read_to_string] and [from_str] give the text of their
    error when they fail. *)
Definition load {T} (read_to_string : string → outcome string string)
    (from_str : string → outcome string T) (path : string) : outcome CommonError T :=
  let? raw := map_err (λ e, ConfigError ("failed to read " +:+ path +:+ ": " +:+ e)) (read_to_string path) in
  let? cfg := map_err (λ e, ConfigError ("failed to parse " +:+ path +:+ ": " +:+ e)) (from_str raw) in
  Ok cfg.

(** How logging is initialised: the level of the command line wins. *)
Definition log_init (args : ServiceArgs) (logging : LoggingConfig) : LogLevel * bool :=
  (default (level logging) (sa_log_level args), json logging).

(** What the gateway serves connections with. *)
Definition start_gateway (cfg : GatewayConfig) : GatewayContext :=
  gateway_context cfg (ControlPlaneClient_new (gw_control_plane_url cfg) (gw_api_token cfg)).

(** The state and the policy of the control plane: the service over the
    repository, the authentication and the sweep interval. *)
Definition start_control_plane {R : Type} (repo : R) (cfg : ControlPlaneConfig) :
  ControlPlaneService R * Auth * Z :=
  (ControlPlaneService_new repo HealthPolicy_default, app_auth (cp_api_token cfg), cp_sweep_interval cfg).

(** What a command ends in: a running service, with what it serves from, or
    migrations applied. *)
Inductive launch (R : Type) : Type :=
| RunGateway (ctx : GatewayContext)
| RunNode (cfg : NodeConfig) (client : ControlPlaneClient)
| RunControlPlane (state : ControlPlaneService R) (auth : Auth) (sweep_interval : Z)
| Migrated (repo : R).
Arguments RunGateway {R} ctx.
Arguments RunNode {R} cfg client.
Arguments RunControlPlane {R} state auth sweep_interval.
Arguments Migrated {R} repo.

(** [anyhow::Error]: an error of the configuration, of the database or of the
    socket. *)
Inductive MainError : Type :=
| MCommon (e : CommonError)
| MSqlx (detail : string)
| MIo (detail : string).

Section main.
Context (read_to_string : string → outcome string string).
Context (gateway_toml : string → outcome string GatewayConfig).
Context (node_toml : string → outcome string NodeConfig).
Context (control_plane_toml : string → outcome string ControlPlaneConfig).
(** The pool of [open_sqlite], [migrate] on it, and [TcpListener::bind]. *)
Context {R : Type} (open_sqlite : string → outcome string R) (migrate : R → outcome string R).
Context (bind : string → outcome string unit).

Definition open_registry (cfg : ControlPlaneConfig) : outcome MainError R :=
  let? pool := map_err MSqlx (open_sqlite (cp_sqlite_path cfg)) in
  map_err MSqlx (migrate pool).

(** The level and format logging is initialised with are returned too, also
    when a later step fails. *)
Definition main (command : Command) : option (LogLevel * bool) * outcome MainError (launch R) :=
  match command with
  | CmdGateway args =>
      match load read_to_string gateway_toml (sa_config args) with
      | Ok cfg => (Some (log_init args (gw_logging cfg)), Ok (RunGateway (start_gateway cfg)))
      | Err e => (None, Err (MCommon e))
      | Panic => (None, Panic)
      end
  | CmdNode args =>
      match load read_to_string node_toml (sa_config args) with
      | Ok cfg => (Some (log_init args (cfg_logging cfg)), Ok (RunNode cfg (node_client cfg)))
      | Err e => (None, Err (MCommon e))
      | Panic => (None, Panic)
      end
  | CmdControlPlane args =>
      match load read_to_string control_plane_toml (sa_config args) with
      | Ok cfg =>
          (Some (log_init args (cp_logging cfg)),
           let? repo := open_registry cfg in
           let '(state, auth, sweep_interval) := start_control_plane repo cfg in
           let? _ := map_err MIo (bind (cp_bind_addr cfg)) in
           Ok (RunControlPlane state auth sweep_interval))
      | Err e => (None, Err (MCommon e))
      | Panic => (None, Panic)
      end
  | CmdMigrate args =>
      match load read_to_string control_plane_toml (sa_config args) with
      | Ok cfg =>
          (Some (log_init args (cp_logging cfg)),
           let? repo := open_registry cfg in Ok (Migrated repo))
      | Err e => (None, Err (MCommon e))
      | Panic => (None, Panic)
      end
  end.

(** Logging is initialised exactly when the configuration loads, and a command
    that fails before that fails with a configuration error. *)
Lemma main_logs command :
  match main command with
  | (None, Err e) => ∃ detail, e = MCommon (ConfigError detail)
  | (None, Ok _) => False
  | _ => True
  end.
Proof.
  destruct command as [args|args|args|args]; cbn [main]; unfold load, obind, map_err;
    destruct (read_to_string (sa_config args)) as [raw| |]; try done; eauto;
    match goal with |- context [?f raw] => destruct (f raw) end; try done; eauto.
Qed.

(** A control plane that starts serves the migrated database of its
    configuration, with the default policy and the configured token. *)
Lemma control_plane_starts args cfg pool repo :
  load read_to_string control_plane_toml (sa_config args) = Ok cfg →
  open_sqlite (cp_sqlite_path cfg) = Ok pool → migrate pool = Ok repo → bind (cp_bind_addr cfg) = Ok tt →
  (main (CmdControlPlane args)).2 =
  Ok (RunControlPlane (ControlPlaneService_new repo HealthPolicy_default) (app_auth (cp_api_token cfg))
        (cp_sweep_interval cfg)).
Proof.
  intros Hl Ho Hm Hb. cbn [main]. rewrite Hl. unfold open_registry, map_err, obind. cbn.
  by rewrite Ho, Hm, Hb.
Qed.
End main.
