(* ===== verification/Routes.v ===== *)
(** * The routes of the control plane

    [router] of [crates/control-plane/src/api.rs] as a table, and the URLs the
    clients of [crates/node/src/cp_client.rs] and
    [crates/gateway/src/proxy_client.rs] build. The URL parser of [Http] makes a
    path of a URL, and [axum] matches it against the table; [Router] is what its
    documentation promises: a path is matched segment by segment, [:id] stands
    for one non-empty segment, a path that some route matches is routed, and a
    route without parameters wins. *)

From stdpp Require Import base tactics decidable numbers list strings gmap.
From Stdlib Require Import ZArith Lia Strings.Ascii.
From S2P Require Import Prelude RustStd Config Client F64 Model Health Bandwidth Routing Registry Service Api.
From S2P Require Import SocketText Session Gateway NodeAgent Http.

(** ** Paths *)

(** The segments after the leading slash. *)
Definition segments (path : string) : list string := tail (split_path path).

Inductive segment : Type := Static (s : string) | Capture (name : string).

Definition segment_of (s : string) : segment :=
  match s with
  | String c name => if Ascii.eqb c ":" then Capture name else Static s
  | EmptyString => Static s
  end.

Fixpoint captures (pattern : list segment) (path : list string) : option (list (string * string)) :=
  match pattern, path with
  | [], [] => Some []
  | Static s :: pattern, t :: path => if String.eqb s t then captures pattern path else None
  | Capture name :: pattern, t :: path =>
      if String.eqb t "" then None
      else match captures pattern path with Some cs => Some ((name, t) :: cs) | None => None end
  | _, _ => None
  end.

Definition path_captures (pattern path : string) : option (list (string * string)) :=
  captures (segment_of <$> segments pattern) (segments path).

Class Router : Type := {
  at_path : list string → string → option (string * list (string * string))
}.

Class RouterLaws `{Router} : Prop := {
  route_sound patterns path p cs :
    at_path patterns path = Some (p, cs) → p ∈ patterns ∧ path_captures p path = Some cs;
  route_complete patterns path p cs :
    p ∈ patterns → path_captures p path = Some cs → is_Some (at_path patterns path);
  route_static patterns path p :
    p ∈ patterns → path_captures p path = Some [] → ∃ q, at_path patterns path = Some (q, [])
}.

(** ** The table *)
Inductive verb : Type := VGet | VHead | VPost | VOther.
#[export] Instance verb_eq_dec : EqDecision verb.
Proof. solve_decision. Defined.

Inductive endpoint : Type :=
| EHealth | EListNodes | ESelect | EGetNode | ERegister | EHeartbeat | EDrain | EMetrics.

Definition routes : list (string * verb * endpoint) :=
  [("/health", VGet, EHealth);
   ("/nodes", VGet, EListNodes);
   ("/nodes/select", VPost, ESelect);
   ("/nodes/:id", VGet, EGetNode);
   ("/nodes/register", VPost, ERegister);
   ("/nodes/:id/heartbeat", VPost, EHeartbeat);
   ("/nodes/:id/drain", VPost, EDrain);
   ("/metrics", VGet, EMetrics)].

(** The verbs a route takes: [axum]'s [get] takes [HEAD] too. *)
Definition takes (route v : verb) : bool :=
  match route, v with
  | VGet, VGet | VGet, VHead | VPost, VPost => true
  | _, _ => false
  end.

Inductive dispatched : Type := Handler (e : endpoint) (cs : list (string * string)) | NotFound | MethodNotAllowed.

Definition patterns : list string := (λ r, r.1.1) <$> routes.

Definition dispatch `{Router} (v : verb) (path : string) : dispatched :=
  match at_path patterns path with
  | None => NotFound
  | Some (p, cs) =>
      match list_find (λ r, r.1.1 = p ∧ takes r.1.2 v = true) routes with
      | Some (_, (_, e)) => Handler e cs
      | None => MethodNotAllowed
      end
  end.

(** Where a request to a URL ends up; nowhere if it is none. *)
Definition routed {HM : Type} `{Http HM} `{Router} (v : verb) (url : string) : option dispatched :=
  dispatch v <$> url_path url.

(** The status [axum] answers without a handler. *)
Definition unrouted_status (d : dispatched) : option Z :=
  match d with Handler _ _ => None | NotFound => Some 404 | MethodNotAllowed => Some 405 end.

(** ** Lemmas *)
(** Below [/nodes/]. *)
Lemma segments_nodes s : segments ("/nodes/" +:+ s) = "nodes" :: split_path s.
Proof. done. Qed.

Definition node_path (id : string) : string := "/nodes/" +:+ id.
Definition heartbeat_path (id : string) : string := "/nodes/" +:+ id +:+ "/heartbeat".
Definition drain_path (id : string) : string := "/nodes/" +:+ id +:+ "/drain".

Section dispatch.
Context `{RTL : RouterLaws}.

(** A path that one pattern matches, or none. *)
Lemma dispatch_unique v path p cs :
  p ∈ patterns → path_captures p path = Some cs →
  Forall (λ q, q = p ∨ path_captures q path = None) patterns →
  dispatch v path =
  match list_find (λ r, r.1.1 = p ∧ takes r.1.2 v = true) routes with
  | Some (_, (_, e)) => Handler e cs
  | None => MethodNotAllowed
  end.
Proof.
  intros Hp Hc Hu. destruct (route_complete patterns path p cs Hp Hc) as [[q ds] E].
  unfold dispatch. rewrite E. apply route_sound in E as [Hq Hd].
  rewrite Forall_forall in Hu. destruct (Hu q Hq) as [->|Hn]; [|congruence]. rewrite Hc in Hd. by simplify_eq.
Qed.

Lemma dispatch_none v path : Forall (λ q, path_captures q path = None) patterns → dispatch v path = NotFound.
Proof.
  intros Hu. unfold dispatch. destruct (at_path patterns path) as [[q ds]|] eqn:E; [|done].
  apply route_sound in E as [Hq Hd]. rewrite Forall_forall in Hu. by rewrite (Hu q Hq) in Hd.
Qed.

Lemma dispatch_static v path p :
  p ∈ patterns → path_captures p path = Some [] →
  Forall (λ q, q = p ∨ path_captures q path ≠ Some []) patterns →
  dispatch v path =
  match list_find (λ r, r.1.1 = p ∧ takes r.1.2 v = true) routes with
  | Some (_, (_, e)) => Handler e []
  | None => MethodNotAllowed
  end.
Proof.
  intros Hp Hc Hu. destruct (route_static patterns path p Hp Hc) as [q E]. unfold dispatch. rewrite E.
  apply route_sound in E as [Hq Hd]. rewrite Forall_forall in Hu. by destruct (Hu q Hq) as [->|].
Qed.

(** Compare the segments of a path with every pattern. *)
Ltac against_table Hseg :=
  unfold patterns; cbn -[path_captures]; repeat (apply Forall_cons; split); [..|by constructor];
  first [by left|try right; unfold path_captures; rewrite Hseg; cbn -[String.eqb]; repeat case_match; done].

Lemma dispatch_sub id sub e :
  url_safe id = true → id ≠ ""%string →
  (sub = "heartbeat" ∧ e = EHeartbeat ∨ sub = "drain" ∧ e = EDrain) →
  dispatch VPost ("/nodes/" +:+ id +:+ String "/" sub) = Handler e [("id", id)].
Proof.
  intros Hs Hne Hsub.
  assert (Hseg : segments ("/nodes/" +:+ id +:+ String "/" sub) = ["nodes"; id; sub]).
  { rewrite segments_nodes, split_path_slash, split_path_safe by done. by destruct Hsub as [[-> _]|[-> _]]. }
  apply String.eqb_neq in Hne.
  destruct Hsub as [[-> ->]|[-> ->]];
    [rewrite (dispatch_unique _ _ "/nodes/:id/heartbeat" [("id", id)])
    |rewrite (dispatch_unique _ _ "/nodes/:id/drain" [("id", id)])]; try done.
  all: try (unfold patterns; cbn; set_solver).
  all: try (unfold path_captures; rewrite Hseg; cbn; by rewrite Hne).
  all: against_table Hseg.
Qed.

Lemma dispatch_node id v :
  url_safe id = true → id ≠ ""%string →
  dispatch v (node_path id) =
  if String.eqb id "select" then if takes VPost v then Handler ESelect [] else MethodNotAllowed
  else if String.eqb id "register" then if takes VPost v then Handler ERegister [] else MethodNotAllowed
  else if takes VGet v then Handler EGetNode [("id", id)] else MethodNotAllowed.
Proof.
  intros Hs Hne. destruct (String.eqb_spec id "select") as [->|Hsel].
  { rewrite (dispatch_static _ _ "/nodes/select"); [by destruct v|unfold patterns; cbn; set_solver|done|].
    unfold patterns. cbn -[path_captures]. repeat (apply Forall_cons; split); [..|by constructor]; first [by left|by right]. }
  destruct (String.eqb_spec id "register") as [->|Hreg].
  { rewrite (dispatch_static _ _ "/nodes/register"); [by destruct v|unfold patterns; cbn; set_solver|done|].
    unfold patterns. cbn -[path_captures]. repeat (apply Forall_cons; split); [..|by constructor]; first [by left|by right]. }
  assert (Hseg : segments (node_path id) = ["nodes"; id]) by (unfold node_path; by rewrite segments_nodes, split_path_safe).
  apply String.eqb_neq in Hne.
  rewrite (dispatch_unique _ _ "/nodes/:id" [("id", id)]); [by destruct v| | |].
  - unfold patterns. cbn. set_solver.
  - unfold path_captures. rewrite Hseg. cbn. by rewrite Hne.
  - assert (H1 : String.eqb "select" id = false) by (by apply String.eqb_neq).
    assert (H2 : String.eqb "register" id = false) by (by apply String.eqb_neq).
    against_table Hseg.
Qed.

(** More segments than any route has. *)
Lemma captures_length pattern path cs : captures pattern path = Some cs → length path = length pattern.
Proof.
  revert path cs. induction pattern as [|[s|name] pattern IH]; intros [|t path] cs; cbn; try done.
  - destruct (String.eqb s t); [|done]. intros Hc. by rewrite (IH _ _ Hc).
  - destruct (String.eqb t ""); [done|]. destruct (captures pattern path) eqn:E; [|done]. intros _. by rewrite (IH _ _ E).
Qed.

Lemma dispatch_slash v a b sub :
  dispatch v ("/nodes/" +:+ (a +:+ String "/" b) +:+ String "/" sub) = NotFound.
Proof.
  apply dispatch_none.
  assert (Hlen : (4 ≤ length (segments ("/nodes/" +:+ (a +:+ String "/" b) +:+ String "/" sub)))%nat).
  { rewrite segments_nodes, !split_path_slash. pose proof (split_path_nonempty a). pose proof (split_path_nonempty b).
    pose proof (split_path_nonempty sub). cbn. rewrite !length_app.
    destruct (split_path a), (split_path b), (split_path sub); cbn; try done; lia. }
  unfold patterns. cbn -[path_captures segments]. repeat (apply Forall_cons; split); [..|by constructor].
  all: unfold path_captures; destruct (captures _ _) eqn:E; [|done]; apply captures_length in E; cbn -[segments] in E; exfalso; rewrite E in Hlen; cbn in Hlen; lia.
Qed.
End dispatch.

(** Text that starts with a plain character is not blank. *)
Lemma unreserved_not_white c l : unreserved c = true → all_white (byte_of_ascii c :: l) = false.
Proof.
  intros Hc.
  assert (Hb : u8_in 0x09 0x0D (byte_of_ascii c) = false ∧ u8_in 0x20 0x20 (byte_of_ascii c) = false ∧
    u8_in 0xC2 0xC2 (byte_of_ascii c) = false ∧ u8_in 0xE1 0xE1 (byte_of_ascii c) = false ∧
    u8_in 0xE2 0xE2 (byte_of_ascii c) = false ∧ u8_in 0xE3 0xE3 (byte_of_ascii c) = false)
    by (destruct c as [[] [] [] [] [] [] [] []]; try discriminate Hc; done).
  destruct Hb as (H1 & H2 & H3 & H4 & H5 & H6). cbn [all_white].
  rewrite H1, H2, H3, H4, H5, H6. by destruct l as [|? [|]].
Qed.

Lemma safe_not_blank id t : url_safe id = true → id ≠ ""%string → is_blank (id +:+ t) = false.
Proof.
  destruct id as [|c id]; [done|]. cbn. intros [Hc _]%andb_prop _. by apply unreserved_not_white.
Qed.

(** ** The URLs of the clients *)

(** A client whose base URL is that of a server, with nothing after the port. *)
Definition origin_client {HM : Type} `{Http HM} (c : ControlPlaneClient) : Prop :=
  is_origin (base_url c) = true ∧ url_path (base_url c) = Some "/".

Section urls.
Context {HM : Type} `{HL : HttpLaws HM} `{RTL : RouterLaws}.

Lemma routed_path c v segs :
  origin_client c → segs ≠ [] → Forall (λ s, plain_segment s = true) segs →
  routed v (base_url c +:+ path_of segs) = Some (dispatch v (path_of segs)).
Proof. intros [Ho Hu] Hne Hs. unfold routed. by rewrite law_path. Qed.

Lemma routed_register c : origin_client c → routed VPost (register_url c) = Some (Handler ERegister []).
Proof.
  intros Hc. change (register_url c) with (base_url c +:+ path_of ["nodes"; "register"]).
  rewrite routed_path by first [done|by repeat constructor]. f_equal. by apply (dispatch_node "register" VPost).
Qed.

Lemma routed_select c : origin_client c → routed VPost (select_url c) = Some (Handler ESelect []).
Proof.
  intros Hc. change (select_url c) with (base_url c +:+ path_of ["nodes"; "select"]).
  rewrite routed_path by first [done|by repeat constructor]. f_equal. by apply (dispatch_node "select" VPost).
Qed.

Lemma routed_sub c id sub e :
  origin_client c → plain_segment id = true →
  (sub = "heartbeat" ∧ e = EHeartbeat ∨ sub = "drain" ∧ e = EDrain) →
  routed VPost (base_url c +:+ "/nodes/" +:+ id +:+ String "/" sub) = Some (Handler e [("id", id)]).
Proof.
  intros Hc Hid Hsub. destruct (plain_segment_inv id Hid) as (Hs & Hne & _).
  assert (Hp : "/nodes/" +:+ id +:+ String "/" sub = path_of ["nodes"; id; sub]).
  { cbn [path_of]. rewrite append_nil_r. done. }
  rewrite Hp, routed_path, <- Hp, (dispatch_sub id sub e); try done.
  repeat constructor; [done|]. by destruct Hsub as [[-> _]|[-> _]].
Qed.

Lemma routed_heartbeat c id :
  origin_client c → plain_segment id = true → routed VPost (heartbeat_url c id) = Some (Handler EHeartbeat [("id", id)]).
Proof. intros Hc Hid. apply (routed_sub c id "heartbeat"); [done|done|by left]. Qed.

Lemma routed_node c id v :
  origin_client c → plain_segment id = true → routed v (base_url c +:+ node_path id) = Some (dispatch v (node_path id)).
Proof.
  intros Hc Hid. assert (Hp : node_path id = path_of ["nodes"; id]).
  { unfold node_path. cbn [path_of]. by rewrite append_nil_r. }
  rewrite Hp. apply routed_path; [done|done|]. repeat constructor. done.
Qed.

(** An id of several plain segments. *)
Lemma routed_slashed c v id more :
  origin_client c → plain_segment id = true → more ≠ [] → Forall (λ s, plain_segment s = true) more →
  routed v (heartbeat_url c (id +:+ path_of more)) = Some NotFound.
Proof.
  intros Hc Hid Hne Hmore.
  assert (Hp : "/nodes/" +:+ (id +:+ path_of more) +:+ "/heartbeat" = path_of ("nodes" :: id :: more ++ ["heartbeat"])).
  { assert (Happ : ∀ l, path_of l +:+ "/heartbeat" = path_of (l ++ ["heartbeat"])).
    { induction l as [|s l IH]; [done|]. cbn [path_of app]. by rewrite <- IH, !append_assoc. }
    cbn [path_of]. rewrite <- Happ, !append_assoc. done. }
  unfold heartbeat_url. rewrite Hp, routed_path, <- Hp; [|done|done|].
  - f_equal. destruct Hmore as [|s more Hs _]; [done|].
    change (id +:+ path_of (s :: more)) with (id +:+ String "/" (s +:+ path_of more)).
    apply (dispatch_slash v id _ "heartbeat").
  - repeat constructor; [done|]. apply Forall_app. split; [done|by repeat constructor].
Qed.
End urls.

(** ** Properties *)

(** (C29) Requests reach the handlers they are meant for. For a client whose
    base URL is that of a server, without a path, the URLs of the node agent and
    of the gateway are routed to registration, selection and, for a node id that
    is a plain URL segment (unreserved characters, not empty, [.] or [..]), to the
    heartbeat of that node, as are the URLs to drain it and, with [GET] or [HEAD],
    to read it, except that a node named after one of the two static routes cannot
    be read. The heartbeat of a node whose id is several plain segments with
    slashes between them is routed nowhere, and the node agent takes the answer
    for an error, although such ids can be registered. *)
Theorem requests_reach_their_handlers {HM : Type} `{HL : HttpLaws HM} `{RTL : RouterLaws}
    (c : ControlPlaneClient) (id : string) :
  is_origin (base_url c) = true → url_path (base_url c) = Some "/" → plain_segment id = true →
  routed VPost (register_url c) = Some (Handler ERegister []) ∧
  routed VPost (select_url c) = Some (Handler ESelect []) ∧
  routed VPost (heartbeat_url c id) = Some (Handler EHeartbeat [("id", id)]) ∧
  routed VPost (base_url c +:+ drain_path id) = Some (Handler EDrain [("id", id)]) ∧
  (∀ v, v = VGet ∨ v = VHead →
     routed v (base_url c +:+ node_path id) = Some (Handler EGetNode [("id", id)]) ↔
     id ≠ "select"%string ∧ id ≠ "register"%string) ∧
  ∀ more slashed hb body,
    more ≠ [] → Forall (λ s, plain_segment s = true) more → slashed = id +:+ path_of more →
    (∀ v, unrouted_status <$> routed v (heartbeat_url c slashed) = Some (Some 404)) ∧
    (client_heartbeat c slashed hb).2 (Answered 404 body) = Err (RequestFailed "heartbeat" 404 body) ∧
    validate_register {| rr_node_id := slashed; rr_address := id; rr_max_connections := 1; rr_bandwidth_limit := 1 |}
    = Ok tt.
Proof.
  intros Ho Hu Hid. assert (Hc : origin_client c) by done. destruct (plain_segment_inv id Hid) as (Hs & Hne & _).
  split_and!.
  - by apply routed_register.
  - by apply routed_select.
  - by apply routed_heartbeat.
  - apply (routed_sub c id "drain"); [done|done|by right].
  - intros v Hv. rewrite routed_node, dispatch_node by done.
    assert (takes VPost v = false ∧ takes VGet v = true) as [-> ->] by (by destruct Hv as [->| ->]).
    destruct (String.eqb_spec id "select") as [->|]; [split; [done|by intros []]|].
    destruct (String.eqb_spec id "register") as [->|]; [split; [done|by intros []]|done].
  - intros more slashed hb body Hm Hmore ->. split_and!.
    + intros v. by rewrite routed_slashed.
    + done.
    + unfold validate_register. cbn [rr_node_id rr_address rr_max_connections rr_bandwidth_limit].
      rewrite safe_not_blank by done. pose proof (safe_not_blank id "" Hs Hne) as Hb.
      rewrite append_nil_r in Hb. by rewrite Hb.
Qed.

(** ** Witnesses *)

(** A router that tries the routes without parameters first. *)
#[local] Instance reference_router : Router := {|
  at_path patterns path :=
    match find (λ p, match path_captures p path with Some [] => true | _ => false end) patterns with
    | Some p => Some (p, [])
    | None =>
        match find (λ p, match path_captures p path with Some _ => true | None => false end) patterns with
        | Some p => match path_captures p path with Some cs => Some (p, cs) | None => None end
        | None => None
        end
    end
|}.

Lemma reference_router_laws : RouterLaws.
Proof.
  split; cbn; intros ps path p.
  - intros cs. destruct (find _ ps) as [q|] eqn:F.
    + apply find_some in F as [Hq Hc]. intros [= <- <-]. apply list_elem_of_In in Hq. split; [done|].
      by destruct (path_captures q path) as [[]|].
    + clear F. destruct (find _ ps) as [q|] eqn:F2; [|done].
      apply find_some in F2 as [Hq _]. apply list_elem_of_In in Hq.
      destruct (path_captures q path) eqn:E; [|done]. by intros [= <- <-].
  - intros cs Hp Hc. destruct (find _ ps) as [q|] eqn:F; [by eexists|]. clear F.
    destruct (find _ ps) as [q|] eqn:F2.
    + apply find_some in F2 as [_ Hq]. destruct (path_captures q path); [by eexists|done].
    + apply list_elem_of_In in Hp. pose proof (find_none _ _ F2 p Hp) as Hn. cbn in Hn. by rewrite Hc in Hn.
  - intros Hp Hc. destruct (find _ ps) as [q|] eqn:F; [by eexists|].
    apply list_elem_of_In in Hp. pose proof (find_none _ _ F p Hp) as Hn. cbn in Hn. by rewrite Hc in Hn.
Qed.

#[local] Existing Instance reference_http.

Lemma requests_reach_their_handlers_witness :
  let c := ControlPlaneClient_new "http://control-plane:8080/" None in
  routed VPost (heartbeat_url c "node-1") = Some (Handler EHeartbeat [("id", "node-1")]) ∧
  routed VHead (base_url c +:+ node_path "node-1") = Some (Handler EGetNode [("id", "node-1")]) ∧
  unrouted_status <$> routed VPost (heartbeat_url c "rack-1/node-1") = Some (Some 404).
Proof.
  destruct (@requests_reach_their_handlers _ reference_http reference_http_laws _ reference_router_laws
    (ControlPlaneClient_new "http://control-plane:8080/" None) "node-1")
    as (_ & _ & Hh & _ & Hn & _); [reflexivity|reflexivity|reflexivity|].
  destruct (@requests_reach_their_handlers _ reference_http reference_http_laws _ reference_router_laws
    (ControlPlaneClient_new "http://control-plane:8080/" None) "rack-1")
    as (_ & _ & _ & _ & _ & H4); [reflexivity|reflexivity|reflexivity|].
  split; [exact Hh|split].
  - apply Hn; [by right|]. split; discriminate.
  - apply (H4 ["node-1"] "rack-1/node-1"
      {| hp_active_connections := 0; hp_bytes_up := 0; hp_bytes_down := 0; hp_latency_ms := 0; hp_available_bandwidth := 1 |} "");
      [discriminate|repeat constructor|reflexivity].
Defined.

(** What becomes of other ids: with a dot segment or a query the request ends up
    elsewhere. *)
Example other_ids :
  let c := ControlPlaneClient_new "http://control-plane:8080/" None in
  routed VPost (heartbeat_url c ".") = Some MethodNotAllowed ∧
  routed VPost (heartbeat_url c "..") = Some NotFound ∧
  routed VPost (heartbeat_url c "a/../b") = Some (Handler EHeartbeat [("id", "b")]) ∧
  routed VPost (heartbeat_url c "a/heartbeat?") = Some (Handler EHeartbeat [("id", "a")]).
Proof. vm_compute. done. Qed.
