(* ===== verification/Cluster.v ===== *)
(** * The cluster: node agents, control plane and gateways together

    How the requests of a node agent ([NodeAgent.v]) and of a gateway
    ([Gateway.v]) reach the handlers of the control plane ([Api.v]) and how
    their answers come back: URLs and the [Authorization] header through the
    transport of [Http.v], paths through the routes of [Routes.v], JSON bodies
    field by field. The theorem follows a node from its configuration file to
    being offered to gateways. *)

From stdpp Require Import base tactics decidable numbers list strings gmap.
From Stdlib Require Import ZArith Lia Strings.Ascii.
From S2P Require Import Prelude RustStd Config Client F64 Model Health Bandwidth Routing Registry Service Api.
From S2P Require Import SocketText Session Gateway NodeAgent Http Routes Main.

(** ** Requests *)

(** JSON bodies: the fields of the payloads, by name. *)
Definition json_register (p : RegisterPayload) : RegisterRequest :=
  {| rr_node_id := rp_node_id p; rr_address := rp_address p;
     rr_max_connections := rp_max_connections p; rr_bandwidth_limit := rp_bandwidth_limit p |}.

(** [node_id] has a [serde] default: the empty string. *)
Definition json_heartbeat (p : HeartbeatPayload) : Heartbeat :=
  {| hb_node_id := ""; hb_active_connections := hp_active_connections p; hb_bytes_up := hp_bytes_up p;
     hb_bytes_down := hp_bytes_down p; hb_latency_ms := hp_latency_ms p;
     hb_available_bandwidth := hp_available_bandwidth p |}.

(** The requests of the clients, as the handlers see them: the headers that
    arrive and the parameters of the route; [None] if the request cannot be sent,
    or is answered without a handler that takes its body. *)
Section delivery.
Context {HM : Type} `{Http HM} `{Router}.

Abbreviation request := (ApiRequest (HeaderMap := HM)).

Definition deliver_register (p : http_post RegisterPayload) : option request :=
  headers ← send_headers (post_auth p);
  match routed VPost (post_url p) with
  | Some (Handler ERegister _) => Some (PostRegister headers (json_register (post_json p)))
  | _ => None
  end.

Definition deliver_heartbeat (p : http_post HeartbeatPayload) : option request :=
  headers ← send_headers (post_auth p);
  match routed VPost (post_url p) with
  | Some (Handler EHeartbeat [(_, id)]) => Some (PostHeartbeat headers id (json_heartbeat (post_json p)))
  | _ => None
  end.

(** [select_node] of the gateway. *)
Definition deliver_select (c : ControlPlaneClient) : option request :=
  _ ← send_headers (authed c);
  match routed VPost (select_url c) with
  | Some (Handler ESelect _) => Some PostSelect
  | _ => None
  end.
End delivery.

(** ** Answers *)

(** What the node agent gets back. *)
Definition node_answer (json : ApiBody → string) (r : outcome ApiError ApiBody) : http_answer :=
  match r with
  | Ok b => Answered 200 (json b)
  | Err e => Answered (ae_status e) (ae_message e)
  | Panic => Unreachable "connection closed"
  end.

(** What the gateway gets back: [SelectResponse] has [id] and [address]. *)
Definition select_answer (r : outcome ApiError ApiBody) : http_result :=
  match r with
  | Ok (NodeBody b) => HttpResponse 200 (Some (nr_id b, nr_address b))
  | Ok _ => HttpResponse 200 None
  | Err e => HttpResponse (ae_status e) None
  | Panic => HttpError "connection closed"
  end.

(** ** Lemmas *)
(** A client that can reach the control plane: its URL is that of a server, and
    its token, if any, is printable and without spaces. *)
Definition reaches {HM : Type} `{Http HM} (c : ControlPlaneClient) : Prop :=
  origin_client c ∧ match token c with Some t => graphic t = true | None => True end.

Section delivered.
Context {HM : Type} `{HL : HttpLaws HM} `{RTL : RouterLaws}.

(** The headers of a client arrive; the same token is accepted. *)
Lemma headers_arrive c :
  match token c with Some t => graphic t = true | None => True end →
  ∃ hs, send_headers (authed c) = Some hs ∧ authorize header_text hs (app_auth (token c)) = Ok tt.
Proof.
  unfold authed, app_auth. destruct (token c) as [t|]; intros Ht; [|destruct law_no_header as (hs & Hs & _); by exists hs].
  destruct (law_header ("Bearer " +:+ t) (bearer_printable t Ht)) as (hs & Hs & Ha). exists hs. split; [done|].
  destruct (String.eqb_spec t "") as [->|Hne]; [done|].
  unfold authorize. rewrite (Ha (bearer_trimmed t Ht Hne)). cbn [mbind option_bind ok_or].
  rewrite (proj2 (strip_prefix_spec _ _ _) eq_refl). cbn [ok_or obind]. by rewrite String.eqb_refl.
Qed.

Lemma register_delivered c p :
  reaches c → ∃ hs, deliver_register (client_register c p).1 = Some (PostRegister hs (json_register p)) ∧
    authorize header_text hs (app_auth (token c)) = Ok tt ∧ send_headers (authed c) = Some hs.
Proof.
  intros [Hc Ht]. destruct (headers_arrive c Ht) as (hs & Hs & Ha). exists hs. split; [|done].
  unfold deliver_register. cbn [client_register fst post_auth post_url post_json]. rewrite Hs, routed_register by done. done.
Qed.

Lemma heartbeat_delivered c id bw st :
  reaches c → plain_segment id = true →
  ∃ hs, deliver_heartbeat (heartbeat_turn c id bw st).1.1 =
      Some (PostHeartbeat hs id (json_heartbeat (heartbeat_payload bw st).1)) ∧
    authorize header_text hs (app_auth (token c)) = Ok tt.
Proof.
  intros [Hc Ht] Hid. destruct (headers_arrive c Ht) as (hs & Hs & Ha). exists hs. split; [|done].
  unfold heartbeat_turn. destruct (heartbeat_payload bw st) as [hb st']. cbn [fst].
  unfold deliver_heartbeat. cbn [client_heartbeat fst post_auth post_url post_json].
  rewrite Hs, routed_heartbeat by done. done.
Qed.

Lemma select_delivered c : reaches c → deliver_select c = Some PostSelect.
Proof.
  intros [Hc Ht]. destruct (headers_arrive c Ht) as (hs & Hs & _). unfold deliver_select.
  rewrite Hs, routed_select by done. done.
Qed.
End delivered.

(** Operations that leave the weights alone. *)
Section frame.
Context {R : Type} `{RL : RepositoryLaws R}.

Abbreviation S := (ControlPlaneService R).

Definition keeps_weights {A} (c : M S A) : Prop := ∀ s, sv_weights (c s).2 = sv_weights s.

Lemma keeps_bind {A B} (c : M S A) (k : A → M S B) :
  keeps_weights c → (∀ a, keeps_weights (k a)) → keeps_weights (m_bind c k).
Proof.
  intros Hc Hk s. specialize (Hc s). unfold m_bind. destruct (c s) as [[a|e|] s1]; cbn in *; [|done|done].
  by rewrite Hk.
Qed.

Lemma keeps_repo {A} (c : M R A) : keeps_weights (on_repo c).
Proof. intros s. unfold on_repo. by destruct (c (sv_repo s)). Qed.

Lemma keeps_register req : keeps_weights (register req).
Proof.
  unfold register. repeat (apply keeps_bind; [apply keeps_repo|intros ?]). by case_match.
Qed.

Lemma keeps_heartbeat hb : keeps_weights (heartbeat hb).
Proof.
  unfold heartbeat. apply keeps_bind; [apply keeps_repo|]. intros [n|]; [|done]. unfold heartbeat_after.
  repeat (apply keeps_bind; [first [apply keeps_repo | done | case_match; [done|apply keeps_repo]]|intros ?]).
  by case_match.
Qed.
End frame.

(** Successful requests of the node agent. *)
Section serving.
Context {HM : Type} `{Http HM} (display : Error → string).
Context {R : Type} `{RL : RepositoryLaws R}.

Abbreviation S := (ControlPlaneService R).
Abbreviation serve := (router header_text display).

Lemma register_served auth h req n (s s' : S) :
  authorize header_text h auth = Ok tt → validate_register req = Ok tt → register req s = (Ok n, s') →
  serve auth (PostRegister h req) s = (Ok (NodeBody (from_node n (n_bandwidth_limit n))), s').
Proof.
  intros Ha Hv Hr. cbn [router]. unfold respond, register_node, m_bind, m_lift, call. by rewrite Ha, Hv, Hr.
Qed.

Lemma heartbeat_served auth h id hb u (s s' : S) :
  authorize header_text h auth = Ok tt → is_blank id = false →
  heartbeat (with_node_id hb id) s = (Ok u, s') →
  serve auth (PostHeartbeat h id hb) s = (Ok (HealthResponse "ok"), s').
Proof.
  intros Ha Hb Hr. cbn [router]. unfold respond, heartbeat_node, m_bind, m_lift, call, validate_heartbeat.
  cbn [hb_node_id with_node_id]. by rewrite Ha, Hb, Hr.
Qed.

Lemma register_runs req (s : S) :
  sinv s → sreliable s → RegisterRequest_ok req = true →
  ∃ t n s', n = registered req t (sview s !! rr_node_id req) ∧ register req s = (Ok n, s') ∧
    sinv s' ∧ sreliable s' ∧ sv_policy s' = sv_policy s ∧ sv_weights s' = sv_weights s ∧
    sview s' = <[rr_node_id req := n]> (sview s).
Proof.
  intros Hinv Hr Hok. pose proof (register_spec req s Hinv Hok) as HQ. unfold wp in HQ.
  pose proof (keeps_register req s) as Hw. destruct (register req s) as [[n|e|] s']; cbn in *;
    destruct HQ as (Hi & Hrel & Hp & HQ); [|by destruct HQ|done].
  destruct HQ as [-> Hv]. eexists _, _, s'. split_and!; auto.
Qed.

Lemma heartbeat_runs hb n (s : S) :
  sinv s → sreliable s → Heartbeat_ok hb = true → sview s !! hb_node_id hb = Some n →
  ∃ t t' u s', heartbeat hb s = (Ok u, s') ∧ sinv s' ∧ sreliable s' ∧ sv_weights s' = sv_weights s ∧
    sview s' = <[hb_node_id hb := beaten (sv_policy s) hb t t' n]> (sview s).
Proof.
  intros Hinv Hr Hok Hn. pose proof (heartbeat_spec hb s Hinv Hok) as HQ. unfold wp in HQ. rewrite Hn in HQ.
  pose proof (keeps_heartbeat hb s) as Hw. destruct (heartbeat hb s) as [[u|e|] s']; cbn in *;
    destruct HQ as (Hi & Hrel & Hp & HQ); [|by destruct HQ|done].
  destruct HQ as (t & t' & Hv). exists t, t', u, s'. split_and!; auto.
Qed.

(** Asking for a node when one is selectable. *)
Lemma select_runs auth (s : S) id n :
  sinv s → sreliable s → sv_weights s = ScoreWeights_default →
  sview s !! id = Some n → is_selectable n = true →
  ∃ m, select_node (select_answer (serve auth PostSelect s).1) =
         Ok {| rn_id := n_id m; rn_forward_address := n_address m |} ∧
    sview s !! n_id m = Some m ∧ is_selectable m = true ∧ f64_ge (dscore m) (dscore n) = true.
Proof.
  intros Hinv Hr Hw Hn Hsel. destruct (select_serves s Hinv Hr Hw) as [_ HQ].
  cbn [router]. unfold respond, api_select_node, call, m_bind, m_lift, m_ret.
  destruct (select s) as [[[m|]|e|] s']; cbn in HQ; [|by rewrite (HQ _ _ Hn) in Hsel|done|done].
  destruct HQ as (Hm & Hms & Hmax). exists m. cbn. split_and!; [done|done|done|by eapply Hmax].
Qed.
End serving.

(** A configuration the control plane accepts. *)
Record usable {HM : Type} `{Http HM} (cfg : NodeConfig) : Prop := {
  us_client : reaches (node_client cfg);
  us_id : plain_segment (cfg_node_id cfg) = true;
  us_address : is_blank (rp_address (register_payload cfg)) = false;
  us_max : (0 < cfg_max_connections cfg)%nat ∧ Z.of_nat (cfg_max_connections cfg) < U32_MOD;
  us_bandwidth : 0 < cfg_bandwidth_limit cfg < U64_MOD
}.

Lemma usable_id {HM : Type} `{Http HM} cfg : usable cfg → is_blank (cfg_node_id cfg) = false.
Proof.
  intros [_ Hid _ _ _]. destruct (plain_segment_inv _ Hid) as (Hs & Hne & _).
  pose proof (safe_not_blank _ "" Hs Hne) as Hb. by rewrite append_nil_r in Hb.
Qed.

Lemma usable_register {HM : Type} `{Http HM} cfg :
  usable cfg →
  validate_register (json_register (register_payload cfg)) = Ok tt ∧
  RegisterRequest_ok (json_register (register_payload cfg)) = true ∧
  rp_max_connections (register_payload cfg) = Z.of_nat (cfg_max_connections cfg).
Proof.
  intros Hus. pose proof (usable_id cfg Hus) as Hid. destruct Hus as [_ _ Hadr [Hm Hm32] Hb].
  assert (Hmax : rp_max_connections (register_payload cfg) = Z.of_nat (cfg_max_connections cfg))
    by (cbn; unfold as_u32; apply Z.mod_small; lia).
  unfold validate_register, RegisterRequest_ok, json_register. cbn [rr_node_id rr_address rr_max_connections rr_bandwidth_limit].
  rewrite Hmax, Hadr. cbn [rp_node_id rp_bandwidth_limit register_payload]. rewrite Hid.
  rewrite (proj2 (Z.eqb_neq _ _)) by lia. rewrite (proj2 (Z.eqb_neq (cfg_bandwidth_limit cfg) 0)) by lia.
  split_and!; [done| |done]. unfold is_u32, is_u64. lia.
Qed.

(** The statistics of the node agent fit their types. *)
Definition NodeStats_ok (st : NodeStats) : bool :=
  is_u64 (st_bytes_up st) && is_u64 (st_bytes_down st) && is_u32 (st_active st).

Lemma payload_ok {HM : Type} `{Http HM} cfg st id :
  usable cfg → NodeStats_ok st = true →
  Heartbeat_ok (with_node_id (json_heartbeat (heartbeat_payload (cfg_bandwidth_limit cfg) st).1) id) = true.
Proof.
  intros [_ _ _ _ Hb] [[Hu Hd]%andb_prop Ha]%andb_prop. unfold Heartbeat_ok. cbn. rewrite Hu, Hd, Ha.
  unfold is_u64, is_u32, U32_MOD in *. cbn. lia.
Qed.

(** ** Properties *)

(** (C2) A node joins the cluster. Take a control plane that does not know the
    node's id, with working storage, and a node agent with its token (printable,
    without spaces) and a usable configuration: a base URL without a path, an id
    that is a plain URL segment, a non-blank address, and positive slots and
    bandwidth within [u32] and [u64]. Its registration
    reaches the registration handler and its first heartbeat the heartbeat
    handler; both are accepted, and from then on the node is registered under its
    advertised address with the reported load, healthy if less than nine tenths of
    its slots are in use and degraded otherwise. A gateway, its base URL and token
    like the node's, that then asks for a node reaches the selection handler, and is given the address of a registered
    selectable node that scores at least as high as this one. *)
Theorem node_joins_cluster {HM : Type} `{HL : HttpLaws HM} `{RTL : RouterLaws} {R : Type} `{RL : RepositoryLaws R}
    (display : Error → string) (json : ApiBody → string) (cfg : NodeConfig) (cp : ControlPlaneConfig)
    (gateway : ControlPlaneClient) (repo : R) (st : NodeStats) :
  let '(s0, auth, _) := start_control_plane repo cp in
  let client := node_client cfg in
  let reg := client_register client (register_payload cfg) in
  let turn := heartbeat_turn client (cfg_node_id cfg) (cfg_bandwidth_limit cfg) st in
  repo_inv repo → repo_reliable repo → repo_view repo !! cfg_node_id cfg = None →
  cfg_api_token cfg = cp_api_token cp → usable cfg → NodeStats_ok st = true → reaches gateway →
  ∃ registration beat question,
    deliver_register reg.1 = Some registration ∧
    deliver_heartbeat turn.1.1 = Some beat ∧
    deliver_select gateway = Some question ∧
  let r1 := router header_text display auth registration s0 in
  let r2 := router header_text display auth beat r1.2 in
  reg.2 (node_answer json r1.1) = Ok tt ∧
  (∀ c, turn.2 (node_answer json r2.1) c = record_heartbeat c) ∧
  ∃ n m,
    sview r2.2 !! cfg_node_id cfg = Some n ∧
    n_address n = default (cfg_bind_addr cfg) (cfg_advertised_address cfg) ∧
    n_active_connections n = st_active st ∧
    n_state n = (if 9 * Z.of_nat (cfg_max_connections cfg) <=? 10 * st_active st then Degraded else Healthy) ∧
    select_node (select_answer (router header_text display auth question r2.2).1) =
      Ok {| rn_id := n_id m; rn_forward_address := n_address m |} ∧
    sview r2.2 !! n_id m = Some m ∧ is_selectable m = true ∧ f64_ge (dscore m) (dscore n) = true.
Proof.
  unfold start_control_plane. cbv zeta. intros Hinv Hrel Hnone Htok Hus Hst Hgw.
  set (s0 := ControlPlaneService_new repo HealthPolicy_default).
  destruct (usable_register cfg Hus) as (Hval & Hreq & Hmax). pose proof (usable_id cfg Hus) as Hblank.
  destruct (register_delivered (node_client cfg) (register_payload cfg) (us_client _ Hus)) as (h1 & Hd1 & Ha1 & _).
  destruct (heartbeat_delivered (node_client cfg) (cfg_node_id cfg) (cfg_bandwidth_limit cfg) st (us_client _ Hus) (us_id _ Hus))
    as (h2 & Hd2 & Ha2).
  change (token (node_client cfg)) with (cfg_api_token cfg) in Ha1, Ha2. rewrite Htok in Ha1, Ha2.
  eexists _, _, _. split; [exact Hd1|]. split; [exact Hd2|]. split; [by apply select_delivered|].
  destruct (register_runs (json_register (register_payload cfg)) s0) as (t & n1 & s1 & Hn1 & Hr1 & Hi1 & Hrel1 & Hp1 & Hw1 & Hv1);
    [done..|].
  rewrite (register_served display _ _ _ _ _ _ Ha1 Hval Hr1). cbn [fst snd].
  split; [done|].
  set (hb := json_heartbeat _). pose proof (payload_ok cfg st (cfg_node_id cfg) Hus Hst) as Hhb.
  assert (Hl1 : sview s1 !! cfg_node_id cfg = Some n1) by (rewrite Hv1; apply lookup_insert_eq).
  destruct (heartbeat_runs (with_node_id hb (cfg_node_id cfg)) n1 s1 Hi1 Hrel1 Hhb Hl1)
    as (t1 & t2 & u & s2 & Hr2 & Hi2 & Hrel2 & Hw2 & Hv2).
  rewrite (heartbeat_served display _ _ _ _ _ _ _ Ha2 Hblank Hr2). cbn [fst snd]. split; [done|].
  set (n := beaten _ _ _ _ _) in Hv2. cbn [hb_node_id with_node_id] in Hv2.
  assert (Hl2 : sview s2 !! cfg_node_id cfg = Some n) by (rewrite Hv2; apply lookup_insert_eq).
  change (sview s0 !! rr_node_id _) with (repo_view repo !! cfg_node_id cfg) in Hn1. rewrite Hnone in Hn1.
  assert (Hstate : n_state n = if 9 * Z.of_nat (cfg_max_connections cfg) <=? 10 * st_active st then Degraded else Healthy).
  { unfold n, beaten. rewrite Hp1, Hn1. cbn [n_state with_state with_heartbeat registered n_max_connections].
    change (sv_policy s0) with HealthPolicy_default. change (rr_max_connections _) with (rp_max_connections (register_payload cfg)).
    rewrite Hmax. unfold NodeStats_ok in Hst. apply andb_prop in Hst as [_ Hact%is_u32_iff].
    destruct (us_max _ Hus). rewrite reclassify_default by (done || lia). done. }
  assert (Hsel : is_selectable n = true) by (unfold is_selectable; rewrite Hstate; by destruct (_ <=? _)).
  destruct (select_runs display (app_auth (cp_api_token cp)) s2 (cfg_node_id cfg) n Hi2 Hrel2) as (m & Hm & Hmv & Hms & Hge);
    [by rewrite Hw2, Hw1|done|done|].
  exists n, m. split_and!; try done. unfold n, beaten. by rewrite Hn1.
Qed.

(** ** Witnesses *)
#[local] Existing Instance reference_env.
#[local] Existing Instance reference_http.
#[local] Existing Instance reference_router.

Definition sample_cp : ControlPlaneConfig :=
  {| cp_bind_addr := "0.0.0.0:8080"; cp_sqlite_path := "/data/registry.db";
     cp_offline_timeout := default_offline_timeout; cp_sweep_interval := default_sweep_interval;
     cp_api_token := None; cp_logging := LoggingConfig_default |}.

Lemma sample_usable : usable sample_config.
Proof.
  split; try done; cbn; unfold U32_MOD; lia.
Qed.

Lemma node_joins_cluster_witness :
  let reg := client_register (node_client sample_config) (register_payload sample_config) in
  let s0 := (start_control_plane empty_db sample_cp).1.1 in
  ∃ registration, deliver_register reg.1 = Some registration ∧
    reg.2 (node_answer (λ _, "") (router header_text (λ _, "") AuthNone registration s0).1) = Ok tt.
Proof.
  destruct (@node_joins_cluster _ reference_http reference_http_laws reference_router reference_router_laws
    Sqlite _ reference_laws (λ _, "") (λ _, "") sample_config sample_cp
    (ControlPlaneClient_new "http://control-plane:8080" None) empty_db (add_active 1 NodeStats_new))
    as (registration & beat & question & Hd & _ & _ & Hr & _).
  - apply map_Forall_empty.
  - done.
  - reflexivity.
  - reflexivity.
  - exact sample_usable.
  - reflexivity.
  - split; [split; reflexivity|exact I].
  - exists registration. split; [exact Hd|exact Hr].
Defined.
