(* ===== verification/Startup.v ===== *)
(** * From configuration files to running services

    [main] ([crates/rustproxy-bin/src/main.rs]) with the configurations read by
    [ConfigToml], the subscriber of [crates/common/src/logging.rs], and what
    follows for the services that are started: what their files say of them, how
    a bad file is reported, and how long a session of the gateway can last.
    [TomlText] provides the files of the witnesses. *)

From stdpp Require Import base tactics decidable numbers list strings gmap.
From Stdlib Require Import ZArith Lia.
From S2P Require Import Prelude RustStd Config Client SocketText SocketV6 ConfigToml TomlText.
From S2P Require Import Health Registry Service Api Session Gateway NodeAgent Http Routes Main Cluster Timed.

(** ** Logging *)

(** What [init] configures [tracing_subscriber::fmt] with. *)
Record subscriber (F : Type) : Type := mkSubscriber {
  sub_filter : F;
  sub_target : bool;
  sub_thread_ids : bool;
  sub_json : bool
}.
Arguments mkSubscriber {F}.
Arguments sub_filter {F}.
Arguments sub_json {F}.

Section logging.
(** [EnvFilter]: the filter of a directive, and the one of [RUST_LOG], which
    fails when the variable is not set or not a filter. *)
Context {F : Type} (env_filter : string → F) (try_from_default_env : option F).

(** [init]; setting the global subscriber panics if there is one. *)
Definition logging_init (level : LogLevel) (json : bool) : SM Empty_set (option (subscriber F)) unit := λ global,
  let filter := match try_from_default_env with
                | Some f => f
                | None => env_filter ("rustproxy=" +:+ LogLevel_as_str level)
                end in
  let base := {| sub_filter := filter; sub_target := true; sub_thread_ids := false; sub_json := json |} in
  match global with
  | Some _ => (Panic, global)
  | None => (Ok tt, Some base)
  end.

(** With [RUST_LOG] set the level of the command line and of the file is of no
    account; without it the command line wins over the file. *)
Lemma log_precedence args logging :
  let '(lv, js) := log_init args logging in
  ∃ sub, logging_init lv js None = (Ok tt, Some sub) ∧ sub_json sub = json logging ∧
    sub_filter sub = match try_from_default_env, sa_log_level args with
                     | Some f, _ => f
                     | None, Some l => env_filter ("rustproxy=" +:+ LogLevel_as_str l)
                     | None, None => env_filter ("rustproxy=" +:+ LogLevel_as_str (level logging))
                     end.
Proof.
  cbn. eexists. split; [done|]. split; [done|]. cbn. destruct try_from_default_env; [done|]. by destruct (sa_log_level args).
Qed.
End logging.

(** ** Background tasks *)

(** [tokio::time::interval] panics on a period of zero, in the task that calls
    it. *)
Definition interval (period : Z) : outcome Empty_set unit := if period =? 0 then Panic else Ok tt.

(** The first lines of the task of [spawn_health_sweep] and of
    [heartbeat_loop]. *)
Definition sweep_task (cfg : ControlPlaneConfig) : outcome Empty_set unit := interval (cp_sweep_interval cfg).
Definition heartbeat_task (cfg : NodeConfig) : outcome Empty_set unit := interval (cfg_heartbeat_interval cfg).

(** ** The database *)

(** [SqliteConnectOptions] and [SqlitePoolOptions], as far as they are set. *)
Record pool_options : Type := mkPoolOptions {
  po_filename : string;
  po_create_if_missing : bool;
  po_max_connections : nat
}.

Definition open_sqlite {R : Type} (connect_with : pool_options → outcome string R) (path : string) : outcome string R :=
  connect_with {| po_filename := path; po_create_if_missing := true; po_max_connections := 10 |}.

(** ** [main] *)
Section main.
Context {E V : Type} `{TL : TomlLaws E V}.
Context (read_to_string : string → outcome string string).
Context {R : Type} (connect_with : pool_options → outcome string R) (migrate : R → outcome string R).
Context (bind : string → outcome string unit).

Definition rustproxy (command : Command) : option (LogLevel * bool) * outcome MainError (launch R) :=
  main read_to_string (from_str GatewayConfig_fields) (from_str NodeConfig_fields)
    (from_str ControlPlaneConfig_fields) (open_sqlite connect_with) migrate bind command.

Lemma from_str_ok {A} (f : fields E V A) (P : list (string * V) → A → Prop) s a :
  (∀ t, NoDup t.*1 → deserialize f t = Ok a ↔ P t a) →
  from_str f s = Ok a ↔ ∃ t, document s = Ok t ∧ P t a.
Proof.
  intros Hf. unfold from_str. rewrite map_err_ok. split.
  - intros Hs. destruct (document s) as [t| |] eqn:Hd; cbn in Hs; [|done|done].
    exists t. split; [done|]. apply Hf; [by eapply law_document|done].
  - intros (t & Hd & Ht). rewrite Hd. cbn. apply Hf; [by eapply law_document|done].
Qed.

(** How a file that does not load is reported. *)
Definition config_refused (keys : list (string * (V → outcome E unit))) (req : list string) (path : string) (err : CommonError) : Prop :=
  (∃ d, read_to_string path = Err d ∧ err = ConfigError ("failed to read " +:+ path +:+ ": " +:+ d)) ∨
  ∃ raw e, read_to_string path = Ok raw ∧
    err = ConfigError ("failed to parse " +:+ path +:+ ": " +:+ display e) ∧
    (document raw = Err e ∨ ∃ t, document raw = Ok t ∧ refusal keys req t e).

Lemma load_refused {A} (f : fields E V A) keys req path err :
  (∀ t e, deserialize f t = Err e → refusal keys req t e) →
  load read_to_string (from_str f) path = Err err → config_refused keys req path err.
Proof.
  intros Hf. unfold load, from_str, config_refused.
  destruct (read_to_string path) as [raw|d|]; cbn; [|intros [= <-]; left; by exists d|done].
  intros Hl. right. exists raw. destruct (document raw) as [t|e|] eqn:Hd; cbn in Hl; [|injection Hl as <-|done].
  - destruct (deserialize f t) as [cfg|e|] eqn:Hde; cbn in Hl; [done|injection Hl as <-|done].
    exists e. split_and!; [done|done|]. right. exists t. auto.
  - exists e. auto.
Qed.

Lemma load_ok {A} (f : fields E V A) path cfg :
  load read_to_string (from_str f) path = Ok cfg ↔
  ∃ raw, read_to_string path = Ok raw ∧ from_str f raw = Ok cfg.
Proof.
  unfold load. destruct (read_to_string path) as [raw| |]; cbn; [|split; [done|by intros (? & ? & ?)]..].
  destruct (from_str f raw) as [c| |] eqn:Hf; cbn;
    (split; [intros ?; simplify_eq; by exists raw|intros (r' & [= <-] & ?); congruence]).
Qed.

(** [migrate] applies the migrations to the file named by the configuration, which
    is created if there is none. *)
Lemma main_migrates args lg repo :
  rustproxy (CmdMigrate args) = (lg, Ok (Migrated repo)) →
  ∃ raw t cfg pool, read_to_string (sa_config args) = Ok raw ∧ document raw = Ok t ∧
    control_plane_says (E := E) t cfg ∧
    connect_with {| po_filename := cp_sqlite_path cfg; po_create_if_missing := true; po_max_connections := 10 |} = Ok pool ∧
    migrate pool = Ok repo.
Proof.
  unfold rustproxy. cbn [main]. destruct (load _ _ _) as [cfg| |] eqn:Hl; [|done..]. intros [= <- Hm].
  apply load_ok in Hl as (raw & Hr & Hf).
  apply (from_str_ok _ _ _ _ (λ t, control_plane_exact t cfg)) in Hf as (t & Hd & Hs).
  unfold open_registry, open_sqlite in Hm. destruct (connect_with _) as [pool| |] eqn:Hp; cbn in Hm; [|done..].
  destruct (migrate pool) as [r| |] eqn:Hmg; cbn in Hm; [|done..]. injection Hm as ->. by exists raw, t, cfg, pool.
Qed.

(** ** What a file says *)
Lemma duration_ok v d : de_duration (E := E) v = Ok d → 0 <= d.
Proof.
  unfold de_duration. intros Hd. destruct (as_string v); cbn in Hd; [|done..].
  destruct (parse_duration a) eqn:Hp; cbn in Hd; [|done]. injection Hd as <-. by eapply law_duration.
Qed.

Lemma has_duration t k d0 d : 0 <= d0 → has (E := E) t k de_duration d0 d → 0 <= d.
Proof.
  unfold has, says. intros H0. destruct (entry k t); [apply duration_ok|]. by intros [= <-].
Qed.

Lemma gateway_timeouts t cfg :
  gateway_says (E := E) t cfg → 0 <= gw_connect_timeout cfg ∧ 0 <= gw_idle_timeout cfg.
Proof.
  intros (_ & _ & _ & _ & _ & _ & Hc & Hi & _). split; [by eapply has_duration in Hc|by eapply has_duration in Hi].
Qed.

Lemma main_gateway args lg ctx :
  rustproxy (CmdGateway args) = (lg, Ok (RunGateway ctx)) →
  ∃ raw t cfg, read_to_string (sa_config args) = Ok raw ∧ document raw = Ok t ∧ gateway_says (E := E) t cfg ∧
    ctx = start_gateway cfg.
Proof.
  unfold rustproxy. cbn [main]. destruct (load _ _ _) as [cfg| |] eqn:Hl; [|done..]. intros [= <- <-].
  apply load_ok in Hl as (raw & Hr & Hf).
  apply (from_str_ok _ _ _ _ (λ t, gateway_exact t cfg)) in Hf as (t & Hd & Hs). by exists raw, t, cfg.
Qed.

Lemma handshake_waits_le auth : 6 <= handshake_waits auth <= 12.
Proof. by destruct auth. Qed.
End main.

(** ** Properties *)

(** (C36) Configuration files are read as documented. The text of a control
    plane, gateway or node configuration is accepted exactly when it is a TOML
    document in which the required keys occur and every key of the struct that
    occurs has a value of its type; each field is then what its key says, or its
    default. The order of the keys and keys that are not fields make no
    difference. *)
Theorem configs_read_exactly {E V : Type} `{TL : TomlLaws E V} (text : string) :
  (∀ cfg, from_str (E := E) ControlPlaneConfig_fields text = Ok cfg ↔
     ∃ t, document text = Ok t ∧ control_plane_says (E := E) t cfg) ∧
  (∀ cfg, from_str (E := E) GatewayConfig_fields text = Ok cfg ↔
     ∃ t, document text = Ok t ∧ gateway_says (E := E) t cfg) ∧
  (∀ cfg, from_str (E := E) NodeConfig_fields text = Ok cfg ↔
     ∃ t, document text = Ok t ∧ node_says (E := E) t cfg).
Proof.
  split_and!; intros cfg; apply from_str_ok; intros t;
    [apply control_plane_exact|apply gateway_exact|apply node_exact].
Qed.

(** The files under [configs/]. *)
Definition shipped_control_plane : ControlPlaneConfig :=
  {| cp_bind_addr := "0.0.0.0:8080"; cp_sqlite_path := "./rustproxy.db"; cp_offline_timeout := from_secs 30;
     cp_sweep_interval := from_secs 5; cp_api_token := None; cp_logging := {| level := Info; json := false |} |}.
Definition shipped_gateway : GatewayConfig :=
  {| gw_bind_addr := "0.0.0.0:1080"; gw_control_plane_url := "http://127.0.0.1:8080"; gw_api_token := None;
     socks_username := None; socks_password := None; gw_max_connections := 1024; gw_connect_timeout := from_secs 10;
     gw_idle_timeout := from_secs 300; gw_metrics_bind_addr := None;
     gw_logging := {| level := Info; json := false |} |}.
Definition shipped_node : NodeConfig :=
  {| cfg_node_id := "node-1"; cfg_control_plane_url := "http://127.0.0.1:8080"; cfg_api_token := None;
     cfg_bind_addr := "127.0.0.1:20001"; cfg_advertised_address := None; cfg_bandwidth_limit := 10485760;
     cfg_max_connections := 128; cfg_heartbeat_interval := from_secs 5; cfg_upstream_timeout := from_secs 10;
     cfg_logging := {| level := Info; json := false |} |}.

Lemma configs_read_exactly_witness :
  (∃ t, document control_plane_toml = Ok t ∧ control_plane_says (E := terror) t shipped_control_plane) ∧
  (∃ t, document gateway_toml = Ok t ∧ gateway_says (E := terror) t shipped_gateway) ∧
  (∃ t, document node_toml = Ok t ∧ node_says (E := terror) t shipped_node).
Proof.
  split; [|split].
  - apply (proj1 (proj1 (configs_read_exactly (E := terror) (V := tvalue) control_plane_toml) shipped_control_plane)). vm_compute. reflexivity.
  - apply (proj1 (proj1 (proj2 (configs_read_exactly (E := terror) (V := tvalue) gateway_toml)) shipped_gateway)). vm_compute. reflexivity.
  - apply (proj1 (proj2 (proj2 (configs_read_exactly (E := terror) (V := tvalue) node_toml)) shipped_node)). vm_compute. reflexivity.
Defined.

(** The node of the shipped files can join their control plane. *)
Lemma shipped_node_usable :
  @usable _ reference_http shipped_node ∧ cfg_api_token shipped_node = cp_api_token shipped_control_plane.
Proof. split; [|done]. split; try done; cbn; unfold U32_MOD; lia. Qed.

(** A period of zero is accepted, and kills the task it is for. *)
Example zero_interval :
  ∃ cfg, from_str (E := terror) NodeConfig_fields (quoted "node_id = 'n'
control_plane_url = 'http://cp'
bind_addr = '[::1]:20001'
heartbeat_interval = '0s'") = Ok cfg ∧ cfg_bind_addr cfg = "[::1]:20001" ∧ heartbeat_task cfg = Panic.
Proof. eexists. split; [vm_compute; reflexivity|]. split; vm_compute; reflexivity. Qed.

(** (C37) A configuration that does not load is reported with its path, and with
    what is wrong: the error of the file system; the error of the TOML parser; the
    first entry whose value its field refuses, the error being the key and the
    reason of that refusal, and all fields before it having been decoded; or, all
    values being right, a required key that does not occur. *)
Theorem bad_configs_reported {E V : Type} `{Toml E V} (read_to_string : string → outcome string string)
    (path : string) (err : CommonError) :
  (load read_to_string (from_str (E := E) ControlPlaneConfig_fields) path = Err err →
   config_refused (E := E) read_to_string control_plane_keys ["bind_addr"; "sqlite_path"] path err) ∧
  (load read_to_string (from_str (E := E) GatewayConfig_fields) path = Err err →
   config_refused (E := E) read_to_string gateway_keys ["bind_addr"; "control_plane_url"] path err) ∧
  (load read_to_string (from_str (E := E) NodeConfig_fields) path = Err err →
   config_refused (E := E) read_to_string node_keys ["node_id"; "control_plane_url"; "bind_addr"] path err).
Proof.
  split_and!; apply load_refused; [apply control_plane_refused|apply gateway_refused|apply node_refused].
Qed.

(** The node's file given to the gateway, without its address; and a file with
    a duration that is none. *)
Definition no_address : string := quoted "control_plane_url = 'http://127.0.0.1:8080'
max_connections = 128".
Definition bad_duration : string := quoted "bind_addr = '127.0.0.1:1080'
idle_timeout = 'soon'
max_connections = 'many'
control_plane_url = 'http://127.0.0.1:8080'".

Lemma bad_configs_reported_witness :
  config_refused (E := terror) (λ _, Ok no_address) gateway_keys ["bind_addr"; "control_plane_url"] "gateway.toml"
    (ConfigError "failed to parse gateway.toml: missing field `bind_addr`") ∧
  ∃ err, load (λ _, Ok bad_duration) (from_str (E := terror) GatewayConfig_fields) "gateway.toml" = Err err ∧
    config_refused (E := terror) (λ _, Ok bad_duration) gateway_keys ["bind_addr"; "control_plane_url"] "gateway.toml" err.
Proof.
  split.
  - apply (proj1 (proj2 (bad_configs_reported (E := terror) (λ _, Ok no_address) "gateway.toml" _))).
    vm_compute. reflexivity.
  - eexists. split; [vm_compute; reflexivity|].
    apply (proj1 (proj2 (bad_configs_reported (E := terror) (λ _, Ok bad_duration) "gateway.toml" _))).
    vm_compute. reflexivity.
Defined.

(** (C17) From the file to the sessions: whatever file a gateway was started
    from, its sessions end, as [run_with_ctx] says, within the time its timeouts
    allow; if the file leaves the two timeouts to their defaults, no client is
    served for longer than 510 seconds. *)
Theorem started_gateway_bounded {E V : Type} `{TL : TomlLaws E V}
    (read_to_string : string → outcome string string) {R : Type} (connect_with : pool_options → outcome string R)
    (migrate : R → outcome string R) (bind : string → outcome string unit) (args : ServiceArgs)
    (lg : option (LogLevel * bool)) (ctx : GatewayContext) (EV : GatewayEnv) (s : gw_state) :
  rustproxy (E := E) read_to_string connect_with migrate bind (CmdGateway args) = (lg, Ok (RunGateway ctx)) →
  ∃ raw t cfg, read_to_string (sa_config args) = Ok raw ∧ document raw = Ok t ∧ gateway_says (E := E) t cfg ∧
  ctx = start_gateway cfg ∧ (∃ T, timed (timed_run_with_ctx ctx) s T (Gateway.run_with_ctx ctx s)) ∧
  ∀ T res, timed (timed_run_with_ctx ctx) s T res →
    res = Gateway.run_with_ctx ctx s ∧ T <= 21 * gw_connect_timeout cfg + gw_idle_timeout cfg ∧
    (entry "connect_timeout" t = None → entry "idle_timeout" t = None → T <= from_secs 510).
Proof.
  intros Hm. apply main_gateway in Hm as (raw & t & cfg & Hr & Hd & Hs & ->). exists raw, t, cfg.
  destruct (gateway_timeouts t cfg Hs) as [Hc Hi].
  pose proof (session_bounded _ _ s _ (gateway_erases (start_gateway cfg)) (gateway_within (start_gateway cfg) Hc Hi)) as [Hb Ht].
  split_and!; try done. intros T res HT. destruct (Hb T res HT) as [-> Hle].
  change (ctx_connect_timeout (start_gateway cfg)) with (gw_connect_timeout cfg) in Hle.
  change (ctx_idle_timeout (start_gateway cfg)) with (gw_idle_timeout cfg) in Hle.
  pose proof (handshake_waits_le (ctx_auth (start_gateway cfg))) as Hw.
  assert (HT' : T <= 21 * gw_connect_timeout cfg + gw_idle_timeout cfg) by nia.
  split_and!; [done|done|]. intros Hec Hei. destruct Hs as (_ & _ & _ & _ & _ & _ & Hct & Hit & _).
  unfold has, says in Hct, Hit. rewrite Hec in Hct. rewrite Hei in Hit. injection Hct as Hct. injection Hit as Hit.
  unfold from_secs in *. lia.
Qed.

(** A file with the required keys only. *)
Definition minimal_toml : string := quoted "bind_addr = '127.0.0.1:1080'
control_plane_url = 'http://127.0.0.1:8080'".
Definition minimal_gateway : GatewayConfig :=
  {| gw_bind_addr := "127.0.0.1:1080"; gw_control_plane_url := "http://127.0.0.1:8080"; gw_api_token := None;
     socks_username := None; socks_password := None; gw_max_connections := default_max_connections;
     gw_connect_timeout := default_connect_timeout; gw_idle_timeout := default_idle_timeout;
     gw_metrics_bind_addr := None; gw_logging := LoggingConfig_default |}.

Lemma started_gateway_bounded_witness :
  let env := sample_net sample_answer (Dialed (fresh_stream sample_node_bytes)) in
  let ctx := start_gateway minimal_gateway in
  let s := fresh_gw sample_client_bytes in
  ∃ T, timed (@timed_run_with_ctx env ctx) s T (@Gateway.run_with_ctx env ctx s) ∧ T <= from_secs 510.
Proof.
  destruct (started_gateway_bounded (E := terror) (λ _, Ok minimal_toml) (R := unit) (λ _, Ok tt) Ok (λ _, Ok tt)
    {| sa_config := "gateway.toml"; sa_log_level := None |} (Some (Info, false)) (start_gateway minimal_gateway)
    (sample_net sample_answer (Dialed (fresh_stream sample_node_bytes))) (fresh_gw sample_client_bytes))
    as (raw & t & cfg & Hr & Hd & _ & _ & [T HT] & Hb).
  - vm_compute. reflexivity.
  - injection Hr as <-. vm_compute in Hd. injection Hd as <-. exists T. split; [exact HT|].
    apply (Hb _ _ HT); reflexivity.
Defined.

(** (C34) A node that advertises no address is dialed where it listens: the
    address it registers, the text of the [bind_addr] it has read, is resolved by
    [TcpStream::connect] at a gateway to exactly the address the configuration
    file names, however that is written there, IPv6 included. *)
Theorem registered_address_dialed {E V : Type} `{TL : TomlLaws E V} (text : string) (cfg : NodeConfig)
    (resolve : string → Z → option (list SocketAddr)) :
  from_str (E := E) NodeConfig_fields text = Ok cfg → cfg_advertised_address cfg = None →
  ∃ t v s a, document text = Ok t ∧ entry "bind_addr" t = Some v ∧ as_string v = Ok s ∧
    parse_socket_addr s = Some a ∧ parse_socket_addr (cfg_bind_addr cfg) = Some a ∧
    to_socket_addrs resolve (rp_address (register_payload cfg)) = Some [a].
Proof.
  intros (t & Hd & Hs)%(from_str_ok _ _ _ _ (λ t, node_exact t cfg)) Hadv. destruct Hs as (_ & _ & _ & Hb & _).
  unfold needs, says in Hb. destruct (entry "bind_addr" t) as [v|] eqn:He; [|done]. unfold de_socket_addr in Hb.
  destruct (as_string v) as [s| |] eqn:Hv; cbn in Hb; [|done..].
  destruct (parse_socket_addr s) as [a|] eqn:Ha; cbn in Hb; [|done]. injection Hb as Hb.
  exists t, v, s, a. split_and!; [done..| |].
  - rewrite <- Hb. apply SocketAddr_roundtrip. by eapply parse_socket_addr_ok.
  - cbn. rewrite Hadv, <- Hb. by eapply canonical_text_dialed.
Qed.

Definition v6_node_toml : string := quoted "node_id = 'n'
control_plane_url = 'http://cp'
bind_addr = '[2001:DB8:0:0::0:1]:020001'".
Definition v6_node : NodeConfig :=
  {| cfg_node_id := "n"; cfg_control_plane_url := "http://cp"; cfg_api_token := None;
     cfg_bind_addr := "[2001:db8::1]:20001"; cfg_advertised_address := None;
     cfg_bandwidth_limit := default_bandwidth_limit; cfg_max_connections := default_node_max_connections;
     cfg_heartbeat_interval := default_heartbeat_interval; cfg_upstream_timeout := default_upstream_timeout;
     cfg_logging := LoggingConfig_default |}.

Lemma registered_address_dialed_witness :
  ∃ a, sa_port a = 20001 ∧ to_socket_addrs (λ _ _, None) "[2001:db8::1]:20001" = Some [a].
Proof.
  destruct (registered_address_dialed (E := terror) (V := tvalue) v6_node_toml v6_node (λ _ _, None))
    as (t & v & s & a & _ & _ & _ & _ & Hp & Hd); [vm_compute; reflexivity|reflexivity|].
  exists a. split; [|exact Hd]. vm_compute in Hp. injection Hp as <-. reflexivity.
Defined.
