(* ===== verification/NodeRun.v ===== *)
(** * The node agent from start to end

    [NodeServer::run] and [heartbeat_loop] of [crates/node/src/server.rs] as one
    transition system: the registration, the heartbeat task it spawns, the
    bind, the accept loop of [NodeAgent] and the final wait. Its trace is the
    list of requests sent to the control plane. *)

From stdpp Require Import base tactics decidable numbers list relations strings gmap.
From Stdlib Require Import ZArith Lia.
From S2P Require Import Prelude RustStd Config Client Accept F64 Model Health Bandwidth Routing Registry Service Api.
From S2P Require Import Session Gateway NodeHandler NodeAgent Http Routes Main Cluster.

(** Where [run] is; it ends with an error only if the address cannot be bound. *)
Inductive phase : Type := PRegister | PBind | PServing | PDraining | PReturned (error : option string).

(** The heartbeat task: not spawned, before the tick it skips, between ticks,
    waiting for the answer to a heartbeat, or ended. *)
Inductive beat : Type :=
| BNone
| BFirst
| BIdle
| BSending (judge : http_answer → NodeCounters → NodeCounters)
| BStopped.

Record agent : Type := mkAgent {
  ag_phase : phase;
  ag_server : node_server;
  ag_beat : beat;
  ag_counters : NodeCounters
}.

(** A request to the control plane: the registration with its answer, or a
    heartbeat. *)
Inductive posted : Type :=
| PostedRegister (p : http_post RegisterPayload) (answer : http_answer)
| PostedHeartbeat (p : http_post HeartbeatPayload).

Section run.
Context (cfg : NodeConfig).

Abbreviation client := (node_client cfg).

Definition agent_init : agent :=
  {| ag_phase := PRegister; ag_server := node_init cfg; ag_beat := BNone;
     ag_counters := mkNodeCounters 0 0 0 0 0 0 0 |}.

Definition with_phase (a : agent) (p : phase) : agent :=
  {| ag_phase := p; ag_server := ag_server a; ag_beat := ag_beat a; ag_counters := ag_counters a |}.
Definition with_beat (a : agent) (b : beat) : agent :=
  {| ag_phase := ag_phase a; ag_server := ag_server a; ag_beat := b; ag_counters := ag_counters a |}.
Definition with_server (a : agent) (s : node_server) : agent :=
  {| ag_phase := ag_phase a; ag_server := s; ag_beat := ag_beat a; ag_counters := ag_counters a |}.

Abbreviation accepts := (accept_step (add_active 1) (add_active (-1))).

(** One heartbeat: the statistics are read and reset when it is sent. *)
Definition turn (a : agent) :=
  heartbeat_turn client (cfg_node_id cfg) (cfg_bandwidth_limit cfg) (sv_shared (ag_server a)).
Definition with_shared (s : node_server) (st : NodeStats) : node_server :=
  {| sv_permits := sv_permits s; sv_shared := st; sv_conns := sv_conns s;
     sv_cancelled := sv_cancelled s; sv_accepting := sv_accepting s |}.

Inductive agent_step : agent → option posted → agent → Prop :=
| ar_register a answer :
    ag_phase a = PRegister →
    (* the result is only logged; then the heartbeat task is spawned *)
    agent_step a (Some (PostedRegister (client_register client (register_payload cfg)).1 answer))
      (with_beat (with_phase a PBind) BFirst)
| ar_bind a : ag_phase a = PBind → agent_step a None (with_phase a PServing)
| ar_bind_error a e :
    (* [?] returns, and the heartbeat task goes on *)
    ag_phase a = PBind → agent_step a None (with_phase a (PReturned (Some e)))
| ar_cancel a :
    sv_cancelled (ag_server a) = false →
    agent_step a None
      (with_server a {| sv_permits := sv_permits (ag_server a); sv_shared := sv_shared (ag_server a);
                        sv_conns := sv_conns (ag_server a); sv_cancelled := true;
                        sv_accepting := sv_accepting (ag_server a) |})
| ar_accept a s' :
    ag_phase a = PServing ∨ ag_phase a = PDraining → accepts (ag_server a) s' →
    agent_step a None (with_server a s')
| ar_break a :
    ag_phase a = PServing → sv_accepting (ag_server a) = false → agent_step a None (with_phase a PDraining)
| ar_return a (deadline_passed : bool) :
    ag_phase a = PDraining → node_drained (ag_server a) || deadline_passed = true →
    agent_step a None (with_beat (with_phase a (PReturned None)) BStopped)
| ar_first_tick a : ag_beat a = BFirst → agent_step a None (with_beat a BIdle)
| ar_tick a :
    ag_beat a = BIdle →
    agent_step a (Some (PostedHeartbeat (turn a).1.1))
      (with_beat (with_server a (with_shared (ag_server a) (turn a).1.2)) (BSending (turn a).2))
| ar_answered a judge answer :
    ag_beat a = BSending judge →
    agent_step a None
      {| ag_phase := ag_phase a; ag_server := ag_server a; ag_beat := BIdle;
         ag_counters := judge answer (ag_counters a) |}
| ar_beat_stop a :
    ag_beat a = BIdle → sv_cancelled (ag_server a) = true → agent_step a None (with_beat a BStopped).

Inductive agent_trace : list posted → agent → Prop :=
| at_init : agent_trace [] agent_init
| at_step tr a l a' : agent_trace tr a → agent_step a l a' → agent_trace (tr ++ option_list l) a'.

(** ** Lemmas *)

(** The accept loop of the agent is that of [NodeAgent], heartbeats included. *)
Lemma agent_server tr a : agent_trace tr a → server_reachable cfg (ag_server a).
Proof.
  induction 1 as [|tr a l a' _ IH Hs]; [constructor|].
  destruct Hs; try exact IH.
  - eapply sr_step; [exact IH|]. by apply ss_task, as_cancel.
  - eapply sr_step; [exact IH|]. by apply ss_task.
  - eapply sr_step; [exact IH|]. exact (ss_heartbeat cfg (ag_server a)).
Qed.

(** A heartbeat this agent sends: to its own URL, with its token, reporting no
    more sessions than it registered slots for. *)
Definition own_beat (p : http_post HeartbeatPayload) : Prop :=
  post_url p = heartbeat_url client (cfg_node_id cfg) ∧ post_auth p = authed client ∧
  0 <= hp_active_connections (post_json p) <= rp_max_connections (register_payload cfg) ∧
  hp_bytes_up (post_json p) = 0 ∧ hp_bytes_down (post_json p) = 0 ∧ hp_latency_ms (post_json p) = 0 ∧
  hp_available_bandwidth (post_json p) = cfg_bandwidth_limit cfg.

Lemma turn_own tr a :
  Z.of_nat (cfg_max_connections cfg) < U32_MOD → agent_trace tr a → own_beat (turn a).1.1.
Proof.
  intros Hmax Ht. pose proof (server_inv_reachable cfg _ Hmax (agent_server tr a Ht)) as Hinv.
  pose proof (server_inv_active _ _ Hinv) as Hact. destruct Hinv as [_ Ha [Hu Hd]].
  unfold own_beat, turn, heartbeat_turn. cbn. unfold as_u32. rewrite Z.mod_small by lia. split_and!; done || lia.
Qed.

Lemma trace_shape tr a :
  Z.of_nat (cfg_max_connections cfg) < U32_MOD → agent_trace tr a →
  (ag_phase a = PRegister ∧ ag_beat a = BNone ∧ tr = []) ∨
  (ag_phase a ≠ PRegister ∧ ag_beat a ≠ BNone ∧
   ∃ answer beats, tr = PostedRegister (client_register client (register_payload cfg)).1 answer :: (PostedHeartbeat <$> beats) ∧
     Forall own_beat beats).
Proof.
  intros Hmax Ht. induction Ht as [|tr a l a' Ht IH Hs]; [by left|].
  destruct IH as [(Hp & Hb & ->)|(Hp & Hb & answer & beats & -> & Hown)].
  - destruct Hs; try congruence; cbn [option_list app].
    + right. cbn. split_and!; [done|done|]. by exists answer, [].
    + by left.
    + destruct H as [H|H]; congruence.
  - right. destruct Hs; cbn [ag_phase ag_beat with_phase with_beat with_server option_list] in *; try congruence;
      rewrite ?app_nil_r; (split; [done||congruence|]); (split; [done||congruence|]); try (by exists answer, beats).
    exists answer, (beats ++ [(turn a).1.1]). split; [by rewrite fmap_app|].
    apply Forall_app_2; [done|]. constructor; [by eapply turn_own|constructor].
Qed.
End run.

(** ** At the control plane *)
Section registry.
Context {HM : Type} `{Http HM} `{Router}.
Context (display : Error → string).
Context {R : Type} `{RL : RepositoryLaws R} `{C : Chrono}.

Abbreviation S := (ControlPlaneService R).
Abbreviation event := (ApiRequest (HeaderMap := HM) + Z)%type.

(** The request the handler sees, for what the agent sent after registering. *)
Definition beat_request (p : posted) : option ApiRequest :=
  match p with
  | PostedHeartbeat p => deliver_heartbeat p
  | PostedRegister _ _ => None
  end.

(** An event that does not register node [id]. *)
Definition no_registration (id : string) (e : event) : Prop :=
  match e with inl (PostRegister _ req) => rr_node_id req ≠ id | _ => True end.

Lemma step_unknown auth id e (s : S) :
  sinv s → event_ok e = true → no_registration id e → sview s !! id = None →
  sinv (event_step header_text display auth s e) ∧ sview (event_step header_text display auth s e) !! id = None.
Proof.
  intros Hi Hok Hno Hid.
  assert (Hop : ∀ op, sv_op_ok op = true → (∀ req, op = SvRegister req → rr_node_id req ≠ id) →
    sinv (sv_step op s) ∧ sview (sv_step op s) !! id = None).
  { intros op Ho Hne. split; [by apply sv_step_evolves|].
    destruct (sview (sv_step op s) !! id) as [n|] eqn:En; [|done]. exfalso.
    destruct op as [req|hb| |k|k| |sp|now].
    1:{ pose proof (register_spec req s Hi Ho) as (_ & _ & _ & HQ). cbn [sv_step] in En. specialize (Hne req eq_refl).
        destruct (register req s).1 as [m|e'|]; [|destruct HQ as [_ [HQ|HQ]]|done].
        - destruct HQ as [_ HQ]. rewrite HQ, lookup_insert_ne in En by done. congruence.
        - congruence.
        - rewrite HQ in En. unfold spec_register in En. rewrite lookup_insert_ne in En by done. congruence. }
    all: destruct (step_inherits _ s Hi Ho) with (id := id) (n' := n) as (k' & Hk & _); [done|exact En|congruence]. }
  destruct e as [r|now]; cbn [event_step event_ok no_registration] in *.
  - pose proof (serve_refines header_text display auth r s) as Hs.
    destruct (guard header_text auth r) as [u|e|]; [|by rewrite Hs|done].
    rewrite Hs. apply Hop; [done|]. intros req Hr. destruct r; try discriminate Hr. by injection Hr as <-.
  - by apply Hop.
Qed.

Lemma run_unknown auth id es (s : S) :
  sinv s → Forall (λ e, event_ok e = true ∧ no_registration id e) es → sview s !! id = None →
  sview (events_run header_text display auth s es) !! id = None.
Proof.
  intros Hi Hes. revert s Hi. induction Hes as [|e es [Hok Hno] _ IH]; intros s Hi Hid; [done|].
  destruct (step_unknown auth id e s Hi Hok Hno Hid) as [Hi' Hid']. by apply IH.
Qed.
End registry.

Lemma beat_request_ok {HM : Type} `{Http HM} `{Router} cfg p r :
  own_beat cfg p → Z.of_nat (cfg_max_connections cfg) < U32_MOD → is_u64 (cfg_bandwidth_limit cfg) = true →
  beat_request (PostedHeartbeat p) = Some r →
  ∃ h id hb, r = PostHeartbeat h id hb ∧ Heartbeat_ok (with_node_id hb id) = true.
Proof.
  intros (_ & _ & Ha & Hu & Hd & Hl & Hb) Hmax H64 Hr. cbn in Hr. unfold deliver_heartbeat in Hr.
  destruct (send_headers _) as [headers|]; [|done]. cbn in Hr.
  destruct (routed _ _) as [[[] [|[k id] [|]]| |]|]; try discriminate Hr.
  injection Hr as <-. do 3 eexists. split; [done|]. unfold Heartbeat_ok. cbn. rewrite Hu, Hd, Hl, Hb, H64.
  assert (is_u32 (hp_active_connections (post_json p)) = true) as ->; [|done].
  cbn in Ha. unfold as_u32 in Ha. rewrite Z.mod_small in Ha by lia. unfold is_u32. lia.
Qed.

(** ** Properties *)

(** (C10) The life of a node agent whose [max_connections] is a [u32] (the payload
    casts it to that type), seen from the control plane: it first sends
    one registration with its configured id, address, slots and bandwidth, and
    after that, whatever the answer was and however its tasks interleave,
    nothing but heartbeats to its own URL with its token, each reporting at
    most the registered slots in use, and exactly the number of connections in
    the handler when it is sent. Its connections and statistics are, all along,
    those of the accept loop alone. *)
Theorem agent_registers_then_beats (cfg : NodeConfig) (tr : list posted) (a : agent) :
  is_u32 (Z.of_nat (cfg_max_connections cfg)) = true → agent_trace cfg tr a →
  server_reachable cfg (ag_server a) ∧
  (tr = [] ∨
   ∃ answer beats,
     tr = PostedRegister (mkPost (register_url (node_client cfg)) (authed (node_client cfg)) (register_payload cfg)) answer
          :: (PostedHeartbeat <$> beats) ∧
     Forall (own_beat cfg) beats) ∧
  ∀ p a', agent_step cfg a (Some (PostedHeartbeat p)) a' →
    hp_active_connections (post_json p) = Z.of_nat (sum_conns in_handler (sv_conns (ag_server a))).
Proof.
  intros [_ Hmax]%is_u32_iff Ht. split_and!.
  - by eapply agent_server.
  - destruct (trace_shape cfg tr a Hmax Ht) as [(_ & _ & ->)|(_ & _ & Hs)]; [by left|by right].
  - intros p a' Hs. inversion Hs; subst. by destruct (server_inv_reachable cfg _ Hmax (agent_server cfg tr a Ht)).
Qed.

(** (C11) A lost registration is never made good: if the registration of a node
    did not reach the control plane, the node stays unknown there and is never
    offered to a gateway, for as long as the agent runs, whatever the requests
    of others and the sweeps between its heartbeats are, and wherever the transport
    and the router take these, as long as nobody else registers it: heartbeats do
    not register a node. *)
Theorem lost_registration_is_final {HM : Type} `{Http HM} `{Router} {R : Type} `{RL : RepositoryLaws R} `{C : Chrono} (display : Error → string)
    (auth : Auth) (cfg : NodeConfig) (tr : list posted) (a : agent) (es : list (ApiRequest (HeaderMap := HM) + Z))
    (s : ControlPlaneService R) :
  is_u32 (Z.of_nat (cfg_max_connections cfg)) = true → is_u64 (cfg_bandwidth_limit cfg) = true →
  agent_trace cfg tr a →
  Forall (λ e, (∃ p r, p ∈ tr ∧ beat_request p = Some r ∧ e = inl r) ∨
               (event_ok e = true ∧ no_registration (cfg_node_id cfg) e)) es →
  sinv s → sview s !! cfg_node_id cfg = None →
  sview (events_run header_text display auth s es) !! cfg_node_id cfg = None.
Proof.
  intros [_ Hmax]%is_u32_iff H64 Ht Hes Hi Hid. apply run_unknown; [done| |done].
  eapply Forall_impl; [exact Hes|]. intros e [(p & r & Hp & Hr & ->)|He]; [|exact He].
  destruct p as [p ans|p]; [done|].
  destruct (trace_shape cfg tr a Hmax Ht) as [(_ & _ & ->)|(_ & _ & answer & beats & -> & Hown)];
    [by apply not_elem_of_nil in Hp|].
  apply elem_of_cons in Hp as [Hp|Hp]; [discriminate Hp|]. apply list_elem_of_fmap in Hp as (q & [= ->] & Hq).
  rewrite Forall_forall in Hown.
  destruct (beat_request_ok cfg q r (Hown q Hq) Hmax H64 Hr) as (h & id & hb & -> & Hok). by split.
Qed.

(** ** Witnesses *)
#[local] Existing Instance reference_env.
#[local] Existing Instance chrono_reference.
#[local] Existing Instance reference_http.
#[local] Existing Instance reference_router.

(** The registration is lost, and a heartbeat is sent. *)
Definition lost_trace : list posted :=
  [PostedRegister (client_register (node_client sample_config) (register_payload sample_config)).1 (Unreachable "refused");
   PostedHeartbeat (heartbeat_turn (node_client sample_config) "n1" default_bandwidth_limit NodeStats_new).1.1].

Lemma lost_trace_runs : ∃ a, agent_trace sample_config lost_trace a ∧ ag_phase a = PBind.
Proof.
  set (c := sample_config). set (a1 := with_beat (with_phase (agent_init c) PBind) BFirst).
  pose proof (at_step c _ _ _ _ (at_init c) (ar_register c (agent_init c) (Unreachable "refused") eq_refl)) as H1.
  pose proof (at_step c _ _ _ _ H1 (ar_first_tick c a1 eq_refl)) as H2.
  pose proof (at_step c _ _ _ _ H2 (ar_tick c (with_beat a1 BIdle) eq_refl)) as H3.
  eexists. split; [exact H3|done].
Qed.

Lemma agent_registers_then_beats_witness :
  ∃ a answer beats, server_reachable sample_config (ag_server a) ∧
    lost_trace = PostedRegister (mkPost "http://control-plane:8080/nodes/register" None (register_payload sample_config)) answer
                 :: (PostedHeartbeat <$> beats).
Proof.
  destruct lost_trace_runs as (a & Ht & _). exists a.
  destruct (agent_registers_then_beats sample_config lost_trace a eq_refl Ht) as (Hr & [H|(answer & beats & H & _)] & _);
    [discriminate H|]. exists answer, beats. split; [exact Hr|exact H].
Defined.

Lemma lost_registration_is_final_witness :
  @sview _ _ reference_laws (events_run header_text (λ _, "") AuthNone {| sv_repo := empty_db;
       sv_policy := HealthPolicy_default; sv_weights := ScoreWeights_default; sv_allocators := ∅; sv_heap := ∅;
       sv_gauges := ∅ |}
     (omap (λ p, inl <$> beat_request p) lost_trace ++ [inr 0; inl GetNodes])) !! "n1" = None.
Proof.
  destruct lost_trace_runs as (a & Ht & _).
  apply (@lost_registration_is_final _ reference_http reference_router Sqlite _ reference_laws chrono_reference (λ _, "") AuthNone sample_config
    lost_trace a).
  - reflexivity.
  - reflexivity.
  - exact Ht.
  - apply Forall_app. split; [|repeat constructor; right; split; done].
    constructor; [|constructor]. left.
    exists (PostedHeartbeat (heartbeat_turn (node_client sample_config) "n1" default_bandwidth_limit NodeStats_new).1.1).
    eexists. split_and!; [right; left|reflexivity|reflexivity].
  - apply map_Forall_empty.
  - reflexivity.
Defined.
